(* ===== verification/_CoqProject ===== *)
-Q . S2P
Prelude.v
PyData.v
PyTime.v
PyZone.v
PyDecimal.v
DecimalFacts.v
DecimalError.v
DecimalText.v
DecimalCounts.v
SubscriptionCadence.v
SubscriptionValues.v
SubscriptionRating.v
SubscriptionPeriods.v
SubscriptionAmount.v
SubscriptionText.v
SubscriptionTheorems.v
Money.v
MoneyAllocate.v
MoneyTheorems.v
ApprovalContracts.v
ApprovalPolicy.v
ApprovalStore.v
ApprovalService.v
ApprovalWithdrawal.v
ApprovalReads.v
ApprovalInvariant.v
ApprovalCommands.v
ApprovalWithdrawals.v
ApprovalReading.v
ApprovalReach.v
ApprovalExample.v
ApprovalValues.v
ApprovalTheorems.v
DeliveryRetry.v
DeliveryTheorems.v
DeviceLimiter.v
DeviceLocks.v
DeviceAcquire.v
DeviceExample.v
DeviceTheorems.v
InventoryValuation.v
InventoryTheorems.v
FinanceCalculation.v
FinanceTheorems.v
LearnExpression.v
LearnConditions.v
LearnEvaluate.v
LearnValidate.v
LearnLegacy.v
LearnSyntax.v
LearnSemantics.v
LearnRules.v
LearnFacts.v
LearnCycles.v
LearnFindCycles.v
LearnValidation.v
LearnLegacyRule.v
LearnExample.v
LearnTheorems.v
ConfigDocument.v
ConfigFields.v
ConfigSchema.v
ConfigMerge.v
ConfigLayers.v
ConfigDerive.v
ConfigDefaults.v
ConfigCompose.v
ConfigEvaluate.v
ConfigOrder.v
ConfigFrame.v
ConfigTies.v
ConfigLists.v
ConfigGroups.v
ConfigTheorems.v
ConfigFilling.v
ConfigLoosening.v
ConfigFuel.v
ConfigResults.v
ComposeExample.v
ComposeTheorems.v
