(* ===== verification/Prelude.v ===== *)
(** * dotmac_starter_mt: the decision cores, in Rocq

    The repository is a multi-tenant platform of some ninety packages. Most of
    each package is persistence (SQLAlchemy models, sessions, migrations) and
    web glue. What decides what the platform does are small deterministic
    cores that the persistence calls, and this development models cores of
    that kind, from their source, with the theorems that make them correct.

    ** Parts

    - _Shared_. [Prelude]: results ([Ok]/[Raise]), the stateful call [ST],
      list, option and string lemmas, the scope [py_scope], the hint database
      [py]. [PyData]: text, decoded JSON, [repr], [int(str)], [json.dumps],
      [sorted] with a key. [PyTime]: [uuid.UUID], [datetime]. [PyZone]: dates,
      datetimes of a zone. [PyDecimal]: [decimal] in its default context;
      [DecimalFacts] and [DecimalError] have the lemmas on its rounding and on
      how errors add up, [DecimalText] those on its text, and [DecimalCounts]
      those on decimals that count units of a place.
    - _Approvals_ ([src/packages/dotmac-approvals/src/dotmac_approvals/]).
      [ApprovalContracts] is [contracts.py]; [ApprovalPolicy] is [policy.py];
      [ApprovalStore] is [models.py] with the session; [ApprovalService] and
      [ApprovalReads] are the write and read sides of [service.py];
      [ApprovalWithdrawal] is its withdrawals, [outbox.py] and the stored
      function and triggers of [migrations/versions/ap_0003_withdrawals.py].
      The source writes each operation once per plane (tenant, platform); here
      an operation is written once over [Plane] and the two named surfaces are
      its instances.
    - _Delivery_ ([src/packages/dotmac-integration/src/dotmac_integration/]).
      [DeliveryRetry] is [policy.py] and [retry.py].
    - _Money_ ([src/packages/dotmac-kernel/src/dotmac_kernel/money.py]).
      [Money] is the module.
    - _Subscriptions_
      ([src/packages/dotmac-subscriptions/src/dotmac_subscriptions/]).
      [SubscriptionCadence] is [cadence.py] and [errors.py];
      [SubscriptionValues] is [values.py], with [scope_segment] of the kernel;
      [SubscriptionRating] is [engine.py], [lifecycle.py] and [vocabulary.py].
      Rating calls the cadence for units and factor, and the values for the
      amount and its fingerprint.
    - _Session limiter_
      ([src/packages/dotmac-device-cli/src/dotmac_device_cli/]). [DeviceLimiter]
      is [core/limiter.py]; [DeviceLocks] is the contract of a store of locks and
      the store in memory of [testing.py]. A caller runs against the contract,
      with the moves of the other owners between its calls.
    - _Inventory_
      ([src/packages/dotmac-inventory/src/dotmac_inventory/valuation.py]).
      [InventoryValuation] is the module, without the column sums of its native
      extension.
    - _Fixed assets_ ([src/packages/dotmac-finance/]). [FinanceCalculation] is
      [src/dotmac_finance/calculation.py] and, in its Module [Native], the
      extension [native/src/lib.rs] that it calls with numbers as text.
    - _Requirements_
      ([src/packages/dotmac-learning/src/dotmac_learning/requirements/]).
      [LearnExpression], [LearnConditions] (with [facts.py]), [LearnEvaluate],
      [LearnValidate] and [LearnLegacy] are the modules of those names.
    - _Configuration layers_
      ([src/packages/dotmac-config-layers/src/dotmac_config_layers/]).
      [ConfigDocument] is [document.py]; [ConfigFields] and [ConfigSchema] are
      [fields.py], the specifications of fields and the introspection of
      schemas; [ConfigMerge] is the [Merger] of [merge.py]; [ConfigLayers] is
      [layers.py], [exceptions.py] and the choice and order of layers and
      exceptions of [compose.py]; [ConfigDerive] is [derive.py];
      [ConfigDefaults] is [widening.py], the tree utilities of [merge.py] and
      the defaults of [compose.py]; [ConfigCompose] is
      [plugin.py] and the rest of [compose.py]; [ConfigEvaluate] is [drift.py]
      and [evaluate.py]. [compose] calls all of them in turn.

    The parts do not call each other in the source; each uses only the shared
    files.

    ** How the code is represented

    - A call that raises is a [result]; the exceptions of a component are its
      error type, with the message texts of the source.
    - A call that reads and writes state is an [ST] over that state: the
      [World] of a plane (tables, clock, drawn ids) for approvals, the
      parser's budget and the validator's issues for requirements, the [Merger]
      for configuration layers. A nested dict that the merger updates in place
      is an argument and a result of the call.
    - A table is the list of its rows in insertion order; the declared unique
      and check constraints guard [add] and [flush], and a violation raises
      [IntegrityError]. A command that raises leaves the tables it wrote in
      the state; that none does is a theorem (C3).
    - The clock and [uuid4] are streams of [Env], which also carries the
      dialect; the clock is not assumed monotone, and freshness of an id is a
      hypothesis where it matters (C5, C7).
    - Integers are Python's, hence [Z]. Fractions are binary64
      ([spec_float]), and decimals sign, coefficient and exponent ([decimal]),
      rounded to the twenty-eight digits of the context.

    ** Theorems

    - Approvals, C1-C10. [ApprovalInvariant] states what every reachable table
      satisfies; [ApprovalCommands] and [ApprovalWithdrawals] describe each
      command as one transition that preserves it; [ApprovalReading] shows the
      reads return under it; [ApprovalReach] closes it over runs.
      [ApprovalTheorems] draws the properties: quorum (C1), lifecycle (C2),
      errors (C3), isolation (C4), the exact acceptance condition and effect of
      a decision (C5, C6), offered actions (C7), the stored standing refines
      the derived one (C8), immutable revisions (C9), withdrawal (C10); and,
      without a number, that the trigger writes the event of the service, that
      a final request stays final, that it is withdrawn once, and that a replay
      opens nothing. [ApprovalValues], without a number: the evaluation, documents,
      pages and digests.
    - Money, C11-C12. [MoneyAllocate] bounds the rounding of a share and turns
      the bounds into whole units; [MoneyTheorems] states that allocation loses
      nothing (C11), how far a conversion is from the exact product (C12), and,
      without a number, that even splits lose nothing and that sums are exact or
      refused.
    - Subscriptions, C13-C18. [SubscriptionPeriods]: periods are ranges between
      boundaries, in order and without gaps, so a moment is in one (C13);
      a boundary keeps the local time of day (C14), and whole months are counted
      by anniversaries (C15). [SubscriptionAmount]: a factor is a share (C16) and
      an amount is the exact price up to rounding (C17). [SubscriptionText]: the
      text of a decimal (C18).
    - Delivery, C19-C20: the exact next state, termination; the file also has
      delays, construction, throttling and [Retry-After].
    - Session limiter, C21-C25. [DeviceAcquire] follows the locks of an owner
      through the calls of an acquisition; [DeviceTheorems]: a lease is an
      exclusive slot (C21), a refused caller holds nothing (C22), every call
      ends and is refused only after rounds of its own in which each slot was
      taken, the last past its deadline (C23),
      a device never has more sessions than slots (C24), the settings (C25); and,
      without a number, what a release gives back. [DeviceExample] runs callers
      against scripts of another owner.
    - Inventory, C26. [InventoryTheorems]: an issue as a cut of the layers; and,
      without a number, that a cut loses no stock and what an issue at the
      average leaves.
    - Fixed assets, C27-C29. [FinanceTheorems]: depreciation is a schedule on
      integers that stops at the residual value (C27); impairments and
      revaluations move exactly what they report (C28, C29); and, without a
      number, the gain of a disposal. The schedule, [reference_charge], is the
      specification; the text between the two languages is read back exactly.
    - Requirements, C30-C36. [LearnSemantics] relates evaluation to Kleene's
      logic (C30), [LearnRules] and [LearnFacts] show what growing facts do
      (C31), [LearnSyntax] the parser and the walk (C32, C33), then the
      cycle searches ([LearnFindCycles], C34; without a number
      [LearnCycles], a shortest cycle through a course), validation
      ([LearnValidation]; C35) and the compiled rule ([LearnLegacyRule];
      C36). [ConditionLaws] is the interface between the engine and the
      condition kinds: the engine's theorems are proved against it, and the
      built-in kinds discharge it.
    - Configuration layers, C37-C40. [ComposeTheorems], on the whole of
      [compose]: what exceptions can do without approval (C37), the order of
      the inputs (C38), what an ok module is (C39), and which drift is excused
      (C40). They rest on [ConfigLoosening] (what the widening check
      guarantees, and that it adds up over a sequence of exceptions),
      [ConfigFilling] (properties of the calls that fill in defaults, stated
      once for any property their steps keep: the class [FillClosed]) and
      [ConfigResults] (the steps of a composition taken apart).
      [ConfigTheorems], on its parts and without a number: equal ranks whatever
      the order of the layers, of scalars ([ConfigTies]) and of lists
      ([ConfigLists]), derived rules ordered or a cycle ([ConfigOrder]), other
      keys untouched ([ConfigFrame], [ConfigGroups]) and layers chosen in any
      order.

    ** Fuel

    Loops of the source that are not structural take fuel, and running out is
    an exception of its own or a missing value, which theorems exclude: [walk]
    takes the number of nodes; the breadth-first search the number of
    keys plus one, since each node enters the queue once, and its chain the
    number of parents ([LearnCycles]); the depth-first search one step per push
    and per pop of a node (C34). The parser recurses on the document. The visit
    of the derived rules takes their number, since its stack holds no name twice
    ([ConfigOrder]); the ancestors of a pointer take its length.
    The widening walk takes the sizes of the two documents, and the defaults
    the depth of the index plus two, since every nested call is on a smaller
    document or further down the index ([ConfigFuel]). Digits of a coefficient
    are counted with its binary logarithm, and its trailing zeros taken off with
    the count. The walk over the periods has the bound that the source gives it,
    and its error (C13). The loop of an acquisition takes a number of rounds:
    more than the readings of the clock before its deadline are enough (C23). The
    months of a declining balance take their number (C27).

    ** Parameters

    - [Pydantic], with [PydanticLaws]: [model_validate] of the condition
      models. The laws are what the models declare of their fields.
    - [JsonText]: [json.loads] on a document given as text.
    - [Runtime]: [hashlib.sha256] and [repr] of a float.
    - [IpText]: the texts [ipaddress] gives of networks and addresses; no law
      is assumed. [IpNetworks], with [IpNetworksLaws]: its networks and their
      containment.
    - [ParamsModels]: what pydantic says of the parameters of a module and of
      one value; no law is assumed. A module's invariants and claims, and its
      reading of observations ([Probe]).
    - [TzData], with [TzLaws]: the zone database, whose local time of an instant
      names that instant. [SecondsText], with [SecondsLaws]: the text of a
      float of seconds, exact below fifteen digits of microseconds.
    - [Blake2b], with [Blake2bLaws]: a digest of eight bytes. [LockStore], with
      [LockLaws]: the store of locks of the host, as its protocol and comments
      describe it; the store in memory keeps the laws. [Surroundings]: the
      clock, the jitter, and what the other owners do between the calls.
    - [parsedate_to_datetime] of [email.utils]; no law is assumed.
    - A product's own condition kinds: any [ConditionSpec]; its promises are
      [ConditionLaws].

    ** Not modelled

    - Approvals: row locks and concurrent transactions (a run is a sequence of
      commands, which the [FOR UPDATE] of the source enforces per request),
      row-level security, column widths, and the commit itself.
    - Delivery: the executor that stores what these functions decide.
    - Session limiter: an interrupt between two calls (a store or a sleep that
      raises is modelled), and a clock that raises.
    - Inventory: the native extension, and the services that store valuations.
    - Fixed assets: the flags of the decimal context, several trapped signals at
      once, a failure to allocate, and a context other than the default one; the
      service and its tables.
    - Requirements: Python's recursion limit, non-string keys of a document
      handed over already decoded, and the database queries that gather a
      learner's facts.
    - Configuration layers: a schema that contains itself, a rule of a plug-in
      that raises, and Python's recursion limit. A merger is dropped by its callers when a merge raises,
      so nothing is said of one that raised.
    - Subscriptions: the service, the treatments and the tables of the package,
      which store what the modelled modules decide; a [tzinfo] other than a
      fixed offset or a zone.
    - Text outside ASCII, except in literals.
    - Every other package: see the manifest. Next in the plan: the
      completeness of provenance, the dialogue of the device CLI, the decisions
      on treatments (subscriptions), and the lifecycles of ticketing and
      projects. *)

From stdpp Require Import base gmap strings pretty list sorting.
From Stdlib Require Import ZArith NArith Ascii.

(** ** Scope and notations of the development *)

Declare Scope py_scope.
Delimit Scope py_scope with py.
#[global] Open Scope py_scope.

Create HintDb py discriminated.
#[export] Hint Constants Opaque : py.
#[export] Hint Variables Transparent : py.

(** ** Results: a Python call either returns or raises *)

(** [result E A] is what a call leaves behind: a value, or an exception of
    the component's exception type [E]. *)
Inductive result (E A : Type) : Type :=
  | Ok (a : A)
  | Raise (e : E).
Arguments Ok {E A} a.
Arguments Raise {E A} e.

#[export] Instance result_ret {E} : MRet (result E) := λ A a, Ok a.
#[export] Instance result_bind {E} : MBind (result E) := λ A B f m,
  match m with Ok a => f a | Raise e => Raise e end.
#[export] Instance result_fmap {E} : FMap (result E) := λ A B f m,
  match m with Ok a => Ok (f a) | Raise e => Raise e end.

Definition is_ok {E A} (m : result E A) : bool :=
  match m with Ok _ => true | Raise _ => false end.

(** The conditional [raise]: [guard_raise c e] is [if c: raise e]. *)
Definition raise_if {E} (c : bool) (e : E) : result E unit :=
  if c then Raise e else Ok tt.

(** A list comprehension whose element expression may raise: evaluation stops
    at the first exception. *)
Fixpoint map_result {E A B} (f : A → result E B) (l : list A) : result E (list B) :=
  match l with
  | [] => Ok []
  | a :: l => b ← f a; bs ← map_result f l; Ok (b :: bs)
  end.

(** A loop that carries a state and may raise. *)
Fixpoint fold_result {E S A} (f : S → A → result E S) (s : S) (l : list A) : result E S :=
  match l with
  | [] => Ok s
  | a :: l => s ← f s a; fold_result f s l
  end.

(** [try: m except p: h], where [p] says which exceptions the clause
    names. *)
Definition try_except {E A} (m : result E A) (h : E → option (result E A)) : result E A :=
  match m with
  | Ok a => Ok a
  | Raise e => match h e with Some r => r | None => Raise e end
  end.

Section result_lemmas.
Context {E A B : Type}.
Implicit Types (m : result E A) (f : A → result E B).

Lemma result_bind_Ok m f b :
  m ≫= f = Ok b ↔ ∃ a, m = Ok a ∧ f a = Ok b.
Proof. destruct m; naive_solver. Qed.

Lemma result_bind_Raise m f e :
  m ≫= f = Raise e ↔ m = Raise e ∨ ∃ a, m = Ok a ∧ f a = Raise e.
Proof. destruct m; naive_solver. Qed.

Lemma raise_if_Ok (c : bool) (e : E) u : raise_if c e = Ok u ↔ c = false.
Proof. destruct c, u; unfold raise_if; naive_solver. Qed.

Lemma raise_if_Raise (c : bool) (e e' : E) :
  raise_if c e = Raise e' ↔ c = true ∧ e = e'.
Proof. destruct c; unfold raise_if; naive_solver. Qed.

Lemma is_ok_true m : is_ok m = true ↔ ∃ a, m = Ok a.
Proof. destruct m; naive_solver. Qed.

Lemma is_ok_false m : is_ok m = false ↔ ∃ e, m = Raise e.
Proof. destruct m; naive_solver. Qed.
End result_lemmas.

Section map_result_lemmas.
Context {E A B : Type}.

Lemma map_result_Ok (g : A → result E B) l k :
  map_result g l = Ok k ↔ Forall2 (λ a b, g a = Ok b) l k.
Proof.
  revert k. induction l as [|a l IH]; intros k; cbn [map_result].
  - split; [intros [= <-]; constructor | by inversion 1].
  - rewrite result_bind_Ok. setoid_rewrite result_bind_Ok. split.
    + intros (b & Hb & bs & Hbs & [= <-]). constructor; [done|by apply IH].
    + inversion 1 as [|? b ? bs ? Hbs]; subst. apply IH in Hbs. eauto 10.
Qed.
End map_result_lemmas.

(** What every step of a loop keeps, the loop keeps. *)
Lemma fold_result_inv {E S A} (R : relation S) `{!PreOrder R} (f : S → A → result E S) l : ∀ s s',
  (∀ s a s', a ∈ l → f s a = Ok s' → R s s') → fold_result f s l = Ok s' → R s s'.
Proof.
  induction l as [|a l IH]; intros s s' Hf; cbn [fold_result]; [by intros [= <-]|].
  intros (s1 & H1 & H2)%result_bind_Ok. etrans.
  - eapply Hf; [apply list_elem_of_here|exact H1].
  - apply IH; [|done]. intros s2 x s3 Hx. apply Hf. by right.
Qed.

Lemma ok_pair {W E A} (a a' : A) (w w' : W) : (Ok (E:=E) a, w) = (Ok a', w') → a = a' ∧ w = w'.
Proof. by intros [= -> ->]. Qed.

Lemma fold_result_keeps {E S A} (P : S → Prop) (f : S → A → result E S) l : ∀ s s',
  (∀ s a s', a ∈ l → P s → f s a = Ok s' → P s') → P s → fold_result f s l = Ok s' → P s'.
Proof.
  induction l as [|a l IH]; intros s s' Hf Hs; cbn [fold_result]; [by intros [= <-]|].
  intros (s1 & H1 & H2)%result_bind_Ok. eapply IH; [| |exact H2].
  - intros s2 x s3 Hx. apply Hf. by right.
  - eapply Hf; [apply list_elem_of_here|exact Hs|exact H1].
Qed.

(** Decompose the outcome of a sequence of calls. *)
Ltac result_inv :=
  repeat match goal with
  | H : Ok _ = Ok _ |- _ => injection H as H; try subst
  | H : Raise _ = Raise _ |- _ => injection H as H; try subst
  | H : Ok _ = Raise _ |- _ => discriminate H
  | H : Raise _ = Ok _ |- _ => discriminate H
  | H : mret _ = _ |- _ => unfold mret, result_ret in H
  | H : raise_if _ _ = Ok _ |- _ => apply raise_if_Ok in H
  | H : raise_if _ _ = Raise _ |- _ => apply raise_if_Raise in H as [H ?]; try subst
  | H : _ ≫= _ = Ok _ |- _ => apply result_bind_Ok in H as (? & ? & H)
  end.

(** ** Stateful calls *)

(** [ST W E A] is a call that reads and writes a world [W]. As in Python, an
    exception does not undo the writes made before it was raised. *)
Definition ST (W E A : Type) : Type := W → result E A * W.

#[export] Instance ST_ret {W E} : MRet (ST W E) := λ A a w, (Ok a, w).
#[export] Instance ST_bind {W E} : MBind (ST W E) := λ A B f m w,
  match m w with
  | (Ok a, w') => f a w'
  | (Raise e, w') => (Raise e, w')
  end.

Definition lift {W E A} (r : result E A) : ST W E A := λ w, (r, w).
Definition raise {W E A} (e : E) : ST W E A := λ w, (Raise e, w).
Definition gets {W E A} (f : W → A) : ST W E A := λ w, (Ok (f w), w).
Definition modify {W E} (f : W → W) : ST W E unit := λ w, (Ok tt, f w).

Section st_lemmas.
Context {W E : Type}.

Lemma ST_bind_run {A B} (m : ST W E A) (f : A → ST W E B) w r w' :
  (m ≫= f) w = (r, w') ↔
    (∃ a w1, m w = (Ok a, w1) ∧ f a w1 = (r, w')) ∨
    (∃ e, m w = (Raise e, w') ∧ r = Raise e).
Proof.
  unfold mbind, ST_bind. destruct (m w) as [[a|e] w1]; naive_solver.
Qed.

(** Running the first call of a sequence. *)
Lemma ST_step {A B} (m : ST W E A) (f : A → ST W E B) w a w1 :
  m w = (Ok a, w1) → (m ≫= f) w = f a w1.
Proof. unfold mbind, ST_bind. by intros ->. Qed.

Lemma ST_stop {A B} (m : ST W E A) (f : A → ST W E B) w e w1 :
  m w = (Raise e, w1) → (m ≫= f) w = (Raise e, w1).
Proof. unfold mbind, ST_bind. by intros ->. Qed.

Lemma lift_step {A B} (r : result E A) (f : A → ST W E B) w a :
  r = Ok a → (lift r ≫= f) w = f a w.
Proof. by intros ->. Qed.

Lemma ST_bind_Ok {A B} (m : ST W E A) (f : A → ST W E B) w b w' :
  (m ≫= f) w = (Ok b, w') ↔
    ∃ a w1, m w = (Ok a, w1) ∧ f a w1 = (Ok b, w').
Proof. rewrite ST_bind_run. naive_solver. Qed.

Lemma ST_bind_Raise {A B} (m : ST W E A) (f : A → ST W E B) w e w' :
  (m ≫= f) w = (Raise e, w') ↔
    m w = (Raise e, w') ∨
    ∃ a w1, m w = (Ok a, w1) ∧ f a w1 = (Raise e, w').
Proof. rewrite ST_bind_run. naive_solver. Qed.

Lemma lift_run {A} (r r' : result E A) (w w' : W) :
  lift r w = (r', w') ↔ r = r' ∧ w = w'.
Proof. unfold lift. naive_solver. Qed.

Lemma gets_run {A} (f : W → A) w (r : result E A) w' :
  gets f w = (r, w') ↔ r = Ok (f w) ∧ w = w'.
Proof. unfold gets. naive_solver. Qed.
End st_lemmas.

(** Decompose the run of a stateful call, one bind at a time. *)
Ltac run_inv_step :=
  match goal with
  | H : (_ ≫= _) _ = (Ok _, _) |- _ => apply ST_bind_Ok in H as (? & ? & ? & H)
  | H : lift _ _ = (_, _) |- _ => apply lift_run in H as [H <-]
  | H : gets _ _ = (_, _) |- _ => apply gets_run in H as [H <-]
  | H : raise _ _ = (_, _) |- _ => unfold raise in H; injection H as H <-
  | H : modify _ _ = (_, _) |- _ => unfold modify in H; injection H as H <-
  | H : mret _ _ = (_, _) |- _ => unfold mret, ST_ret in H; injection H as H <-
  end.
Ltac run_inv := repeat (run_inv_step; result_inv).

(** ** Rows and keys *)

Section list_lemmas.
Context {A K : Type}.
Implicit Types (l : list A) (key : A → K).

(** A selection on a unique key finds at most one row. *)
Lemma filter_key_unique (P : A → Prop) `{∀ x, Decision (P x)} key k l :
  NoDup (key <$> l) → (∀ x, P x → key x = k) →
  filter P l = [] ∨ ∃ x, filter P l = [x] ∧ x ∈ l ∧ P x.
Proof.
  intros Hnd Hkey.
  destruct (filter P l) as [|x [|y rest]] eqn:E; [by left| |exfalso].
  - right. exists x. split; [done|].
    assert (x ∈ filter P l) as [??]%list_elem_of_filter by (rewrite E; set_solver).
    done.
  - assert (Hx : ∀ z, z ∈ filter P l → key z = k).
    { intros z [Hz _]%list_elem_of_filter. by apply Hkey. }
    assert (Hsub : sublist (key <$> filter P l) (key <$> l)).
    { apply fmap_sublist, sublist_filter. }
    pose proof (sublist_NoDup _ _ Hnd Hsub) as Hnd'. clear Hnd. rename Hnd' into Hnd.
    rewrite E in Hnd, Hx. cbn in Hnd.
    rewrite (Hx x), (Hx y) in Hnd by set_solver.
    apply NoDup_cons in Hnd as [Hnd _]. set_solver.
Qed.

(** Two rows with one key are one row. *)
Lemma NoDup_key_eq key l x y :
  NoDup (key <$> l) → x ∈ l → y ∈ l → key x = key y → x = y.
Proof.
  intros Hnd (i & Hi)%list_elem_of_lookup (j & Hj)%list_elem_of_lookup Hk.
  assert (i = j); [|congruence].
  eapply (NoDup_lookup (key <$> l)); [done|..]; rewrite list_lookup_fmap;
    [by rewrite Hi|by rewrite Hj; simpl; f_equal].
Qed.

Lemma existsb_false (f : A → bool) l :
  existsb f l = false ↔ ∀ x, x ∈ l → f x = false.
Proof.
  induction l as [|y l IH]; simpl; [set_solver|].
  rewrite orb_false_iff, IH. setoid_rewrite elem_of_cons. naive_solver.
Qed.

Lemma existsb_true (f : A → bool) l :
  existsb f l = true ↔ ∃ x, x ∈ l ∧ f x = true.
Proof.
  induction l as [|y l IH]; simpl; [set_solver|].
  rewrite orb_true_iff, IH. setoid_rewrite elem_of_cons. naive_solver.
Qed.

(** A selection no row satisfies is empty. *)
Lemma filter_none (P : A → Prop) `{∀ x, Decision (P x)} l :
  (∀ x, x ∈ l → ¬ P x) → filter P l = [].
Proof.
  induction l as [|x l IH]; intros Hl; [done|].
  rewrite filter_cons_False by (apply Hl; set_solver).
  apply IH. intros y Hy. apply Hl. set_solver.
Qed.

(** Appending a row whose key is new keeps the key unique. *)
Lemma NoDup_key_snoc key l x :
  NoDup (key <$> l) → (∀ y, y ∈ l → key y ≠ key x) → NoDup (key <$> (l ++ [x])).
Proof.
  intros Hnd Hnew. rewrite fmap_app. apply NoDup_app. split_and!.
  - done.
  - intros k (y & -> & Hy)%list_elem_of_fmap. simpl.
    rewrite list_elem_of_singleton. by apply Hnew.
  - apply NoDup_singleton.
Qed.
End list_lemmas.

(** Turn the boolean tests of the code into propositions. *)
Ltac bool_to_prop :=
  repeat match goal with
  | H : andb _ _ = true |- _ => apply andb_true_iff in H as [? ?]
  | H : orb _ _ = false |- _ => apply orb_false_iff in H as [? ?]
  | H : negb _ = true |- _ => apply negb_true_iff in H
  | H : negb _ = false |- _ => apply negb_false_iff in H
  | H : bool_decide _ = true |- _ => apply bool_decide_eq_true in H
  | H : bool_decide _ = false |- _ => apply bool_decide_eq_false in H
  | H : String.eqb _ _ = true |- _ => apply String.eqb_eq in H
  | H : String.eqb _ _ = false |- _ => apply String.eqb_neq in H
  | H : Z.ltb _ _ = true |- _ => apply Z.ltb_lt in H
  | H : Z.ltb _ _ = false |- _ => apply Z.ltb_ge in H
  | H : Z.leb _ _ = true |- _ => apply Z.leb_le in H
  | H : Z.leb _ _ = false |- _ => apply Z.leb_gt in H
  | H : Z.eqb _ _ = true |- _ => apply Z.eqb_eq in H
  | H : Z.eqb _ _ = false |- _ => apply Z.eqb_neq in H
  | H : existsb _ _ = false |- _ => rewrite existsb_false in H
  | H : ¬ (_ ≠ _) |- _ => apply dec_stable in H
  end.
