(* ===== verification/PyData.v ===== *)
(** * The Python values the components exchange

    Text, JSON documents, UUIDs and datetimes, with the operations of the
    language and its standard library that the modelled code applies to them
    ([str.strip], substring tests, [repr], [int], [str] and
    [bool] of a decoded JSON value, [json.dumps], [str(uuid)], aware datetime
    comparison, [astimezone(UTC)] and [isoformat]).

    [sorted] and [list.sort] with a key are a stable insertion sort on a boolean
    order, the lexicographic one for tuples; what makes a sort independent of the
    order of its input follows.

    A Python [str] is a [string] of ASCII characters; the literals of the
    source that hold other characters (the dash of the error messages) are
    their UTF-8 bytes. *)

From S2P Require Import Prelude.
From stdpp Require Import base gmap strings pretty list sorting.
From Stdlib Require Import ZArith NArith Ascii SpecFloat.

(** ** Text *)

(** ASCII white space as [str.strip] sees it: 9-13 and 28-32. *)
Definition is_space (c : ascii) : bool :=
  let n := N_of_ascii c in
  ((9 <=? n) && (n <=? 13) || (28 <=? n) && (n <=? 32))%N.

Fixpoint lstrip (s : string) : string :=
  match s with
  | String c s' => if is_space c then lstrip s' else s
  | EmptyString => EmptyString
  end.

Definition strip (s : string) : string :=
  String.rev (lstrip (String.rev (lstrip s))).

(** [s.rstrip(c)]. *)
Definition rstrip_char (c : ascii) (s : string) : string :=
  String.rev ((fix go s := match s with
    | String d s' => if Ascii.eqb d c then go s' else s
    | EmptyString => EmptyString
    end) (String.rev s)).

(** [bool(s)]. *)
Definition str_truthy (s : string) : bool :=
  match s with EmptyString => false | _ => true end.

Fixpoint startswith (prefix s : string) : bool :=
  match prefix, s with
  | EmptyString, _ => true
  | String a p, String b s => Ascii.eqb a b && startswith p s
  | String _ _, EmptyString => false
  end.

(** [sub in s]. *)
Fixpoint str_contains (sub s : string) : bool :=
  startswith sub s ||
  match s with EmptyString => false | String _ s' => str_contains sub s' end.

(** [s[n:]]. *)
Fixpoint str_drop (n : nat) (s : string) : string :=
  match n, s with
  | O, _ => s
  | S n, String _ s => str_drop n s
  | S _, EmptyString => EmptyString
  end.

(** [s[:n]]. *)
Fixpoint str_take (n : nat) (s : string) : string :=
  match n, s with
  | O, _ => EmptyString
  | S n, String c s => String c (str_take n s)
  | S _, EmptyString => EmptyString
  end.

Definition str_len (s : string) : Z := Z.of_nat (String.length s).

(** [s.count(c)] for one character. *)
Fixpoint count_char (c : ascii) (s : string) : nat :=
  match s with
  | EmptyString => 0
  | String d s' => (if Ascii.eqb c d then 1 else 0) + count_char c s'
  end.

Fixpoint str_all (p : ascii → bool) (s : string) : bool :=
  match s with
  | EmptyString => true
  | String c s' => p c && str_all p s'
  end.

(** [s.lower()], [s.upper()] and [s.isalpha()]. *)
Definition lower_char (c : ascii) : ascii :=
  let n := N_of_ascii c in
  if ((65 <=? n) && (n <=? 90))%N then ascii_of_N (n + 32) else c.
Fixpoint str_lower (s : string) : string :=
  match s with EmptyString => EmptyString | String c s => String (lower_char c) (str_lower s) end.
Definition is_upper_char (c : ascii) : bool := let n := N_of_ascii c in ((65 <=? n) && (n <=? 90))%N.
Definition is_lower_char (c : ascii) : bool := let n := N_of_ascii c in ((97 <=? n) && (n <=? 122))%N.
Definition upper_char (c : ascii) : ascii := if is_lower_char c then ascii_of_N (N_of_ascii c - 32) else c.
Fixpoint str_upper (s : string) : string :=
  match s with EmptyString => EmptyString | String c s => String (upper_char c) (str_upper s) end.
Definition str_isalpha (s : string) : bool :=
  str_truthy s && str_all (λ c, is_upper_char c || is_lower_char c) s.

(** [sep.join(parts)]. *)
Fixpoint str_join (sep : string) (parts : list string) : string :=
  match parts with
  | [] => ""
  | [p] => p
  | p :: ps => p +:+ sep +:+ str_join sep ps
  end.

Definition quote_char : ascii := "034".
Definition apos_char : ascii := "'".
Definition backslash_char : ascii := "\".

Definition hex_char (n : N) : ascii :=
  if (n <? 10)%N then ascii_of_N (48 + n) else ascii_of_N (87 + n).

(** The low [w] hexadecimal digits of [n], lower case, most significant first:
    the [%0wx] format for [n < 16^w]. *)
Fixpoint hex_digits (w : nat) (n : N) : string :=
  match w with
  | O => EmptyString
  | S w => hex_digits w (n / 16) +:+ String (hex_char (n mod 16)) EmptyString
  end.

(** Decimal digits of a non-negative number, padded with zeros to width [w]. *)
Fixpoint zeros (n : nat) : string :=
  match n with O => EmptyString | S n => String "0" (zeros n) end.
Definition zpad (w : nat) (z : Z) : string :=
  let s := pretty z in zeros (w - String.length s) +:+ s.

(** [repr(s)] for ASCII text: the quote that avoids an escape, then the
    escapes of the unprintable characters. *)
Definition repr_char (q c : ascii) : string :=
  let n := N_of_ascii c in
  if Ascii.eqb c q || Ascii.eqb c backslash_char then
    String backslash_char (String c "")
  else if (n =? 9)%N then "\t" else if (n =? 10)%N then "\n"
  else if (n =? 13)%N then "\r"
  else if ((n <? 32) || (n =? 127))%N then "\x" +:+ hex_digits 2 n
  else String c "".
Fixpoint str_flat_map (f : ascii → string) (s : string) : string :=
  match s with
  | EmptyString => EmptyString
  | String c s => f c +:+ str_flat_map f s
  end.
Definition py_repr_str (s : string) : string :=
  let q := if str_contains (String apos_char "") s &&
              negb (str_contains (String quote_char "") s)
           then quote_char else apos_char in
  String q (str_flat_map (repr_char q) s +:+ String q "").

(** [int(s)]: white space around, an optional sign, decimal digits with single
    underscores between them. *)
Definition digit_val (c : ascii) : option Z :=
  let n := Z.of_N (N_of_ascii c) in
  if ((48 <=? n) && (n <=? 57))%Z then Some (n - 48)%Z else None.
Fixpoint digits_val (acc : Z) (after_digit : bool) (s : string) : option Z :=
  match s with
  | EmptyString => if after_digit then Some acc else None
  | String c s =>
      if Ascii.eqb c "_" then (if after_digit then digits_val acc false s else None)
      else match digit_val c with
           | Some d => digits_val (10 * acc + d) true s
           | None => None
           end
  end.
Definition int_of_str (s : string) : option Z :=
  match strip s with
  | String "+" s => digits_val 0 false s
  | String "-" s => Z.opp <$> digits_val 0 false s
  | s => digits_val 0 false s
  end.

Example int_of_str_1 : int_of_str " -1_20 " = Some (-120)%Z.
Proof. reflexivity. Qed.
Example int_of_str_2 : int_of_str "1__2" = None.
Proof. reflexivity. Qed.

(** ** JSON documents *)

(** A decoded JSON value. An object keeps the insertion order of its keys, as
    a [dict] does; a number is an [int] or a binary64 [float]. *)
Inductive json : Type :=
  | JNull
  | JBool (b : bool)
  | JInt (z : Z)
  | JFloat (f : spec_float)
  | JStr (s : string)
  | JList (l : list json)
  | JObj (fields : list (string * json)).

(** Induction through the lists of a document. *)
Section json_ind.
Context (P : json → Prop).
Context (Hnull : P JNull) (Hbool : ∀ b, P (JBool b)) (Hint : ∀ z, P (JInt z)).
Context (Hfloat : ∀ f, P (JFloat f)) (Hstr : ∀ s, P (JStr s)).
Context (Hlist : ∀ l, Forall P l → P (JList l)).
Context (Hobj : ∀ fs, Forall (λ kv, P kv.2) fs → P (JObj fs)).

Fixpoint json_nested_ind (j : json) : P j :=
  match j with
  | JNull => Hnull
  | JBool b => Hbool b
  | JInt z => Hint z
  | JFloat f => Hfloat f
  | JStr s => Hstr s
  | JList l => Hlist l
      ((fix go l := match l return Forall P l with
         | [] => Forall_nil_2 _
         | x :: l => Forall_cons_2 _ _ _ (json_nested_ind x) (go l)
         end) l)
  | JObj fs => Hobj fs
      ((fix go fs := match fs return Forall (λ kv, P kv.2) fs with
         | [] => Forall_nil_2 _
         | kv :: fs => Forall_cons_2 _ _ _ (json_nested_ind kv.2) (go fs)
         end) fs)
  end.
End json_ind.

Fixpoint assoc_get {A} (k : string) (l : list (string * A)) : option A :=
  match l with
  | [] => None
  | (k', a) :: l => if String.eqb k k' then Some a else assoc_get k l
  end.

(** [bool(x)] of a decoded value. *)
Definition py_truthy (j : json) : bool :=
  match j with
  | JNull => false
  | JBool b => b
  | JInt z => negb (z =? 0)%Z
  | JFloat (S754_zero _) => false
  | JFloat _ => true
  | JStr s => str_truthy s
  | JList l => match l with [] => false | _ => true end
  | JObj fs => match fs with [] => false | _ => true end
  end.

Definition opt_truthy (j : option json) : bool :=
  match j with Some j => py_truthy j | None => false end.

(** Two functions of the interpreter the development does not define:
    [float.__repr__] (the shortest decimal that reads back as the float) and
    the hexadecimal SHA-256 of a text's UTF-8 bytes. *)
Class Runtime : Type := {
  float_repr : spec_float → string;
  sha256_hexdigest : string → string;
}.

Section printing.
Context `{Runtime}.

Fixpoint py_repr (j : json) : string :=
  match j with
  | JNull => "None"
  | JBool b => if b then "True" else "False"
  | JInt z => pretty z
  | JFloat f => float_repr f
  | JStr s => py_repr_str s
  | JList l => "[" +:+ str_join ", " (map py_repr l) +:+ "]"
  | JObj fs =>
      "{" +:+ str_join ", "
        (map (λ kv, py_repr_str kv.1 +:+ ": " +:+ py_repr kv.2) fs) +:+ "}"
  end.

(** [str(x)]: a string is itself, anything else its [repr]. *)
Definition py_str (j : json) : string :=
  match j with JStr s => s | j => py_repr j end.

(** The string literal of [json.dumps] with [ensure_ascii]. *)
Definition json_char (c : ascii) : string :=
  let n := N_of_ascii c in
  if Ascii.eqb c quote_char || Ascii.eqb c backslash_char then
    String backslash_char (String c "")
  else if (n =? 8)%N then "\b" else if (n =? 9)%N then "\t"
  else if (n =? 10)%N then "\n" else if (n =? 12)%N then "\f"
  else if (n =? 13)%N then "\r"
  else if ((n <? 32) || (126 <? n))%N then "\u" +:+ hex_digits 4 n
  else String c "".
Definition json_str (s : string) : string :=
  String quote_char (str_flat_map json_char s +:+ String quote_char "").

(** Keys in code point order, as [sort_keys=True] puts them. *)
Fixpoint insert_key {A} (kv : string * A) (l : list (string * A)) :=
  match l with
  | [] => [kv]
  | kv' :: l' => if String.leb kv.1 kv'.1 then kv :: l else kv' :: insert_key kv l'
  end.
Definition sort_keys {A} (l : list (string * A)) : list (string * A) :=
  foldr insert_key [] l.

(** [json.dumps(x, sort_keys=True, separators=(",", ":"))]. *)
Fixpoint json_dumps (j : json) : string :=
  match j with
  | JNull => "null"
  | JBool b => if b then "true" else "false"
  | JInt z => pretty z
  | JFloat f => float_repr f
  | JStr s => json_str s
  | JList l => "[" +:+ str_join "," (map json_dumps l) +:+ "]"
  | JObj fs =>
      "{" +:+ str_join ","
        (map (λ kv : string * string, json_str kv.1 +:+ ":" +:+ kv.2)
           (sort_keys (map (λ kv, (kv.1, json_dumps kv.2)) fs))) +:+ "}"
  end.
End printing.

(** A runtime for concrete runs. *)
Definition toy_runtime : Runtime := {|
  float_repr _ := "0.0";
  sha256_hexdigest s := hex_digits 64 (N.of_nat (String.length s))
|}.

Example json_dumps_1 :
  @json_dumps toy_runtime (JObj [("b", JInt 1); ("a", JList [JBool true; JNull])])
  = String "{" (String quote_char ("a" +:+ String quote_char
     (":[true,null]," +:+ String quote_char ("b" +:+ String quote_char ":1}")))).
Proof. reflexivity. Qed.

(** ** Texts, appended *)

Lemma string_app_nil_r a : a +:+ "" = a.
Proof. induction a as [|c a IH]; [done|]. change (String c (a +:+ "") = String c a). by rewrite IH. Qed.

Lemma str_all_app p a b : str_all p (a +:+ b) = str_all p a && str_all p b.
Proof.
  induction a as [|c a IH]; [done|]. change (p c && str_all p (a +:+ b) = p c && str_all p a && str_all p b).
  by rewrite IH, andb_assoc.
Qed.

Section sorting.
Context {A : Type} (leb : A → A → bool).

Fixpoint insert_sorted (x : A) (l : list A) : list A :=
  match l with
  | [] => [x]
  | y :: l' => if leb x y then x :: l else y :: insert_sorted x l'
  end.

(** [sorted(l, key)], where [leb x y] is [key(x) <= key(y)]. *)
Definition py_sorted (l : list A) : list A := foldr insert_sorted [] l.

Lemma insert_sorted_perm x l : insert_sorted x l ≡ₚ x :: l.
Proof.
  induction l as [|y l IH]; [done|]. cbn [insert_sorted].
  destruct (leb x y); [done|]. rewrite IH. apply Permutation_swap.
Qed.

Lemma py_sorted_perm l : py_sorted l ≡ₚ l.
Proof.
  induction l as [|x l IH]; [done|]. cbn. by rewrite insert_sorted_perm, IH.
Qed.

Lemma elem_of_py_sorted x l : x ∈ py_sorted l ↔ x ∈ l.
Proof. by rewrite py_sorted_perm. Qed.

(** A total preorder, and the sort it gives. *)
Class TotalOrder : Prop := {
  leb_total x y : leb x y = true ∨ leb y x = true;
  leb_trans x y z : leb x y = true → leb y z = true → leb x z = true;
}.

Context `{!TotalOrder}.

Lemma insert_sorted_strongly x l :
  StronglySorted leb l → StronglySorted leb (insert_sorted x l).
Proof.
  induction 1 as [|y l Hs IH Hy]; cbn [insert_sorted]; [by repeat constructor|].
  destruct (leb x y) eqn:Hxy.
  - constructor; [by constructor|]. constructor; [by rewrite Hxy|].
    eapply Forall_impl; [exact Hy|]. intros z Hz%Is_true_true. apply Is_true_true.
    by eapply leb_trans.
  - constructor; [done|]. rewrite insert_sorted_perm. constructor; [|done].
    apply Is_true_true. destruct (leb_total x y); congruence.
Qed.

Lemma py_sorted_strongly l : StronglySorted leb (py_sorted l).
Proof. induction l; cbn; [constructor|by apply insert_sorted_strongly]. Qed.

(** The sort of a list in any order is the same list, when two elements that
    compare equal are one. *)
Lemma py_sorted_unique l k :
  l ≡ₚ k → (∀ x y, x ∈ l → y ∈ l → leb x y = true → leb y x = true → x = y) →
  py_sorted l = py_sorted k.
Proof.
  intros Hp Hanti. apply (StronglySorted_unique_strong leb).
  - intros x y Hx Hy Hxy%Is_true_true Hyx%Is_true_true.
    rewrite elem_of_py_sorted in Hx, Hy. rewrite <-Hp in Hy. by apply Hanti.
  - apply py_sorted_strongly.
  - apply py_sorted_strongly.
  - by rewrite !py_sorted_perm.
Qed.
End sorting.

Arguments TotalOrder {A} leb.

(** ** Orders *)

#[export] Instance Zleb_total : TotalOrder Z.leb.
Proof. split; intros *; rewrite !Z.leb_le; lia. Qed.

#[export] Instance string_leb_total : TotalOrder String.leb.
Proof.
  split.
  - apply String.leb_total.
  - intros x y z Hxy Hyz. apply Is_true_true in Hxy, Hyz. apply Is_true_true.
    change (String.le x z). by transitivity y.
Qed.

Lemma string_leb_refl s : String.leb s s = true.
Proof. destruct (String.leb_total s s); done. Qed.

(** The order of an attribute. *)
Definition leb_on {A B} (f : A → B) (leb : B → B → bool) (x y : A) : bool := leb (f x) (f y).

#[export] Instance leb_on_total {A B} (f : A → B) leb `{!TotalOrder leb} :
  TotalOrder (leb_on f leb).
Proof.
  split; unfold leb_on; intros *; [apply leb_total; done|].
  by apply (leb_trans leb).
Qed.

(** Two keys, the first deciding unless the elements agree on it. *)
Definition leb_then {A} (first second : A → A → bool) (x y : A) : bool :=
  first x y && (negb (first y x) || second x y).

#[export] Instance leb_then_total {A} (f g : A → A → bool)
  `{!TotalOrder f, !TotalOrder g} : TotalOrder (leb_then f g).
Proof.
  split; unfold leb_then.
  - intros x y. pose proof (leb_total f x y). pose proof (leb_total g x y).
    destruct (f x y), (f y x), (g x y), (g y x); naive_solver.
  - intros x y z. rewrite !andb_true_iff, !orb_true_iff, !negb_true_iff.
    intros [Hxy Hxy'] [Hyz Hyz']. split; [by eapply (leb_trans f)|].
    destruct (f z x) eqn:Hzx; [right|by left].
    assert (f y x = true) by (by eapply (leb_trans f)).
    assert (f z y = true) by (by eapply (leb_trans f)).
    destruct Hxy' as [?|Hxy'], Hyz' as [?|Hyz']; try congruence.
    by eapply (leb_trans g).
Qed.

Lemma leb_then_both {A} (f g : A → A → bool) x y :
  leb_then f g x y = true → leb_then f g y x = true →
  (f x y = true ∧ f y x = true) ∧ g x y = true ∧ g y x = true.
Proof.
  unfold leb_then. rewrite !andb_true_iff, !orb_true_iff, !negb_true_iff. naive_solver congruence.
Qed.
