(* ===== verification/PyTime.v ===== *)
(** * Identifiers and instants

    [uuid.UUID] with its text form and order, and [datetime.datetime] with the
    operations the components use: comparison, difference, [replace(tzinfo=UTC)],
    [astimezone(UTC)] and [isoformat()]. *)

From S2P Require Import Prelude PyData.
From stdpp Require Import base gmap strings pretty list.
From Stdlib Require Import ZArith NArith Ascii.

(** ** UUIDs *)

(** A [UUID] is a 128-bit number; the bound is a boolean fact, so that equal
    numbers are equal UUIDs. *)
Record UUID : Type := MkUUID {
  uuid_int : N;
  uuid_bound : (uuid_int <? 2 ^ 128)%N = true;
}.

Lemma UUID_eq (u v : UUID) : uuid_int u = uuid_int v → u = v.
Proof.
  destruct u as [m Hm], v as [n Hn]; simpl. intros ->. f_equal.
  apply (proof_irrel Hm Hn).
Qed.

#[export] Instance UUID_eq_dec : EqDecision UUID.
Proof.
  refine (λ u v, cast_if (decide (uuid_int u = uuid_int v)));
    [by apply UUID_eq | congruence].
Defined.

#[export] Instance uuid_int_inj : Inj (=) (=) uuid_int.
Proof. intros u v. apply UUID_eq. Qed.

Definition uuid_of_N (n : N) : option UUID :=
  match decide ((n <? 2 ^ 128)%N = true) with
  | left H => Some (MkUUID n H)
  | right _ => None
  end.

#[export] Program Instance UUID_countable : Countable UUID := {|
  encode u := encode (uuid_int u);
  decode p := decode p ≫= uuid_of_N
|}.
Next Obligation.
  intros u. change (decode (encode (uuid_int u)) ≫= uuid_of_N = Some u).
  rewrite decode_encode. change (uuid_of_N (uuid_int u) = Some u).
  unfold uuid_of_N. case_decide as H; [by apply (f_equal Some), UUID_eq|].
  by destruct u.
Qed.

Definition uuid_leb (u v : UUID) : bool := (uuid_int u <=? uuid_int v)%N.
Definition uuid_ltb (u v : UUID) : bool := (uuid_int u <? uuid_int v)%N.

(** [str(u)]: 32 hexadecimal digits in groups of 8, 4, 4, 4 and 12. *)
Definition str_uuid (u : UUID) : string :=
  let h := hex_digits 32 (uuid_int u) in
  str_take 8 h +:+ "-" +:+ str_take 4 (str_drop 8 h) +:+ "-" +:+
  str_take 4 (str_drop 12 h) +:+ "-" +:+ str_take 4 (str_drop 16 h) +:+ "-" +:+
  str_drop 20 h.

Example str_uuid_1 :
  str_uuid (MkUUID 1 eq_refl) = "00000000-0000-0000-0000-000000000001".
Proof. vm_compute. reflexivity. Qed.

(** *** The text of a UUID determines it *)

Fixpoint drop_char (c : ascii) (s : string) : string :=
  match s with
  | EmptyString => EmptyString
  | String d s => if Ascii.eqb d c then drop_char c s else String d (drop_char c s)
  end.

Lemma string_app_assoc (a b c : string) : (a +:+ b) +:+ c = a +:+ (b +:+ c).
Proof. induction a as [|x a IH]; [done|]. unfold String.app in *; simpl. by f_equal. Qed.

Lemma string_app_cons x (a b : string) : String x a +:+ b = String x (a +:+ b).
Proof. done. Qed.

Lemma startswith_app p a : startswith p (p +:+ a) = true.
Proof.
  induction p as [|c p IH]; [by destruct a|]. rewrite string_app_cons. cbn.
  by rewrite Ascii.eqb_refl.
Qed.

Lemma startswith_spec p s : startswith p s = true ↔ ∃ a, s = p +:+ a.
Proof.
  split; [|intros [a ->]; apply startswith_app].
  revert s. induction p as [|c p IH]; intros s; [by exists s|].
  destruct s as [|d s]; [done|]. cbn. rewrite andb_true_iff. intros [->%Ascii.eqb_eq [a ->]%IH].
  by exists a.
Qed.

Lemma string_app_length (a b : string) :
  String.length (a +:+ b) = String.length a + String.length b.
Proof. induction a as [|x a IH]; [done|]. rewrite string_app_cons. simpl. by f_equal. Qed.

Lemma string_app_inj_len (a a' b b' : string) :
  String.length a = String.length a' → a +:+ b = a' +:+ b' → a = a' ∧ b = b'.
Proof.
  revert a'. induction a as [|x a IH]; intros [|x' a'] Hlen; try done.
  rewrite !string_app_cons. simpl in Hlen. intros [= -> H].
  apply IH in H as [-> ->]; [done | lia].
Qed.

Lemma drop_char_app c a b : drop_char c (a +:+ b) = drop_char c a +:+ drop_char c b.
Proof.
  induction a as [|x a IH]; [done|]. rewrite string_app_cons. simpl.
  destruct (Ascii.eqb x c); [done|]. by rewrite IH.
Qed.

Lemma str_take_drop n s : str_take n s +:+ str_drop n s = s.
Proof.
  revert s. induction n as [|n IH]; intros [|x s]; try done.
  simpl. by rewrite string_app_cons, IH.
Qed.

Lemma str_drop_drop m n s : str_drop m (str_drop n s) = str_drop (n + m) s.
Proof.
  revert s. induction n as [|n IH]; intros s; [done|].
  destruct s as [|x s]; simpl; [by destruct m|]. apply IH.
Qed.

Lemma hex_char_inj m n :
  (m < 16)%N → (n < 16)%N → hex_char m = hex_char n → m = n.
Proof.
  intros Hm Hn H. apply (f_equal N_of_ascii) in H. revert H. unfold hex_char.
  destruct (N.ltb_spec m 10), (N.ltb_spec n 10);
    rewrite !N_ascii_embedding by lia; lia.
Qed.

Lemma hex_char_not_dash n : (n < 16)%N → Ascii.eqb (hex_char n) "-" = false.
Proof.
  intros Hn. destruct (Ascii.eqb_spec (hex_char n) "-") as [E|]; [|done].
  apply (f_equal N_of_ascii) in E. revert E. unfold hex_char.
  destruct (N.ltb_spec n 10); rewrite N_ascii_embedding by lia; simpl; lia.
Qed.

Lemma hex_digits_length w n : String.length (hex_digits w n) = w.
Proof.
  revert n. induction w as [|w IH]; intros n; [done|].
  cbn [hex_digits]. rewrite string_app_length, IH. simpl. lia.
Qed.

Lemma hex_digits_inj w m n :
  (m < 16 ^ N.of_nat w)%N → (n < 16 ^ N.of_nat w)%N →
  hex_digits w m = hex_digits w n → m = n.
Proof.
  revert m n. induction w as [|w IH]; intros m n Hm Hn; [simpl in *; lia|].
  cbn [hex_digits]. rewrite Nat2N.inj_succ, N.pow_succ_r' in Hm, Hn.
  intros H. apply string_app_inj_len in H as [H1 H2];
    [|by rewrite !hex_digits_length].
  injection H2 as H2. apply hex_char_inj in H2; [|by apply N.mod_lt..].
  apply IH in H1; [|apply N.Div0.div_lt_upper_bound; lia..].
  rewrite (N.div_mod m 16), (N.div_mod n 16) by done. lia.
Qed.

Lemma drop_dash_hex w n : drop_char "-" (hex_digits w n) = hex_digits w n.
Proof.
  revert n. induction w as [|w IH]; intros n; [done|].
  cbn [hex_digits]. rewrite drop_char_app, IH. cbn [drop_char].
  by rewrite hex_char_not_dash by (by apply N.mod_lt).
Qed.

Lemma drop_dash_str_uuid u : drop_char "-" (str_uuid u) = hex_digits 32 (uuid_int u).
Proof.
  rewrite <-drop_dash_hex. unfold str_uuid.
  set (h := hex_digits 32 (uuid_int u)).
  rewrite !drop_char_app. change (drop_char "-" "-") with "".
  change ("" +:+ ?x) with x.
  assert (Hs : ∀ n s, drop_char "-" (str_take n s) +:+ drop_char "-" (str_drop n s)
               = drop_char "-" s)
    by (intros; by rewrite <-drop_char_app, str_take_drop).
  replace (str_drop 20 h) with (str_drop 4 (str_drop 16 h)) by apply str_drop_drop.
  rewrite Hs. replace (str_drop 16 h) with (str_drop 4 (str_drop 12 h))
    by apply str_drop_drop.
  rewrite Hs. replace (str_drop 12 h) with (str_drop 4 (str_drop 8 h))
    by apply str_drop_drop.
  by rewrite !Hs.
Qed.

#[export] Instance str_uuid_inj : Inj (=) (=) str_uuid.
Proof.
  intros u v H. apply (f_equal (drop_char "-")) in H.
  rewrite !drop_dash_str_uuid in H. apply UUID_eq.
  pose proof (uuid_bound u) as Hu. pose proof (uuid_bound v) as Hv.
  apply N.ltb_lt in Hu, Hv. by apply (hex_digits_inj 32).
Qed.

(** ** Instants *)

(** A [datetime]: wall-clock microseconds since 1970-01-01T00:00:00 on that
    wall, and the UTC offset in microseconds when it is aware. *)
Record datetime : Type := MkDatetime {
  dt_wall : Z;
  dt_offset : option Z;
}.

#[export] Instance datetime_eq_dec : EqDecision datetime.
Proof. solve_decision. Defined.

(** [d.tzinfo is None]. *)
Definition is_naive (d : datetime) : bool :=
  match dt_offset d with None => true | Some _ => false end.

(** The instant an aware datetime names, in microseconds since the epoch. *)
Definition instant (d : datetime) : Z :=
  (dt_wall d - default 0 (dt_offset d))%Z.

(** [a < b] and [a <= b]: Python compares two aware values by instant, two
    naive ones by wall clock, and raises [TypeError] on a mixture ([None]). *)
Definition dt_ltb (a b : datetime) : option bool :=
  if bool_decide (is_naive a = is_naive b) then Some (instant a <? instant b)%Z
  else None.
Definition dt_leb (a b : datetime) : option bool :=
  if bool_decide (is_naive a = is_naive b) then Some (instant a <=? instant b)%Z
  else None.

(** [d.replace(tzinfo=UTC)] and [d.astimezone(UTC)] of an aware [d]. *)
Definition replace_tz_utc (d : datetime) : datetime := MkDatetime (dt_wall d) (Some 0%Z).
Definition astimezone_utc (d : datetime) : datetime := MkDatetime (instant d) (Some 0%Z).

(** The value [datetime.now(UTC)] takes at an instant. *)
Definition utc_of (us : Z) : datetime := MkDatetime us (Some 0%Z).

(** Year, month and day of a day number counted from 1970-01-01, in the
    proleptic Gregorian calendar. *)
Definition civil_of_days (days : Z) : Z * Z * Z :=
  (let z := days + 719468 in
   let era := z / 146097 in
   let doe := z mod 146097 in
   let yoe := (doe - doe / 1460 + doe / 36524 - doe / 146096) / 365 in
   let doy := doe - (365 * yoe + yoe / 4 - yoe / 100) in
   let mp := (5 * doy + 2) / 153 in
   let m := if mp <? 10 then mp + 3 else mp - 9 in
   (yoe + era * 400 + (if m <=? 2 then 1 else 0), m, doy - (153 * mp + 2) / 5 + 1))%Z.

Definition us_per_second : Z := 1000000.
Definition us_per_day : Z := 86400000000.

(** [HH:MM:SS[.ffffff]]. *)
Definition iso_clock (us : Z) : string :=
  (let s := us / us_per_second in
   let f := us mod us_per_second in
   zpad 2 (s / 3600) +:+ ":" +:+ zpad 2 (s / 60 mod 60) +:+ ":" +:+ zpad 2 (s mod 60)
   +:+ (if f =? 0 then "" else "." +:+ zpad 6 f))%Z.

(** [+HH:MM[:SS[.ffffff]]]. *)
Definition iso_offset (off : Z) : string :=
  (let a := Z.abs off in
   let s := a / us_per_second in
   let f := a mod us_per_second in
   (if off <? 0 then "-" else "+")
   +:+ zpad 2 (s / 3600) +:+ ":" +:+ zpad 2 (s / 60 mod 60)
   +:+ (if (s mod 60 =? 0) && (f =? 0) then ""
        else ":" +:+ zpad 2 (s mod 60) +:+ (if f =? 0 then "" else "." +:+ zpad 6 f)))%Z.

(** [d.isoformat()]. *)
Definition isoformat (d : datetime) : string :=
  let '(y, m, day) := civil_of_days (dt_wall d / us_per_day)%Z in
  zpad 4 y +:+ "-" +:+ zpad 2 m +:+ "-" +:+ zpad 2 day +:+ "T" +:+
  iso_clock (dt_wall d mod us_per_day)%Z +:+
  match dt_offset d with None => "" | Some off => iso_offset off end.

Example isoformat_1 :
  isoformat (MkDatetime 1792489500250000 (Some 3600000000%Z))
  = "2026-10-20T09:45:00.250000+01:00".
Proof. vm_compute. reflexivity. Qed.
Example isoformat_2 : isoformat (utc_of (-1000000)) = "1969-12-31T23:59:59+00:00".
Proof. vm_compute. reflexivity. Qed.
