(* ===== verification/PyZone.v ===== *)
(** * Dates and zoned datetimes

    [datetime.date] on the proleptic Gregorian calendar, and
    [datetime.datetime] with a [tzinfo] that is a fixed offset or a [ZoneInfo].
    The zone database is a parameter with what its rules promise. *)

From S2P Require Import Prelude PyData PyTime.
From stdpp Require Import base strings.
From Stdlib Require Import ZArith Lia.

Local Open Scope Z_scope.

Definition is_leap (y : Z) : bool := (y mod 4 =? 0) && (negb (y mod 100 =? 0) || (y mod 400 =? 0)).

(** [calendar.monthrange(y, m)[1]]. *)
Definition last_day_of (y m : Z) : Z :=
  if m =? 2 then (if is_leap y then 29 else 28)
  else if (m =? 4) || (m =? 6) || (m =? 9) || (m =? 11) then 30 else 31.

Record date : Type := MkDate {
  year : Z;
  month : Z;
  day : Z;
}.

#[export] Instance date_eq_dec : EqDecision date.
Proof. solve_decision. Defined.

Definition MINYEAR : Z := 1.
Definition MAXYEAR : Z := 9999.

(** A day of the calendar. *)
Definition calendar_date (d : date) : Prop := 1 ≤ month d ≤ 12 ∧ 1 ≤ day d ≤ last_day_of (year d) (month d).

(** The number of a day, by years that start in March. *)
Definition days_of_civil (y m d : Z) : Z :=
  let y := if m <=? 2 then y - 1 else y in
  let yoe := y mod 400 in
  let doy := (153 * (if m <=? 2 then m + 9 else m - 3) + 2) / 5 + d - 1 in
  y / 400 * 146097 + (yoe * 365 + yoe / 4 - yoe / 100 + doy) - 719468.

Definition days_of (d : date) : Z := days_of_civil (year d) (month d) (day d).
Definition date_of_days (n : Z) : date := let '(y, m, d) := civil_of_days n in MkDate y m d.

(** The order of dates. *)
Definition date_ltb (a b : date) : bool := (days_of a <? days_of b).

(** Monday is zero. *)
Definition weekday (n : Z) : Z := (n + 3) mod 7.

(** ** The conversions are inverse *)

(** The year of an era that starts in March, from the day of the era. *)
Definition year_of_era (doe : Z) : Z := (doe - doe / 1460 + doe / 36524 - doe / 146096) / 365.
Definition day_of_year (doe : Z) : Z := doe - (365 * year_of_era doe + year_of_era doe / 4 - year_of_era doe / 100).

(** The last day is there in the years before a leap February. *)
Lemma year_of_era_bounds doe : 0 ≤ doe < 146097 →
  0 ≤ year_of_era doe < 400 ∧ 0 ≤ day_of_year doe ≤ 365 ∧
  (day_of_year doe = 365 → (year_of_era doe + 1) mod 4 = 0 ∧
    ((year_of_era doe + 1) mod 100 ≠ 0 ∨ year_of_era doe = 399)).
Proof. unfold day_of_year, year_of_era. intros H. Z.to_euclidean_division_equations. lia. Qed.

(** A day of the era from the year and the day of the year, and back. *)
Lemma year_of_era_unique yoe doy : 0 ≤ yoe < 400 → 0 ≤ doy ≤ 365 →
  (doy = 365 → (yoe + 1) mod 4 = 0 ∧ ((yoe + 1) mod 100 ≠ 0 ∨ yoe = 399)) →
  let doe := 365 * yoe + yoe / 4 - yoe / 100 + doy in
  0 ≤ doe < 146097 ∧ year_of_era doe = yoe ∧ day_of_year doe = doy.
Proof.
  intros Hy Hd Hl doe.
  assert (0 ≤ doe < 146097) as Hdoe by (unfold doe; Z.to_euclidean_division_equations; lia).
  assert (year_of_era doe = yoe) as Heq.
  { unfold year_of_era, doe in *. Z.to_euclidean_division_equations. lia. }
  split; [done|]. split; [done|]. unfold day_of_year. rewrite Heq. unfold doe. lia.
Qed.

(** The days before a month of a year that starts in March. *)
Definition before_month (mp : Z) : Z := (153 * mp + 2) / 5.

Lemma is_leap_spec y : is_leap y = true ↔ y mod 4 = 0 ∧ (y mod 100 ≠ 0 ∨ y mod 400 = 0).
Proof. unfold is_leap. rewrite andb_true_iff, orb_true_iff, negb_true_iff, !Z.eqb_eq, Z.eqb_neq. done. Qed.

Lemma is_leap_era yoe era : is_leap (yoe + era * 400) = is_leap yoe.
Proof.
  apply eq_true_iff_eq. rewrite !is_leap_spec. Z.to_euclidean_division_equations. lia.
Qed.

(** A civil date, by its year from March. *)
Lemma days_of_march y m d : 1 ≤ m ≤ 12 →
  days_of_civil y m d =
    let Y := if m <=? 2 then y - 1 else y in
    let mp := if m <=? 2 then m + 9 else m - 3 in
    Y / 400 * 146097 + (365 * (Y mod 400) + (Y mod 400) / 4 - (Y mod 400) / 100 + (before_month mp + d - 1)) - 719468.
Proof. intros Hm. unfold days_of_civil, before_month. cbn. lia. Qed.

(** The day of a year from March that a date is. *)
Lemma day_in_year y m d : 1 ≤ m ≤ 12 → 1 ≤ d ≤ last_day_of y m →
  let Y := if m <=? 2 then y - 1 else y in
  let mp := if m <=? 2 then m + 9 else m - 3 in
  let doy := before_month mp + d - 1 in
  0 ≤ doy ≤ 365 ∧ (doy = 365 → (Y mod 400 + 1) mod 4 = 0 ∧ ((Y mod 400 + 1) mod 100 ≠ 0 ∨ Y mod 400 = 399)) ∧
  (5 * doy + 2) / 153 = mp ∧ 0 ≤ mp ≤ 11.
Proof.
  intros Hm Hd Y mp doy. subst Y mp doy. unfold last_day_of, before_month in *.
  assert (Hcases : m = 1 ∨ m = 2 ∨ m = 3 ∨ m = 4 ∨ m = 5 ∨ m = 6 ∨ m = 7 ∨ m = 8 ∨ m = 9 ∨ m = 10 ∨ m = 11 ∨ m = 12) by lia.
  destruct (is_leap y) eqn:Hl.
  - apply is_leap_spec in Hl. destruct_or! Hcases; subst m; cbn in Hd |- *; Z.to_euclidean_division_equations; lia.
  - destruct_or! Hcases; subst m; cbn in Hd |- *; Z.to_euclidean_division_equations; lia.
Qed.

Lemma date_of_days_of d : calendar_date d → date_of_days (days_of d) = d.
Proof.
  destruct d as [y m d]. intros [Hm Hd]. cbn [year month day] in *. unfold date_of_days, days_of. cbn [year month day].
  rewrite days_of_march by done. pose proof (day_in_year y m d Hm Hd) as (H1 & H2 & H3 & H4). cbn zeta in *.
  set (Y := if m <=? 2 then y - 1 else y) in *. set (mp := if m <=? 2 then m + 9 else m - 3) in *.
  set (doy := before_month mp + d - 1) in *.
  destruct (year_of_era_unique (Y mod 400) doy) as (H5 & H6 & H7); [by apply Z.mod_pos_bound|done|done|].
  set (doe := 365 * (Y mod 400) + Y mod 400 / 4 - Y mod 400 / 100 + doy) in *.
  unfold civil_of_days. replace (Y / 400 * 146097 + doe - 719468 + 719468) with (doe + Y / 400 * 146097) by lia.
  rewrite Z.div_add, Z.mod_add, (Z.div_small doe), (Z.mod_small doe), Z.add_0_l by lia.
  fold (year_of_era doe). fold (day_of_year doe). rewrite H6, H7. rewrite H3. fold (before_month mp).
  assert ((if mp <? 10 then mp + 3 else mp - 9) = m) as ->.
  { subst mp. destruct (Z.leb_spec m 2).
    - rewrite (proj2 (Z.ltb_ge _ 10)) by lia. lia.
    - rewrite (proj2 (Z.ltb_lt _ 10)) by lia. lia. }
  f_equal; [|subst doy; lia]. assert (Y mod 400 + Y / 400 * 400 = Y) as -> by (rewrite (Z.div_mod Y 400) at 3 by lia; ring).
  subst Y. destruct (Z.leb_spec m 2); lia.
Qed.

(** A month from March holds its days. *)
Lemma month_of_day doy : 0 ≤ doy ≤ 365 →
  let mp := (5 * doy + 2) / 153 in
  0 ≤ mp ≤ 11 ∧ before_month mp ≤ doy ∧
  doy - before_month mp + 1 ≤
    (if mp =? 11 then (if doy =? 365 then 29 else 28)
     else if (mp =? 1) || (mp =? 3) || (mp =? 6) || (mp =? 8) then 30 else 31).
Proof.
  intros H mp. assert (0 ≤ mp ≤ 11) as Hmp by (subst mp; Z.to_euclidean_division_equations; lia).
  split; [done|]. assert (153 * mp ≤ 5 * doy + 2 < 153 * mp + 153) as Hb by (subst mp; Z.to_euclidean_division_equations; lia).
  clearbody mp. unfold before_month.
  assert (Hcases : mp = 0 ∨ mp = 1 ∨ mp = 2 ∨ mp = 3 ∨ mp = 4 ∨ mp = 5 ∨ mp = 6 ∨ mp = 7 ∨ mp = 8 ∨ mp = 9 ∨ mp = 10 ∨ mp = 11) by lia.
  destruct_or! Hcases; subst mp; cbn [Z.eqb Pos.eqb orb]; try (Z.to_euclidean_division_equations; lia).
  destruct (Z.eqb_spec doy 365); Z.to_euclidean_division_equations; lia.
Qed.

Lemma days_of_date_of n : calendar_date (date_of_days n) ∧ days_of (date_of_days n) = n.
Proof.
  unfold date_of_days, civil_of_days, days_of. set (z := n + 719468). set (era := z / 146097). set (doe := z mod 146097).
  assert (0 ≤ doe < 146097) as Hdoe by (apply Z.mod_pos_bound; lia).
  fold (year_of_era doe). fold (day_of_year doe).
  pose proof (year_of_era_bounds doe Hdoe) as (Hyoe & Hdoy & Hlast).
  pose proof (month_of_day _ Hdoy) as (Hmp & Hlo & Hhi). cbn zeta in *.
  set (yoe := year_of_era doe) in *. set (doy := day_of_year doe) in *. set (mp := (5 * doy + 2) / 153) in *.
  fold (before_month mp). unfold calendar_date. cbn [year month day].
  set (m := if mp <? 10 then mp + 3 else mp - 9).
  assert (1 ≤ m ≤ 12 ∧ (if m <=? 2 then m + 9 else m - 3) = mp) as [Hm Hmm].
  { subst m. destruct (Z.ltb_spec mp 10).
    - rewrite (proj2 (Z.leb_gt _ 2)) by lia. lia.
    - rewrite (proj2 (Z.leb_le _ 2)) by lia. lia. }
  set (Y := yoe + era * 400) in *.
  assert (doe = 365 * yoe + yoe / 4 - yoe / 100 + doy) as Edoe by (subst doy; unfold day_of_year; fold yoe; lia).
  assert (Y / 400 = era ∧ Y mod 400 = yoe) as [HYd HYm].
  { subst Y. rewrite Z.div_add, Z.mod_add, Z.div_small, Z.mod_small by lia. lia. }
  assert (n = era * 146097 + doe - 719468) as En by (subst era doe z; Z.to_euclidean_division_equations; lia).
  split; [split; [done|split; [lia|]]|].
  - clear En HYd Edoe. clearbody mp m doy. unfold last_day_of. destruct (Z.eqb_spec m 2) as [->|Hm2].
    + vm_compute in Hmm. cbn [Z.leb Z.compare Pos.compare Pos.compare_cont]. subst mp. change (11 =? 11) with true in Hhi. change (before_month 11) with 337 in *. cbn iota in Hhi.
      destruct (Z.eqb_spec doy 365) as [H365|]; [|destruct (is_leap _); lia].
      destruct (Hlast H365) as [H4 H100]. assert (is_leap (Y + 1) = true) as ->; [|lia].
      apply is_leap_spec. subst Y. Z.to_euclidean_division_equations. lia.
    + assert (Hcases : m = 1 ∨ m = 3 ∨ m = 4 ∨ m = 5 ∨ m = 6 ∨ m = 7 ∨ m = 8 ∨ m = 9 ∨ m = 10 ∨ m = 11 ∨ m = 12) by lia.
      destruct_or! Hcases; subst m; vm_compute in Hmm; cbn [Z.leb Z.compare Pos.compare Pos.compare_cont]; subst mp; unfold before_month in *;
        cbn [Z.eqb Pos.eqb orb] in Hhi |- *; Z.to_euclidean_division_equations; lia.
  - rewrite days_of_march by done. cbn zeta. rewrite Hmm.
    assert ((if m <=? 2 then Y + (if m <=? 2 then 1 else 0) - 1 else Y + (if m <=? 2 then 1 else 0)) = Y) as ->.
    { destruct (m <=? 2); lia. }
    rewrite HYd, HYm. lia.
Qed.

(** ** Months *)

(** Sums and products of numerals, computed. *)
Ltac numeral z := match isZcst z with true => idtac end.
Ltac compute_numerals :=
  repeat match goal with |- context [?f ?a ?b] =>
    match f with Z.add => idtac | Z.mul => idtac | Z.sub => idtac | Z.div => idtac end;
    numeral a; numeral b; let c := eval vm_compute in (f a b) in change (f a b) with c
  end.

(** The months, numbered; the first day of each. *)
Definition month_number (y m : Z) : Z := 12 * y + m - 1.
Definition month_start (k : Z) : Z := days_of_civil (k / 12) (k mod 12 + 1) 1.
Definition month_length (k : Z) : Z := last_day_of (k / 12) (k mod 12 + 1).

Lemma days_of_month d : 1 ≤ month d ≤ 12 →
  days_of d = month_start (month_number (year d) (month d)) + day d - 1.
Proof.
  intros Hm. unfold month_start, month_number, days_of.
  replace ((12 * year d + month d - 1) / 12) with (year d) by (Z.to_euclidean_division_equations; lia).
  replace ((12 * year d + month d - 1) mod 12 + 1) with (month d) by (Z.to_euclidean_division_equations; lia).
  unfold days_of_civil. cbn zeta. destruct (month d <=? 2); lia.
Qed.

Lemma month_length_of y m : 1 ≤ m ≤ 12 → month_length (month_number y m) = last_day_of y m.
Proof.
  intros Hm. unfold month_length, month_number.
  replace ((12 * y + m - 1) / 12) with y by (Z.to_euclidean_division_equations; lia).
  by replace ((12 * y + m - 1) mod 12 + 1) with m by (Z.to_euclidean_division_equations; lia).
Qed.

Lemma month_length_bounds k : 28 ≤ month_length k ≤ 31.
Proof. unfold month_length, last_day_of. repeat case_match; lia. Qed.

(** Each month starts where the one before it ends. *)
Lemma month_start_succ k : month_start (k + 1) = month_start k + month_length k.
Proof.
  unfold month_start, month_length. remember (k / 12) as y eqn:Ey. remember (k mod 12) as m eqn:Em.
  assert (0 ≤ m < 12 ∧ k = 12 * y + m) as [Hm ->] by (Z.to_euclidean_division_equations; lia).
  clear Ey Em. assert (Hcases : m = 11 ∨ m ≠ 11) by lia. destruct Hcases as [->|H11].
  - replace ((12 * y + 11 + 1) / 12) with (y + 1) by (Z.to_euclidean_division_equations; lia).
    replace ((12 * y + 11 + 1) mod 12 + 1) with 1 by (Z.to_euclidean_division_equations; lia).
    change (11 + 1) with 12. change (last_day_of y 12) with 31. unfold days_of_civil. cbn. replace (y + 1 - 1) with y by lia.
    Z.to_euclidean_division_equations; lia.
  - replace ((12 * y + m + 1) / 12) with y by (Z.to_euclidean_division_equations; lia).
    replace ((12 * y + m + 1) mod 12 + 1) with (m + 2) by (Z.to_euclidean_division_equations; lia).
    assert (Hcases : m = 0 ∨ m = 1 ∨ m = 2 ∨ m = 3 ∨ m = 4 ∨ m = 5 ∨ m = 6 ∨ m = 7 ∨ m = 8 ∨ m = 9 ∨ m = 10) by lia.
    unfold days_of_civil, last_day_of. destruct (is_leap y) eqn:Hl.
    + apply is_leap_spec in Hl. destruct_or! Hcases; subst m; compute_numerals; cbn; compute_numerals; Z.to_euclidean_division_equations; lia.
    + apply not_true_iff_false in Hl. rewrite is_leap_spec in Hl.
      destruct_or! Hcases; subst m; compute_numerals; cbn; compute_numerals; Z.to_euclidean_division_equations; lia.
Qed.

Lemma month_start_mono j k : j < k → month_start j + month_length j ≤ month_start k.
Proof.
  intros Hjk. rewrite <-month_start_succ. replace k with (j + 1 + Z.of_nat (Z.to_nat (k - j - 1))) by lia.
  induction (Z.to_nat (k - j - 1)) as [|n IH]; [rewrite Z.add_0_r; done|].
  replace (j + 1 + Z.of_nat (S n)) with (j + 1 + Z.of_nat n + 1) by lia.
  rewrite (month_start_succ (j + 1 + Z.of_nat n)). pose proof (month_length_bounds (j + 1 + Z.of_nat n)). lia.
Qed.

(** A later month is a later day. *)
Lemma days_of_lt a b : calendar_date a → calendar_date b →
  month_number (year a) (month a) < month_number (year b) (month b) → days_of a < days_of b.
Proof.
  intros [Hma Hda] [Hmb Hdb] H. rewrite !days_of_month by done. pose proof (month_start_mono _ _ H) as Hs.
  rewrite month_length_of in Hs by done. lia.
Qed.

(** ** The zone database *)

(** [zone_offset]: [ZoneInfo.utcoffset] of a wall time and its fold.
    [zone_local]: [ZoneInfo.fromutc], the wall time and the fold of an instant.
    [system_offset]: the offset of the process's local time, which [astimezone]
    gives a naive value. All in microseconds. *)
Class TzData : Type := {
  zone_known : string → bool;
  zone_offset : string → Z → bool → Z;
  zone_local : string → Z → Z * bool;
  system_offset : Z → bool → Z;
}.

(** The wall time of an instant names that instant, and an offset is less than
    a day. *)
Class TzLaws `{TzData} : Prop := {
  zone_local_instant z t : (zone_local z t).1 - zone_offset z (zone_local z t).1 (zone_local z t).2 = t;
  zone_offset_bound z w f : Z.abs (zone_offset z w f) < us_per_day;
}.

Inductive tzinfo : Type := FixedOffset (us : Z) | Zone (key : string).

#[export] Instance tzinfo_eq_dec : EqDecision tzinfo.
Proof. solve_decision. Defined.

Definition UTC : tzinfo := FixedOffset 0.

(** A datetime: wall-clock microseconds since 1970-01-01T00:00:00, the fold, and
    the [tzinfo]. *)
Record zoned : Type := MkZoned {
  wall : Z;
  fold : bool;
  tz : option tzinfo;
}.

#[export] Instance zoned_eq_dec : EqDecision zoned.
Proof. solve_decision. Defined.

(** Exceptions of the language. *)
Inductive py_exn : Type := OverflowError | ValueError | TypeError.

(** The walls from year one to the end of year 9999. *)
Definition MIN_WALL : Z := days_of_civil MINYEAR 1 1 * us_per_day.
Definition MAX_WALL : Z := (days_of_civil MAXYEAR 12 31 + 1) * us_per_day.

Section zoned.
Context `{TzData}.

Definition offset_of (z : tzinfo) (w : Z) (f : bool) : Z :=
  match z with FixedOffset us => us | Zone key => zone_offset key w f end.

(** [d.utcoffset()]. *)
Definition utcoffset (d : zoned) : option Z := z ← tz d; Some (offset_of z (wall d) (fold d)).

Definition naive (d : zoned) : bool := match tz d with None => true | Some _ => false end.

(** The instant of a value; a naive one is taken as local time. *)
Definition moment_of (d : zoned) : Z :=
  wall d - match tz d with Some z => offset_of z (wall d) (fold d) | None => system_offset (wall d) (fold d) end.

Definition in_range (w : Z) : bool := (MIN_WALL <=? w) && (w <? MAX_WALL).

(** A wall time that may be out of range. *)
Definition check_range (d : zoned) : result py_exn zoned :=
  _ ← raise_if (negb (in_range (wall d))) OverflowError; Ok d.

(** [d.astimezone(z)]. *)
Definition astimezone (d : zoned) (z : tzinfo) : result py_exn zoned :=
  if bool_decide (tz d = Some z) then Ok d
  else
    utc ← check_range (MkZoned (moment_of d) false (Some z));
    match z with
    | FixedOffset us => check_range (MkZoned (wall utc + us) false (Some z))
    | Zone key => check_range (MkZoned (zone_local key (wall utc)).1 (zone_local key (wall utc)).2 (Some z))
    end.

(** [d + timedelta(days=k)]: the wall moves, and the fold is lost. *)
Definition add_days (d : zoned) (k : Z) : result py_exn zoned :=
  _ ← raise_if (999999999 <? Z.abs k) OverflowError;
  check_range (MkZoned (wall d + k * us_per_day) false (tz d)).

(** [d.date()]. *)
Definition date_of (d : zoned) : date := date_of_days (wall d / us_per_day).

(** [d.replace(hour=0, minute=0, second=0, microsecond=0)], with another day. *)
Definition midnight_of (d : zoned) (day : date) : zoned :=
  MkZoned (days_of day * us_per_day) (fold d) (tz d).

(** [datetime.combine(day, d.timetz())]. *)
Definition combine_date (day : date) (d : zoned) : zoned :=
  MkZoned (days_of day * us_per_day + wall d mod us_per_day) (fold d) (tz d).

(** [d.replace(tzinfo=z, fold=0)]. *)
Definition replace_tz (d : zoned) (z : tzinfo) : zoned := MkZoned (wall d) false (Some z).

(** Order: walls with the same [tzinfo], instants with two, and no order between
    a naive value and an aware one. *)
Definition compare_zoned (a b : zoned) : result py_exn comparison :=
  if bool_decide (tz a = tz b) then Ok (wall a ?= wall b)
  else if naive a || naive b then Raise TypeError
  else Ok (moment_of a ?= moment_of b).

Definition zoned_lt (a b : zoned) : result py_exn bool :=
  c ← compare_zoned a b; Ok (match c with Lt => true | _ => false end).
Definition zoned_le (a b : zoned) : result py_exn bool :=
  c ← compare_zoned a b; Ok (match c with Gt => false | _ => true end).
Definition zoned_gt (a b : zoned) : result py_exn bool := zoned_lt b a.
Definition zoned_ge (a b : zoned) : result py_exn bool := zoned_le b a.

(** [a - b], in microseconds. *)
Definition subtract_zoned (a b : zoned) : result py_exn Z :=
  if bool_decide (tz a = tz b) then Ok (wall a - wall b)
  else if naive a || naive b then Raise TypeError
  else Ok (moment_of a - moment_of b).

(** [d.isoformat()], and with [timespec="microseconds"]. *)
Definition zoned_isoformat (d : zoned) : string := isoformat (MkDatetime (wall d) (utcoffset d)).

Definition isoformat_us (d : zoned) : string :=
  let today := date_of d in
  let us := wall d mod us_per_day in
  zpad 4 (year today) +:+ "-" +:+ zpad 2 (month today) +:+ "-" +:+ zpad 2 (day today) +:+ "T" +:+
  zpad 2 (us / us_per_second / 3600) +:+ ":" +:+ zpad 2 (us / us_per_second / 60 mod 60) +:+ ":"
  +:+ zpad 2 (us / us_per_second mod 60) +:+ "." +:+ zpad 6 (us mod us_per_second)
  +:+ match utcoffset d with None => "" | Some off => iso_offset off end.
End zoned.

(** A wall clock time that the zone's clock shows, the first time it does. *)
Definition shown `{TzData} (z : string) (w : Z) : Prop := ∃ t, zone_local z t = (w, false).
