(* ===== verification/PyDecimal.v ===== *)
(** * Decimal arithmetic

    [decimal.Decimal] under the default context of the language: 28 digits,
    half-even rounding, exponents from -999999 to 999999, and the traps
    [InvalidOperation], [DivisionByZero] and [Overflow]. A NaN is without sign
    and payload. The operations are those of the General Decimal Arithmetic
    that the components use. *)

From S2P Require Import Prelude PyData.
From stdpp Require Import base gmap strings pretty list.
From Stdlib Require Import ZArith NArith Ascii.

Inductive decimal : Type :=
  | Fin (neg : bool) (coef : N) (exp : Z)
  | Inf (neg : bool)
  | NaN (signaling : bool).

Inductive signal : Type := InvalidOperation | DivisionByZero | Overflow.

Inductive Rounding : Type :=
  | ROUND_CEILING | ROUND_FLOOR | ROUND_UP | ROUND_DOWN | ROUND_HALF_UP | ROUND_HALF_DOWN
  | ROUND_HALF_EVEN | ROUND_05UP.

Definition PREC : Z := 28.
Definition EMAX : Z := 999999.
Definition EMIN : Z := -999999.
Definition ETINY : Z := EMIN - PREC + 1.
Definition ETOP : Z := EMAX - PREC + 1.
Definition CONTEXT_ROUNDING : Rounding := ROUND_HALF_EVEN.

(** ** Coefficients *)

Definition pow10 (k : Z) : N := (10 ^ Z.to_N k)%N.

(** The number of decimal digits of a coefficient, one for zero. *)
Fixpoint digits_loop (fuel : nat) (n : N) : Z :=
  match fuel with
  | O => 1
  | S fuel => if (n <? 10)%N then 1 else 1 + digits_loop fuel (n / 10)%N
  end%Z.
Definition ndigits (n : N) : Z := digits_loop (N.to_nat (N.log2 n)) n.

(** [n / d] rounded to an integer, of a number with that sign. *)
Definition round_div (mode : Rounding) (neg : bool) (n d : N) : N :=
  let q := (n / d)%N in
  let r := (n mod d)%N in
  let up :=
    match mode with
    | ROUND_DOWN => false
    | ROUND_UP => (0 <? r)%N
    | ROUND_CEILING => (0 <? r)%N && negb neg
    | ROUND_FLOOR => (0 <? r)%N && neg
    | ROUND_HALF_UP => (d <=? 2 * r)%N
    | ROUND_HALF_DOWN => (d <? 2 * r)%N
    | ROUND_HALF_EVEN => (d <? 2 * r)%N || ((d =? 2 * r)%N && N.odd q)
    | ROUND_05UP => (0 <? r)%N && ((q mod 10 =? 0)%N || (q mod 10 =? 5)%N)
    end in
  if up then (q + 1)%N else q.

(** [coef * 10 ** exp] with the exponent [target]. *)
Definition rescale (mode : Rounding) (neg : bool) (coef : N) (exp target : Z) : N :=
  if (target <=? exp)%Z then (coef * pow10 (exp - target))%N
  else round_div mode neg coef (pow10 (target - exp)).

(** A finite result, rounded to the context. *)
Definition fix_ (neg : bool) (coef : N) (exp : Z) : result signal decimal :=
  if (coef =? 0)%N then Ok (Fin neg 0 (Z.min (Z.max exp ETINY) EMAX))
  else
    let exp_min := (ndigits coef + exp - PREC)%Z in
    if (ETOP <? exp_min)%Z then Raise Overflow
    else
      let exp_min := Z.max exp_min ETINY in
      if (exp <? exp_min)%Z then
        let c := rescale CONTEXT_ROUNDING neg coef exp exp_min in
        let '(c, exp_min) :=
          if (PREC <? ndigits c)%Z then ((c / 10)%N, (exp_min + 1)%Z) else (c, exp_min) in
        if (ETOP <? exp_min)%Z then Raise Overflow else Ok (Fin neg c exp_min)
      else Ok (Fin neg coef exp).

Definition signed (neg : bool) (n : N) : Z := if neg then (- Z.of_N n)%Z else Z.of_N n.

(** The coefficient, with its sign, at an exponent no larger. *)
Definition scaled (neg : bool) (coef : N) (exp target : Z) : Z :=
  signed neg (coef * pow10 (exp - target)).

(** What an operation makes of a NaN among its operands. *)
Definition nan_check (a b : decimal) (k : result signal decimal) : result signal decimal :=
  match a, b with
  | NaN true, _ | _, NaN true => Raise InvalidOperation
  | NaN false, _ | _, NaN false => Ok (NaN false)
  | _, _ => k
  end.

(** ** Arithmetic *)

Definition of_Z (z : Z) : decimal := Fin (z <? 0)%Z (Z.to_N (Z.abs z)) 0.

Definition decimal_add (a b : decimal) : result signal decimal :=
  nan_check a b
    (match a, b with
     | Inf s, Inf t => if Bool.eqb s t then Ok a else Raise InvalidOperation
     | Inf _, _ => Ok a
     | _, Inf _ => Ok b
     | Fin s m e, Fin t n f =>
         let exp := Z.min e f in
         let sum := (scaled s m e exp + scaled t n f exp)%Z in
         if (sum =? 0)%Z then fix_ (s && t) 0 exp
         else fix_ (sum <? 0)%Z (Z.to_N (Z.abs sum)) exp
     | _, _ => Ok a
     end).

Definition copy_negate (a : decimal) : decimal :=
  match a with Fin s n e => Fin (negb s) n e | Inf s => Inf (negb s) | NaN _ => a end.

Definition decimal_sub (a b : decimal) : result signal decimal := decimal_add a (copy_negate b).

(** [-a]. *)
Definition decimal_neg (a : decimal) : result signal decimal :=
  match a with
  | NaN true => Raise InvalidOperation
  | Fin s n e => fix_ (if (n =? 0)%N then false else negb s) n e
  | _ => Ok (copy_negate a)
  end.

Definition is_zero_decimal (a : decimal) : bool :=
  match a with Fin _ n _ => (n =? 0)%N | _ => false end.
Definition sign_of (a : decimal) : bool :=
  match a with Fin s _ _ | Inf s => s | NaN _ => false end.

Definition decimal_mul (a b : decimal) : result signal decimal :=
  let s := xorb (sign_of a) (sign_of b) in
  nan_check a b
    (match a, b with
     | Fin _ m e, Fin _ n f => fix_ s (m * n) (e + f)
     | Fin _ n _, Inf _ | Inf _, Fin _ n _ =>
         if (n =? 0)%N then Raise InvalidOperation else Ok (Inf s)
     | _, _ => Ok (Inf s)
     end).

(** The quotient of two coefficients to one digit more than the precision, and
    a last digit that tells an inexact one. *)
Definition quotient (m n : N) (shift : Z) : N :=
  let top := if (0 <=? shift)%Z then (m * pow10 shift)%N else m in
  let bottom := if (0 <=? shift)%Z then n else (n * pow10 (- shift))%N in
  let q := (top / bottom)%N in
  if (top mod bottom =? 0)%N then q
  else if (q mod 5 =? 0)%N then (q + 1)%N else q.

(** Trailing zeros of an exact quotient come off up to the ideal exponent. *)
Fixpoint strip_zeros (fuel : nat) (ideal : Z) (coef : N) (exp : Z) : N * Z :=
  match fuel with
  | O => (coef, exp)
  | S fuel =>
      if (exp <? ideal)%Z && (coef mod 10 =? 0)%N then strip_zeros fuel ideal (coef / 10)%N (exp + 1)
      else (coef, exp)
  end.

Definition is_exact (m n : N) (shift : Z) : bool :=
  if (0 <=? shift)%Z then ((m * pow10 shift) mod n =? 0)%N else (m mod (n * pow10 (- shift)) =? 0)%N.

Definition decimal_div (a b : decimal) : result signal decimal :=
  let s := xorb (sign_of a) (sign_of b) in
  nan_check a b
    (match a, b with
     | Inf _, Inf _ => Raise InvalidOperation
     | Inf _, _ => Ok (Inf s)
     | _, Inf _ => Ok (Fin s 0 ETINY)
     | Fin _ m e, Fin _ n f =>
         if (n =? 0)%N then Raise (if (m =? 0)%N then InvalidOperation else DivisionByZero)
         else if (m =? 0)%N then fix_ s 0 (e - f)
         else
           let shift := (ndigits n - ndigits m + PREC + 1)%Z in
           let q := quotient m n shift in
           let exp := (e - f - shift)%Z in
           let '(q, exp) :=
             if is_exact m n shift then strip_zeros (Z.to_nat (ndigits q)) (e - f) q exp
             else (q, exp) in
           fix_ s q exp
     | _, _ => Ok a
     end).

(** ** Rounding *)

(** [a.quantize(quantum, rounding)], the exponent of the quantum given. *)
Definition quantize (a quantum : decimal) (mode : Rounding) : result signal decimal :=
  nan_check a quantum
    (match a, quantum with
     | Inf _, Inf _ => Ok a
     | Fin s n e, Fin _ _ target =>
         if (target <? ETINY)%Z || (EMAX <? target)%Z then Raise InvalidOperation
         else if (n =? 0)%N then fix_ s 0 target
         else if (EMAX <? ndigits n + e - 1)%Z || (PREC <? ndigits n + e - target)%Z
         then Raise InvalidOperation
         else
           let c := rescale mode s n e target in
           if (EMAX <? ndigits c + target - 1)%Z || (PREC <? ndigits c)%Z
           then Raise InvalidOperation
           else fix_ s c target
     | _, _ => Raise InvalidOperation
     end).

(** [a.to_integral_value(rounding)]. *)
Definition to_integral_value (a : decimal) (mode : Rounding) : result signal decimal :=
  match a with
  | NaN true => Raise InvalidOperation
  | Fin s n e => Ok (if (0 <=? e)%Z then a else Fin s (rescale mode s n e 0) 0)
  | _ => Ok a
  end.

(** [a.scaleb(k)]. *)
Definition scaleb (a : decimal) (k : Z) : result signal decimal :=
  match a with
  | NaN true => Raise InvalidOperation
  | NaN false => Ok a
  | _ =>
      if (k <? -2 * (EMAX + PREC))%Z || (2 * (EMAX + PREC) <? k)%Z then Raise InvalidOperation
      else match a with Fin s n e => fix_ s n (e + k) | _ => Ok a end
  end.

(** ** Comparison and conversion *)

Definition is_nan (a : decimal) : bool := match a with NaN _ => true | _ => false end.

(** [a.is_finite()]. *)
Definition is_finite (d : decimal) : bool := match d with Fin _ _ _ => true | _ => false end.

(** The order of two numbers. *)
Definition decimal_cmp (a b : decimal) : comparison :=
  match a, b with
  | Inf true, Inf true | Inf false, Inf false => Eq
  | Inf true, _ | _, Inf false => Lt
  | Inf false, _ | _, Inf true => Gt
  | Fin s m e, Fin t n f =>
      let exp := Z.min e f in Z.compare (scaled s m e exp) (scaled t n f exp)
  | _, _ => Eq
  end.

(** [a < b] and the like, of which a NaN is no operand. *)
Definition decimal_order (test : comparison → bool) (a b : decimal) : result signal bool :=
  if is_nan a || is_nan b then Raise InvalidOperation else Ok (test (decimal_cmp a b)).
Definition is_lt (c : comparison) : bool := match c with Lt => true | _ => false end.
Definition is_le (c : comparison) : bool := match c with Gt => false | _ => true end.
Definition is_gt (c : comparison) : bool := match c with Gt => true | _ => false end.
Definition is_ge (c : comparison) : bool := match c with Lt => false | _ => true end.
Definition decimal_lt : decimal → decimal → result signal bool := decimal_order is_lt.
Definition decimal_le : decimal → decimal → result signal bool := decimal_order is_le.
Definition decimal_gt : decimal → decimal → result signal bool := decimal_order is_gt.
Definition decimal_ge : decimal → decimal → result signal bool := decimal_order is_ge.

(** [a == b]. *)
Definition decimal_eq (a b : decimal) : result signal bool :=
  match a, b with
  | NaN true, _ | _, NaN true => Raise InvalidOperation
  | NaN false, _ | _, NaN false => Ok false
  | _, _ => Ok (match decimal_cmp a b with Eq => true | _ => false end)
  end.

(** [max(a, b)] and [min(a, b)] keep [a] unless [b] is beyond it. *)
Definition decimal_max (a b : decimal) : result signal decimal :=
  above ← decimal_gt b a; Ok (if (above : bool) then b else a).
Definition decimal_min (a b : decimal) : result signal decimal :=
  below ← decimal_lt b a; Ok (if (below : bool) then b else a).

(** [int(a)], towards zero; [None] for an infinity or a NaN. *)
Definition int_of (a : decimal) : option Z :=
  match a with Fin s n e => Some (signed s (rescale ROUND_DOWN s n e 0)) | _ => None end.

(** [sum(l)], from the integer zero. *)
Definition decimal_sum (l : list decimal) : result signal decimal :=
  fold_result decimal_add (of_Z 0) l.

(** ** Text *)

(** The digits of a numeral up to another character, their number, and the
    rest. *)
Fixpoint take_digits (acc : N) (count : nat) (s : string) : N * nat * string :=
  match s with
  | String c rest =>
      match digit_val c with
      | Some d => take_digits (10 * acc + Z.to_N d) (S count) rest
      | None => (acc, count, s)
      end
  | EmptyString => (acc, count, s)
  end.

Definition take_sign (s : string) : bool * string :=
  match s with
  | String c rest =>
      if Ascii.eqb c "-" then (true, rest) else if Ascii.eqb c "+" then (false, rest) else (false, s)
  | EmptyString => (false, s)
  end.

(** The exponent part of a numeral, of lower-case text. *)
Definition parse_exponent (s : string) : option Z :=
  match s with
  | EmptyString => Some 0%Z
  | String c s =>
      if Ascii.eqb c "e" then
        let '(neg, s) := take_sign s in
        match take_digits 0 0 s with
        | (e, S _, EmptyString) => Some (signed neg e)
        | _ => None
        end
      else None
  end.

Definition parse_number (neg : bool) (s : string) : option decimal :=
  let '(whole, k, s) := take_digits 0 0 s in
  let '(all, f, s) :=
    match s with
    | String c rest =>
        if Ascii.eqb c "." then let '(all, f, rest) := take_digits whole 0 rest in (all, f, rest)
        else (whole, 0, s)
    | EmptyString => (whole, 0, s)
    end in
  if (k + f =? 0)%nat then None
  else e ← parse_exponent s; Some (Fin neg all (e - Z.of_nat f)).

Fixpoint drop_underscores (s : string) : string :=
  match s with
  | EmptyString => EmptyString
  | String c s => if Ascii.eqb c "_" then drop_underscores s else String c (drop_underscores s)
  end.

(** [Decimal(s)], [None] for text that is no numeral. *)
Definition parse_decimal (s : string) : option decimal :=
  let '(neg, s) := take_sign (str_lower (drop_underscores (strip s))) in
  if String.eqb s "inf" || String.eqb s "infinity" then Some (Inf neg)
  else
    let '(signaling, nan) := match s with
      | String c rest => if Ascii.eqb c "s" then (true, rest) else (false, s)
      | EmptyString => (false, s)
      end in
    if startswith "nan" nan && str_all (λ c, match digit_val c with Some _ => true | None => false end) (str_drop 3 nan)
    then Some (NaN signaling)
    else parse_number neg s.

(** [str(a)]. *)
Definition decimal_str (a : decimal) : string :=
  match a with
  | Inf s => (if s then "-" else "") +:+ "Infinity"
  | NaN s => if s then "sNaN" else "NaN"
  | Fin s n e =>
      let text := pretty (Z.of_N n) in
      let left := (Z.of_nat (String.length text) + e)%Z in
      let dot := if (e <=? 0)%Z && (-6 <? left)%Z then left else 1%Z in
      (if s then "-" else "")
        +:+ (if (dot <=? 0)%Z then "0." +:+ zeros (Z.to_nat (- dot)) +:+ text
             else if (Z.of_nat (String.length text) <=? dot)%Z
             then text +:+ zeros (Z.to_nat (dot - Z.of_nat (String.length text)))
             else str_take (Z.to_nat dot) text +:+ "." +:+ str_drop (Z.to_nat dot) text)
        +:+ (if (left =? dot)%Z then ""
             else "E" +:+ (if (0 <=? left - dot)%Z then "+" else "") +:+ pretty (left - dot)%Z)
  end.

(** [a.normalize()]. *)
Definition decimal_normalize (a : decimal) : result signal decimal :=
  match a with
  | NaN true => Raise InvalidOperation
  | NaN false | Inf _ => Ok a
  | Fin s n e =>
      d ← fix_ s n e;
      match d with
      | Fin s n e =>
          if (n =? 0)%N then Ok (Fin s 0 0)
          else let '(c, x) := strip_zeros (Z.to_nat (ndigits n)) EMAX n e in Ok (Fin s c x)
      | _ => Ok d
      end
  end.

(** Digits and a point, without an exponent. *)
Definition fixed_text (neg : bool) (coef : N) (exp : Z) : string :=
  let exp := if (coef =? 0)%N then Z.min exp 0 else exp in
  let digits := pretty (Z.of_N coef) in
  let count := Z.of_nat (String.length digits) in
  let dot := (count + exp)%Z in
  (if neg then "-" else "")
    +:+ (if (dot <? 0)%Z then "0." +:+ zeros (Z.to_nat (- dot)) +:+ digits
         else if (count <=? dot)%Z then digits +:+ zeros (Z.to_nat (dot - count))
         else (if (dot =? 0)%Z then "0" else str_take (Z.to_nat dot) digits)
                +:+ "." +:+ str_drop (Z.to_nat dot) digits).

(** [format(a, "f")], and [format(a, ".kf")], of a finite number. *)
Definition format_fixed (a : decimal) : string :=
  match a with Fin s n e => fixed_text s n e | _ => decimal_str a end.
Definition format_places (places : Z) (a : decimal) : string :=
  match a with
  | Fin s n e => fixed_text s (rescale CONTEXT_ROUNDING s n e (- places)) (- places)
  | _ => decimal_str a
  end.

Example normalize_1 : decimal_normalize (Fin false 12300 (-3)) = Ok (Fin false 123 (-1)).
Proof. reflexivity. Qed.
Example format_1 : format_fixed (Fin true 5 (-3)) = "-0.005" ∧ format_fixed (Fin false 12 2) = "1200"
  ∧ format_places 2 (Fin false 25 (-1)) = "2.50" ∧ format_fixed (Fin false 5 (-1)) = "0.5".
Proof. repeat split. Qed.
