(* ===== verification/DecimalFacts.v ===== *)
(** * What decimal arithmetic guarantees

    The rational value of a decimal; the number of digits of a coefficient; a
    result that fits the context is exact, and another is within half a unit of
    its last digit. *)

From S2P Require Import Prelude PyData PyDecimal.
From stdpp Require Import base gmap strings pretty list.
From Stdlib Require Import ZArith NArith QArith Qpower Qabs Qfield Lqa Lia.

Local Open Scope Z_scope.

(** ** Powers of ten *)

Lemma pow10_spec k : 0 ≤ k → Z.of_N (pow10 k) = 10 ^ k.
Proof. intros Hk. unfold pow10. by rewrite N2Z.inj_pow, Z2N.id. Qed.

Lemma pow10_pos k : 0 < Z.of_N (pow10 k).
Proof.
  destruct (Z_le_gt_dec 0 k) as [Hk|Hk].
  - rewrite pow10_spec by done. by apply Z.pow_pos_nonneg.
  - unfold pow10. by replace (Z.to_N k) with 0%N by lia.
Qed.

Lemma pow_split a b : 0 ≤ a → 0 ≤ b → 10 ^ (a + b) = 10 ^ a * 10 ^ b.
Proof. intros. by apply Z.pow_add_r. Qed.

Lemma pow_succ a : 0 < a → 10 ^ a = 10 * 10 ^ (a - 1).
Proof. intros. replace a with (1 + (a - 1)) at 1 by lia. rewrite pow_split by lia. lia. Qed.

(** ** Digits *)

Lemma digits_loop_spec fuel : ∀ n, (0 < n)%N → (N.to_nat (N.log2 n) ≤ fuel)%nat →
  1 ≤ digits_loop fuel n ∧ 10 ^ (digits_loop fuel n - 1) ≤ Z.of_N n < 10 ^ digits_loop fuel n.
Proof.
  induction fuel as [|fuel IH]; intros n Hn Hf; cbn [digits_loop].
  - assert (N.log2 n = 0%N) as Hl by lia. apply N.log2_null in Hl. lia.
  - destruct (N.ltb_spec n 10) as [Hlt|Hge]; [cbn; lia|].
    assert (0 < n / 10)%N as Hq by (apply N.div_str_pos; lia).
    destruct (IH (n / 10)%N Hq) as (H1 & H2 & H3).
    { assert (N.log2 (n / 10) < N.log2 n)%N; [|lia].
      apply N.log2_lt_pow2; [done|]. pose proof (N.log2_spec n Hn) as [_ Hs].
      rewrite N.pow_succ_r in Hs by lia. apply N.Div0.div_lt_upper_bound. lia. }
    set (k := digits_loop fuel (n / 10)) in *.
    rewrite N2Z.inj_div in H2, H3.
    replace (1 + k - 1) with (1 + (k - 1)) by lia. rewrite !pow_split by lia.
    pose proof (Z.div_mod (Z.of_N n) 10 ltac:(lia)). pose proof (Z.mod_pos_bound (Z.of_N n) 10 ltac:(lia)).
    change (Z.of_N 10) with 10 in *. lia.
Qed.

Lemma ndigits_spec n : (0 < n)%N → 10 ^ (ndigits n - 1) ≤ Z.of_N n < 10 ^ ndigits n.
Proof. intros Hn. apply digits_loop_spec; [done|lia]. Qed.

Lemma ndigits_pos n : 1 ≤ ndigits n.
Proof. destruct n as [|p]; [done|]. by apply digits_loop_spec. Qed.

Lemma ndigits_le n k : 1 ≤ k → ndigits n ≤ k ↔ Z.of_N n < 10 ^ k.
Proof.
  intros Hk. destruct (N.eq_0_gt_0_cases n) as [->|Hn].
  { change (ndigits 0) with 1. split; [intros _|lia]. by apply Z.pow_pos_nonneg; lia. }
  pose proof (ndigits_spec n Hn) as [Hl Hu]. pose proof (ndigits_pos n). split; intros H1.
  - eapply Z.lt_le_trans; [exact Hu|]. apply Z.pow_le_mono_r; lia.
  - apply Z.le_ngt. intros Hgt. assert (10 ^ k ≤ 10 ^ (ndigits n - 1)); [|lia].
    apply Z.pow_le_mono_r; lia.
Qed.

(** ** Rounding *)

(** The comparisons of a boolean test, as propositions. *)
Ltac bool_to_prop :=
  repeat first [rewrite andb_true_iff in * | rewrite andb_false_iff in * | rewrite orb_true_iff in *
    | rewrite orb_false_iff in * | rewrite N.ltb_lt in * | rewrite N.ltb_ge in * | rewrite N.leb_le in *
    | rewrite N.leb_gt in * | rewrite N.eqb_eq in * | rewrite N.eqb_neq in *
    | rewrite Z.ltb_lt in * | rewrite Z.ltb_ge in * | rewrite Z.leb_le in * | rewrite Z.leb_gt in *
    | rewrite Z.eqb_eq in * | rewrite Z.eqb_neq in *].

(** Rounding keeps the integer quotient, or takes the next when there is a
    remainder. *)
Lemma round_div_cases mode neg n d : (0 < d)%N →
  round_div mode neg n d = (n / d)%N ∨ (0 < n mod d)%N ∧ round_div mode neg n d = (n / d + 1)%N.
Proof.
  intros Hd. unfold round_div. destruct mode; cbv zeta beta iota;
    try (case_match eqn:E; [right|by left]; split; [|done]; revert E; generalize (n mod d)%N (n / d)%N; intros r q E; bool_to_prop; lia). by left.
Qed.

(** Euclidean division, in [Z]. *)
Lemma div_mod_Z (n d : N) : (0 < d)%N →
  Z.of_N n = Z.of_N d * Z.of_N (n / d) + Z.of_N (n mod d) ∧ Z.of_N (n mod d) < Z.of_N d.
Proof.
  intros Hd. pose proof (N.div_mod n d ltac:(lia)) as H1. pose proof (N.mod_lt n d ltac:(lia)) as H2.
  apply (f_equal Z.of_N) in H1. rewrite N2Z.inj_add, N2Z.inj_mul in H1. lia.
Qed.

Lemma round_div_near mode neg n d : (0 < d)%N →
  Z.abs (Z.of_N (round_div mode neg n d) * Z.of_N d - Z.of_N n) < Z.of_N d.
Proof.
  intros Hd. destruct (div_mod_Z n d Hd).
  destruct (round_div_cases mode neg n d Hd) as [->|[Hr ->]];
    rewrite ?N2Z.inj_add; generalize dependent (n / d)%N; generalize dependent (n mod d)%N; intros; lia.
Qed.

Lemma round_div_exact mode neg q d : (0 < d)%N → round_div mode neg (q * d) d = q.
Proof.
  intros Hd. destruct (round_div_cases mode neg (q * d) d Hd) as [->|[Hr _]].
  - apply N.div_mul. lia.
  - rewrite N.Div0.mod_mul in Hr. lia.
Qed.

Definition half_mode (mode : Rounding) : bool :=
  match mode with ROUND_HALF_UP | ROUND_HALF_DOWN | ROUND_HALF_EVEN => true | _ => false end.

Lemma round_div_half mode neg n d : (0 < d)%N → half_mode mode = true →
  2 * Z.abs (Z.of_N (round_div mode neg n d) * Z.of_N d - Z.of_N n) ≤ Z.of_N d.
Proof.
  intros Hd Hm. unfold round_div. destruct (div_mod_Z n d Hd).
  generalize dependent (n / d)%N; generalize dependent (n mod d)%N; intros r ? q ?.
  destruct mode; try done; cbv zeta beta iota; case_match eqn:E; bool_to_prop; lia.
Qed.

(** Rounding down and up to an integer, of a signed number. *)
Lemma round_floor neg n d : (0 < d)%N →
  signed neg (round_div ROUND_FLOOR neg n d) = signed neg n / Z.of_N d.
Proof.
  intros Hd. destruct (div_mod_Z n d Hd).
  unfold round_div, signed. destruct neg; cbn [andb].
  - rewrite andb_true_r. apply Z.div_unique_pos with (r := 
      if (0 <? n mod d)%N then Z.of_N d - Z.of_N (n mod d) else 0);
    destruct (N.ltb_spec 0 (n mod d)); generalize dependent (n / d)%N;
    generalize dependent (n mod d)%N; intros; lia.
  - rewrite andb_false_r. by rewrite N2Z.inj_div.
Qed.

(** ** Values *)

Definition Q10 (e : Z) : Q := Qpower (inject_Z 10) e.

Definition value (a : decimal) : Q :=
  match a with Fin s n e => inject_Z (signed s n) * Q10 e | _ => 0 end.

Definition finite (a : decimal) : Prop := match a with Fin _ _ _ => True | _ => False end.

Lemma Q10_pos e : (0 < Q10 e)%Q.
Proof. apply Qpower_0_lt. reflexivity. Qed.

Lemma Q10_plus e f : (Q10 (e + f) == Q10 e * Q10 f)%Q.
Proof. apply Qpower_plus. discriminate. Qed.

Lemma Q10_int k : 0 ≤ k → (inject_Z (10 ^ k) == Q10 k)%Q.
Proof. intros Hk. unfold Q10. by rewrite Zpower_Qpower. Qed.

Lemma Q10_pow10 k : 0 ≤ k → (inject_Z (Z.of_N (pow10 k)) == Q10 k)%Q.
Proof. intros Hk. by rewrite pow10_spec, Q10_int. Qed.

Lemma Q10_le e f : e ≤ f → (Q10 e <= Q10 f)%Q.
Proof.
  intros Hef. replace f with (e + (f - e)) by lia. rewrite Q10_plus, <-(Q10_int (f - e)) by lia.
  rewrite <-(Qmult_1_r (Q10 e)) at 1. apply Qmult_le_l; [apply Q10_pos|].
  change 1%Q with (inject_Z 1). rewrite <-Zle_Qle. pose proof (Z.pow_pos_nonneg 10 (f - e)). lia.
Qed.

Lemma Q10_one : Q10 1 = inject_Z 10.
Proof. reflexivity. Qed.
Lemma Q10_zero : Q10 0 = 1%Q.
Proof. reflexivity. Qed.
#[global] Opaque Q10.

Lemma signed_mul s n m : signed s (n * m) = signed s n * Z.of_N m.
Proof. unfold signed. rewrite N2Z.inj_mul. destruct s; lia. Qed.

Lemma scaled_value s n e target : target ≤ e →
  (inject_Z (scaled s n e target) * Q10 target == value (Fin s n e))%Q.
Proof.
  intros Ht. unfold scaled, value. rewrite signed_mul, inject_Z_mult, Q10_pow10 by lia.
  rewrite <-Qmult_assoc, <-Q10_plus. by replace (e - target + target) with e by lia.
Qed.

Lemma value_abs s n e : (Qabs (value (Fin s n e)) == inject_Z (Z.of_N n) * Q10 e)%Q.
Proof.
  unfold value. rewrite Qabs_Qmult, (Qabs_pos (Q10 e)) by (apply Qlt_le_weak, Q10_pos).
  unfold signed. destruct s; [rewrite inject_Z_opp, Qabs_opp|];
    rewrite Qabs_pos; try reflexivity; change 0%Q with (inject_Z 0); rewrite <-Zle_Qle; lia.
Qed.

(** ** Results that fit the context *)

(** A coefficient of at most 28 digits, at an exponent of the context. *)
Definition fits (n : N) (e : Z) : Prop := Z.of_N n < 10 ^ PREC ∧ ETINY ≤ e ≤ ETOP.

Lemma fix_exact s n e : fits n e → fix_ s n e = Ok (Fin s n e).
Proof.
  intros [Hn [Hl Hu]]. unfold fix_, ETINY, ETOP, EMIN, EMAX, PREC in *.
  destruct (N.eqb_spec n 0) as [->|Hn0].
  - do 2 f_equal. lia.
  - apply ndigits_le in Hn; [|lia]. rewrite (proj2 (Z.ltb_ge _ _)) by lia.
    by rewrite (proj2 (Z.ltb_ge _ _)) by lia.
Qed.

(** [y] is [x] up to [k] rounding errors, of numbers that are not negative. *)
Definition UNIT : Q := 5 # 10000000000000000000000000000.
Definition close (k : Z) (x y : Q) : Prop :=
  ((1 - inject_Z k * UNIT) * x <= y /\ (1 - inject_Z k * UNIT) * y <= x)%Q.

#[export] Instance close_proper : Proper (eq ==> Qeq ==> Qeq ==> iff) close.
Proof. intros k ? <- x x' Hx y y' Hy. unfold close. by rewrite Hx, Hy. Qed.

(** ** Rounding to the context *)

(** The magnitude is in the range of normal numbers. *)
Definition normal (n : N) (e : Z) : Prop :=
  ETINY ≤ ndigits n + e - PREC < ETOP.

Lemma close_int k n m q : (0 <= q)%Q →
  (10 ^ 28 - 5 * k) * n ≤ 10 ^ 28 * m → (10 ^ 28 - 5 * k) * m ≤ 10 ^ 28 * n →
  close k (inject_Z n * q) (inject_Z m * q).
Proof.
  intros Hq H1 H2. unfold close, UNIT.
  assert (Hk : ∀ a b, (10 ^ 28 - 5 * k) * a ≤ 10 ^ 28 * b →
    ((1 - inject_Z k * (5 # 10000000000000000000000000000)) * (inject_Z a * q) <= inject_Z b * q)%Q).
  { clear H1 H2. intros a b Hab. rewrite Qmult_assoc. apply Qmult_le_compat_r; [|done].
    rewrite Zle_Qle, !inject_Z_mult in Hab. unfold Z.sub in Hab.
    rewrite inject_Z_plus, inject_Z_opp, inject_Z_mult in Hab.
    change (inject_Z (10 ^ 28)) with (10000000000000000000000000000 # 1) in Hab.
    change (inject_Z 5) with (5 # 1) in Hab. generalize dependent (inject_Z a).
    generalize dependent (inject_Z b). generalize (inject_Z k). intros c x y Hab.
    assert (((1 - c * (5 # 10000000000000000000000000000)) * y
      == (1 # 10000000000000000000000000000) * (((10000000000000000000000000000 # 1) + - ((5 # 1) * c)) * y))%Q)
      as -> by ring.
    assert (x == (1 # 10000000000000000000000000000) * ((10000000000000000000000000000 # 1) * x))%Q as -> by ring.
    apply Qmult_le_l; [reflexivity|exact Hab]. }
  split; by apply Hk.
Qed.

(** A coefficient of more than 28 digits cut to 28. *)
Lemma round_coef mode s n k : half_mode mode = true → 0 < k → ndigits n - k = PREC →
  10 ^ 27 ≤ Z.of_N (round_div mode s n (pow10 k)) ≤ 10 ^ 28 ∧
  2 * 10 ^ 27 * Z.abs (Z.of_N (round_div mode s n (pow10 k)) * 10 ^ k - Z.of_N n) ≤ Z.of_N n.
Proof.
  intros Hm Hk Hd. unfold PREC in Hd.
  assert (0 < n)%N as Hn by (destruct n; [change (ndigits 0) with 1 in Hd; lia|lia]).
  pose proof (ndigits_spec n Hn) as [Hl Hu]. pose proof (pow10_pos k).
  pose proof (round_div_half mode s n (pow10 k) ltac:(lia) Hm) as Hh.
  rewrite pow10_spec in Hh by lia. set (c := round_div _ _ _ _) in *.
  replace (ndigits n - 1) with (27 + k) in Hl by lia. replace (ndigits n) with (28 + k) in Hu by lia.
  rewrite pow_split in Hl, Hu by lia. assert (0 < 10 ^ k) by (by apply Z.pow_pos_nonneg; lia).
  set (d := 10 ^ k) in *. clearbody c d. change (10 ^ 27) with 1000000000000000000000000000 in *.
  change (10 ^ 28) with 10000000000000000000000000000 in *. split; [|nia]. nia.
Qed.

Lemma fix_close s n e : (0 < n)%N → normal n e →
  ∃ n' e', fix_ s n e = Ok (Fin s n' e') ∧ (0 < n')%N ∧
    close 1 (inject_Z (Z.of_N n) * Q10 e) (inject_Z (Z.of_N n') * Q10 e').
Proof.
  intros Hn [Hl Hu]. unfold fix_. rewrite (proj2 (N.eqb_neq n 0)) by lia.
  rewrite (proj2 (Z.ltb_ge _ _)) by lia. rewrite Z.max_l by lia.
  assert (Hsame : close 1 (inject_Z (Z.of_N n) * Q10 e) (inject_Z (Z.of_N n) * Q10 e)).
  { apply close_int; [apply Qlt_le_weak, Q10_pos|lia..]. }
  destruct (Z.ltb_spec e (ndigits n + e - PREC)) as [Hlt|Hge]; [|by exists n, e].
  unfold rescale. rewrite (proj2 (Z.leb_gt _ _)) by lia.
  set (k := ndigits n + e - PREC - e).
  destruct (round_coef CONTEXT_ROUNDING s n k eq_refl) as [[Hc1 Hc2] Hr]; [lia|lia|].
  set (c := round_div _ _ _ _) in *.
  assert (close 1 (inject_Z (Z.of_N n) * Q10 e)
            (inject_Z (Z.of_N c) * Q10 (ndigits n + e - PREC))) as Hclose.
  { replace (ndigits n + e - PREC) with (k + e) by lia. rewrite Q10_plus, Qmult_assoc.
    rewrite <-(Q10_int k), <-inject_Z_mult by lia. apply close_int; [apply Qlt_le_weak, Q10_pos|nia..]. }
  destruct (Z.ltb_spec PREC (ndigits c)) as [Hbig|Hfit]; cbv iota zeta beta.
  - assert (Z.of_N c = 10 ^ 28) as Heq.
    { apply Z.le_antisymm; [done|]. apply Z.nlt_ge. intros Hsmall%ndigits_le; unfold PREC in *; lia. }
    rewrite (proj2 (Z.ltb_ge _ _)) by lia. eexists _, _. split; [done|].
    assert (Z.of_N (c / 10) * 10 = Z.of_N c) as Hten.
    { rewrite N2Z.inj_div, Heq. reflexivity. }
    split; [lia|]. rewrite Z.add_comm, Q10_plus, Qmult_assoc. rewrite Q10_one.
    by rewrite <-inject_Z_mult, Hten.
  - rewrite (proj2 (Z.ltb_ge _ _)) by lia. eexists _, _. split; [done|]. split; [lia|exact Hclose].
Qed.

(** ** Adding up rounding errors *)

Section close.
Local Open Scope Q_scope.

(** The factor that [k] errors keep. *)
Definition kept (k : Z) : Q := 1 - inject_Z k * UNIT.
Definition few (k : Z) : Prop := (0 ≤ k ∧ 5 * k ≤ 10 ^ 28)%Z.

Lemma kept_bounds k : few k → 0 <= kept k <= 1.
Proof.
  intros [H0 H1]. unfold kept, UNIT. rewrite Zle_Qle in H0, H1. rewrite inject_Z_mult in H1.
  change (inject_Z 5) with (5 # 1) in H1.
  change (inject_Z (10 ^ 28)) with (10000000000000000000000000000 # 1) in H1.
  change (inject_Z 0) with 0 in H0. lra.
Qed.

Lemma kept_plus j k : few j → few k → kept (j + k) <= kept j * kept k.
Proof.
  intros [Hj _] [Hk _]. unfold kept. rewrite inject_Z_plus. rewrite Zle_Qle in Hj, Hk.
  change (inject_Z 0) with 0 in *. generalize dependent (inject_Z j). generalize dependent (inject_Z k).
  intros b Hb a Ha. assert (0 <= (a * UNIT) * (b * UNIT)) as Hp.
  { apply Qmult_le_0_compat; (apply Qmult_le_0_compat; [done|discriminate]). }
  assert ((1 - a * UNIT) * (1 - b * UNIT) == 1 - (a + b) * UNIT + (a * UNIT) * (b * UNIT)) as -> by ring.
  lra.
Qed.

Lemma close_alt k x y : close k x y ↔ kept k * x <= y ∧ kept k * y <= x.
Proof. reflexivity. Qed.

Lemma close_refl k x : few k → 0 <= x → close k x x.
Proof.
  intros Hk Hx. apply close_alt. destruct (kept_bounds k Hk) as [H0 H1].
  assert (kept k * x <= x); [|done]. rewrite <-(Qmult_1_l x) at 2. by apply Qmult_le_compat_r.
Qed.

Lemma close_sym k x y : close k x y → close k y x.
Proof. rewrite !close_alt. tauto. Qed.

Lemma close_mult_half j k a a' b b' : few j → few k → 0 <= a → 0 <= b → 0 <= b' →
  kept j * a <= a' → kept k * b <= b' → kept (j + k) * (a * b) <= a' * b'.
Proof.
  intros Hj Hk Ha Hb Hb' H1 H2.
  apply (Qle_trans _ (kept j * kept k * (a * b))).
  { apply Qmult_le_compat_r; [by apply kept_plus|by apply Qmult_le_0_compat]. }
  assert (kept j * kept k * (a * b) == (kept j * a) * (kept k * b)) as -> by ring.
  destruct (kept_bounds j Hj), (kept_bounds k Hk).
  apply (Qle_trans _ (kept j * a * b')).
  - rewrite !(Qmult_comm (kept j * a)). apply Qmult_le_compat_r; [done|by apply Qmult_le_0_compat].
  - by apply Qmult_le_compat_r.
Qed.

Lemma close_mult j k a a' b b' : few j → few k → 0 <= a → 0 <= a' → 0 <= b → 0 <= b' →
  close j a a' → close k b b' → close (j + k) (a * b) (a' * b').
Proof. intros ?????? [] []. split; by apply close_mult_half. Qed.

Lemma close_trans j k x y z : few j → few k → 0 <= x → 0 <= y → 0 <= z →
  close j x y → close k y z → close (j + k) x z.
Proof.
  intros Hj Hk Hx Hy Hz. rewrite !close_alt. intros [H1 H2] [H3 H4].
  destruct (kept_bounds j Hj), (kept_bounds k Hk). split.
  - apply (Qle_trans _ (kept j * kept k * x)).
    { apply Qmult_le_compat_r; [by apply kept_plus|done]. }
    apply (Qle_trans _ (kept k * y)); [|done].
    assert (kept j * kept k * x == kept j * x * kept k) as -> by ring.
    rewrite (Qmult_comm (kept k)). by apply Qmult_le_compat_r.
  - apply (Qle_trans _ (kept j * kept k * z)).
    { apply Qmult_le_compat_r; [by apply kept_plus|done]. }
    apply (Qle_trans _ (kept j * y)); [|done].
    assert (kept j * kept k * z == kept k * z * kept j) as -> by ring.
    rewrite (Qmult_comm (kept j)). by apply Qmult_le_compat_r.
Qed.

Lemma close_plus k x x' y y' : close k x x' → close k y y' → close k (x + y) (x' + y').
Proof. rewrite !close_alt. intros [] []. split; rewrite Qmult_plus_distr_r; lra. Qed.

Lemma close_inv_half k b b' : 0 < b → 0 < b' → kept k * b' <= b → kept k * / b <= / b'.
Proof.
  intros Hb Hb' H1. assert (0 < / b * / b') as Hi.
  { rewrite <-(Qmult_0_l (/ b')). apply Qmult_lt_compat_r; by apply Qinv_lt_0_compat. }
  apply (Qle_trans _ (kept k * b' * (/ b * / b'))); [|apply (Qle_trans _ (b * (/ b * / b')))].
  - apply Qle_lteq. right. field. lra.
  - apply Qmult_le_compat_r; [done|lra].
  - apply Qle_lteq. right. field. lra.
Qed.

Lemma close_inv k b b' : 0 < b → 0 < b' → close k b b' → close k (/ b) (/ b').
Proof. intros Hb Hb' []. split; by apply close_inv_half. Qed.

Lemma close_weaken j k x y : few k → (0 ≤ j ≤ k)%Z → 0 <= x → 0 <= y → close j x y → close k x y.
Proof.
  intros Hk Hj Hx Hy. replace k with (j + (k - j))%Z by lia. intros Hc.
  apply (close_trans _ _ _ y); try done; [unfold few in *; lia..|].
  apply close_refl; [unfold few in *; lia|done].
Qed.

(** The distance that [k] errors leave. *)
Lemma close_dist k x y : few k → 0 <= x → close k x y →
  kept k * Qabs (y - x) <= inject_Z k * UNIT * x.
Proof.
  intros Hk Hx. rewrite close_alt. intros [H1 H2]. destruct (kept_bounds k Hk) as [H3 H4].
  unfold kept in *. set (e := inject_Z k * UNIT) in *.
  destruct (Qlt_le_dec y x) as [Hlt|Hle].
  - rewrite Qabs_neg by lra. assert ((1 - e) * (x - y) <= x - y); [|lra].
    rewrite <-(Qmult_1_l (x - y)) at 2. apply Qmult_le_compat_r; lra.
  - rewrite Qabs_pos by lra. lra.
Qed.
End close.

(** ** Operations on magnitudes *)

Definition mag (a : decimal) : Q :=
  match a with Fin _ n e => inject_Z (Z.of_N n) * Q10 e | _ => 0 end.

(** Zero, or well inside the range of the context. *)
Definition moderate (x : Q) : Prop := (x == 0)%Q ∨ (Q10 (-800000) <= x <= Q10 800000)%Q.

#[export] Instance moderate_proper : Proper (Qeq ==> iff) moderate.
Proof. intros x y Hxy. unfold moderate. by rewrite Hxy. Qed.

Lemma mag_nonneg a : (0 <= mag a)%Q.
Proof.
  destruct a as [s n e| |]; [|discriminate..]. cbn. apply Qmult_le_0_compat; [|apply Qlt_le_weak, Q10_pos].
  change 0%Q with (inject_Z 0). rewrite <-Zle_Qle. lia.
Qed.

Lemma Q10_lt_inv a b : (Q10 a < Q10 b)%Q → a < b.
Proof. intros H. apply Z.nle_gt. intros Hle%Q10_le. by apply (Qlt_not_le _ _ H). Qed.
Lemma Q10_le_inv a b : (Q10 a <= Q10 b)%Q → a ≤ b.
Proof.
  intros H. apply Z.nlt_ge. intros Hlt. assert (Q10 (b + 1) <= Q10 b)%Q as Hc.
  { eapply Qle_trans; [apply Q10_le|exact H]. lia. }
  rewrite Q10_plus in Hc. rewrite Q10_one in Hc. change (inject_Z 10) with (10 # 1) in Hc.
  pose proof (Q10_pos b). lra.
Qed.

(** Where the leading digit of a coefficient stands. *)
Lemma leading_digit n e : (0 < n)%N →
  (Q10 (ndigits n + e - 1) <= inject_Z (Z.of_N n) * Q10 e < Q10 (ndigits n + e))%Q.
Proof.
  intros Hn. pose proof (ndigits_spec n Hn) as [Hl Hu]. pose proof (ndigits_pos n). split.
  - replace (ndigits n + e - 1) with (ndigits n - 1 + e) by lia. rewrite Q10_plus, <-Q10_int by lia.
    apply Qmult_le_compat_r; [by rewrite <-Zle_Qle|apply Qlt_le_weak, Q10_pos].
  - rewrite Q10_plus, <-(Q10_int (ndigits n)) by lia.
    apply Qmult_lt_compat_r; [apply Q10_pos|by rewrite <-Zlt_Qlt].
Qed.

Lemma mag_zero n e : (inject_Z (Z.of_N n) * Q10 e == 0)%Q → n = 0%N.
Proof.
  intros [H|H]%Qmult_integral; [|pose proof (Q10_pos e) as Hp; rewrite H in Hp; by apply Qlt_irrefl in Hp].
  destruct n; [done|discriminate H].
Qed.

Lemma fix_zero s e : ∃ e', fix_ s 0 e = Ok (Fin s 0 e').
Proof. by eexists. Qed.

Lemma moderate_normal n e : (Q10 (-800000) <= inject_Z (Z.of_N n) * Q10 e <= Q10 800000)%Q → (0 < n)%N ∧ normal n e.
Proof.
  intros [Hlo Hhi]. assert (0 < n)%N as Hn.
  { destruct n; [|lia]. change (inject_Z (Z.of_N 0)) with 0%Q in Hlo. rewrite Qmult_0_l in Hlo.
    pose proof (Q10_pos (-800000)). lra. }
  destruct (leading_digit n e Hn) as [Hl Hu].
  assert (-800000 < ndigits n + e) by (eapply Q10_lt_inv, Qle_lt_trans; eassumption).
  assert (ndigits n + e - 1 ≤ 800000) by (eapply Q10_le_inv, Qle_trans; eassumption).
  split; [done|]. unfold normal, ETINY, ETOP, EMIN, EMAX, PREC. lia.
Qed.

Lemma fix_moderate s n e : moderate (inject_Z (Z.of_N n) * Q10 e) →
  ∃ n' e', fix_ s n e = Ok (Fin s n' e') ∧ (n = 0%N ↔ n' = 0%N) ∧
    close 1 (inject_Z (Z.of_N n) * Q10 e) (inject_Z (Z.of_N n') * Q10 e').
Proof.
  intros [H0%mag_zero|[Hlo Hhi]].
  - subst n. destruct (fix_zero s e) as [e' ->]. exists 0%N, e'. split_and!; [done..|].
    split; cbn; rewrite !Qmult_0_l, ?Qmult_0_r; apply Qle_refl.
  - destruct (moderate_normal n e (conj Hlo Hhi)) as [Hn Hnorm].
    destruct (fix_close s n e Hn Hnorm) as (n' & e' & Hf & Hn' & Hc).
    exists n', e'. split_and!; [done|lia|done].
Qed.

(** A result that may be tiny is not refused. *)
Lemma fix_ok s n e : (inject_Z (Z.of_N n) * Q10 e <= Q10 800000)%Q →
  ∃ n' e', fix_ s n e = Ok (Fin s n' e').
Proof.
  intros Hhi. unfold fix_. destruct (N.eqb_spec n 0) as [->|Hn]; [by eexists _, _|].
  destruct (leading_digit n e ltac:(lia)) as [Hl _].
  assert (ndigits n + e - 1 ≤ 800000) by (eapply Q10_le_inv, Qle_trans; eassumption).
  unfold ETINY, ETOP, EMIN, EMAX, PREC in *. rewrite (proj2 (Z.ltb_ge _ _)) by lia.
  destruct (_ <? _); [|by eexists _, _].
  destruct (28 <? ndigits _); cbv iota zeta beta; rewrite (proj2 (Z.ltb_ge _ _)) by lia; by eexists _, _.
Qed.

Lemma mul_close s m e t n f :
  moderate (mag (Fin s m e) * mag (Fin t n f)) →
  ∃ n' e', decimal_mul (Fin s m e) (Fin t n f) = Ok (Fin (xorb s t) n' e') ∧
    close 1 (mag (Fin s m e) * mag (Fin t n f)) (mag (Fin (xorb s t) n' e')).
Proof.
  cbn [mag decimal_mul nan_check sign_of].
  assert ((inject_Z (Z.of_N m) * Q10 e * (inject_Z (Z.of_N n) * Q10 f)
    == inject_Z (Z.of_N (m * n)) * Q10 (e + f))%Q) as Hv.
  { rewrite N2Z.inj_mul, inject_Z_mult, Q10_plus. ring. }
  rewrite Hv. intros (n' & e' & Hf & _ & Hc)%(fix_moderate (xorb s t)).
  exists n', e'. split; [exact Hf|]. by rewrite Hv.
Qed.

(** The value of a decimal that is not negative is its magnitude. *)
Lemma value_mag a : (0 <= value a)%Q → (value a == mag a)%Q.
Proof.
  intros Hv. rewrite <-(Qabs_pos _ Hv). destruct a; [apply value_abs|reflexivity..].
Qed.

Lemma value_zero n s e : (value (Fin s n e) == 0)%Q → n = 0%N.
Proof.
  intros H. apply (mag_zero n e). rewrite <-(value_abs s n e), H. reflexivity.
Qed.

(** A sum, before it is rounded. *)
Lemma add_exact s m e t n f :
  ∃ r k, decimal_add (Fin s m e) (Fin t n f) = fix_ r k (Z.min e f) ∧
    (value (Fin r k (Z.min e f)) == value (Fin s m e) + value (Fin t n f))%Q.
Proof.
  cbn [decimal_add nan_check]. set (x := Z.min e f).
  assert (Hv : (value (Fin s m e) + value (Fin t n f)
    == inject_Z (scaled s m e x + scaled t n f x) * Q10 x)%Q).
  { rewrite inject_Z_plus, Qmult_plus_distr_l, !scaled_value by lia. reflexivity. }
  destruct (Z.eqb_spec (scaled s m e x + scaled t n f x) 0) as [H0|H0].
  - eexists _, _. split; [done|]. rewrite Hv, H0. unfold value. destruct (s && t); reflexivity.
  - eexists _, _. split; [done|]. rewrite Hv. unfold value.
    assert (signed (scaled s m e x + scaled t n f x <? 0) (Z.to_N (Z.abs (scaled s m e x + scaled t n f x)))
      = scaled s m e x + scaled t n f x) as ->; [|reflexivity].
    unfold signed. destruct (Z.ltb_spec (scaled s m e x + scaled t n f x) 0); lia.
Qed.

Lemma fix_sign s n e d : fix_ s n e = Ok d → ∃ n' e', d = Fin s n' e' ∧ (n = 0%N → n' = 0%N).
Proof.
  unfold fix_. destruct (N.eqb_spec n 0) as [->|Hn]; [intros [= <-]; by eexists _, _|].
  destruct (_ <? _); [done|]. destruct (_ <? _); [|by intros [= <-]; eexists _, _].
  destruct (_ <? _); cbv iota zeta beta; destruct (_ <? _); try done; intros [= <-]; by eexists _, _.
Qed.

(** The sum of two numbers that are not negative. *)
Lemma add_close a b : finite a → finite b → (0 <= value a)%Q → (0 <= value b)%Q →
  moderate (value a + value b) →
  ∃ d, decimal_add a b = Ok d ∧ finite d ∧ (0 <= value d)%Q ∧ close 1 (value a + value b) (value d).
Proof.
  destruct a as [s m e| |], b as [t n f| |]; try done. intros _ _ Ha Hb Hmod.
  destruct (add_exact s m e t n f) as (r & k & -> & Hv).
  assert (0 <= value (Fin r k (Z.min e f)))%Q as Hpos by (rewrite Hv; lra).
  rewrite <-Hv, (value_mag _ Hpos) in Hmod. cbn [mag] in Hmod.
  destruct (fix_moderate r k _ Hmod) as (n' & e' & -> & Hz & Hc). eexists. split; [done|]. split; [done|].
  assert (0 <= value (Fin r n' e'))%Q as Hp'.
  { destruct r; [|unfold value; apply Qmult_le_0_compat; [change 0%Q with (inject_Z 0);
      rewrite <-Zle_Qle; unfold signed; lia|apply Qlt_le_weak, Q10_pos]].
    assert (k = 0%N) as Hk.
    { apply (value_zero k true (Z.min e f)). apply Qle_antisym; [|rewrite (value_mag _ Hpos); apply mag_nonneg].
      unfold value, signed. rewrite <-(Qmult_0_l (Q10 (Z.min e f))).
      apply Qmult_le_compat_r; [|apply Qlt_le_weak, Q10_pos]. change 0%Q with (inject_Z 0).
      rewrite <-Zle_Qle. lia. }
    apply Hz in Hk as ->. discriminate. }
  split; [done|]. by rewrite <-Hv, (value_mag _ Hpos), (value_mag _ Hp').
Qed.

(** ** Division *)

Lemma strip_zeros_value fuel ideal : ∀ c x c' x',
  strip_zeros fuel ideal c x = (c', x') →
  (inject_Z (Z.of_N c') * Q10 x' == inject_Z (Z.of_N c) * Q10 x)%Q.
Proof.
  induction fuel as [|fuel IH]; intros c x c' x'; cbn [strip_zeros]; [by intros [= <- <-]|].
  destruct ((x <? ideal) && (c mod 10 =? 0)%N) eqn:E; [|by intros [= <- <-]].
  intros ->%IH. apply andb_true_iff in E as [_ E%N.eqb_eq].
  assert (Z.of_N c = Z.of_N (c / 10) * 10) as ->.
  { pose proof (N.div_mod c 10 ltac:(lia)). lia. }
  rewrite inject_Z_mult, Q10_plus, Q10_one. ring.
Qed.

(** The quotient before it is rounded, of [top / bottom] scaled by [shift]. *)
Lemma quotient_near m n : (0 < m)%N → (0 < n)%N →
  let shift := ndigits n - ndigits m + PREC + 1 in
  ∃ top bottom, (0 < bottom)%N ∧ (0 < quotient m n shift)%N ∧
    (inject_Z (Z.of_N top) * / inject_Z (Z.of_N bottom) * Q10 (- shift)
      == inject_Z (Z.of_N m) * / inject_Z (Z.of_N n))%Q ∧
    10 ^ 28 * Z.abs (Z.of_N (quotient m n shift) * Z.of_N bottom - Z.of_N top) ≤ Z.of_N top.
Proof.
  intros Hm Hn shift.
  set (top := if 0 <=? shift then (m * pow10 shift)%N else m).
  set (bottom := if 0 <=? shift then n else (n * pow10 (- shift))%N).
  pose proof (ndigits_spec m Hm) as [Hml _]. pose proof (ndigits_spec n Hn) as [_ Hnu].
  pose proof (ndigits_pos m). pose proof (ndigits_pos n). unfold PREC in *.
  assert (Hne : ¬ (inject_Z (Z.of_N n) == 0)%Q).
  { change 0%Q with (inject_Z 0). rewrite inject_Z_injective. lia. }
  assert (Hfacts : (0 < bottom)%N ∧ 10 ^ 28 * Z.of_N bottom ≤ Z.of_N top ∧
    (inject_Z (Z.of_N top) * / inject_Z (Z.of_N bottom) * Q10 (- shift)
      == inject_Z (Z.of_N m) * / inject_Z (Z.of_N n))%Q).
  { unfold top, bottom. destruct (Z.leb_spec 0 shift) as [Hs|Hs].
    - split; [done|]. split.
      + rewrite N2Z.inj_mul, pow10_spec by lia.
        assert (10 ^ (ndigits m - 1) * 10 ^ shift = 10 ^ 28 * 10 ^ ndigits n) as Heq.
        { rewrite <-!pow_split by lia. f_equal. lia. }
        assert (0 < 10 ^ shift) by (by apply Z.pow_pos_nonneg). nia.
      + rewrite N2Z.inj_mul, inject_Z_mult, Q10_pow10 by lia.
        assert (Q10 shift * Q10 (- shift) == 1)%Q as Hone.
        { rewrite <-Q10_plus. replace (shift + - shift) with 0 by lia. by rewrite Q10_zero. }
        rewrite <-(Qmult_1_r (inject_Z (Z.of_N m))) at 2. rewrite <-Hone. ring.
    - pose proof (pow10_pos (- shift)). split; [lia|]. split.
      + rewrite N2Z.inj_mul, pow10_spec by lia.
        assert (10 ^ (ndigits m - 1) = 10 ^ 28 * 10 ^ ndigits n * 10 ^ (- shift)) as Heq.
        { rewrite <-!pow_split by lia. f_equal. lia. }
        assert (0 < 10 ^ (- shift)) by (by apply Z.pow_pos_nonneg; lia). nia.
      + rewrite N2Z.inj_mul, inject_Z_mult, Q10_pow10 by lia. pose proof (Q10_pos (- shift)).
        field. split; first [done|intros Hz; lra]. }
  destruct Hfacts as (Hb & Hbig & Hv). exists top, bottom.
  destruct (div_mod_Z top bottom Hb) as [Hd Hmod].
  assert (Hq : (quotient m n shift = top / bottom)%N ∧ (top mod bottom = 0)%N ∨
    (top / bottom ≤ quotient m n shift ≤ top / bottom + 1)%N ∧ (top mod bottom ≠ 0)%N).
  { unfold quotient. fold top bottom. destruct (N.eqb_spec (top mod bottom) 0); [by left|right].
    destruct (_ =? _)%N; lia. }
  assert (Hdiv : 10 ^ 28 ≤ Z.of_N (top / bottom)).
  { rewrite N2Z.inj_div. apply Z.div_le_lower_bound; lia. }
  change (10 ^ 28) with 10000000000000000000000000000 in *.
  split; [done|]. split; [lia|]. split; [done|].
  generalize dependent (quotient m n shift). generalize dependent (top / bottom)%N.
  generalize dependent (top mod bottom)%N. intros r Hr q Hdq Hbq q' [[-> ->]|[Hq' Hr0]]; [lia|nia].
Qed.

(** Between two powers of ten. *)
Definition within (a b : Z) (x : Q) : Prop := (Q10 a <= x <= Q10 b)%Q.

#[export] Instance within_proper a b : Proper (Qeq ==> iff) (within a b).
Proof. intros x y E. unfold within. by rewrite E. Qed.

Lemma within_weaken a b c d x : c ≤ a → b ≤ d → within a b x → within c d x.
Proof.
  intros Hc Hd [H1 H2]. split; [eapply Qle_trans; [apply Q10_le, Hc|done]|].
  eapply Qle_trans; [done|apply Q10_le, Hd].
Qed.

Lemma within_mult a b c d x y : within a b x → within c d y → within (a + c) (b + d) (x * y).
Proof.
  intros [H1 H2] [H3 H4]. pose proof (Q10_pos a). pose proof (Q10_pos b). pose proof (Q10_pos c).
  split; rewrite Q10_plus; apply Qmult_le_compat_nonneg; split; lra.
Qed.

Lemma within_inv a b x : within a b x → within (- b) (- a) (/ x).
Proof.
  intros [H1 H2]. pose proof (Q10_pos a). assert (0 < x)%Q as Hx by lra.
  assert (∀ e, / Q10 e == Q10 (- e))%Q as Hinv.
  { intros e. apply (Qmult_inj_l _ _ (Q10 e)); [pose proof (Q10_pos e); lra|].
    rewrite Qmult_inv_r by (pose proof (Q10_pos e); lra). rewrite <-Q10_plus, Z.add_opp_diag_r.
    by rewrite Q10_zero. }
  assert (∀ y z, 0 < y → y <= z → / z <= / y)%Q as Hle.
  { intros y z Hy Hyz. apply (Qmult_le_l _ _ y Hy). apply (Qmult_le_l _ _ z ltac:(lra)).
    assert (z * (y * / z) == y)%Q as -> by (field; lra). assert (z * (y * / y) == z)%Q as -> by (field; lra).
    done. }
  split; rewrite <-Hinv; by apply Hle.
Qed.

(** A few errors move a range by a digit at most. *)
Lemma within_close k a b x y : 0 ≤ k ≤ 10 ^ 27 → within a b x → (0 <= y)%Q → close k x y →
  within (a - 1) (b + 1) y.
Proof.
  intros Hk [Hlo Hhi] Hy [H1 H2].
  assert (1 # 2 <= 1 - inject_Z k * UNIT)%Q as Hhalf.
  { unfold UNIT. destruct Hk as [_ Hk]. rewrite Zle_Qle in Hk.
    change (inject_Z (10 ^ 27)) with (1000000000000000000000000000 # 1)%Q in Hk. lra. }
  set (t := (1 - inject_Z k * UNIT)%Q) in *. pose proof (Q10_pos a).
  assert (x * (1 # 2) <= y)%Q.
  { eapply Qle_trans; [|exact H1]. rewrite Qmult_comm. apply Qmult_le_compat_r; [done|lra]. }
  assert (y * (1 # 2) <= x)%Q.
  { eapply Qle_trans; [|exact H2]. rewrite Qmult_comm. apply Qmult_le_compat_r; done. }
  split.
  - assert (Q10 (a - 1) * inject_Z 10 <= Q10 a)%Q as Hten.
    { rewrite <-Q10_one, <-Q10_plus. apply Q10_le. lia. }
    change (inject_Z 10) with (10 # 1) in Hten. pose proof (Q10_pos (a - 1)). lra.
  - assert (Q10 b * inject_Z 10 <= Q10 (b + 1))%Q as Hten.
    { rewrite <-Q10_one, <-Q10_plus. apply Q10_le. lia. }
    change (inject_Z 10) with (10 # 1) in Hten. pose proof (Q10_pos b). lra.
Qed.

(** Well inside the range, so that a few rounding errors stay in it. *)
Definition inside : Q → Prop := within (-700000) 700000.

#[export] Instance inside_proper : Proper (Qeq ==> iff) inside.
Proof. apply within_proper. Qed.

Lemma close_moderate k x y : 0 ≤ k ≤ 10 ^ 27 → inside x → (0 <= y)%Q → close k x y → moderate y.
Proof.
  intros Hk Hx Hy Hc. right. apply (within_weaken (-700001) 700001); [lia..|].
  by apply (within_close k (-700000) 700000 x).
Qed.

(** A quotient before it is rounded: its last digit tells an inexact one. *)
Lemma div_steps s m e t n f : (0 < m)%N → (0 < n)%N →
  let shift := ndigits n - ndigits m + PREC + 1 in
  ∃ c x, decimal_div (Fin s m e) (Fin t n f) = fix_ (xorb s t) c x ∧
    (inject_Z (Z.of_N c) * Q10 x == inject_Z (Z.of_N (quotient m n shift)) * Q10 (e - f - shift))%Q ∧
    close 1 (mag (Fin s m e) / mag (Fin t n f)) (inject_Z (Z.of_N c) * Q10 x).
Proof.
  intros Hm Hn shift. cbn [decimal_div nan_check sign_of].
  rewrite (proj2 (N.eqb_neq n 0)), (proj2 (N.eqb_neq m 0)) by lia. fold shift.
  destruct (quotient_near m n Hm Hn) as (top & bottom & Hb & Hq & Hv & Hnear).
  fold shift in Hq, Hv, Hnear. set (q := quotient m n shift) in *.
  assert (Hbne : ¬ (inject_Z (Z.of_N bottom) == 0)%Q).
  { change 0%Q with (inject_Z 0). rewrite inject_Z_injective. lia. }
  assert (Hnne : ¬ (inject_Z (Z.of_N n) == 0)%Q).
  { change 0%Q with (inject_Z 0). rewrite inject_Z_injective. lia. }
  pose proof (Q10_pos f) as Hf0. pose proof (Q10_pos (- f)). pose proof (Q10_pos (- shift)).
  pose proof (Q10_pos e).
  assert (Hfinv : (/ Q10 f == Q10 (- f))%Q).
  { assert (Q10 (- f) * Q10 f == 1)%Q as Hone.
    { rewrite <-Q10_plus. replace (- f + f) with 0 by lia. by rewrite Q10_zero. }
    rewrite <-(Qmult_1_l (/ Q10 f)), <-Hone. field. lra. }
  set (kappa := (/ inject_Z (Z.of_N bottom) * Q10 (- shift) * (Q10 e * Q10 (- f)))%Q).
  assert (Hexact : (mag (Fin s m e) / mag (Fin t n f) == inject_Z (Z.of_N top) * kappa)%Q).
  { unfold mag, Qdiv, kappa. rewrite Qinv_mult_distr, Hfinv.
    transitivity ((inject_Z (Z.of_N m) * / inject_Z (Z.of_N n)) * (Q10 e * Q10 (- f)))%Q; [ring|].
    rewrite <-Hv. ring. }
  assert (Hgot : (inject_Z (Z.of_N q) * Q10 (e - f - shift)
    == inject_Z (Z.of_N q * Z.of_N bottom) * kappa)%Q).
  { unfold kappa. rewrite inject_Z_mult. replace (e - f - shift) with (e + (- f + - shift)) by lia.
    rewrite !Q10_plus. field. done. }
  assert (Hc1 : close 1 (mag (Fin s m e) / mag (Fin t n f)) (inject_Z (Z.of_N q) * Q10 (e - f - shift))).
  { rewrite Hexact, Hgot. apply close_int; [|nia..]. unfold kappa.
    repeat apply Qmult_le_0_compat; try (by apply Qlt_le_weak).
    apply Qlt_le_weak, Qinv_lt_0_compat. change 0%Q with (inject_Z 0). rewrite <-Zlt_Qlt. lia. }
  set (qe := if is_exact m n shift then strip_zeros (Z.to_nat (ndigits q)) (e - f) q (e - f - shift)
             else (q, e - f - shift)).
  destruct qe as [c x] eqn:Hqe. unfold qe in Hqe. clear qe.
  assert (Hval : (inject_Z (Z.of_N c) * Q10 x == inject_Z (Z.of_N q) * Q10 (e - f - shift))%Q).
  { destruct (is_exact m n shift); [by apply strip_zeros_value in Hqe|by injection Hqe as <- <-]. }
  exists c, x. split; [done|]. split; [done|]. by rewrite Hval.
Qed.

Lemma div_close s m e t n f : (0 < n)%N →
  m = 0%N ∨ inside (mag (Fin s m e) / mag (Fin t n f)) →
  ∃ n' e', decimal_div (Fin s m e) (Fin t n f) = Ok (Fin (xorb s t) n' e') ∧
    close 2 (mag (Fin s m e) / mag (Fin t n f)) (mag (Fin (xorb s t) n' e')).
Proof.
  intros Hn Hin. destruct (N.eq_dec m 0) as [->|Hm].
  { cbn [decimal_div nan_check sign_of]. rewrite (proj2 (N.eqb_neq n 0)) by lia. cbn [N.eqb].
    destruct (fix_zero (xorb s t) (e - f)) as [e' ->]. exists 0%N, e'. split; [done|].
    unfold mag, Qdiv. change (inject_Z (Z.of_N 0)) with 0%Q.
    split; rewrite ?Qmult_0_l, ?Qmult_0_r; apply Qle_refl. }
  destruct Hin as [Hin|Hin]; [done|]. destruct (div_steps s m e t n f ltac:(lia) Hn) as (c & x & -> & _ & Hc1).
  assert (Hc0 : (0 <= inject_Z (Z.of_N c) * Q10 x)%Q) by (apply (mag_nonneg (Fin false c x))).
  assert (moderate (inject_Z (Z.of_N c) * Q10 x)) as Hmod by (by eapply close_moderate, Hc1; [lia|..]).
  destruct (fix_moderate (xorb s t) c x Hmod) as (n' & e' & Hfix & _ & Hc2).
  exists n', e'. split; [exact Hfix|].
  apply (close_trans 1 1 _ (inject_Z (Z.of_N c) * Q10 x)); try done.
  - apply Qle_trans with (Q10 (-700000)); [apply Qlt_le_weak, Q10_pos|apply Hin].
  - apply (mag_nonneg (Fin (xorb s t) n' e')).
Qed.

(** ** To integers *)

Lemma signed_Qfloor s n : signed s n = if s then - Z.of_N n else Z.of_N n.
Proof. done. Qed.

(** The floor of a number, as an integer. *)
Lemma floor_int s n e : ∃ c x z,
  to_integral_value (Fin s n e) ROUND_FLOOR = Ok (Fin s c x) ∧ int_of (Fin s c x) = Some z ∧
  (inject_Z z <= value (Fin s n e) < inject_Z z + 1)%Q.
Proof.
  cbn [to_integral_value int_of]. destruct (Z.leb_spec 0 e) as [He|He].
  - eexists _, _, _. split; [done|]. split; [done|]. unfold rescale.
    rewrite (proj2 (Z.leb_le 0 e)) by lia. rewrite signed_mul, Z.sub_0_r, inject_Z_mult, Q10_pow10 by lia.
    unfold value. split; [apply Qle_refl|]. lra.
  - eexists _, 0, _. split; [done|]. split; [done|]. unfold rescale.
    rewrite (proj2 (Z.leb_gt 0 e)) by lia. cbn [Z.leb Z.compare Z.sub Z.opp Z.add].
    change (pow10 0) with 1%N. rewrite N.mul_1_r.
    pose proof (pow10_pos (- e)) as Hp. rewrite Z.sub_0_l, round_floor by lia.
    set (d := Z.of_N (pow10 (- e))) in *.
    assert (value (Fin s n e) * inject_Z d == inject_Z (signed s n))%Q as Hv.
    { unfold value, d. rewrite Q10_pow10, <-Qmult_assoc, <-Q10_plus by lia.
      replace (e + - e) with 0 by lia. rewrite Q10_zero. ring. }
    assert (0 < inject_Z d)%Q as Hd by (change 0%Q with (inject_Z 0); rewrite <-Zlt_Qlt; lia).
    pose proof (Z.div_mod (signed s n) d ltac:(lia)). pose proof (Z.mod_pos_bound (signed s n) d Hp).
    split.
    + apply (Qmult_le_r _ _ (inject_Z d) Hd). rewrite Hv, <-inject_Z_mult, <-Zle_Qle. nia.
    + apply (Qmult_lt_r _ _ (inject_Z d) Hd). rewrite Hv. change 1%Q with (inject_Z 1).
      rewrite <-inject_Z_plus, <-inject_Z_mult, <-Zlt_Qlt. nia.
Qed.

(** ** Comparison *)

Lemma cmp_value s m e t n f :
  decimal_cmp (Fin s m e) (Fin t n f) = (value (Fin s m e) ?= value (Fin t n f))%Q.
Proof.
  cbn [decimal_cmp]. set (x := Z.min e f).
  rewrite <-(scaled_value s m e x), <-(scaled_value t n f x) by lia. pose proof (Q10_pos x) as Hp.
  set (a := scaled s m e x). set (b := scaled t n f x). symmetry. destruct (Z.compare_spec a b) as [->|H|H].
  - by apply Qeq_alt.
  - apply Qlt_alt, Qmult_lt_compat_r; [done|]. by rewrite <-Zlt_Qlt.
  - apply Qgt_alt, Qmult_lt_compat_r; [done|]. by rewrite <-Zlt_Qlt.
Qed.

(** The comparisons with zero. *)
Lemma cmp_zero a : finite a → decimal_cmp a (of_Z 0) = (value a ?= 0)%Q.
Proof.
  destruct a as [s n e| |]; [|done..]. intros _. unfold of_Z. rewrite cmp_value.
  assert (value (Fin (0 <? 0) (Z.to_N (Z.abs 0)) 0) == 0)%Q as -> by apply Qmult_0_l. done.
Qed.

Lemma not_below_zero a : finite a → (0 <= value a)%Q → decimal_lt a (of_Z 0) = Ok false.
Proof.
  intros Hf H. unfold decimal_lt, decimal_order. rewrite cmp_zero by done. destruct a; [|done..]. cbn [is_nan orb of_Z].
  f_equal. destruct (Qcompare_spec (value (Fin neg coef exp)) 0); try done. lra.
Qed.

Lemma above_zero a : finite a → (0 < value a)%Q → decimal_le a (of_Z 0) = Ok false.
Proof.
  intros Hf H. unfold decimal_le, decimal_order. rewrite cmp_zero by done. destruct a; [|done..]. cbn [is_nan orb of_Z].
  f_equal. destruct (Qcompare_spec (value (Fin neg coef exp)) 0); try done; lra.
Qed.

(** What is left of a number above its floor is a number. *)
Lemma sub_floor a z : finite a → (inject_Z z <= value a <= inject_Z z + 1)%Q →
  ∃ d, decimal_sub a (of_Z z) = Ok d.
Proof.
  destruct a as [s m e| |]; [|done..]. intros _ [H1 H2]. unfold decimal_sub, of_Z. cbn [copy_negate].
  destruct (add_exact s m e (negb (z <? 0)) (Z.to_N (Z.abs z)) 0) as (r & k & -> & Hv).
  assert (value (Fin (negb (z <? 0)) (Z.to_N (Z.abs z)) 0) == - inject_Z z)%Q as Hz.
  { unfold value. rewrite Q10_zero, Qmult_1_r, <-inject_Z_opp. apply inject_Z_injective.
    unfold signed. destruct (Z.ltb_spec z 0); cbn [negb]; lia. }
  rewrite Hz in Hv. destruct (fix_ok r k (Z.min e 0)) as (n' & e' & ->); [|by eexists].
  rewrite <-value_abs, Hv. apply Qabs_Qle_condition.
  assert (1 <= Q10 800000)%Q; [rewrite <-Q10_zero; by apply Q10_le|lra].
Qed.
