(* ===== verification/DecimalError.v ===== *)
(** * Errors of decimal calculations

    Quotients that are fractions, a result near an exact number by so many
    rounding errors, and what quantizing adds. *)

From S2P Require Import Prelude PyData PyDecimal DecimalFacts.
From stdpp Require Import base numbers list.
From Stdlib Require Import ZArith NArith QArith Qpower Qabs Lqa Lia.

Local Open Scope Z_scope.

Lemma Q10_Z_le (m n a b : Z) : 0 ≤ a → 0 ≤ b →
  (inject_Z m * Q10 a <= inject_Z n * Q10 b)%Q ↔ m * 10 ^ a ≤ n * 10 ^ b.
Proof. intros Ha Hb. rewrite <-!Q10_int, <-!inject_Z_mult by done. by rewrite <-Zle_Qle. Qed.

(** Both sides of an inequality, ten to some power times. *)
Lemma Q10_shift_le (m n a b k : Z) :
  (inject_Z m * Q10 a <= inject_Z n * Q10 b)%Q ↔ (inject_Z m * Q10 (a + k) <= inject_Z n * Q10 (b + k))%Q.
Proof.
  rewrite !Q10_plus, !Qmult_assoc. symmetry. apply Qmult_le_r, Q10_pos.
Qed.

Lemma quotient_le m n shift s : (0 < n)%N → 0 ≤ s →
  (inject_Z (Z.of_N m) * Q10 shift <= inject_Z (Z.of_N n) * Q10 s)%Q → Z.of_N (quotient m n shift) ≤ 10 ^ s.
Proof.
  intros Hn Hs H. unfold quotient.
  set (top := if 0 <=? shift then (m * pow10 shift)%N else m).
  set (bottom := if 0 <=? shift then n else (n * pow10 (- shift))%N).
  assert (0 < bottom)%N as Hb by (unfold bottom; pose proof (pow10_pos (- shift)); destruct (0 <=? shift); lia).
  assert (Z.of_N top ≤ Z.of_N bottom * 10 ^ s) as Htop.
  { unfold top, bottom. destruct (Z.leb_spec 0 shift).
    - rewrite N2Z.inj_mul, pow10_spec by done. by apply Q10_Z_le.
    - rewrite N2Z.inj_mul, pow10_spec by lia. rewrite <-Z.mul_assoc, <-pow_split by lia.
      apply (Q10_shift_le _ _ _ _ (- shift)) in H. replace (shift + - shift) with 0 in H by lia.
      apply Q10_Z_le in H; [|lia..]. rewrite Z.pow_0_r, Z.mul_1_r in H. by replace (- shift + s) with (s + - shift) by lia. }
  pose proof (div_mod_Z top bottom Hb) as [Hdm Hr]. set (q := (top / bottom)%N) in *. set (r := (top mod bottom)%N) in *.
  clearbody q r top bottom. destruct (N.eqb_spec r 0) as [->|Hr0]; [nia|].
  assert (Z.of_N q < 10 ^ s) by nia. destruct (q mod 5 =? 0)%N; lia.
Qed.

(** Rounding does not pass a power of ten. *)
Lemma fix_le_pow s n e k n' e' : normal n e → (0 < n)%N →
  (inject_Z (Z.of_N n) * Q10 e <= Q10 k)%Q → fix_ s n e = Ok (Fin s n' e') →
  (inject_Z (Z.of_N n') * Q10 e' <= Q10 k)%Q.
Proof.
  intros [Hl Hu] Hn Hle. unfold fix_. rewrite (proj2 (N.eqb_neq n 0)) by lia.
  rewrite (proj2 (Z.ltb_ge _ _)) by lia. rewrite Z.max_l by lia.
  destruct (Z.ltb_spec e (ndigits n + e - PREC)) as [Hlt|Hge]; [|by intros [= <- <-]].
  unfold rescale. rewrite (proj2 (Z.leb_gt _ _)) by lia.
  set (j := ndigits n + e - PREC - e). set (c := round_div _ _ _ _).
  assert (inject_Z (Z.of_N c) * Q10 (ndigits n + e - PREC) <= Q10 k)%Q as Hc.
  { pose proof (ndigits_spec n Hn) as [Hd1 _].
    assert (ndigits n + e - 1 ≤ k) as Hk.
    { apply Q10_le_inv. eapply Qle_trans; [|exact Hle]. apply leading_digit. lia. }
    assert (0 ≤ k - e - j ∧ 0 < j) as [Ha Hj] by (unfold j, PREC in *; lia).
    assert (Z.of_N n ≤ 10 ^ (k - e - j) * 10 ^ j) as Hn10.
    { rewrite <-pow_split by lia. rewrite <-(Qmult_1_l (Q10 k)) in Hle.
      apply (Q10_shift_le (Z.of_N n) 1 e k (- e)) in Hle. replace (e + - e) with 0 in Hle by lia.
      apply Q10_Z_le in Hle; [|lia..]. rewrite Z.pow_0_r, Z.mul_1_r, Z.mul_1_l in Hle.
      by replace (k - e - j + j) with (k + - e) by lia. }
    assert (Z.of_N c ≤ 10 ^ (k - e - j)) as Hcle.
    { pose proof (round_div_cases CONTEXT_ROUNDING s n (pow10 j)) as Hcases. pose proof (pow10_pos j) as Hp.
      specialize (Hcases ltac:(lia)). fold c in Hcases. pose proof (div_mod_Z n (pow10 j) ltac:(lia)) as [Hdm Hr].
      rewrite pow10_spec in Hdm, Hr, Hp by lia.
      clear -Hcases Hdm Hr Hp Hn10. clearbody c. revert Hcases Hdm Hr Hp Hn10.
      generalize (10 ^ j) (10 ^ (k - e - j)) (n / pow10 j)%N (n mod pow10 j)%N. intros B A q r [->|[Hr0 ->]] Hdm Hr Hp Hn10.
      - apply (Z.mul_le_mono_pos_l _ _ B Hp). lia.
      - rewrite N2Z.inj_add. apply Z.lt_pred_le. apply (Z.mul_lt_mono_pos_l B _ _ Hp). lia. }
    rewrite <-(Qmult_1_l (Q10 k)). replace (ndigits n + e - PREC) with (j + e) by (unfold j; lia).
    apply (Q10_shift_le (Z.of_N c) 1 _ _ (- (j + e))). replace (j + e + - (j + e)) with 0 by lia.
    apply Q10_Z_le; [lia|lia|]. rewrite Z.pow_0_r, Z.mul_1_r, Z.mul_1_l. by replace (k + - (j + e)) with (k - e - j) by lia. }
  destruct (Z.ltb_spec PREC (ndigits c)) as [Hbig|Hfit]; cbv iota zeta beta;
    (destruct (_ <? _); [done|]); intros [= <- <-]; [|exact Hc].
  eapply Qle_trans; [|exact Hc]. rewrite Q10_plus, Q10_one, (Qmult_comm (Q10 _)), Qmult_assoc.
  apply Qmult_le_compat_r; [|apply Qlt_le_weak, Q10_pos]. rewrite <-inject_Z_mult, <-Zle_Qle.
  pose proof (N.Div0.mul_div_le c 10). lia.
Qed.

(** A part of a whole, rounded. *)
Lemma div_fraction m e n f : (0 < n)%N →
  (mag (Fin false m e) <= mag (Fin false n f))%Q → m = 0%N ∨ inside (mag (Fin false m e) / mag (Fin false n f)) →
  ∃ d, decimal_div (Fin false m e) (Fin false n f) = Ok d ∧ finite d ∧ (0 <= value d <= 1)%Q ∧
    close 2 (mag (Fin false m e) / mag (Fin false n f)) (value d).
Proof.
  intros Hn Hle Hin. destruct (div_close false m e false n f Hn Hin) as (n' & e' & Hd & Hc).
  exists (Fin false n' e'). split; [exact Hd|]. split; [done|].
  change (value (Fin false n' e')) with (mag (Fin false n' e')).
  split; [|exact Hc]. split; [apply mag_nonneg|].
  destruct (N.eq_dec m 0) as [->|Hm].
  { cbn [decimal_div nan_check sign_of xorb] in Hd. rewrite (proj2 (N.eqb_neq n 0)) in Hd by lia. cbn [N.eqb] in Hd.
    destruct (fix_zero false (e - f)) as [e0 He0]. rewrite He0 in Hd. injection Hd as <- <-.
    unfold mag. change (inject_Z (Z.of_N 0)) with 0%Q. rewrite Qmult_0_l. discriminate. }
  destruct Hin as [Hin|Hin]; [done|]. destruct (div_steps false m e false n f ltac:(lia) Hn) as (c & x & Hd' & Hval & Hc1).
  assert (Hc0 : (0 <= inject_Z (Z.of_N c) * Q10 x)%Q) by (apply (mag_nonneg (Fin false c x))).
  pose proof (within_close 1 (-700000) 700000 _ _ ltac:(lia) Hin Hc0 Hc1) as Hw.
  destruct (moderate_normal c x) as [Hcpos Hnorm].
  { destruct (within_weaken (-700000 - 1) (700000 + 1) (-800000) 800000 _ ltac:(lia) ltac:(lia) Hw) as [H1 H2]. by split. }
  rewrite Hd in Hd'. symmetry in Hd'. cbn [xorb] in Hd'.
  cbn [mag]. rewrite <-Q10_zero. apply (fix_le_pow false c x 0 n' e' Hnorm Hcpos); [|exact Hd'].
  rewrite Hval. set (shift := ndigits n - ndigits m + PREC + 1) in *. set (s := shift - (e - f)).
  assert (ndigits m + e - 1 < ndigits n + f) as Hdig.
  { apply Q10_lt_inv. eapply Qle_lt_trans; [apply leading_digit; lia|]. eapply Qle_lt_trans; [exact Hle|]. apply leading_digit. lia. }
  assert (0 ≤ s) as Hs by (unfold s, shift, PREC; lia).
  assert (Z.of_N (quotient m n shift) ≤ 10 ^ s) as Hq.
  { apply quotient_le; [done|done|]. cbn [mag] in Hle.
    apply (Q10_shift_le _ _ _ _ (shift - e)) in Hle. replace (e + (shift - e)) with shift in Hle by lia.
    by replace (f + (shift - e)) with s in Hle by (unfold s; lia). }
  replace (e - f - shift) with (- s) by (unfold s; lia). rewrite <-(Qmult_1_l (Q10 0)).
  apply (Q10_shift_le (Z.of_N (quotient m n shift)) 1 _ _ s). replace (- s + s) with 0 by lia. rewrite Z.add_0_l.
  apply Q10_Z_le; [lia|done|]. rewrite Z.pow_0_r. lia.
Qed.

Lemma few_small k : 0 ≤ k ≤ 10 ^ 27 → few k.
Proof. unfold few. lia. Qed.

Lemma close_zero k y : few k → 5 * k < 10 ^ 28 → (0 <= y)%Q → close k 0 y → (y == 0)%Q.
Proof.
  intros _ Hk Hy [_ H]. rewrite Zlt_Qlt, inject_Z_mult in Hk. change (inject_Z 5) with (5 # 1)%Q in Hk.
  change (inject_Z (10 ^ 28)) with (10000000000000000000000000000 # 1)%Q in Hk.
  assert (0 < 1 - inject_Z k * UNIT)%Q as Hp by (unfold UNIT; lra).
  apply Qle_antisym; [|done]. apply (Qmult_le_l _ _ _ Hp). lra.
Qed.

Lemma few_close_zero k y : 0 ≤ k ≤ 10 ^ 27 → (0 <= y)%Q → close k 0 y → (y == 0)%Q.
Proof. intros Hk. apply close_zero; [by apply few_small|lia]. Qed.

Lemma value_of_sign s n e : (value (Fin s n e) == (if s then -1 else 1) * mag (Fin s n e))%Q.
Proof.
  cbn [value mag]. unfold signed. destruct s; [|ring]. rewrite inject_Z_opp. ring.
Qed.

(** By the digits of a number. *)
Lemma digits_within n e a b : (0 < n)%N → a ≤ ndigits n + e - 1 → ndigits n + e ≤ b →
  within a b (value (Fin false n e)).
Proof.
  intros Hn H1 H2. pose proof (leading_digit n e Hn) as [Hl Hu].
  split; [eapply Qle_trans; [apply Q10_le, H1|exact Hl]|].
  eapply Qle_trans; [apply Qlt_le_weak, Hu|by apply Q10_le].
Qed.

(** The error that a few roundings leave. *)
Lemma close_error k y r : 0 ≤ k ≤ 10 ^ 26 → (0 <= y)%Q → (0 <= r)%Q → close k y r →
  (Qabs (r - y) <= inject_Z k * (2 * UNIT) * y)%Q.
Proof.
  intros [Hk0 Hk] Hy Hr Hc. pose proof (close_dist k y r (few_small k ltac:(lia)) Hy Hc) as Hd.
  assert (1 # 2 <= kept k)%Q as Hhalf.
  { unfold kept, UNIT. rewrite Zle_Qle in Hk.
    change (inject_Z (10 ^ 26)) with (100000000000000000000000000 # 1)%Q in Hk. lra. }
  pose proof (Qabs_nonneg (r - y)) as Ha.
  assert ((1 # 2) * Qabs (r - y) <= kept k * Qabs (r - y))%Q as H1 by by apply Qmult_le_compat_r.
  assert (inject_Z k * (2 * UNIT) * y == 2 * (inject_Z k * UNIT * y))%Q as -> by ring. lra.
Qed.

(** How far a mode rounds, in units of the last place: half of one for the modes
    to the nearest, less than one for the others. *)
Definition slack (mode : Rounding) : Q := if half_mode mode then (1 # 2)%Q else 1%Q.

Lemma slack_le mode : (slack mode <= 1)%Q.
Proof. unfold slack. destruct (half_mode mode); lra. Qed.

Lemma round_div_slack mode s n d : (0 < d)%N →
  (inject_Z (Z.abs (Z.of_N (round_div mode s n d) * Z.of_N d - Z.of_N n)) <= slack mode * inject_Z (Z.of_N d))%Q.
Proof.
  intros Hd. unfold slack. destruct (half_mode mode) eqn:Hm.
  - pose proof (round_div_half mode s n d Hd Hm) as Hh. rewrite Zle_Qle, inject_Z_mult in Hh.
    change (inject_Z 2) with (2 # 1)%Q in Hh. lra.
  - rewrite Qmult_1_l, <-Zle_Qle. pose proof (round_div_near mode s n d Hd). lia.
Qed.

(** A coefficient at another exponent. *)
Lemma rescale_near mode s n e t :
  (Qabs (inject_Z (Z.of_N (rescale mode s n e t)) * Q10 t - inject_Z (Z.of_N n) * Q10 e) <= slack mode * Q10 t)%Q.
Proof.
  unfold rescale. pose proof (Q10_pos t) as Ht. destruct (Z.leb_spec t e) as [Hte|Het].
  - rewrite N2Z.inj_mul, inject_Z_mult, Q10_pow10 by lia. rewrite <-Qmult_assoc, <-Q10_plus.
    replace (e - t + t) with e by lia. unfold Qminus. rewrite Qplus_opp_r. change (Qabs 0) with 0%Q.
    apply Qmult_le_0_compat; [unfold slack; by destruct (half_mode mode)|lra].
  - pose proof (pow10_pos (t - e)) as Hd.
    pose proof (round_div_slack mode s n (pow10 (t - e)) ltac:(lia)) as Hh.
    set (c := round_div _ _ _ _) in *.
    assert (Q10 t == inject_Z (Z.of_N (pow10 (t - e))) * Q10 e)%Q as E.
    { rewrite Q10_pow10, <-Q10_plus by lia. by replace (t - e + e) with t by lia. }
    rewrite E. pose proof (Q10_pos e) as He.
    assert (inject_Z (Z.of_N c) * (inject_Z (Z.of_N (pow10 (t - e))) * Q10 e) - inject_Z (Z.of_N n) * Q10 e
      == inject_Z (Z.of_N c * Z.of_N (pow10 (t - e)) - Z.of_N n) * Q10 e)%Q as ->.
    { unfold Z.sub. rewrite inject_Z_plus, inject_Z_opp, inject_Z_mult. ring. }
    rewrite Qabs_Qmult, (Qabs_pos (Q10 e)) by lra. rewrite Qmult_assoc. apply Qmult_le_compat_r; [exact Hh|lra].
Qed.

(** Rounded to the nearest. *)
Lemma rescale_half mode s n e t : half_mode mode = true →
  (Qabs (inject_Z (Z.of_N (rescale mode s n e t)) * Q10 t - inject_Z (Z.of_N n) * Q10 e) <= (1 # 2) * Q10 t)%Q.
Proof. intros Hm. pose proof (rescale_near mode s n e t) as Hn. unfold slack in Hn. by rewrite Hm in Hn. Qed.


(** ** Steps of a calculation *)

(** A decimal that is [k] rounding errors from a number, which is zero or
    between two powers of ten. *)
Record near (k : Z) (lo hi : Z) (x : Q) (d : decimal) : Prop := {
  near_finite : finite d;
  near_sign : (0 <= value d)%Q;
  near_nonneg : (0 <= x)%Q;
  near_close : close k x (value d);
  near_range : (x == 0)%Q ∨ within lo hi x;
}.

#[export] Instance near_proper k lo hi : Proper (Qeq ==> eq ==> iff) (near k lo hi).
Proof.
  intros x y E d ? <-. split; intros [H1 H2 H3 H4 H5]; (split; [done|done|..]);
    first [by rewrite E in H3|by rewrite E in H4|by rewrite E in H5|by rewrite E|rewrite E; by destruct H5; [left|right]].
Qed.

(** A number itself. *)
Lemma near_self lo hi d : finite d → (0 <= value d)%Q → (value d == 0)%Q ∨ within lo hi (value d) → near 0 lo hi (value d) d.
Proof. intros Hf Hd Hw. split; try done. apply close_refl; [apply few_small; lia|done]. Qed.

(** The result of an operation, by its magnitude. *)
Lemma near_of_mag k lo hi x s n e : 0 ≤ k ≤ 10 ^ 27 → (0 <= x)%Q → (x == 0)%Q ∨ within lo hi x →
  close k x (mag (Fin s n e)) → s = false ∨ (x == 0)%Q → near k lo hi x (Fin s n e).
Proof.
  intros Hk Hx Hw Hc Hs. assert (value (Fin s n e) == mag (Fin s n e))%Q as E.
  { destruct Hs as [->|Hx0]; [reflexivity|]. rewrite value_of_sign. rewrite Hx0 in Hc.
    rewrite (few_close_zero k _ Hk (mag_nonneg _) Hc). ring. }
  split; [done|rewrite E; apply mag_nonneg|done|by rewrite E|done].
Qed.

Lemma near_sign_false k lo hi x s n e : near k lo hi x (Fin s n e) → s = false ∨ (mag (Fin s n e) == 0)%Q.
Proof.
  intros [_ Hs _ _ _]. destruct s; [right|by left]. rewrite value_of_sign in Hs.
  pose proof (mag_nonneg (Fin true n e)). apply Qle_antisym; lra.
Qed.

Lemma near_mag k lo hi x s n e : near k lo hi x (Fin s n e) → (value (Fin s n e) == mag (Fin s n e))%Q.
Proof. intros [_ Hs _ _ _]. by apply value_mag. Qed.

(** A zero is exact. *)
Lemma near_zero k lo hi x d : 0 ≤ k ≤ 10 ^ 27 → near k lo hi x d → (x == 0)%Q → (value d == 0)%Q.
Proof. intros Hk [_ Hs _ Hc _] Hx. rewrite Hx in Hc. by apply (few_close_zero k). Qed.

Lemma near_mul j k a b c d x y u v :
  near j a b x u → near k c d y v → 0 ≤ j ≤ 10 ^ 26 → 0 ≤ k ≤ 10 ^ 26 → -600000 ≤ a + c → b + d ≤ 600000 →
  ∃ w, decimal_mul u v = Ok w ∧ near (j + k + 1) (a + c) (b + d) (x * y) w.
Proof.
  intros Hu Hv Hj Hk Hlo Hhi. pose proof Hu as [Hfu Hsu Hx Hcu Hru]. pose proof Hv as [Hfv Hsv Hy Hcv Hrv].
  destruct u as [s m e| |]; [|done..]. destruct v as [t n f| |]; [|done..].
  pose proof (near_mag _ _ _ _ _ _ _ Hu) as Eu. pose proof (near_mag _ _ _ _ _ _ _ Hv) as Ev. rewrite Eu in Hcu. rewrite Ev in Hcv.
  assert (0 <= x * y)%Q as Hxy by by apply Qmult_le_0_compat.
  assert (x * y == 0 ∨ within (a + c) (b + d) (x * y))%Q as Hr.
  { destruct Hru as [E|Hru]; [left; rewrite E; apply Qmult_0_l|]. destruct Hrv as [E|Hrv]; [left; rewrite E; apply Qmult_0_r|].
    right. by apply within_mult. }
  pose proof (mag_nonneg (Fin s m e)) as Hmu. pose proof (mag_nonneg (Fin t n f)) as Hmv.
  assert (close (j + k) (x * y) (mag (Fin s m e) * mag (Fin t n f))) as Hc.
  { apply close_mult; [apply few_small; lia|apply few_small; lia|done..]. }
  assert (0 <= mag (Fin s m e) * mag (Fin t n f))%Q as Hp0 by by apply Qmult_le_0_compat.
  destruct (mul_close s m e t n f) as (n' & e' & Hmul & Hc').
  { destruct Hr as [E|Hr]; [left|].
    - rewrite E in Hc. apply (few_close_zero (j + k)); [lia|done|done].
    - apply (close_moderate (j + k) (x * y)); [lia| |done|done].
      exact (within_weaken (a + c) (b + d) (-700000) 700000 _ ltac:(lia) ltac:(lia) Hr). }
  exists (Fin (xorb s t) n' e'). split; [done|]. apply near_of_mag; [lia|done|done| |].
  - apply (close_trans (j + k) 1 _ (mag (Fin s m e) * mag (Fin t n f)));
      [apply few_small; lia|apply few_small; lia|done|done|apply mag_nonneg|done|done].
  - destruct (near_sign_false _ _ _ _ _ _ _ Hu) as [->|E]; [destruct (near_sign_false _ _ _ _ _ _ _ Hv) as [->|E]; [by left|right]|right].
    + rewrite E in Hcv. apply close_sym in Hcv. assert (y == 0)%Q as -> by (by apply (few_close_zero k); [lia|..]). apply Qmult_0_r.
    + rewrite E in Hcu. apply close_sym in Hcu. assert (x == 0)%Q as -> by (by apply (few_close_zero j); [lia|..]). apply Qmult_0_l.
Qed.

Lemma near_div j k a b c d x y u v :
  near j a b x u → near k c d y v → (0 < y)%Q → 0 ≤ j ≤ 10 ^ 26 → 0 ≤ k ≤ 10 ^ 26 → -600000 ≤ a - d → b - c ≤ 600000 →
  ∃ w, decimal_div u v = Ok w ∧ near (j + k + 2) (a - d) (b - c) (x / y) w.
Proof.
  intros Hu Hv Hy0 Hj Hk Hlo Hhi. pose proof Hu as [Hfu Hsu Hx Hcu Hru]. pose proof Hv as [Hfv Hsv Hy Hcv Hrv].
  destruct u as [s m e| |]; [|done..]. destruct v as [t n f| |]; [|done..].
  pose proof (near_mag _ _ _ _ _ _ _ Hu) as Eu. pose proof (near_mag _ _ _ _ _ _ _ Hv) as Ev. rewrite Eu in Hcu. rewrite Ev in Hcv.
  pose proof (mag_nonneg (Fin s m e)) as Hmu. pose proof (mag_nonneg (Fin t n f)) as Hmv.
  assert (¬ (mag (Fin t n f) == 0)%Q) as Hn0.
  { intros E. rewrite E in Hcv. apply close_sym in Hcv. assert (y == 0)%Q by (by apply (few_close_zero k); [lia|..]). lra. }
  assert (0 < mag (Fin t n f))%Q as Hvp by lra.
  assert (t = false) as -> by (by destruct (near_sign_false _ _ _ _ _ _ _ Hv)).
  assert (n ≠ 0%N) as Hn. { intros ->. by apply Hn0, Qmult_0_l. }
  destruct Hrv as [E|Hrv]; [rewrite E in Hy0; by apply Qlt_irrefl in Hy0|].
  assert (0 <= / y)%Q as Hiy by by apply Qlt_le_weak, Qinv_lt_0_compat.
  assert (0 <= / mag (Fin false n f))%Q as Him by by apply Qlt_le_weak, Qinv_lt_0_compat.
  assert (0 <= x / y)%Q as Hxy by by apply Qmult_le_0_compat.
  assert (x / y == 0 ∨ within (a - d) (b - c) (x / y))%Q as Hr.
  { destruct Hru as [E|Hru]; [left; unfold Qdiv; rewrite E; apply Qmult_0_l|right]. apply within_mult; [done|by apply within_inv]. }
  assert (close (j + k) (x / y) (mag (Fin s m e) / mag (Fin false n f))) as Hc.
  { apply close_mult; [apply few_small; lia|apply few_small; lia|done..|]. by apply close_inv. }
  assert (0 <= mag (Fin s m e) / mag (Fin false n f))%Q as Hp0 by by apply Qmult_le_0_compat.
  destruct (div_close s m e false n f ltac:(lia)) as (n' & e' & Hdiv & Hc').
  { destruct Hr as [E|Hr]; [left|right].
    - rewrite E in Hc. pose proof (few_close_zero (j + k) _ ltac:(lia) Hp0 Hc) as E0.
      apply (mag_zero m e). change (mag (Fin s m e) == 0)%Q. rewrite <-(Qmult_div_r (mag (Fin s m e)) _ Hn0), E0. apply Qmult_0_r.
    - pose proof (within_close (j + k) (a - d) (b - c) _ _ ltac:(lia) Hr Hp0 Hc) as Hw.
      refine (within_weaken _ _ (-700000) 700000 _ _ _ Hw); lia. }
  exists (Fin (xorb s false) n' e'). split; [done|]. apply near_of_mag; [lia|done|done| |].
  - apply (close_trans (j + k) 2 _ (mag (Fin s m e) / mag (Fin false n f)));
      [apply few_small; lia|apply few_small; lia|done|done|apply mag_nonneg|done|done].
  - destruct (near_sign_false _ _ _ _ _ _ _ Hu) as [->|E]; [by left|right].
    rewrite E in Hcu. apply close_sym in Hcu. unfold Qdiv. assert (x == 0)%Q as -> by (by apply (few_close_zero j); [lia|..]). apply Qmult_0_l.
Qed.

(** What quantizing gives, when it is not refused. *)
Lemma quantize_Ok mode s n e t d : half_mode mode = true → -1000 ≤ t ≤ 0 →
  quantize (Fin s n e) (Fin false 1 t) mode = Ok d →
  ∃ c, d = Fin s c t ∧ Z.of_N c < 10 ^ PREC ∧
    (Qabs (inject_Z (Z.of_N c) * Q10 t - mag (Fin s n e)) <= (1 # 2) * Q10 t)%Q.
Proof.
  intros Hm Ht Hq. pose proof (rescale_half mode s n e t Hm) as Hh.
  cbn [quantize nan_check] in Hq. destruct (_ || _) in Hq; [done|].
  assert (Hfix : ∀ c, Z.of_N c < 10 ^ PREC → fix_ s c t = Ok (Fin s c t)).
  { intros c Hc. apply fix_exact. unfold fits, ETINY, ETOP, EMIN, EMAX, PREC in *. lia. }
  destruct (N.eqb_spec n 0) as [->|Hn].
  - rewrite Hfix in Hq by done. injection Hq as <-. exists 0%N. split; [done|]. split; [done|].
    assert (rescale mode s 0 e t = 0%N) as E.
    { unfold rescale. destruct (t <=? e); [done|]. pose proof (pow10_pos (t - e)). by apply (round_div_exact mode s 0); lia. }
    by rewrite E in Hh.
  - destruct (_ || _) in Hq; [done|]. set (c := rescale mode s n e t) in *.
    destruct (_ || _) eqn:E in Hq; [done|]. apply orb_false_iff in E as [_ E%Z.ltb_ge].
    apply ndigits_le in E; [|unfold PREC; lia]. rewrite Hfix in Hq by done. injection Hq as <-. by exists c.
Qed.

(** A quantum of so many places. *)
Lemma scaleb_one k : 0 ≤ k ≤ 1000 → scaleb (of_Z 1) (- k) = Ok (Fin false 1 (- k)).
Proof.
  intros [H0 H1]. unfold scaleb, of_Z. cbn [Z.ltb Z.compare Z.abs Z.to_N].
  unfold EMAX, PREC. rewrite (proj2 (Z.ltb_ge _ _)), (proj2 (Z.ltb_ge _ _)) by lia. cbn [orb].
  rewrite fix_exact; [by rewrite Z.add_0_l|]. unfold fits, PREC, ETINY, ETOP, EMIN, EMAX, PREC. lia.
Qed.

(** Equality of decimals is equality of numbers. *)
Lemma eq_value a b : finite a → finite b → decimal_eq a b = Ok true ↔ (value a == value b)%Q.
Proof.
  destruct a as [s m e| |]; [|done..]. destruct b as [t n f| |]; [|done..]. intros _ _.
  unfold decimal_eq. rewrite cmp_value.
  destruct (Qcompare_spec (value (Fin s m e)) (value (Fin t n f))) as [E|H|H]; split; intros Hr; try done.
  - exfalso. rewrite Hr in H. by apply Qlt_irrefl in H.
  - exfalso. rewrite Hr in H. by apply Qlt_irrefl in H.
Qed.
