(* ===== verification/DecimalText.v ===== *)
(** * Numerals

    The text of a decimal without an exponent, which is also its [str] when it
    has at most six decimals, reads back as the same number. *)

From S2P Require Import Prelude PyData PyTime PyDecimal DecimalFacts DecimalError PyZone.
From stdpp Require Import base numbers strings pretty list.
From Stdlib Require Import ZArith NArith QArith Ascii Lqa Lia.

Local Open Scope Z_scope.

(** ** Strings *)

Lemma rev_app_spec a : ∀ b c, String.rev_app a (b +:+ c) = String.rev_app a b +:+ c.
Proof. induction a as [|x a IH]; intros b c; [done|]. cbn. by rewrite <-IH. Qed.

Lemma rev_snoc a c : String.rev (a +:+ String c "") = String c (String.rev a).
Proof.
  unfold String.rev.
  cut (∀ b, String.rev_app (a +:+ String c "") b = String c (String.rev_app a b)); [done|].
  induction a as [|x a IH]; intros b; [done|]. cbn. apply IH.
Qed.

Lemma rev_involutive a : String.rev (String.rev a) = a.
Proof.
  induction a as [|x a IH]; [done|].
  assert (String.rev (String x a) = String.rev a +:+ String x "") as ->.
  { unfold String.rev. cbn [String.rev_app]. by rewrite <-(rev_app_spec a "" (String x "")). }
  by rewrite rev_snoc, IH.
Qed.

(** Nothing to strip. *)
Lemma rstrip_last c a d : d ≠ c → rstrip_char c (a +:+ String d "") = a +:+ String d "".
Proof.
  intros Hd. unfold rstrip_char. rewrite rev_snoc. assert (Ascii.eqb d c = false) as -> by (by apply Ascii.eqb_neq).
  rewrite <-rev_snoc. apply rev_involutive.
Qed.

(** ** Digits *)

Definition is_digit_char (c : ascii) : bool := match digit_val c with Some _ => true | None => false end.

(** The number that a text of digits continues. *)
Fixpoint digits_number (acc : N) (s : string) : N :=
  match s with
  | String c s => digits_number (10 * acc + Z.to_N (default 0 (digit_val c))) s
  | EmptyString => acc
  end.

Lemma digits_number_app a : ∀ acc b, digits_number acc (a +:+ b) = digits_number (digits_number acc a) b.
Proof. induction a as [|c a IH]; intros acc b; [done|]. apply IH. Qed.

(** A text that does not go on with a digit. *)
Definition no_digit (s : string) : Prop := match s with String c _ => digit_val c = None | EmptyString => True end.

Lemma take_digits_all a : ∀ acc k rest, str_all is_digit_char a = true → no_digit rest →
  take_digits acc k (a +:+ rest) = (digits_number acc a, (k + String.length a)%nat, rest).
Proof.
  induction a as [|c a IH]; intros acc k rest Ha Hr.
  - cbn [String.length digits_number]. rewrite Nat.add_0_r. change ("" +:+ rest) with rest.
    destruct rest as [|c rest]; [done|]. cbn in Hr |- *. by rewrite Hr.
  - cbn in Ha. apply andb_true_iff in Ha as [Hc Ha]. unfold is_digit_char in Hc.
    change (String c a +:+ rest) with (String c (a +:+ rest)). cbn [take_digits digits_number String.length].
    destruct (digit_val c) as [d|]; [|done]. rewrite IH by done. cbn [default]. do 2 f_equal. lia.
Qed.

Lemma digit_char n : (n < 10)%N → digit_val (pretty_N_char n) = Some (Z.of_N n).
Proof.
  intros Hn. assert (n = 0 ∨ n = 1 ∨ n = 2 ∨ n = 3 ∨ n = 4 ∨ n = 5 ∨ n = 6 ∨ n = 7 ∨ n = 8 ∨ n = 9)%N as H by lia.
  destruct_or! H; subst n; reflexivity.
Qed.

Lemma pretty_go_spec n : ∀ s, (0 < n)%N → ∃ a, pretty_N_go n s = a +:+ String (pretty_N_char (n mod 10)) s ∧
  str_all is_digit_char a = true ∧ digits_number 0 a = (n / 10)%N.
Proof.
  induction (N.lt_wf_0 n) as [n _ IH]. intros s Hn. rewrite pretty_N_go_step by done.
  destruct (N.eq_dec (n / 10) 0) as [E|E].
  - rewrite E, pretty_N_go_0. by exists "".
  - assert (0 < n / 10)%N as Hq by (apply N.neq_0_lt_0; exact E).
    destruct (IH (n / 10)%N (N.div_lt n 10 Hn eq_refl) (String (pretty_N_char (n mod 10)) s) Hq) as (a & Ha & Hd & Hv).
    exists (a +:+ String (pretty_N_char (n / 10 mod 10)) ""). rewrite Ha, string_app_assoc. split; [done|].
    pose proof (N.mod_lt (n / 10) 10 ltac:(done)) as Hlt. split.
    + rewrite str_all_app, Hd. cbn. unfold is_digit_char. by rewrite digit_char.
    + rewrite digits_number_app, Hv. cbn [digits_number]. rewrite digit_char by done. cbn [from_option id]. rewrite N2Z.id.
      pose proof (N.div_mod (n / 10) 10 ltac:(done)). lia.
Qed.

(** The digits of a number: a text of digits that is the number, with its last
    digit. *)
Lemma pretty_digits n : ∃ a, pretty (Z.of_N n) = a +:+ String (pretty_N_char (n mod 10)) "" ∧
  str_all is_digit_char (pretty (Z.of_N n)) = true ∧ digits_number 0 (pretty (Z.of_N n)) = n.
Proof.
  assert (pretty (Z.of_N n) = pretty n) as -> by by destruct n. unfold pretty, pretty_N.
  destruct (decide (n = 0%N)) as [->|Hn]; [by exists ""|].
  destruct (pretty_go_spec n "") as (a & -> & Hd & Hv); [lia|].
  pose proof (N.mod_lt n 10 ltac:(done)) as Hlt. exists a. split; [done|]. split.
  - rewrite str_all_app, Hd. cbn. unfold is_digit_char. by rewrite digit_char.
  - rewrite digits_number_app, Hv. cbn [digits_number]. rewrite digit_char by done. cbn [from_option id]. rewrite N2Z.id.
    pose proof (N.div_mod n 10 ltac:(done)). lia.
Qed.

Lemma digits_number_zeros k : ∀ acc, digits_number acc (zeros k) = (acc * 10 ^ N.of_nat k)%N.
Proof.
  induction k as [|k IH]; intros acc; [cbn; lia|]. cbn [zeros digits_number]. rewrite IH.
  change (default 0 (digit_val "0")) with 0. rewrite Nat2N.inj_succ, N.pow_succ_r'. cbn [Z.to_N]. lia.
Qed.

Lemma zeros_digits k : str_all is_digit_char (zeros k) = true.
Proof. by induction k. Qed.

Lemma zeros_length k : String.length (zeros k) = k.
Proof. induction k as [|k IH]; [done|]. cbn. by rewrite IH. Qed.

(** ** The fixed text of a number *)

(** Without the sign. *)
Definition fixed_body (c : N) (x : Z) : string :=
  let digits := pretty (Z.of_N c) in
  let count := Z.of_nat (String.length digits) in
  let dot := count + x in
  if dot <? 0 then "0." +:+ zeros (Z.to_nat (- dot)) +:+ digits
  else if count <=? dot then digits +:+ zeros (Z.to_nat (dot - count))
  else (if dot =? 0 then "0" else str_take (Z.to_nat dot) digits) +:+ "." +:+ str_drop (Z.to_nat dot) digits.

Lemma fixed_text_body s c x : (0 < c)%N → fixed_text s c x = (if s then "-" else "") +:+ fixed_body c x.
Proof. intros Hc. unfold fixed_text, fixed_body. by rewrite (proj2 (N.eqb_neq c 0)) by lia. Qed.

(** The text of a number that is not zero: digits, or digits on both sides of a
    point of which the last is the last digit of the coefficient. *)
Inductive body_shape (c : N) (x : Z) : string → Prop :=
  | body_whole a : 0 ≤ x → str_all is_digit_char a = true → a ≠ "" → digits_number 0 a = (c * 10 ^ Z.to_N x)%N →
      body_shape c x a
  | body_point a b d : x < 0 → str_all is_digit_char a = true → a ≠ "" → str_all is_digit_char (b +:+ String d "") = true →
      digit_val d = Some (Z.of_N (c mod 10)) → Z.of_nat (String.length (b +:+ String d "")) = - x →
      digits_number (digits_number 0 a) (b +:+ String d "") = c → body_shape c x (a +:+ "." +:+ (b +:+ String d "")).

Lemma str_take_length k : ∀ a, (k ≤ String.length a)%nat → String.length (str_take k a) = k.
Proof. induction k as [|k IH]; intros [|c a] Hk; cbn in *; [done..|lia|]. rewrite IH; lia. Qed.

Lemma str_drop_last k : ∀ a d, (k ≤ String.length a)%nat →
  ∃ b, str_drop k (a +:+ String d "") = b +:+ String d "".
Proof.
  induction k as [|k IH]; intros a d Hk; [by exists a|]. destruct a as [|c a]; cbn in Hk; [lia|].
  change (str_drop (S k) (String c a +:+ String d "")) with (str_drop k (a +:+ String d "")). apply IH. lia.
Qed.

Lemma fixed_body_shape c x : (0 < c)%N → body_shape c x (fixed_body c x).
Proof.
  intros Hc. unfold fixed_body. destruct (pretty_digits c) as (p & Hp & Hall & Hnum).
  pose proof (digit_char (c mod 10) (N.mod_lt c 10 ltac:(done))) as Hlast.
  set (D := pretty (Z.of_N c)) in *. set (n := Z.of_nat (String.length D)).
  assert (0 < n) as Hn.
  { unfold n. rewrite Hp, string_app_length. cbn [String.length]. lia. }
  assert (D ≠ "") as Hne by (intros E; unfold n in Hn; rewrite E in Hn; cbn in Hn; lia).
  destruct (Z.ltb_spec (n + x) 0) as [Hneg|Hpos].
  - rewrite Hp in Hall, Hnum |- *.
    assert ("0." +:+ zeros (Z.to_nat (- (n + x))) +:+ (p +:+ String (pretty_N_char (c mod 10)) "")
      = "0" +:+ "." +:+ ((zeros (Z.to_nat (- (n + x))) +:+ p) +:+ String (pretty_N_char (c mod 10)) "")) as ->
      by by rewrite string_app_assoc.
    constructor; [lia|done|done| |done| |].
    + rewrite string_app_assoc, str_all_app, zeros_digits. exact Hall.
    + rewrite string_app_assoc, string_app_length, zeros_length, <-Hp. fold D. unfold n in *. lia.
    + rewrite string_app_assoc, digits_number_app. cbn [digits_number].
      change (digits_number 0 "0") with 0%N. rewrite digits_number_zeros, N.mul_0_l. exact Hnum.
  - destruct (Z.leb_spec n (n + x)) as [Hx|Hx].
    + apply body_whole; [lia| | |].
      * by rewrite str_all_app, zeros_digits, Hall.
      * intros E. apply (f_equal String.length) in E. rewrite string_app_length in E. unfold n in Hn. cbn in E. lia.
      * rewrite digits_number_app, Hnum, digits_number_zeros. do 2 f_equal. lia.
    + assert (Hk : (Z.to_nat (n + x) ≤ String.length D)%nat) by (unfold n in *; lia).
      pose proof (str_take_drop (Z.to_nat (n + x)) D) as Htd. pose proof Htd as Htd'.
      rewrite <-Htd, str_all_app in Hall. apply andb_true_iff in Hall as [Ha Hb].
      rewrite <-Htd, digits_number_app in Hnum.
      pose proof (f_equal String.length Htd) as Hlen. rewrite string_app_length, str_take_length in Hlen by done.
      destruct (str_drop_last (Z.to_nat (n + x)) p (pretty_N_char (c mod 10))) as [b Hbd].
      { rewrite Hp, string_app_length in Hk. cbn [String.length] in Hk.
        assert (n = Z.of_nat (String.length p) + 1) by (unfold n; rewrite Hp, string_app_length; cbn [String.length]; lia). lia. }
      rewrite <-Hp in Hbd. rewrite Hbd in *. constructor; [lia| | |done|done|unfold n in *; lia|].
      * by destruct (Z.eqb_spec (n + x) 0).
      * destruct (Z.eqb_spec (n + x) 0) as [|Hnz]; [done|]. intros E. apply (f_equal String.length) in E.
        rewrite str_take_length in E by done. cbn in E. lia.
      * destruct (Z.eqb_spec (n + x) 0) as [E0|_]; [|exact Hnum]. rewrite E0 in Hnum. exact Hnum.
Qed.

(** ** Reading the text back *)

Definition numeral_char (c : ascii) : bool := is_digit_char c || Ascii.eqb c "." || Ascii.eqb c "-".

Lemma numeral_char_facts c : numeral_char c = true →
  is_space c = false ∧ lower_char c = c ∧ Ascii.eqb c "_" = false.
Proof. destruct c as [[] [] [] [] [] [] [] []]; vm_compute; intros H; try discriminate H; done. Qed.

Lemma str_all_rev p a : str_all p (String.rev a) = str_all p a.
Proof.
  induction a as [|c a IH]; [done|]. assert (String.rev (String c a) = String.rev a +:+ String c "") as ->.
  { unfold String.rev. cbn [String.rev_app]. by rewrite <-(rev_app_spec a "" (String c "")). }
  rewrite str_all_app, IH. cbn. by rewrite andb_true_r, andb_comm.
Qed.

Lemma lstrip_numeral a : str_all numeral_char a = true → lstrip a = a.
Proof. destruct a as [|c a]; [done|]. cbn. intros [Hc _]%andb_true_iff. by destruct (numeral_char_facts c Hc) as [-> _]. Qed.

Lemma numeral_plain a : str_all numeral_char a = true → str_lower (drop_underscores (strip a)) = a.
Proof.
  intros Ha. unfold strip. rewrite (lstrip_numeral a Ha), lstrip_numeral, rev_involutive by by rewrite str_all_rev.
  induction a as [|c a IH]; [done|]. cbn in Ha. apply andb_true_iff in Ha as [Hc Ha].
  destruct (numeral_char_facts c Hc) as (_ & Hl & Hu). cbn [drop_underscores]. rewrite Hu. cbn [str_lower]. by rewrite Hl, IH.
Qed.

Lemma str_all_weaken (p q : ascii → bool) a : (∀ c, p c = true → q c = true) → str_all p a = true → str_all q a = true.
Proof.
  intros Hpq. induction a as [|c a IH]; [done|]. cbn. intros [Hc Ha]%andb_true_iff. by rewrite Hpq, IH.
Qed.

Lemma digits_numeral a : str_all is_digit_char a = true → str_all numeral_char a = true.
Proof. apply str_all_weaken. intros c Hc. unfold numeral_char. by rewrite Hc. Qed.

(** The number that a text of digits and a point is. *)
Lemma body_parse c x a neg : body_shape c x a → (0 < c)%N →
  str_all numeral_char a = true ∧ (∃ d rest, a = String d rest ∧ is_digit_char d = true) ∧
  parse_number neg a = Some (Fin neg (c * 10 ^ Z.to_N x)%N (Z.min x 0)).
Proof.
  intros Hshape Hc. destruct Hshape as [a Hx Ha Hne Hn|a b d Hx Ha Hne Hb Hd Hlen Hn].
  - split; [by apply digits_numeral|]. split.
    { destruct a as [|d rest]; [done|]. cbn in Ha. apply andb_true_iff in Ha as [Hd _]. by exists d, rest. }
    unfold parse_number. pose proof (take_digits_all a 0 0 "" Ha I) as Ht.
    rewrite string_app_nil_r in Ht. rewrite Ht.
    assert (String.length a ≠ 0%nat) as Hl by (by destruct a). cbn [Nat.add]. rewrite Nat.add_0_r.
    rewrite (proj2 (Nat.eqb_neq _ 0) Hl). cbn [parse_exponent mbind option_bind]. rewrite Hn. do 2 f_equal. lia.
  - split; [|split].
    + rewrite str_all_app, (digits_numeral a Ha). change ("." +:+ ?y) with (String "." y). cbn [str_all].
      by rewrite (digits_numeral _ Hb).
    + destruct a as [|e rest]; [done|]. cbn in Ha. apply andb_true_iff in Ha as [He _]. by exists e, (rest +:+ "." +:+ (b +:+ String d "")).
    + unfold parse_number. set (f := b +:+ String d "") in *.
      rewrite (take_digits_all a 0 0 ("." +:+ f) Ha) by done. cbn [Nat.add]. change ("." +:+ f) with (String "." f). cbn [Ascii.eqb Bool.eqb].
      pose proof (take_digits_all f (digits_number 0 a) 0 "" Hb I) as Ht.
      rewrite string_app_nil_r in Ht. rewrite Ht.
      assert (String.length a ≠ 0%nat) as Hl by (by destruct a). cbn [Nat.add].
      rewrite (proj2 (Nat.eqb_neq _ 0)) by lia. cbn [parse_exponent mbind option_bind]. rewrite Hn.
      replace (Z.to_N x) with 0%N by lia. rewrite N.pow_0_r, N.mul_1_r. do 2 f_equal. lia.
Qed.

Lemma digit_not_letter d : is_digit_char d = true →
  Ascii.eqb d "-" = false ∧ Ascii.eqb d "+" = false ∧ Ascii.eqb d "i" = false ∧ Ascii.eqb d "s" = false ∧ Ascii.eqb d "n" = false
  ∧ Ascii.eqb "n" d = false.
Proof. destruct d as [[] [] [] [] [] [] [] []]; vm_compute; intros H; try discriminate H; by split_and!. Qed.

Lemma fixed_text_parse s c x : (0 < c)%N →
  parse_decimal (fixed_text s c x) = Some (Fin s (c * 10 ^ Z.to_N x)%N (Z.min x 0)).
Proof.
  intros Hc. rewrite fixed_text_body by done.
  destruct (body_parse c x _ s (fixed_body_shape c x Hc) Hc) as (Hall & (d & rest & Hbody & Hd) & Hparse).
  set (a := fixed_body c x) in *. destruct (digit_not_letter d Hd) as (H1 & H2 & H3 & H4 & H5 & H6).
  unfold parse_decimal. rewrite numeral_plain by (rewrite str_all_app, Hall; by destruct s).
  assert (take_sign ((if s then "-" else "") +:+ a) = (s, a)) as ->.
  { destruct s; [done|]. change ("" +:+ a) with a. rewrite Hbody. cbn [take_sign]. by rewrite H1, H2. }
  assert (String.eqb a "inf" = false ∧ String.eqb a "infinity" = false) as [-> ->].
  { rewrite Hbody. cbn [String.eqb]. by rewrite H3. }
  cbn [orb]. rewrite Hbody in Hparse |- *. cbn beta iota. rewrite H4.
  assert (startswith "nan" (String d rest) = false) as ->; [|exact Hparse]. cbn [startswith]. by rewrite H6.
Qed.

(** ** The text of a few decimals *)

Lemma decimal_str_fixed s n e : -6 ≤ e ≤ 0 → decimal_str (Fin s n e) = fixed_text s n e.
Proof.
  intros He. unfold decimal_str, fixed_text. destruct (pretty_digits n) as (a & Ha & _).
  set (text := pretty (Z.of_N n)) in *.
  assert (1 ≤ Z.of_nat (String.length text)) as Hlen.
  { clearbody text. destruct text as [|d t]; [by destruct a|]. cbn [String.length]. lia. }
  set (k := Z.of_nat (String.length text)) in *.
  assert ((if (n =? 0)%N then Z.min e 0 else e) = e) as -> by (destruct (n =? 0)%N; lia).
  rewrite (proj2 (Z.leb_le e 0)), (proj2 (Z.ltb_lt (-6) (k + e))) by lia. cbn [andb]. rewrite Z.eqb_refl. f_equal.
  rewrite string_app_nil_r. destruct (Z.leb_spec (k + e) 0) as [H|H].
  - destruct (Z.ltb_spec (k + e) 0); [done|]. assert (k + e = 0) as E by lia. rewrite E.
    rewrite (proj2 (Z.leb_gt k 0)) by lia. done.
  - rewrite (proj2 (Z.ltb_ge (k + e) 0)) by lia. destruct (Z.leb_spec k (k + e)); [done|].
    by rewrite (proj2 (Z.eqb_neq (k + e) 0)) by lia.
Qed.

(** [Decimal(str(a))]. *)
Lemma decimal_str_parse s n e : -6 ≤ e ≤ 0 → parse_decimal (decimal_str (Fin s n e)) = Some (Fin s n e).
Proof.
  intros He. destruct (N.eq_dec n 0) as [->|Hn].
  - assert (e = -6 ∨ e = -5 ∨ e = -4 ∨ e = -3 ∨ e = -2 ∨ e = -1 ∨ e = 0) as H by lia.
    destruct s; destruct_or! H; subst e; reflexivity.
  - rewrite decimal_str_fixed, fixed_text_parse by lia.
    replace (Z.to_N e) with 0%N by lia. rewrite N.pow_0_r, N.mul_1_r. by replace (Z.min e 0) with e by lia.
Qed.

(** The text of a natural number. *)
Lemma decimal_str_int n : decimal_str (Fin false n 0) = pretty (Z.of_N n).
Proof.
  unfold decimal_str. destruct (pretty_digits n) as (a & Ha & _). set (text := pretty (Z.of_N n)) in *.
  assert (1 ≤ Z.of_nat (String.length text)) as Hlen.
  { clearbody text. destruct text as [|d t]; [by destruct a|]. cbn [String.length]. lia. }
  rewrite Z.add_0_r. set (k := Z.of_nat (String.length text)) in *.
  rewrite (proj2 (Z.ltb_lt (-6) k)) by lia. cbn [Z.leb Z.compare andb]. rewrite Z.eqb_refl, (proj2 (Z.leb_gt k 0)) by lia.
  rewrite Z.leb_refl, Z.sub_diag. cbn [Z.to_nat zeros]. change ("" +:+ (text +:+ "") +:+ "") with ((text +:+ "") +:+ "").
  by rewrite !string_app_nil_r.
Qed.

Lemma pretty_parse n : parse_decimal (pretty (Z.of_N n)) = Some (Fin false n 0).
Proof. rewrite <-decimal_str_int. by apply decimal_str_parse. Qed.

Lemma decimal_str_numeral s n e : -6 ≤ e ≤ 0 → str_all numeral_char (decimal_str (Fin s n e)) = true.
Proof.
  intros He. destruct (N.eq_dec n 0) as [->|Hn].
  - assert (e = -6 ∨ e = -5 ∨ e = -4 ∨ e = -3 ∨ e = -2 ∨ e = -1 ∨ e = 0) as H by lia.
    destruct s; destruct_or! H; subst e; reflexivity.
  - rewrite decimal_str_fixed, fixed_text_body by lia.
    destruct (body_parse n e _ s (fixed_body_shape n e ltac:(lia)) ltac:(lia)) as (Hall & _ & _).
    rewrite str_all_app, Hall. by destruct s.
Qed.
