(* ===== verification/DecimalCounts.v ===== *)
(** * Counts of a decimal place

    A decimal written without more digits than a place counts units of it, and
    its arithmetic is that of integers while the counts fit the context. What a
    division gives, once rounded half up to the place, is the quotient of the
    counts rounded half up: the context's own rounding does not show. *)

From S2P Require Import Prelude PyData PyDecimal DecimalFacts DecimalError DecimalText.
From stdpp Require Import base strings list.
From Stdlib Require Import ZArith NArith QArith Qabs Lia Lqa.

Local Open Scope Z_scope.

(** ** Results *)

(** A computation that returns, and what it returns. *)
Definition returns {E A} (r : result E A) (Q : A → Prop) : Prop := ∃ a, r = Ok a ∧ Q a.

Lemma returns_bind {E A B} (r : result E A) (f : A → result E B) (P : A → Prop) (Q : B → Prop) :
  returns r P → (∀ a, P a → returns (f a) Q) → returns (a ← r; f a) Q.
Proof. intros (a & -> & Ha) Hf. exact (Hf a Ha). Qed.

Lemma returns_weaken {E A} (r : result E A) (P Q : A → Prop) : returns r P → (∀ a, P a → Q a) → returns r Q.
Proof. intros (a & Hr & Ha) HPQ. exists a. eauto. Qed.

(** ** Counts of a decimal place *)

(** A number of so many units of the place [x], written without more digits. *)
Definition counts (x : Z) (a : decimal) (k : Z) : Prop :=
  ∃ s n e, a = Fin s n e ∧ x ≤ e ≤ 0 ∧ (value a == inject_Z k * Q10 x)%Q ∧ Z.abs k < 10 ^ PREC.

Lemma counts_scaled x s n e k : x ≤ e → (value (Fin s n e) == inject_Z k * Q10 x)%Q → scaled s n e x = k.
Proof.
  intros He Hv. rewrite <-(scaled_value s n e x He) in Hv.
  apply Qmult_inj_r in Hv; [|pose proof (Q10_pos x) as Hx; intros Hz; rewrite Hz in Hx; discriminate Hx].
  exact (proj1 (inject_Z_injective _ _) Hv).
Qed.

Lemma scaled_abs x s n e : x ≤ e → Z.abs (scaled s n e x) = Z.of_N n * 10 ^ (e - x).
Proof.
  intros He. unfold scaled, signed. rewrite N2Z.inj_mul, pow10_spec by lia.
  pose proof (Z.pow_pos_nonneg 10 (e - x)). destruct s; lia.
Qed.

Lemma counts_coef x s n e k : x ≤ e → (value (Fin s n e) == inject_Z k * Q10 x)%Q →
  Z.abs k = Z.of_N n * 10 ^ (e - x) ∧ Z.of_N n ≤ Z.abs k.
Proof.
  intros He Hv. apply counts_scaled in Hv as <-; [|done]. rewrite scaled_abs by done. split; [done|].
  pose proof (Z.pow_pos_nonneg 10 (e - x)). nia.
Qed.

(** A result at a place that is exact is not rounded. *)
Lemma fix_counts x s n e k : -1000 ≤ x ≤ e → e ≤ 0 → (value (Fin s n e) == inject_Z k * Q10 x)%Q → Z.abs k < 10 ^ PREC →
  ∃ d, fix_ s n e = Ok d ∧ counts x d k.
Proof.
  intros Hx He Hv Hk. destruct (counts_coef x s n e k) as [_ Hn]; [lia|done|]. exists (Fin s n e). split.
  - apply fix_exact. unfold fits, ETINY, ETOP, EMIN, EMAX, PREC in *. lia.
  - exists s, n, e. split_and!; [done|lia|lia|exact Hv|done].
Qed.

Lemma counts_add x a b i j : -1000 ≤ x → counts x a i → counts x b j → Z.abs (i + j) < 10 ^ PREC →
  ∃ d, decimal_add a b = Ok d ∧ counts x d (i + j).
Proof.
  intros Hx (s & m & e & -> & He & Ha & _) (t & n & f & -> & Hf & Hb & _) Hk.
  destruct (add_exact s m e t n f) as (r & c & -> & Hv). apply fix_counts; [lia|lia| |done].
  rewrite Hv, Ha, Hb, inject_Z_plus. ring.
Qed.

Lemma counts_negate x a i : counts x a i → counts x (copy_negate a) (- i).
Proof.
  intros (s & n & e & -> & He & Ha & Hi). exists (negb s), n, e. split_and!; [done|lia|lia| |lia].
  cbn [copy_negate]. rewrite inject_Z_opp.
  assert (- inject_Z i * Q10 x == - (inject_Z i * Q10 x))%Q as -> by ring. rewrite <-Ha. cbn [value]. unfold signed.
  destruct s; cbn [negb]; rewrite ?inject_Z_opp; ring.
Qed.

Lemma counts_sub x a b i j : -1000 ≤ x → counts x a i → counts x b j → Z.abs (i - j) < 10 ^ PREC →
  ∃ d, decimal_sub a b = Ok d ∧ counts x d (i - j).
Proof. intros Hx Ha Hb Hk. by apply (counts_add x a (copy_negate b) i (- j)); [lia|done|apply counts_negate|]. Qed.

Lemma counts_mul x y a b i j : -500 ≤ x → -500 ≤ y → counts x a i → counts y b j → Z.abs (i * j) < 10 ^ PREC →
  ∃ d, decimal_mul a b = Ok d ∧ counts (x + y) d (i * j).
Proof.
  intros Hx Hy (s & m & e & -> & He & Ha & _) (t & n & f & -> & Hf & Hb & _) Hk. cbn [decimal_mul nan_check sign_of].
  apply fix_counts; [lia|lia| |done]. rewrite inject_Z_mult, Q10_plus.
  assert (inject_Z i * inject_Z j * (Q10 x * Q10 y) == inject_Z i * Q10 x * (inject_Z j * Q10 y))%Q as -> by ring.
  rewrite <-Ha, <-Hb. cbn [value]. rewrite Q10_plus.
  assert (signed (xorb s t) (m * n) = signed s m * signed t n) as ->.
  { unfold signed. rewrite N2Z.inj_mul. destruct s, t; cbn [xorb]; ring. }
  rewrite inject_Z_mult. ring.
Qed.

Lemma counts_cmp x a b i j : counts x a i → counts x b j → decimal_cmp a b = (i ?= j).
Proof.
  intros (s & m & e & -> & He & Ha & _) (t & n & f & -> & Hf & Hb & _). rewrite cmp_value, Ha, Hb.
  pose proof (Q10_pos x). destruct (Z.compare_spec i j) as [->|Hlt|Hgt].
  - by apply Qeq_alt.
  - apply Qlt_alt, Qmult_lt_compat_r; [done|]. by rewrite <-Zlt_Qlt.
  - apply Qgt_alt, Qmult_lt_compat_r; [done|]. by rewrite <-Zlt_Qlt.
Qed.

Lemma counts_order x a b i j test : counts x a i → counts x b j → decimal_order test a b = Ok (test (i ?= j)).
Proof.
  intros Ha Hb. pose proof (counts_cmp _ _ _ _ _ Ha Hb) as Hc. destruct Ha as (s & m & e & -> & _), Hb as (t & n & f & -> & _).
  unfold decimal_order. cbn [is_nan orb]. by rewrite Hc.
Qed.

Lemma counts_zero x : x ≤ 0 → counts x (of_Z 0) 0.
Proof. intros Hx. exists false, 0%N, 0. split_and!; [done|lia|lia| |done]. cbn. by rewrite !Qmult_0_l. Qed.

Lemma round_half_up s n d : (0 < d)%N → round_div ROUND_HALF_UP s n d = ((2 * n + d) / (2 * d))%N.
Proof.
  intros Hd. unfold round_div. pose proof (N.div_mod n d ltac:(lia)) as Hn. pose proof (N.mod_lt n d ltac:(lia)) as Hr.
  set (q := (n / d)%N) in *. set (r := (n mod d)%N) in *. destruct (N.leb_spec d (2 * r)).
  - apply (N.div_unique _ _ _ (2 * r - d)); lia.
  - apply (N.div_unique _ _ _ (2 * r + d)); lia.
Qed.


Lemma counts_min x a b i j : counts x a i → counts x b j → ∃ v, decimal_min a b = Ok v ∧ counts x v (Z.min i j).
Proof.
  intros Ha Hb. unfold decimal_min, decimal_lt. rewrite (counts_order x b a j i) by done. cbn [mbind result_bind].
  unfold is_lt. destruct (Z.compare_spec j i); eexists; (split; [done|]).
  - by replace (Z.min i j) with i by lia.
  - by replace (Z.min i j) with j by lia.
  - by replace (Z.min i j) with i by lia.
Qed.

Lemma counts_max x a b i j : counts x a i → counts x b j → ∃ v, decimal_max a b = Ok v ∧ counts x v (Z.max i j).
Proof.
  intros Ha Hb. unfold decimal_max, decimal_gt. rewrite (counts_order x b a j i) by done. cbn [mbind result_bind].
  unfold is_gt. destruct (Z.compare_spec j i); eexists; (split; [done|]).
  - by replace (Z.max i j) with i by lia.
  - by replace (Z.max i j) with i by lia.
  - by replace (Z.max i j) with j by lia.
Qed.

(** Half a unit away from zero, of a quotient. *)
Definition half_up_div (a u : Z) : Z := (2 * a + u) / (2 * u).

Lemma half_up_div_spec a u c : 0 < u → half_up_div a u = c ↔ (2 * c - 1) * u ≤ 2 * a < (2 * c + 1) * u.
Proof.
  intros Hu. unfold half_up_div. pose proof (Z.div_mod (2 * a + u) (2 * u) ltac:(lia)) as Hd.
  pose proof (Z.mod_pos_bound (2 * a + u) (2 * u) ltac:(lia)) as Hm.
  set (q := (2 * a + u) / (2 * u)) in *. set (r := (2 * a + u) mod (2 * u)) in *. split; [intros <-; nia|intros H; nia].
Qed.

Lemma half_up_div_nonneg a u : 0 ≤ a → 0 < u → 0 ≤ half_up_div a u.
Proof. intros Ha Hu. apply Z.div_pos; lia. Qed.

Lemma half_up_div_le a u b : 0 < u → a ≤ b * u → half_up_div a u ≤ b.
Proof.
  intros Hu Hab. destruct (proj1 (half_up_div_spec a u _ Hu) eq_refl) as [H _]. nia.
Qed.

Lemma half_up_div_exact b u : 0 < u → half_up_div (b * u) u = b.
Proof. intros Hu. apply half_up_div_spec; [done|]. nia. Qed.

(** The unit that is nearest, of two the one away from zero. *)
Definition nearest (c x : Z) (y : Q) : Prop :=
  ((inject_Z c - (1 # 2)) * Q10 x <= y)%Q ∧ (y < (inject_Z c + (1 # 2)) * Q10 x)%Q.

#[export] Instance nearest_proper c x : Proper (Qeq ==> iff) (nearest c x).
Proof. intros y z E. unfold nearest. by rewrite E. Qed.

(** For a count of a smaller place. *)
Lemma nearest_count c x k z : z ≤ x → nearest c x (inject_Z k * Q10 z) ↔ half_up_div k (10 ^ (x - z)) = c.
Proof.
  intros Hz. set (d := 10 ^ (x - z)). assert (0 < d) as Hd by (by apply Z.pow_pos_nonneg; lia).
  assert (Q10 x == inject_Z d * Q10 z)%Q as E.
  { unfold d. rewrite Q10_int, <-Q10_plus by lia. by replace (x - z + z) with x by lia. }
  rewrite half_up_div_spec by done. unfold nearest. rewrite E, !Qmult_assoc. pose proof (Q10_pos z) as Hq.
  rewrite (Qmult_le_r _ _ _ Hq), (Qmult_lt_r _ _ _ Hq).
  rewrite Zle_Qle, Zlt_Qlt. unfold Z.sub. rewrite !inject_Z_mult, !inject_Z_plus, !inject_Z_mult.
  change (inject_Z 2) with (2 # 1)%Q. change (inject_Z 1) with (1 # 1)%Q. change (inject_Z (- (1))) with (-1 # 1)%Q.
  split; intros [H1 H2]; split; lra.
Qed.

Lemma rescale_nearest s n e x c : 0 ≤ c → nearest c x (mag (Fin s n e)) → rescale ROUND_HALF_UP s n e x = Z.to_N c.
Proof.
  intros Hc. unfold rescale. cbn [mag]. destruct (Z.leb_spec x e) as [He|He].
  - assert (inject_Z (Z.of_N n) * Q10 e == inject_Z (Z.of_N n * 10 ^ (e - x)) * Q10 x)%Q as ->.
    { rewrite inject_Z_mult, Q10_int, <-Qmult_assoc, <-Q10_plus by lia. by replace (e - x + x) with e by lia. }
    rewrite nearest_count, Z.sub_diag by done. change (10 ^ 0) with 1.
    rewrite <-(Z.mul_1_r (_ * _)), half_up_div_exact by done. intros <-.
    apply N2Z.inj. rewrite N2Z.inj_mul, pow10_spec by lia. pose proof (Z.pow_pos_nonneg 10 (e - x)). rewrite Z2N.id; nia.
  - pose proof (pow10_pos (x - e)) as Hp. rewrite nearest_count by lia. intros <-.
    rewrite round_half_up by lia. apply N2Z.inj. rewrite N2Z.inj_div, N2Z.inj_add, !N2Z.inj_mul, Z2N.id by done.
    by rewrite pow10_spec by lia.
Qed.

(** Quantizing gives the unit that is nearest. *)
Lemma quantize_nearest s n e x c : -1000 ≤ x ≤ 0 → 0 ≤ c < 10 ^ 27 → nearest c x (mag (Fin s n e)) →
  PyDecimal.quantize (Fin s n e) (Fin false 1 x) ROUND_HALF_UP = Ok (Fin s (Z.to_N c) x).
Proof.
  intros Hx Hc Hn. pose proof (Q10_pos x) as Hq. cbn [PyDecimal.quantize nan_check].
  rewrite (rescale_nearest s n e x c) by (done || lia).
  assert (fix_ s (Z.to_N c) x = Ok (Fin s (Z.to_N c) x)) as Hfix.
  { apply fix_exact. unfold fits, ETINY, ETOP, EMIN, EMAX, PREC in *. lia. }
  rewrite (proj2 (Z.ltb_ge x ETINY)), (proj2 (Z.ltb_ge EMAX x)) by (unfold ETINY, EMIN, EMAX, PREC; lia). cbn [orb].
  destruct (N.eqb_spec n 0) as [->|Hn0].
  { cbn [mag] in Hn. rewrite Qmult_0_l, <-(Qmult_0_l (Q10 x)) in Hn. apply (nearest_count c x 0 x) in Hn; [|done].
    rewrite Z.sub_diag in Hn. by subst c. }
  assert (ndigits n + e - x ≤ 27) as Hd.
  { pose proof (leading_digit n e ltac:(lia)) as [Hl _]. destruct Hn as [_ Hhi]. cbn [mag] in Hhi.
    assert (Q10 (ndigits n + e - 1) < Q10 (27 + x))%Q as H%Q10_lt_inv; [|lia].
    eapply Qle_lt_trans; [exact Hl|]. eapply Qlt_le_trans; [exact Hhi|]. rewrite Q10_plus, <-(Q10_int 27) by lia.
    apply Qmult_le_compat_r; [|lra]. assert (inject_Z c <= inject_Z (10 ^ 27 - 1))%Q as H by (rewrite <-Zle_Qle; lia).
    change (inject_Z (10 ^ 27 - 1)) with (999999999999999999999999999 # 1)%Q in H.
    change (inject_Z (10 ^ 27)) with (1000000000000000000000000000 # 1)%Q. lra. }
  assert (ndigits (Z.to_N c) ≤ 28) as Hdc by (apply ndigits_le; unfold PREC in *; lia).
  unfold EMAX, PREC in *.
  rewrite (proj2 (Z.ltb_ge 999999 (ndigits n + e - 1))), (proj2 (Z.ltb_ge 28 (ndigits n + e - x))),
    (proj2 (Z.ltb_ge 999999 (ndigits (Z.to_N c) + x - 1))), (proj2 (Z.ltb_ge 28 (ndigits (Z.to_N c)))) by lia.
  exact Hfix.
Qed.

Lemma counts_sign x s n e k : x ≤ e → (value (Fin s n e) == inject_Z k * Q10 x)%Q →
  mag (Fin s n e) = mag (Fin false n e) ∧ (mag (Fin s n e) == inject_Z (Z.abs k) * Q10 x)%Q ∧ (if s then k ≤ 0 else 0 ≤ k).
Proof.
  intros He Hv. apply counts_scaled in Hv; [|done]. split; [done|]. split.
  - rewrite <-Hv, scaled_abs by done. cbn [mag].
    rewrite inject_Z_mult, Q10_int, <-Qmult_assoc, <-Q10_plus by lia. by replace (e - x + x) with e by lia.
  - unfold scaled, signed in Hv. destruct s; lia.
Qed.

(** A count of a smaller place is rounded, away from zero at half a unit. *)
Lemma quantize_counts z x a k : -1000 ≤ z ≤ x → x ≤ 0 → counts z a k → half_up_div (Z.abs k) (10 ^ (x - z)) < 10 ^ 27 →
  ∃ d, PyDecimal.quantize a (Fin false 1 x) ROUND_HALF_UP = Ok d ∧
    counts x d (Z.sgn k * half_up_div (Z.abs k) (10 ^ (x - z))).
Proof.
  intros Hz Hx (s & n & e & -> & He & Hv & Hk) Hb. destruct (counts_sign z s n e k) as (_ & Hm & Hs); [lia|done|].
  pose proof (half_up_div_nonneg (Z.abs k) (10 ^ (x - z)) ltac:(lia) ltac:(by apply Z.pow_pos_nonneg; lia)) as Hc0.
  set (c := half_up_div _ _) in *. exists (Fin s (Z.to_N c) x). split.
  - apply quantize_nearest; [lia|lia|]. rewrite Hm. apply nearest_count; [lia|done].
  - assert (Z.abs (Z.sgn k * c) < 10 ^ PREC) as Hlt by (unfold PREC; lia).
    exists s, (Z.to_N c), x. split_and!; [done|lia|lia| |done]. cbn [value].
    assert (signed s (Z.to_N c) = Z.sgn k * c) as ->; [|reflexivity]. unfold signed. rewrite Z2N.id by done.
    destruct (Z.eq_dec k 0) as [->|Hk0]; [|destruct s; lia].
    unfold c, half_up_div. cbn [Z.abs Z.mul Z.add Z.sgn]. rewrite Z.div_small; [by destruct s|].
    pose proof (Z.pow_pos_nonneg 10 (x - z)). lia.
Qed.

(** A count of the place itself is kept. *)
Lemma quantize_whole_units x a k : -1000 ≤ x ≤ 0 → counts x a k → Z.abs k < 10 ^ 27 →
  ∃ d, PyDecimal.quantize a (Fin false 1 x) ROUND_HALF_UP = Ok d ∧ counts x d k.
Proof.
  intros Hx Ha Hk. assert (half_up_div (Z.abs k) (10 ^ (x - x)) = Z.abs k) as E.
  { rewrite Z.sub_diag. change (10 ^ 0) with 1. rewrite <-(Z.mul_1_r (Z.abs k)) at 1. by apply half_up_div_exact. }
  destruct (quantize_counts x x a k) as (d & Hd & Hc); [lia|lia|done|by rewrite E|].
  exists d. split; [done|]. rewrite E in Hc. by replace (Z.sgn k * Z.abs k) with k in Hc by lia.
Qed.

Lemma quantize_up z x a k : -1000 ≤ z ≤ x → x ≤ 0 → counts z a k → 0 ≤ k → half_up_div k (10 ^ (x - z)) < 10 ^ 27 →
  ∃ d, PyDecimal.quantize a (Fin false 1 x) ROUND_HALF_UP = Ok d ∧ counts x d (half_up_div k (10 ^ (x - z))).
Proof.
  intros Hz Hx Ha Hk Hb. destruct (quantize_counts z x a k) as (d & Hd & Hc); [done|done|done|by rewrite Z.abs_eq|].
  rewrite Z.abs_eq in Hc by done. exists d. split; [done|]. destruct (Z.eq_dec k 0) as [->|Hk0].
  - assert (half_up_div 0 (10 ^ (x - z)) = 0) as ->; [|done]. unfold half_up_div. apply Z.div_small.
    pose proof (Z.pow_pos_nonneg 10 (x - z)). lia.
  - by replace (Z.sgn k * half_up_div k (10 ^ (x - z))) with (half_up_div k (10 ^ (x - z))) in Hc by lia.
Qed.

(** ** Exact quotients *)

Lemma mag_eq_units s n e c g : e ≤ g → (mag (Fin s n e) == inject_Z (Z.of_N c) * Q10 g)%Q → n = (c * pow10 (g - e))%N.
Proof.
  intros Hg Hv. cbn [mag] in Hv. replace g with (g - e + e) in Hv at 1 by lia.
  rewrite Q10_plus, Qmult_assoc in Hv. apply Qmult_inj_r in Hv; [|pose proof (Q10_pos e); lra].
  rewrite <-Q10_int, <-inject_Z_mult in Hv by lia. apply (proj1 (inject_Z_injective _ _)) in Hv.
  apply N2Z.inj. by rewrite N2Z.inj_mul, pow10_spec by lia.
Qed.

(** The exponent of a number of few digits, however it is written. *)
Lemma exponent_le s n e c g : (0 < n)%N → Z.of_N c < 10 ^ PREC → (mag (Fin s n e) == inject_Z (Z.of_N c) * Q10 g)%Q →
  ndigits n + e ≤ PREC + g.
Proof.
  intros Hn Hc Hv. pose proof (leading_digit n e Hn) as [Hl _]. cbn [mag] in Hv. rewrite Hv in Hl.
  assert (Q10 (ndigits n + e - 1) < Q10 (PREC + g))%Q as H%Q10_lt_inv; [|lia].
  eapply Qle_lt_trans; [exact Hl|]. rewrite Q10_plus, <-(Q10_int PREC) by (unfold PREC; lia).
  apply Qmult_lt_compat_r; [apply Q10_pos|]. by rewrite <-Zlt_Qlt.
Qed.

(** A number of few digits is not rounded. *)
Lemma fix_value s n e c g : (0 < n)%N → normal n e → Z.of_N c < 10 ^ PREC → (mag (Fin s n e) == inject_Z (Z.of_N c) * Q10 g)%Q →
  ∃ n' e', fix_ s n e = Ok (Fin s n' e') ∧ (mag (Fin s n' e') == mag (Fin s n e))%Q.
Proof.
  intros Hn [Hl Hu] Hc Hv. unfold fix_. rewrite (proj2 (N.eqb_neq n 0)), (proj2 (Z.ltb_ge _ _)), Z.max_l by lia.
  destruct (Z.ltb_spec e (ndigits n + e - PREC)) as [Hlt|Hge]; [|by exists n, e].
  pose proof (exponent_le s n e c g Hn Hc Hv) as Hg. set (k := ndigits n - PREC).
  pose proof (mag_eq_units s n e c g ltac:(lia) Hv) as Hng.
  set (q := (c * pow10 (g - e - k))%N). assert (n = (q * pow10 k)%N) as Hnq.
  { rewrite Hng. unfold q. apply N2Z.inj. rewrite !N2Z.inj_mul, !pow10_spec by lia.
    replace (g - e) with (g - e - k + k) at 1 by lia. rewrite pow_split by lia. ring. }
  unfold rescale. rewrite (proj2 (Z.leb_gt _ _)) by lia. replace (ndigits n + e - PREC - e) with k by lia.
  assert (round_div CONTEXT_ROUNDING s n (pow10 k) = q) as -> by (rewrite Hnq; apply round_div_exact; pose proof (pow10_pos k); lia).
  assert (ndigits q ≤ PREC) as Hq.
  { apply ndigits_le; [unfold PREC; lia|]. pose proof (ndigits_spec n Hn) as [_ H].
    rewrite Hnq in H at 1. rewrite N2Z.inj_mul, pow10_spec in H by lia.
    replace (ndigits n) with (PREC + k) in H by lia. rewrite pow_split in H by (unfold PREC; lia).
    pose proof (Z.pow_pos_nonneg 10 k). nia. }
  rewrite (proj2 (Z.ltb_ge PREC _)), (proj2 (Z.ltb_ge ETOP _)) by lia. exists q, (ndigits n + e - PREC). split; [done|].
  cbn [mag]. rewrite Hnq at 2. rewrite N2Z.inj_mul, inject_Z_mult, Q10_pow10, <-Qmult_assoc, <-Q10_plus by lia.
  by replace (k + e) with (ndigits n + e - PREC) by lia.
Qed.

(** The quotient of two coefficients that are in the ratio of few digits. *)
Lemma quotient_exact m n c j : (0 < m)%N → (0 < n)%N → Z.of_N c < 10 ^ PREC →
  (inject_Z (Z.of_N m) == inject_Z (Z.of_N c * Z.of_N n) * Q10 j)%Q →
  let shift := ndigits n - ndigits m + PREC + 1 in
  0 ≤ j + shift ∧ quotient m n shift = (c * pow10 (j + shift))%N.
Proof.
  intros Hm Hn Hc Hv shift. assert (0 ≤ j + shift) as Hj.
  { pose proof (ndigits_spec m Hm) as [Hl _]. pose proof (ndigits_spec n Hn) as [_ Hu]. pose proof (ndigits_pos m). pose proof (ndigits_pos n).
    assert (Q10 (ndigits m - 1) < Q10 (PREC + ndigits n + j))%Q as H1%Q10_lt_inv; [|unfold shift; lia].
    rewrite <-Q10_int by lia. rewrite Zle_Qle in Hl. eapply Qle_lt_trans; [exact Hl|]. rewrite Hv.
    rewrite (Q10_plus _ j), <-(Q10_int (PREC + ndigits n)) by (unfold PREC; lia). apply Qmult_lt_compat_r; [apply Q10_pos|].
    rewrite <-Zlt_Qlt, pow_split by (unfold PREC; lia). nia. }
  split; [done|]. unfold quotient.
  set (top := if 0 <=? shift then (m * pow10 shift)%N else m).
  set (bottom := if 0 <=? shift then n else (n * pow10 (- shift))%N).
  assert ((0 < bottom)%N ∧ top = (c * pow10 (j + shift) * bottom)%N) as [Hb ->].
  { unfold top, bottom. destruct (Z.leb_spec 0 shift) as [Hs|Hs].
    - split; [done|]. apply N2Z.inj. apply (proj1 (inject_Z_injective _ _)).
      rewrite !N2Z.inj_mul, !inject_Z_mult, !Q10_pow10, Hv, inject_Z_mult, Q10_plus by lia. ring.
    - pose proof (pow10_pos (- shift)). split; [lia|]. apply N2Z.inj. apply (proj1 (inject_Z_injective _ _)).
      rewrite !N2Z.inj_mul, !inject_Z_mult, !Q10_pow10, Hv, inject_Z_mult by lia.
      replace j with (j + shift + - shift) at 1 by lia. rewrite Q10_plus. ring. }
  rewrite N.Div0.mod_mul, N.div_mul by lia. done.
Qed.

(** A quotient of few digits is not rounded. *)
Lemma div_exact s m e t n f c g : (0 < m)%N → (0 < n)%N → Z.of_N c < 10 ^ PREC → -1000 ≤ g ≤ 1000 →
  (mag (Fin s m e) == inject_Z (Z.of_N c) * Q10 g * mag (Fin t n f))%Q →
  ∃ n' e', decimal_div (Fin s m e) (Fin t n f) = Ok (Fin (xorb s t) n' e') ∧
    (mag (Fin (xorb s t) n' e') == inject_Z (Z.of_N c) * Q10 g)%Q.
Proof.
  intros Hm Hn Hc Hg Hv. destruct (div_steps s m e t n f Hm Hn) as (c' & x & -> & Hval & _).
  destruct (quotient_exact m n c (g + f - e) Hm Hn Hc) as [Hj Hq].
  { cbn [mag] in Hv. apply (Qmult_inj_r _ _ (Q10 e)); [pose proof (Q10_pos e); lra|]. rewrite Hv, inject_Z_mult.
    assert (Q10 g * Q10 f == Q10 (g + f - e) * Q10 e)%Q as E by (rewrite <-!Q10_plus; by replace (g + f - e + e) with (g + f) by lia).
    transitivity (inject_Z (Z.of_N c) * inject_Z (Z.of_N n) * (Q10 g * Q10 f))%Q; [ring|]. rewrite E. ring. }
  set (shift := ndigits n - ndigits m + PREC + 1) in *. rewrite Hq in Hval.
  assert (inject_Z (Z.of_N c') * Q10 x == inject_Z (Z.of_N c) * Q10 g)%Q as E.
  { rewrite Hval, N2Z.inj_mul, inject_Z_mult, Q10_pow10, <-Qmult_assoc, <-Q10_plus by done.
    by replace (g + f - e + shift + (e - f - shift)) with g by lia. }
  assert (0 < c)%N as Hc0.
  { apply N.neq_0_lt_0. intros ->. change (inject_Z (Z.of_N 0)) with 0%Q in Hv. rewrite !Qmult_0_l in Hv. cbn [mag] in Hv.
    apply mag_zero in Hv. lia. }
  destruct (moderate_normal c' x) as [Hc'0 Hnorm].
  { rewrite E. split.
    - apply Qle_trans with (Q10 (-1000)); [by apply Q10_le|]. rewrite <-(Qmult_1_l (Q10 (-1000))).
      apply Qmult_le_compat_nonneg; (split; [|by (apply Q10_le; lia) || (change 1%Q with (inject_Z 1); rewrite <-Zle_Qle; lia)]);
        [discriminate|apply Qlt_le_weak, Q10_pos].
    - apply Qle_trans with (Q10 (PREC + 1000)); [|by apply Q10_le]. rewrite Q10_plus, <-(Q10_int PREC) by (unfold PREC; lia).
      apply Qmult_le_compat_nonneg; split; [change 0%Q with (inject_Z 0); rewrite <-Zle_Qle; lia|rewrite <-Zle_Qle; lia|apply Qlt_le_weak, Q10_pos|apply Q10_le; lia]. }
  destruct (fix_value (xorb s t) c' x c g Hc'0 Hnorm Hc E) as (n' & e' & -> & Hr). exists n', e'. split; [done|].
  by rewrite Hr.
Qed.

(** ** Quotients at a place *)

(** The few errors of a division do not reach the next half unit. *)
Lemma nearest_close c x k u r : 0 < u → 0 ≤ k ≤ 10 ^ 26 → half_up_div k u = c → 2 * k ≠ (2 * c - 1) * u → (0 <= r)%Q →
  close 2 (inject_Z k * (Q10 x / inject_Z u)) r → nearest c x r.
Proof.
  intros Hu Hk Hc Hne Hr Hcl. apply half_up_div_spec in Hc as [H1 H2]; [|done].
  assert ((2 * c - 1) * u + 1 ≤ 2 * k) as H1' by lia. assert (2 * k + 1 ≤ (2 * c + 1) * u) as H2' by lia.
  assert (0 < inject_Z u)%Q as Huq by (change 0%Q with (inject_Z 0); by rewrite <-Zlt_Qlt).
  set (z := (Q10 x / inject_Z u)%Q) in *. pose proof (Q10_pos x) as Hx.
  assert (0 < z)%Q as Hz by (apply Qlt_shift_div_l; lra).
  assert (Q10 x == inject_Z u * z)%Q as E by (unfold z; field; lra).
  assert (0 <= inject_Z k)%Q as Hk0 by (change 0%Q with (inject_Z 0); rewrite <-Zle_Qle; lia).
  apply close_error in Hcl; [|lia|by apply Qmult_le_0_compat; [|apply Qlt_le_weak]|done].
  assert (inject_Z 2 * (2 * UNIT) * (inject_Z k * z) <= (1 # 5) * z)%Q as Herr.
  { assert (inject_Z k <= inject_Z (10 ^ 26))%Q as H by (rewrite <-Zle_Qle; lia).
    change (inject_Z (10 ^ 26)) with (100000000000000000000000000 # 1)%Q in H.
    apply Qle_trans with ((1 # 500000000000000000000000000) * (100000000000000000000000000 # 1) * z)%Q; [|lra].
    assert (inject_Z 2 * (2 * UNIT) * (inject_Z k * z) == (1 # 500000000000000000000000000) * inject_Z k * z)%Q as ->.
    { unfold UNIT. change (inject_Z 2) with (2 # 1)%Q. ring. }
    apply Qmult_le_compat_r; [lra|by apply Qlt_le_weak]. }
  apply Qabs_Qle_condition in Hcl as [Hlo Hhi].
  assert (inject_Z ((2 * c - 1) * u + 1) * z <= inject_Z (2 * k) * z)%Q as HA.
  { apply Qmult_le_compat_r; [by rewrite <-Zle_Qle|by apply Qlt_le_weak]. }
  assert (inject_Z (2 * k + 1) * z <= inject_Z ((2 * c + 1) * u) * z)%Q as HB.
  { apply Qmult_le_compat_r; [by rewrite <-Zle_Qle|by apply Qlt_le_weak]. }
  unfold Z.sub in HA. rewrite !inject_Z_plus, !inject_Z_mult, !inject_Z_plus, !inject_Z_mult in HA, HB.
  change (inject_Z 2) with (2 # 1)%Q in *. change (inject_Z 1) with (1 # 1)%Q in *. change (inject_Z (- (1))) with (-1 # 1)%Q in *.
  split; rewrite E; lra.
Qed.

Lemma within_int j k : 0 ≤ j → 1 ≤ k ≤ 10 ^ j → within 0 j (inject_Z k).
Proof.
  intros Hj [H1 H2]. rewrite Zle_Qle in H1, H2. split; [rewrite Q10_zero; exact H1|by rewrite <-Q10_int].
Qed.

(** What a division by an integer gives, next to the unit of the dividend. *)
Lemma div_nearest x m e k n : -10 ≤ x ≤ e → e ≤ 0 → (0 < m)%N → (mag (Fin false m e) == inject_Z k * Q10 x)%Q →
  0 < k ≤ 10 ^ 26 → (0 < n)%N → Z.of_N n < 10 ^ 20 →
  ∃ m' e', decimal_div (Fin false m e) (Fin false n 0) = Ok (Fin false m' e') ∧
    nearest (half_up_div k (Z.of_N n)) x (mag (Fin false m' e')).
Proof.
  intros Hx He Hm Hv Hk Hn Hn20. set (u := Z.of_N n) in *. set (c := half_up_div k u).
  assert (0 < u) as Hu by lia. assert (mag (Fin false n 0) == inject_Z u)%Q as Hnu by (cbn [mag]; rewrite Q10_zero; apply Qmult_1_r).
  assert (0 < inject_Z u)%Q as Huq by (change 0%Q with (inject_Z 0); by rewrite <-Zlt_Qlt).
  destruct (proj1 (half_up_div_spec k u c Hu) eq_refl) as [H1 H2].
  destruct (Z.eq_dec (2 * k) ((2 * c - 1) * u)) as [E|E].
  - assert (1 ≤ c) as Hc1 by nia.
    assert (c ≤ k) as Hck by (apply half_up_div_le; nia).
    destruct (div_exact false m e false n 0 (Z.to_N (10 * c - 5)) (x - 1) Hm Hn) as (m' & e' & Hd & Hmag);
      [unfold PREC; lia|lia| |].
    + rewrite Hv, Hnu, Z2N.id by lia. replace x with (1 + (x - 1)) at 1 by lia. rewrite Q10_plus, Q10_one.
      assert (inject_Z k * inject_Z 10 == inject_Z (10 * c - 5) * inject_Z u)%Q as E2 by (rewrite <-!inject_Z_mult; by replace (k * 10) with ((10 * c - 5) * u) by lia).
      transitivity (inject_Z k * inject_Z 10 * Q10 (x - 1))%Q; [ring|]. rewrite E2. ring.
    + exists m', e'. split; [exact Hd|]. cbn [xorb] in Hmag. rewrite Hmag, Z2N.id by lia. apply nearest_count; [lia|].
      replace (x - (x - 1)) with 1 by lia. apply half_up_div_spec; [done|]. lia.
  - destruct (div_close false m e false n 0 Hn) as (m' & e' & Hd & Hcl).
    { right. assert (mag (Fin false m e) / mag (Fin false n 0) == inject_Z k * Q10 x / inject_Z u)%Q as Eq by (rewrite Hv, Hnu; reflexivity).
      apply (proj2 (inside_proper _ _ Eq)). unfold inside.
      apply (within_weaken (0 + x + - 20) (26 + x + - 0)); [lia..|].
      apply within_mult; [apply within_mult; [apply within_int; lia|split; apply Qle_refl]|]. apply (within_inv 0 20), within_int; lia. }
    exists m', e'. split; [exact Hd|]. cbn [xorb] in Hcl. apply (nearest_close c x k u); [done|lia|done|done|apply (mag_nonneg (Fin false m' e'))|].
    rewrite Hv, Hnu in Hcl. assert (inject_Z k * (Q10 x / inject_Z u) == inject_Z k * Q10 x / inject_Z u)%Q as ->; [field; lra|done].
Qed.

(** A quotient by an integer, rounded half up at the place of the dividend. *)
Lemma div_half_up x a k n : -10 ≤ x ≤ 0 → counts x a k → 0 ≤ k ≤ 10 ^ 26 → (0 < n)%N → Z.of_N n < 10 ^ 20 →
  ∃ d q, decimal_div a (Fin false n 0) = Ok d ∧ PyDecimal.quantize d (Fin false 1 x) ROUND_HALF_UP = Ok q ∧
    counts x q (half_up_div k (Z.of_N n)).
Proof.
  intros Hx (s & m & e & -> & He & Hv & _) Hk Hn Hn20. destruct (counts_sign x s m e k) as (_ & Hm & Hs); [lia|done|].
  rewrite Z.abs_eq in Hm by lia. set (u := Z.of_N n) in *. set (c := half_up_div k u).
  assert (0 ≤ c) as Hc0 by (apply half_up_div_nonneg; lia).
  assert (c ≤ k) as Hck by (apply half_up_div_le; nia).
  assert (∃ t m' e', decimal_div (Fin s m e) (Fin false n 0) = Ok (Fin t m' e') ∧ nearest c x (mag (Fin t m' e')) ∧
    (t = false ∨ c = 0)) as (t & m' & e' & Hd & Hnear & Ht).
  { destruct (N.eq_dec m 0) as [->|Hm0].
    - cbn [decimal_div nan_check sign_of]. rewrite (proj2 (N.eqb_neq n 0)) by lia. cbn [N.eqb].
      destruct (fix_zero (xorb s false) (e - 0)) as [e' ->]. exists (xorb s false), 0%N, e'.
      cbn [mag] in Hm. rewrite Qmult_0_l, <-(Qmult_0_l (Q10 x)) in Hm.
      apply Qmult_inj_r in Hm; [|pose proof (Q10_pos x); lra]. apply (proj1 (inject_Z_injective 0 k)) in Hm. subst k.
      assert (c = 0) as -> by (unfold c, half_up_div; apply Z.div_small; lia). split; [done|]. split; [|by right].
      cbn [mag]. rewrite Qmult_0_l, <-(Qmult_0_l (Q10 x)). apply (nearest_count 0 x 0 x); [lia|].
      by rewrite Z.sub_diag.
    - assert (0 < k) as Hk0.
      { apply counts_coef in Hv as [Ha _]; [|lia]. pose proof (Z.pow_pos_nonneg 10 (e - x)). nia. }
      destruct s; [lia|]. destruct (div_nearest x m e k n) as (m' & e' & Hd & Hnear); [lia|lia|lia|done|lia|done|done|].
      exists false, m', e'. split_and!; [done|done|by left]. }
  exists (Fin t m' e'), (Fin t (Z.to_N c) x). split; [done|]. split; [apply quantize_nearest; [lia|lia|done]|].
  exists t, (Z.to_N c), x. split_and!; [done|lia|lia| |unfold PREC; lia]. cbn [value].
  assert (signed t (Z.to_N c) = c) as ->; [|reflexivity]. unfold signed. destruct Ht as [-> | ->]; [|by destruct t].
  by rewrite Z2N.id.
Qed.
