(* ===== verification/SubscriptionCadence.v ===== *)
(** * Billing cadence

    [packages/dotmac-subscriptions/src/dotmac_subscriptions/cadence.py] and its
    errors: calendar intervals in the zone of a contract, periods, proration and
    rate units. *)

From S2P Require Import Prelude PyData PyTime PyDecimal PyZone.
From stdpp Require Import base strings list.
From Stdlib Require Import ZArith Lia.

Local Open Scope Z_scope.

(** ** Errors *)

Inductive SubscriptionError_class : Type :=
  | SubscriptionDataError | SubscriptionConflictError | SubscriptionStateError | CadenceError.

(** What a call raises: an error of the package, or one of the language. *)
Inductive sub_exn : Type :=
  | SubscriptionError (cls : SubscriptionError_class) (code message : string) (details : list (string * json))
  | PyError (e : py_exn)
  | Signal (s : signal).

(** [SubscriptionError.__init__]. *)
Definition SubscriptionError_new (cls : SubscriptionError_class) (code message : string)
    (details : list (string * json)) : sub_exn :=
  SubscriptionError cls (if startswith "subscriptions." code then code else "subscriptions." +:+ code)
    message details.

Definition cadence_error (code message : string) (details : list (string * json)) : sub_exn :=
  SubscriptionError_new CadenceError code message details.

(** A call of the language, or a decimal one, inside the package's. *)
Definition py {A} (r : result py_exn A) : result sub_exn A :=
  match r with Ok a => Ok a | Raise e => Raise (PyError e) end.
Definition dec {A} (r : result signal A) : result sub_exn A :=
  match r with Ok a => Ok a | Raise s => Raise (Signal s) end.

(** ** Vocabulary *)

Inductive RateBasis : Type := fixed_per_service_period | per_rate_unit | per_quantity | usage_metered.
Inductive IntervalUnit : Type := unit_day | unit_week | unit_month | unit_year.
Inductive CollectionTiming : Type := advance | arrears.
Inductive CadenceAlignment : Type := contract_anniversary | calendar_period_start | fixed_anchor_day.
Inductive EndOfMonthRule : Type := clamp_to_month_end | strict_same_day_or_skip.
Inductive ProrationPolicy : Type := no_proration | full_period | actual_calendar_days | actual_elapsed_time.

#[export] Instance CadenceAlignment_eq_dec : EqDecision CadenceAlignment.
Proof. solve_decision. Defined.
#[export] Instance EndOfMonthRule_eq_dec : EqDecision EndOfMonthRule.
Proof. solve_decision. Defined.

(** The values of the enumerations. *)
Definition RateBasis_value (b : RateBasis) : string :=
  match b with
  | fixed_per_service_period => "fixed_per_service_period" | per_rate_unit => "per_rate_unit"
  | per_quantity => "per_quantity" | usage_metered => "usage_metered"
  end.
Definition IntervalUnit_value (u : IntervalUnit) : string :=
  match u with unit_day => "day" | unit_week => "week" | unit_month => "month" | unit_year => "year" end.
Definition EndOfMonthRule_value (r : EndOfMonthRule) : string :=
  match r with clamp_to_month_end => "clamp_to_month_end" | strict_same_day_or_skip => "strict_same_day_or_skip" end.
Definition ProrationPolicy_value (p : ProrationPolicy) : string :=
  match p with
  | no_proration => "none" | full_period => "full_period"
  | actual_calendar_days => "actual_calendar_days" | actual_elapsed_time => "actual_elapsed_time"
  end.

(** A half-open range of instants. *)
Record Interval : Type := MkInterval {
  starts_at : zoned;
  ends_at : zoned;
}.

Record BillingCadence : Type := MkCadence {
  rate_basis : RateBasis;
  rate_unit : IntervalUnit;
  rate_quantity : decimal;
  service_interval_unit : IntervalUnit;
  service_interval_count : Z;
  invoice_interval_unit : IntervalUnit;
  invoice_interval_count : Z;
  collection_timing : CollectionTiming;
  alignment : CadenceAlignment;
  timezone_name : string;
  end_of_month_rule : EndOfMonthRule;
  proration_policy : ProrationPolicy;
  anchor_day : option Z;
}.

(** [str(d.total_seconds())] of a duration in microseconds: a float's text. *)
Class SecondsText : Type := seconds_text : Z → string.

Section cadence.
Context `{TzData} `{SecondsText}.

Definition _require_aware (moment : zoned) (field : string) : result sub_exn zoned :=
  _ ← raise_if (naive moment)
        (cadence_error "cadence.naive_datetime" "Subscription instants must be timezone-aware."
           [("field", JStr field)]);
  Ok moment.

(** ** Intervals *)

Definition Interval_new (starts_at ends_at : zoned) : result sub_exn Interval :=
  _ ← _require_aware starts_at "starts_at";
  _ ← _require_aware ends_at "ends_at";
  empty ← py (zoned_le ends_at starts_at);
  _ ← raise_if empty
        (cadence_error "cadence.invalid_interval" "An interval must end strictly after it starts."
           [("starts_at", JStr (zoned_isoformat starts_at)); ("ends_at", JStr (zoned_isoformat ends_at))]);
  Ok (MkInterval starts_at ends_at).

Definition Interval_contains (i : Interval) (moment : zoned) : result sub_exn bool :=
  _ ← _require_aware moment "moment";
  started ← py (zoned_le (starts_at i) moment);
  if (started : bool) then py (zoned_lt moment (ends_at i)) else Ok false.

Definition duration (i : Interval) : result sub_exn Z := py (subtract_zoned (ends_at i) (starts_at i)).

(** ** Cadences *)

Definition zone_named (timezone_name : string) : result sub_exn tzinfo :=
  if zone_known timezone_name then Ok (Zone timezone_name)
  else Raise (cadence_error "cadence.unknown_timezone" "Contract timezone is not a known IANA zone."
                [("timezone", JStr timezone_name)]).

Definition zone (c : BillingCadence) : result sub_exn tzinfo := zone_named (timezone_name c).

(** [BillingCadence.__post_init__], on the fields. *)
Definition BillingCadence_new (c : BillingCadence) : result sub_exn BillingCadence :=
  _ ← raise_if ((service_interval_count c <? 1) || (invoice_interval_count c <? 1))
        (cadence_error "cadence.invalid_interval_count" "Service and invoice interval counts must be positive." []);
  not_positive ← dec (decimal_le (rate_quantity c) (of_Z 0));
  _ ← raise_if not_positive
        (cadence_error "cadence.invalid_rate_quantity" "Rate quantity must be positive." []);
  _ ← (match anchor_day c with
       | Some d => raise_if (negb ((1 <=? d) && (d <=? 31)))
           (cadence_error "cadence.invalid_anchor_day" "Anchor day must fall between 1 and 31."
              [("anchor_day", JInt d)])
       | None => Ok tt
       end);
  _ ← raise_if (bool_decide (alignment c = fixed_anchor_day) && bool_decide (anchor_day c = None))
        (cadence_error "cadence.missing_anchor_day" "Fixed-anchor alignment requires an anchor day." []);
  _ ← zone c;
  Ok c.

(** ** Calendar arithmetic *)

(** [date(y, m, d)], of a month and a day that exist; the year is a C int. *)
Definition date_new (y m d : Z) : result py_exn date :=
  _ ← raise_if (negb ((- 2 ^ 31 <=? y) && (y <? 2 ^ 31))) OverflowError;
  _ ← raise_if (negb ((MINYEAR <=? y) && (y <=? MAXYEAR))) ValueError; Ok (MkDate y m d).

(** A day of a month, or what the rule makes of one it lacks. *)
Definition _anchor_date (y m anchor_day : Z) (rule : EndOfMonthRule) : result py_exn (option date) :=
  let last_day := last_day_of y m in
  if anchor_day <=? last_day then d ← date_new y m anchor_day; Ok (Some d)
  else match rule with
       | clamp_to_month_end => d ← date_new y m last_day; Ok (Some d)
       | strict_same_day_or_skip => Ok None
       end.

Definition _add_months (anchor : date) (months : Z) (rule : EndOfMonthRule) : result py_exn (option date) :=
  let total := month anchor - 1 + months in
  _anchor_date (year anchor + total / 12) (total mod 12 + 1) (day anchor) rule.

Definition _shift (anchor : zoned) (unit : IntervalUnit) (count : Z) (c : BillingCadence)
    : result sub_exn zoned :=
  z ← zone c;
  local ← py (astimezone anchor z);
  shifted_local ←
    (match unit with
     | unit_day => py (add_days local count)
     | unit_week => py (add_days local (7 * count))
     | unit_month | unit_year =>
         let months := count * (match unit with unit_year => 12 | _ => 1 end) in
         target ← py (_add_months (date_of local) months (end_of_month_rule c));
         match target with
         | None => Raise (cadence_error "cadence.skipped_month_boundary"
             "Strict same-day rule cannot place this boundary in the target month."
             [("anchor", JStr (zoned_isoformat anchor)); ("months", JInt months);
              ("rule", JStr (EndOfMonthRule_value (end_of_month_rule c)))])
         | Some target => Ok (combine_date target local)
         end
     end);
  py (astimezone (replace_tz shifted_local z) UTC).

(** The start of the calendar unit that a local time is in. *)
Definition period_start (unit : IntervalUnit) (local : zoned) : result py_exn zoned :=
  let today := date_of local in
  match unit with
  | unit_day => Ok (midnight_of local today)
  | unit_week => add_days (midnight_of local today) (- weekday (wall local / us_per_day))
  | unit_month => Ok (midnight_of local (MkDate (year today) (month today) 1))
  | unit_year => Ok (midnight_of local (MkDate (year today) 1 1))
  end.

(** The last fixed anchor that is not after a local time. *)
Definition anchored_before (local : zoned) (anchor_day : Z) (rule : EndOfMonthRule) : result sub_exn zoned :=
  let today := date_of local in
  target ← py (_anchor_date (year today) (month today) anchor_day rule);
  match target with
  | None => Raise (cadence_error "cadence.skipped_anchor_boundary"
      "Strict same-day rule cannot place the fixed anchor this month." [])
  | Some target =>
      let anchored := midnight_of local target in
      later ← py (zoned_gt anchored local);
      if (later : bool) then
        let previous_month := if month today =? 1 then 12 else month today - 1 in
        let previous_year := if month today =? 1 then year today - 1 else year today in
        previous ← py (_anchor_date previous_year previous_month anchor_day rule);
        match previous with
        | None => Raise (cadence_error "cadence.skipped_anchor_boundary"
            "Strict same-day rule cannot place the prior fixed anchor." [])
        | Some previous => Ok (combine_date previous anchored)
        end
      else Ok anchored
  end.

Definition _align_start (start : zoned) (c : BillingCadence) : result sub_exn zoned :=
  match alignment c with
  | contract_anniversary => Ok start
  | calendar_period_start =>
      z ← zone c;
      local ← py (astimezone start z);
      aligned ← py (period_start (service_interval_unit c) local);
      py (astimezone (replace_tz aligned z) UTC)
  | fixed_anchor_day =>
      z ← zone c;
      local ← py (astimezone start z);
      match anchor_day c with
      | None => Raise (cadence_error "cadence.missing_anchor_day"
          "Fixed-anchor alignment requires an anchor day." [])
      | Some anchor_day =>
          anchored ← anchored_before local anchor_day (end_of_month_rule c);
          py (astimezone (replace_tz anchored z) UTC)
      end
  end.

(** ** Periods *)

Definition _nth_interval (aligned : zoned) (unit : IntervalUnit) (count index : Z) (c : BillingCadence)
    : result sub_exn Interval :=
  start ← (if index =? 0 then Ok aligned else _shift aligned unit (count * index) c);
  end_ ← _shift aligned unit (count * (index + 1)) c;
  Interval_new start end_.

Definition nth_period (unit : IntervalUnit) (count : Z) (c : BillingCadence) (contract_start : zoned)
    (index : Z) : result sub_exn Interval :=
  _ ← _require_aware contract_start "contract_start";
  _ ← raise_if (index <? 0)
        (cadence_error "cadence.invalid_period_index" "Period index cannot be negative." [("index", JInt index)]);
  aligned ← _align_start contract_start c;
  _nth_interval aligned unit count index c.

Definition service_period (c : BillingCadence) (contract_start : zoned) (index : Z) : result sub_exn Interval :=
  nth_period (service_interval_unit c) (service_interval_count c) c contract_start index.

Definition invoice_period (c : BillingCadence) (contract_start : zoned) (index : Z) : result sub_exn Interval :=
  nth_period (invoice_interval_unit c) (invoice_interval_count c) c contract_start index.

(** The walk over the first periods. *)
Fixpoint period_walk (fuel : nat) (index : Z) (c : BillingCadence) (contract_start moment : zoned)
    : result sub_exn (option (Z * Interval)) :=
  match fuel with
  | O => Ok None
  | S fuel =>
      interval ← service_period c contract_start index;
      inside ← Interval_contains interval moment;
      if (inside : bool) then Ok (Some (index, interval))
      else period_walk fuel (index + 1) c contract_start moment
  end.

Definition period_containing (c : BillingCadence) (contract_start moment : zoned) (max_periods : Z)
    : result sub_exn (Z * Interval) :=
  _ ← _require_aware moment "moment";
  aligned ← _align_start contract_start c;
  early ← py (zoned_lt moment aligned);
  _ ← raise_if early
        (cadence_error "cadence.moment_before_contract" "Moment precedes the aligned contract start."
           [("moment", JStr (zoned_isoformat moment)); ("aligned_start", JStr (zoned_isoformat aligned))]);
  found ← period_walk (Z.to_nat max_periods) 0 c contract_start moment;
  match found with
  | Some found => Ok found
  | None => Raise (cadence_error "cadence.period_walk_exhausted"
      "Period walk exceeded its bound; check the contract anchor."
      [("max_periods", JInt max_periods); ("moment", JStr (zoned_isoformat moment))])
  end.

(** ** Proration and rate units *)

Definition _calendar_day_span (i : Interval) (z : tzinfo) : result sub_exn Z :=
  start_local ← py (astimezone (starts_at i) z);
  end_local ← py (astimezone (ends_at i) z);
  Ok (wall end_local / us_per_day - wall start_local / us_per_day).

(** [Decimal(str(d.total_seconds()))]. *)
Definition seconds_of (us : Z) : result sub_exn decimal :=
  match parse_decimal (seconds_text us) with Some d => Ok d | None => Raise (Signal InvalidOperation) end.

Definition proration_factor (c : BillingCadence) (period covered : Interval) : result sub_exn decimal :=
  starts_inside ← py (zoned_ge (starts_at covered) (starts_at period));
  covered_inside ← (if (starts_inside : bool) then py (zoned_le (ends_at covered) (ends_at period)) else Ok false);
  _ ← raise_if (negb covered_inside)
        (cadence_error "cadence.covered_outside_period"
           "Covered interval must fall inside the subscription period."
           [("period_start", JStr (zoned_isoformat (starts_at period)));
            ("period_end", JStr (zoned_isoformat (ends_at period)));
            ("covered_start", JStr (zoned_isoformat (starts_at covered)));
            ("covered_end", JStr (zoned_isoformat (ends_at covered)))]);
  match proration_policy c with
  | no_proration | full_period => Ok (of_Z 1)
  | actual_elapsed_time =>
      period_us ← duration period; whole ← seconds_of period_us;
      covered_us ← duration covered; part ← seconds_of covered_us;
      positive ← dec (decimal_gt whole (of_Z 0));
      if (positive : bool) then dec (decimal_div part whole) else Ok (of_Z 0)
  | actual_calendar_days =>
      z ← zone c;
      period_days ← _calendar_day_span period z;
      covered_days ← _calendar_day_span covered z;
      if period_days <=? 0 then Ok (of_Z 0) else dec (decimal_div (of_Z covered_days) (of_Z period_days))
  end.

(** Whole months between two dates, by anniversaries. *)
Definition whole_months (start_local end_local : date) (rule : EndOfMonthRule) : result py_exn Z :=
  let months := (year end_local - year start_local) * 12 + (month end_local - month start_local) in
  anniversary ← _add_months start_local months rule;
  match anniversary with
  | None => Ok (months - 1)
  | Some anniversary => Ok (if date_ltb end_local anniversary then months - 1 else months)
  end.

Definition rate_units_in (c : BillingCadence) (period : Interval) : result sub_exn decimal :=
  z ← zone c;
  match rate_unit c with
  | unit_day => days ← _calendar_day_span period z; Ok (of_Z days)
  | unit_week => days ← _calendar_day_span period z; dec (decimal_div (of_Z days) (of_Z 7))
  | _ =>
      start_local ← py (astimezone (starts_at period) z);
      end_local ← py (astimezone (ends_at period) z);
      months ← py (whole_months (date_of start_local) (date_of end_local) (end_of_month_rule c));
      match rate_unit c with
      | unit_month => Ok (of_Z months)
      | _ => dec (decimal_div (of_Z months) (of_Z 12))
      end
  end.
End cadence.
