(* ===== verification/SubscriptionValues.v ===== *)
(** * Exact commercial values

    [packages/dotmac-subscriptions/src/dotmac_subscriptions/values.py] with
    [scope_segment] of the kernel's [cache.py]: canonical text of decimals and
    instants, amounts at a scale, and the fingerprints made of them. *)

From S2P Require Import Prelude PyData PyTime PyDecimal PyZone SubscriptionCadence.
From stdpp Require Import base strings pretty list.
From Stdlib Require Import ZArith NArith Ascii.

Local Open Scope Z_scope.

Definition data_error (code message : string) (details : list (string * json)) : sub_exn :=
  SubscriptionError_new SubscriptionDataError code message details.

(** ** Scopes *)

Inductive Scope : Type := TenantScope (tenant_id : UUID) | PlatformScope.

Definition _PLATFORM_SEGMENT : string := "platform".

Definition scope_segment (scope : Scope) : string :=
  match scope with TenantScope tenant_id => "t=" +:+ str_uuid tenant_id | PlatformScope => _PLATFORM_SEGMENT end.

(** ** Canonical text *)

Definition canonical_decimal (value : decimal) : result sub_exn string :=
  _ ← raise_if (negb (is_finite value))
        (data_error "values.invalid_decimal"
           "Commercial decimal values must be finite Decimal instances, never float." []);
  normalized ← dec (decimal_normalize value);
  let rendered := format_fixed normalized in
  let rendered :=
    if str_contains "." rendered then rstrip_char "." (rstrip_char "0" rendered) else rendered in
  Ok (if String.eqb rendered "-0" || String.eqb rendered "" then "0" else rendered).

Definition _currency (value : string) : result sub_exn string :=
  _ ← raise_if (negb (str_len value =? 3) || negb (str_isalpha value) || negb (String.eqb value (str_upper value)))
        (data_error "values.invalid_currency"
           "Currency is required as an uppercase alphabetic three-letter code." []);
  Ok value.

Section values.
Context `{TzData} `{Runtime}.

Definition _aware (value : zoned) (field : string) : result sub_exn zoned :=
  _ ← raise_if (naive value)
        (data_error "values.naive_datetime" (field +:+ " must be timezone-aware.") [("field", JStr field)]);
  Ok value.

Definition canonical_instant (value : zoned) : result sub_exn string :=
  value ← _aware value "instant";
  utc ← py (astimezone value UTC);
  Ok (isoformat_us utc).

(** ** Amounts *)

Record ExactAmount : Type := MkExactAmount {
  amount : decimal;
  currency : string;
  scale : Z;
}.

(** [ExactAmount.__post_init__], on the arguments. *)
Definition ExactAmount_new (amount : decimal) (currency : string) (scale : Z) : result sub_exn ExactAmount :=
  _ ← raise_if (negb (is_finite amount))
        (data_error "values.invalid_money" "ExactAmount requires a finite Decimal." []);
  _ ← _currency currency;
  _ ← raise_if (negb ((0 <=? scale) && (scale <=? 6)))
        (data_error "values.invalid_scale" "ExactAmount scale must be between zero and six." []);
  quantum ← dec (scaleb (of_Z 1) (- scale));
  quantized ← (match quantize amount quantum CONTEXT_ROUNDING with
               | Raise InvalidOperation =>
                   Raise (data_error "values.invalid_money"
                     "ExactAmount cannot be represented at its declared scale." [])
               | r => dec r
               end);
  equal ← dec (decimal_eq quantized amount);
  _ ← raise_if (negb equal)
        (data_error "values.scale_mismatch" "ExactAmount has more fractional digits than its declared scale." []);
  _ ← raise_if (match quantized with Fin _ n _ => 20 <? ndigits n | _ => false end)
        (data_error "values.precision_exceeded" "ExactAmount exceeds NUMERIC(20,6) precision." []);
  Ok (MkExactAmount quantized currency scale).

Definition as_wire (a : ExactAmount) : json :=
  JObj [("amount", JStr (format_places (scale a) (amount a))); ("currency", JStr (currency a));
        ("scale", JInt (scale a))].

(** ** Fingerprints *)

Definition _digest (payload : list (string * json)) : string := sha256_hexdigest (json_dumps (JObj payload)).

Definition rating_input_fingerprint (unit_price : ExactAmount) (quantity : decimal) (rate_basis : RateBasis)
    (rate_unit : IntervalUnit) (rate_quantity rate_units : decimal) (proration_policy : ProrationPolicy)
    (proration_factor : decimal) (coverage_start coverage_end : zoned)
    (currency timezone_name rating_policy_version offer_version_ref : string) : result sub_exn string :=
  _ ← _currency currency;
  quantity ← canonical_decimal quantity;
  rate_quantity ← canonical_decimal rate_quantity;
  rate_units ← canonical_decimal rate_units;
  proration_factor ← canonical_decimal proration_factor;
  coverage_start ← canonical_instant coverage_start;
  coverage_end ← canonical_instant coverage_end;
  Ok (_digest [
    ("unit_price", as_wire unit_price); ("quantity", JStr quantity);
    ("rate_basis", JStr (RateBasis_value rate_basis)); ("rate_unit", JStr (IntervalUnit_value rate_unit));
    ("rate_quantity", JStr rate_quantity); ("rate_units", JStr rate_units);
    ("proration_policy", JStr (ProrationPolicy_value proration_policy));
    ("proration_factor", JStr proration_factor); ("coverage_start", JStr coverage_start);
    ("coverage_end", JStr coverage_end); ("currency", JStr currency); ("timezone_name", JStr timezone_name);
    ("rating_policy_version", JStr rating_policy_version); ("offer_version_ref", JStr offer_version_ref)]).

Definition occurrence_idempotency_key (scope : Scope) (contract_line_key contract_version_id : UUID)
    (charge_model_code source_code : string) (source_id : UUID) (source_version : Z)
    (period_start period_end : zoned) (currency : string) : result sub_exn string :=
  period_start ← canonical_instant period_start;
  period_end ← canonical_instant period_end;
  currency ← _currency currency;
  Ok ("subscriptions:occurrence:" +:+ _digest [
    ("scope", JStr (scope_segment scope)); ("contract_line_key", JStr (str_uuid contract_line_key));
    ("contract_version_id", JStr (str_uuid contract_version_id));
    ("charge_model_code", JStr charge_model_code); ("source_code", JStr source_code);
    ("source_id", JStr (str_uuid source_id)); ("source_version", JInt source_version);
    ("period_start", JStr period_start); ("period_end", JStr period_end); ("currency", JStr currency)]).

Definition opt_str (s : option string) : json := match s with Some s => JStr s | None => JNull end.

Definition billing_arrangement_fingerprint (scope : Scope) (contract_id contract_line_key
    authorized_contract_version_id authorized_offer_version_id : UUID) (treatment reason_code reason : string)
    (starts_at ends_at : zoned) (approval_policy_ref approval_policy_version : string)
    (approval_policy_max_days : Z) (maximum_recurring_amount : ExactAmount) (service_interval_unit : IntervalUnit)
    (service_interval_count : Z) (sponsor_reference cost_center : option string) : result sub_exn string :=
  starts_at ← canonical_instant starts_at;
  ends_at ← canonical_instant ends_at;
  Ok (_digest [
    ("scope", JStr (scope_segment scope)); ("contract_id", JStr (str_uuid contract_id));
    ("contract_line_key", JStr (str_uuid contract_line_key));
    ("authorized_contract_version_id", JStr (str_uuid authorized_contract_version_id));
    ("authorized_offer_version_id", JStr (str_uuid authorized_offer_version_id));
    ("treatment", JStr treatment); ("reason_code", JStr reason_code); ("reason", JStr reason);
    ("starts_at", JStr starts_at); ("ends_at", JStr ends_at);
    ("approval_policy_ref", JStr approval_policy_ref); ("approval_policy_version", JStr approval_policy_version);
    ("approval_policy_max_days", JInt approval_policy_max_days);
    ("maximum_recurring_amount", as_wire maximum_recurring_amount);
    ("service_interval_unit", JStr (IntervalUnit_value service_interval_unit));
    ("service_interval_count", JInt service_interval_count);
    ("sponsor_reference", opt_str sponsor_reference); ("cost_center", opt_str cost_center)]).

Definition non_cash_grant_idempotency_key (scope : Scope) (arrangement_id recurring_occurrence_id
    contract_line_key : UUID) (period_start period_end : zoned) (currency : string) : result sub_exn string :=
  period_start ← canonical_instant period_start;
  period_end ← canonical_instant period_end;
  currency ← _currency currency;
  Ok ("subscriptions:non-cash-grant:" +:+ _digest [
    ("scope", JStr (scope_segment scope)); ("arrangement_id", JStr (str_uuid arrangement_id));
    ("recurring_occurrence_id", JStr (str_uuid recurring_occurrence_id));
    ("contract_line_key", JStr (str_uuid contract_line_key));
    ("period_start", JStr period_start); ("period_end", JStr period_end); ("currency", JStr currency)]).

Definition entitlement_projection_fingerprint (entitlement_codes : list string) (quantity : decimal)
    (effective_from : zoned) (effective_until : option zoned) (source_code : string) (source_id : UUID)
    (source_version : Z) : result sub_exn string :=
  quantity ← canonical_decimal quantity;
  effective_from ← canonical_instant effective_from;
  effective_until ← (match effective_until with
                     | Some t => text ← canonical_instant t; Ok (JStr text)
                     | None => Ok JNull
                     end);
  Ok (_digest [
    ("entitlement_codes", JList (map JStr entitlement_codes)); ("quantity", JStr quantity);
    ("effective_from", JStr effective_from); ("effective_until", effective_until);
    ("source_code", JStr source_code); ("source_id", JStr (str_uuid source_id));
    ("source_version", JInt source_version)]).
End values.
