(* ===== verification/SubscriptionRating.v ===== *)
(** * Rating and lifecycles of subscriptions

    [engine.py], [lifecycle.py] and [vocabulary.py] of
    [packages/dotmac-subscriptions/src/dotmac_subscriptions/]. *)

From S2P Require Import Prelude PyData PyTime PyDecimal PyZone SubscriptionCadence SubscriptionValues.
From stdpp Require Import base strings list.
From Stdlib Require Import ZArith.

Local Open Scope Z_scope.

(** ** Rating *)

Definition FIXED_RATING_POLICY_VERSION : string := "fixed.v1".

Record RatingInput : Type := MkRatingInput {
  unit_price : ExactAmount;
  quantity : decimal;
  cadence : BillingCadence;
  period : Interval;
  coverage : Interval;
  rating_policy_version : string;
  offer_version_ref : string;
}.

(** [RatingInput.__post_init__], on the fields. *)
Definition RatingInput_new (v : RatingInput) : result sub_exn RatingInput :=
  not_positive ← dec (decimal_le (quantity v) (of_Z 0));
  _ ← raise_if not_positive (data_error "rating.invalid_quantity" "Rating quantity must be positive." []);
  free ← dec (decimal_le (amount (unit_price v)) (of_Z 0));
  _ ← raise_if free
        (data_error "rating.non_positive_contract_price"
           "Rating requires a strictly positive contract-line price." []);
  _ ← raise_if (String.eqb (rating_policy_version v) "" || String.eqb (offer_version_ref v) "")
        (data_error "rating.missing_provenance"
           "Rating policy and immutable offer-version provenance are required." []);
  Ok v.

Record RatingResult : Type := MkRatingResult {
  pre_tax_amount : ExactAmount;
  rr_rate_units : decimal;
  rr_proration_factor : decimal;
  request_fingerprint : string;
}.

Section rating.
Context `{TzData} `{SecondsText} `{Runtime}.

(** The price of the line before it is quantized. *)
Definition raw_price (v : RatingInput) (units factor : decimal) : result signal decimal :=
  base ← decimal_mul (amount (unit_price v)) (quantity v);
  raw ← (match rate_basis (cadence v) with
         | per_rate_unit => rated ← decimal_mul base units; decimal_div rated (rate_quantity (cadence v))
         | _ => Ok base
         end);
  match proration_policy (cadence v) with
  | actual_calendar_days | actual_elapsed_time => decimal_mul raw factor
  | _ => Ok raw
  end.

Definition rate_recurring_line (v : RatingInput) : result sub_exn RatingResult :=
  let c := cadence v in
  _ ← raise_if (negb (String.eqb (rating_policy_version v) FIXED_RATING_POLICY_VERSION))
        (data_error "rating.unsupported_policy_version"
           "The recorded rating policy has no installed replay implementation." []);
  _ ← raise_if (match rate_basis c with usage_metered => true | _ => false end)
        (data_error "rating.usage_not_owned"
           "Usage-metered intent requires the separate usage-rating owner." []);
  units ← rate_units_in c (period v);
  factor ← proration_factor c (period v) (coverage v);
  raw ← dec (raw_price v units factor);
  quantum ← dec (scaleb (of_Z 1) (- scale (unit_price v)));
  amount ← dec (quantize raw quantum ROUND_HALF_UP);
  exact ← ExactAmount_new amount (currency (unit_price v)) (scale (unit_price v));
  fingerprint ← rating_input_fingerprint (unit_price v) (quantity v) (rate_basis c) (rate_unit c)
    (rate_quantity c) units (proration_policy c) factor (starts_at (coverage v)) (ends_at (coverage v))
    (currency (unit_price v)) (timezone_name c) (rating_policy_version v) (offer_version_ref v);
  Ok (MkRatingResult exact units factor fingerprint).
End rating.

(** ** Lifecycles *)

Inductive OfferState : Type := offer_draft | offer_published | offer_withdrawn.
Inductive ContractVersionState : Type :=
  contract_draft | contract_effective | contract_superseded | contract_ended | contract_cancelled.
Inductive OccurrenceState : Type := occ_scheduled | occ_due | occ_emitted | occ_cancelled.
Inductive BillingArrangementStatus : Type := arrangement_active | arrangement_revoked.

#[export] Instance OfferState_eq_dec : EqDecision OfferState.
Proof. solve_decision. Defined.
#[export] Instance ContractVersionState_eq_dec : EqDecision ContractVersionState.
Proof. solve_decision. Defined.
#[export] Instance OccurrenceState_eq_dec : EqDecision OccurrenceState.
Proof. solve_decision. Defined.
#[export] Instance BillingArrangementStatus_eq_dec : EqDecision BillingArrangementStatus.
Proof. solve_decision. Defined.

Definition OfferState_value (s : OfferState) : string :=
  match s with offer_draft => "draft" | offer_published => "published" | offer_withdrawn => "withdrawn" end.
Definition ContractVersionState_value (s : ContractVersionState) : string :=
  match s with
  | contract_draft => "draft" | contract_effective => "effective" | contract_superseded => "superseded"
  | contract_ended => "ended" | contract_cancelled => "cancelled"
  end.
Definition OccurrenceState_value (s : OccurrenceState) : string :=
  match s with
  | occ_scheduled => "scheduled" | occ_due => "due" | occ_emitted => "emitted" | occ_cancelled => "cancelled"
  end.
Definition BillingArrangementStatus_value (s : BillingArrangementStatus) : string :=
  match s with arrangement_active => "active" | arrangement_revoked => "revoked" end.

Definition _OFFER_TRANSITIONS (s : OfferState) : list OfferState :=
  match s with
  | offer_draft => [offer_published] | offer_published => [offer_withdrawn] | offer_withdrawn => []
  end.
Definition _CONTRACT_TRANSITIONS (s : ContractVersionState) : list ContractVersionState :=
  match s with
  | contract_draft => [contract_effective; contract_cancelled]
  | contract_effective => [contract_superseded; contract_ended]
  | _ => []
  end.
Definition _OCCURRENCE_TRANSITIONS (s : OccurrenceState) : list OccurrenceState :=
  match s with
  | occ_scheduled => [occ_due; occ_cancelled] | occ_due => [occ_emitted; occ_cancelled] | _ => []
  end.
Definition _ARRANGEMENT_TRANSITIONS (s : BillingArrangementStatus) : list BillingArrangementStatus :=
  match s with arrangement_active => [arrangement_revoked] | arrangement_revoked => [] end.

Definition _require_transition {S} `{EqDecision S} (aggregate : string) (current target : S)
    (allowed : S → list S) (value : S → string) : result sub_exn unit :=
  raise_if (negb (bool_decide (target ∈ allowed current)))
    (SubscriptionError_new SubscriptionStateError "lifecycle.invalid_transition"
       (aggregate +:+ " cannot transition from " +:+ py_repr_str (value current) +:+ " to "
          +:+ py_repr_str (value target)) []).

Definition require_offer_transition (current target : OfferState) : result sub_exn unit :=
  _require_transition "offer" current target _OFFER_TRANSITIONS OfferState_value.
Definition require_contract_transition (current target : ContractVersionState) : result sub_exn unit :=
  _require_transition "contract version" current target _CONTRACT_TRANSITIONS ContractVersionState_value.
Definition require_occurrence_transition (current target : OccurrenceState) : result sub_exn unit :=
  _require_transition "occurrence" current target _OCCURRENCE_TRANSITIONS OccurrenceState_value.
Definition require_arrangement_transition (current target : BillingArrangementStatus) : result sub_exn unit :=
  _require_transition "billing arrangement" current target _ARRANGEMENT_TRANSITIONS BillingArrangementStatus_value.

(** ** Vocabulary *)

Definition PORTED_BILLING_TREATMENT_REASONS : list string :=
  ["internal_service"; "staff_benefit"; "partner_service"; "community_support"; "commercial_concession";
   "sponsored_service"; "other_approved"].
Definition PORTED_REASON_OWNER : string := "subscriptions".

Record BillingTreatmentReasonDeclaration : Type := MkReasonDeclaration {
  rd_module : string;
  rd_codes : list string;
}.

Definition BillingTreatmentReasonDeclaration_new (module : string) (codes : list string)
    : result sub_exn BillingTreatmentReasonDeclaration :=
  _ ← raise_if (String.eqb module "")
        (data_error "vocabulary.missing_declaration_owner"
           "A billing treatment reason declaration must name its module." []);
  Ok (MkReasonDeclaration module codes).

Definition _code (value vocabulary : string) : result sub_exn string :=
  _ ← raise_if (String.eqb value "" || (120 <? str_len value))
        (data_error "vocabulary.invalid_code"
           (vocabulary +:+ " codes are required and at most 120 characters.") []);
  Ok value.

(** What a manifest declares of the two registries; the rest is not read here. *)
Record AnyManifest : Type := MkManifest {
  manifest_name : string;
  manifest_charge_models : list string;
  manifest_obligation_sources : list string;
}.

Record SubscriptionVocabularyRegistry : Type := MkRegistry {
  charge_models : list (string * string);
  obligation_sources : list (string * string);
  billing_treatment_reasons : list (string * string);
}.

Definition _add (target : list (string * string)) (declarations : list string) (owner vocabulary : string)
    : result sub_exn (list (string * string)) :=
  fold_result (λ target declaration,
    code ← _code declaration vocabulary;
    match assoc_get code target with
    | Some previous =>
        Raise (data_error "vocabulary.duplicate_owner"
          (vocabulary +:+ " " +:+ py_repr_str code +:+ " is declared by more than one module: "
             +:+ py_repr_str previous +:+ " and " +:+ py_repr_str owner +:+ ".") [])
    | None => Ok (target ++ [(code, owner)])
    end) target declarations.

Definition from_manifests (manifests : list AnyManifest) (reason_declarations : list BillingTreatmentReasonDeclaration)
    : result sub_exn SubscriptionVocabularyRegistry :=
  reasons ← _add [] PORTED_BILLING_TREATMENT_REASONS PORTED_REASON_OWNER "billing treatment reason";
  reasons ← fold_result (λ reasons d, _add reasons (rd_codes d) (rd_module d) "billing treatment reason")
    reasons reason_declarations;
  tables ← fold_result (λ tables m,
      models ← _add tables.1 (manifest_charge_models m) (manifest_name m) "charge model";
      sources ← _add tables.2 (manifest_obligation_sources m) (manifest_name m) "obligation source";
      Ok (models, sources)) ([], []) manifests;
  Ok (MkRegistry tables.1 tables.2 reasons).

Definition require_code (table : list (string * string)) (kind label code : string) : result sub_exn string :=
  match assoc_get code table with
  | Some owner => Ok owner
  | None => Raise (data_error ("vocabulary.undeclared_" +:+ kind) (label +:+ " " +:+ py_repr_str code +:+ " is undeclared") [])
  end.
Definition require_charge_model (r : SubscriptionVocabularyRegistry) (code : string) : result sub_exn string :=
  require_code (charge_models r) "charge_model" "charge model" code.
Definition require_obligation_source (r : SubscriptionVocabularyRegistry) (code : string) : result sub_exn string :=
  require_code (obligation_sources r) "obligation_source" "obligation source" code.
Definition require_billing_treatment_reason (r : SubscriptionVocabularyRegistry) (code : string) : result sub_exn string :=
  require_code (billing_treatment_reasons r) "billing_treatment_reason" "billing treatment reason" code.
