(* ===== verification/SubscriptionPeriods.v ===== *)
(** * Periods of a cadence

    The periods of a cadence are half-open intervals that follow each other, so a
    moment after the first start is in exactly one of them; a boundary is so many
    calendar units after the anchor on the local clock. *)

From S2P Require Import Prelude PyData PyTime PyZone PyDecimal SubscriptionCadence.
From stdpp Require Import base strings list.
From Stdlib Require Import ZArith Lia.

Local Open Scope Z_scope.

Section periods.
Context `{TzData}.

(** ** Comparison by instants *)

(** A value whose offset is fixed. *)
Definition fixed (d : zoned) : Prop := ∃ us, tz d = Some (FixedOffset us).

Lemma compare_fixed_l a b : fixed a → naive b = false → compare_zoned a b = Ok (moment_of a ?= moment_of b).
Proof.
  intros [us Ha] Hb. unfold compare_zoned. case_bool_decide as E.
  - unfold moment_of. rewrite <-E, Ha. cbn [offset_of]. f_equal.
    destruct (Z.compare_spec (wall a) (wall b)), (Z.compare_spec (wall a - us) (wall b - us)); try done; lia.
  - unfold naive in *. rewrite Ha. by destruct (tz b).
Qed.

Lemma compare_fixed_r a b : fixed b → naive a = false → compare_zoned a b = Ok (moment_of a ?= moment_of b).
Proof.
  intros [us Hb] Ha. unfold compare_zoned. case_bool_decide as E.
  - unfold moment_of. rewrite E, Hb. cbn [offset_of]. f_equal.
    destruct (Z.compare_spec (wall a) (wall b)), (Z.compare_spec (wall a - us) (wall b - us)); try done; lia.
  - unfold naive in *. rewrite Hb. by destruct (tz a).
Qed.

Lemma fixed_aware d : fixed d → naive d = false.
Proof. intros [us Hd]. unfold naive. by rewrite Hd. Qed.

Lemma lt_fixed a b : (fixed a ∧ naive b = false) ∨ (fixed b ∧ naive a = false) →
  zoned_lt a b = Ok (moment_of a <? moment_of b).
Proof.
  intros [[Ha Hb]|[Hb Ha]]; unfold zoned_lt;
    [rewrite compare_fixed_l by done|rewrite compare_fixed_r by done]; reflexivity.
Qed.

Lemma le_fixed a b : (fixed a ∧ naive b = false) ∨ (fixed b ∧ naive a = false) →
  zoned_le a b = Ok (moment_of a <=? moment_of b).
Proof.
  intros [[Ha Hb]|[Hb Ha]]; unfold zoned_le;
    [rewrite compare_fixed_l by done|rewrite compare_fixed_r by done]; reflexivity.
Qed.

(** ** Boundaries *)

Lemma zone_is_zone c z : zone c = Ok z → ∃ key, z = Zone key.
Proof. unfold zone, zone_named. destruct (zone_known _); [|done]. intros [= <-]. by eexists. Qed.

Lemma py_Ok {A} (r : result py_exn A) a : py r = Ok a ↔ r = Ok a.
Proof. destruct r; naive_solver. Qed.

Lemma astimezone_UTC d z t : astimezone (replace_tz d (Zone z)) UTC = Ok t → tz t = Some UTC.
Proof.
  unfold astimezone. rewrite bool_decide_eq_false_2 by done. unfold check_range, UTC.
  intros Hr. by result_inv.
Qed.

Lemma shift_UTC anchor unit count c t : _shift anchor unit count c = Ok t → tz t = Some UTC.
Proof.
  unfold _shift. intros Hr. apply result_bind_Ok in Hr as (z & Hz & Hr). apply zone_is_zone in Hz as [key ->].
  apply result_bind_Ok in Hr as (local & _ & Hr). apply result_bind_Ok in Hr as (d & _ & Hr).
  apply py_Ok in Hr. by apply astimezone_UTC in Hr.
Qed.

Lemma UTC_fixed d : tz d = Some UTC → fixed d.
Proof. intros Hd. by exists 0. Qed.

(** The boundary that a period starts from. *)
Definition boundary (unit : IntervalUnit) (count : Z) (c : BillingCadence) (aligned : zoned) (index : Z)
    : result sub_exn zoned :=
  if index =? 0 then Ok aligned else _shift aligned unit (count * index) c.

Lemma Interval_new_Ok s e p : fixed e →
  Interval_new s e = Ok p ↔ p = MkInterval s e ∧ naive s = false ∧ moment_of s < moment_of e.
Proof.
  intros He. pose proof (fixed_aware e He) as Hae. unfold Interval_new, _require_aware. rewrite Hae.
  destruct (naive s) eqn:Hs; cbn [raise_if mbind result_bind]; [naive_solver|].
  rewrite le_fixed by (left; by split). cbn [py mbind result_bind].
  destruct (Z.leb_spec (moment_of e) (moment_of s)); cbn [raise_if mbind result_bind]; naive_solver lia.
Qed.

(** A period is the range between two boundaries, the first before the second. *)
Lemma nth_period_Ok unit count c start index p :
  nth_period unit count c start index = Ok p ↔
  ∃ aligned, naive start = false ∧ 0 ≤ index ∧ _align_start start c = Ok aligned ∧
    boundary unit count c aligned index = Ok (starts_at p) ∧
    boundary unit count c aligned (index + 1) = Ok (ends_at p) ∧
    naive (starts_at p) = false ∧ fixed (ends_at p) ∧ moment_of (starts_at p) < moment_of (ends_at p).
Proof.
  unfold nth_period, _require_aware, _nth_interval, boundary. split.
  - intros Hr. result_inv. assert (0 ≤ index) as Hi by lia.
    match goal with Hs : _shift _ _ (count * (index + 1)) _ = Ok ?e |- _ =>
      pose proof (UTC_fixed _ (shift_UTC _ _ _ _ _ Hs)) as Hf end.
    apply Interval_new_Ok in Hr as (-> & Hn & Hlt); [|done]. cbn [starts_at ends_at].
    rewrite (proj2 (Z.eqb_neq (index + 1) 0)) by lia. eexists. by split_and!.
  - intros (aligned & Hn & Hi & Ha & Hs & He & Hns & Hf & Hlt). rewrite Hn. cbn [raise_if mbind result_bind].
    rewrite (proj2 (Z.ltb_ge index 0)) by lia. cbn [raise_if mbind result_bind].
    rewrite Ha. cbn [mbind result_bind]. rewrite Hs. cbn [mbind result_bind].
    rewrite (proj2 (Z.eqb_neq (index + 1) 0)) in He by lia. rewrite He. cbn [mbind result_bind].
    apply Interval_new_Ok; [done|]. by destruct p.
Qed.

Lemma service_period_Ok c start index p : service_period c start index = Ok p →
  let unit := service_interval_unit c in
  let count := service_interval_count c in
  ∃ aligned, naive start = false ∧ 0 ≤ index ∧ _align_start start c = Ok aligned ∧
    boundary unit count c aligned index = Ok (starts_at p) ∧
    boundary unit count c aligned (index + 1) = Ok (ends_at p) ∧
    naive (starts_at p) = false ∧ fixed (ends_at p) ∧ moment_of (starts_at p) < moment_of (ends_at p).
Proof. apply nth_period_Ok. Qed.

(** ** Chains of periods *)

(** A moment in a period, as the period tests it. *)
Lemma contains_Ok unit count c start index p moment :
  nth_period unit count c start index = Ok p → fixed moment →
  Interval_contains p moment = Ok ((moment_of (starts_at p) <=? moment_of moment) && (moment_of moment <? moment_of (ends_at p))).
Proof.
  intros Hp Hm. apply nth_period_Ok in Hp as (aligned & _ & _ & _ & _ & _ & Hns & Hf & _).
  unfold Interval_contains, _require_aware. rewrite (fixed_aware _ Hm). cbn [raise_if mbind result_bind].
  rewrite le_fixed by (right; by split). cbn [py mbind result_bind].
  destruct (_ <=? _); [|done]. rewrite lt_fixed by (left; by split; [|apply fixed_aware]). done.
Qed.

(** Consecutive periods share a boundary. *)
Lemma periods_meet unit count c start index p q :
  nth_period unit count c start index = Ok p → nth_period unit count c start (index + 1) = Ok q →
  ends_at p = starts_at q.
Proof.
  intros (a & _ & _ & Ha & _ & He & _)%nth_period_Ok (b & _ & _ & Hb & Hs & _)%nth_period_Ok. congruence.
Qed.

(** The periods up to an index are all there. *)
Definition all_periods (unit : IntervalUnit) (count : Z) (c : BillingCadence) (start : zoned) (n : Z) : Prop :=
  ∀ i, 0 ≤ i < n → ∃ p, nth_period unit count c start i = Ok p.

Lemma periods_ordered unit count c start n i j p q :
  all_periods unit count c start n → 0 ≤ i → i < j < n →
  nth_period unit count c start i = Ok p → nth_period unit count c start j = Ok q →
  moment_of (ends_at p) ≤ moment_of (starts_at q).
Proof.
  intros Hall Hi Hij Hp. replace j with (i + 1 + Z.of_nat (Z.to_nat (j - i - 1))) in * by lia. revert q.
  remember (Z.to_nat (j - i - 1)) as d eqn:Ed. clear Ed. induction d as [|d IH]; intros q Hq.
  - rewrite Z.add_0_r in Hq. by rewrite (periods_meet _ _ _ _ _ _ _ Hp Hq).
  - destruct (Hall (i + 1 + Z.of_nat d)) as [m Hm]; [lia|].
    replace (i + 1 + Z.of_nat (S d)) with (i + 1 + Z.of_nat d + 1) in Hq by lia.
    rewrite <-(periods_meet _ _ _ _ _ _ _ Hm Hq). specialize (IH ltac:(lia) m Hm).
    apply nth_period_Ok in Hm as (_ & _ & _ & _ & _ & _ & _ & _ & Hlt). lia.
Qed.

(** No moment is in two periods. *)
Lemma periods_disjoint unit count c start n i j p q t :
  all_periods unit count c start n → 0 ≤ i < n → 0 ≤ j < n →
  nth_period unit count c start i = Ok p → nth_period unit count c start j = Ok q →
  moment_of (starts_at p) ≤ t < moment_of (ends_at p) → moment_of (starts_at q) ≤ t < moment_of (ends_at q) → i = j.
Proof.
  intros Hall Hi Hj Hp Hq Ht Hu. destruct (Z.lt_trichotomy i j) as [Hij|[->|Hij]]; [|done|]; exfalso.
  - pose proof (periods_ordered unit count c start n i j p q Hall ltac:(lia) ltac:(lia) Hp Hq). lia.
  - pose proof (periods_ordered unit count c start n j i q p Hall ltac:(lia) ltac:(lia) Hq Hp). lia.
Qed.

(** A moment from the first start to the last end is in one of them. *)
Lemma periods_cover unit count c start n t (first last : Interval) :
  0 < n → all_periods unit count c start n →
  nth_period unit count c start 0 = Ok first → nth_period unit count c start (n - 1) = Ok last →
  moment_of (starts_at first) ≤ t < moment_of (ends_at last) →
  ∃ i p, 0 ≤ i < n ∧ nth_period unit count c start i = Ok p ∧ moment_of (starts_at p) ≤ t < moment_of (ends_at p).
Proof.
  intros Hn Hall Hfirst. replace n with (1 + Z.of_nat (Z.to_nat (n - 1))) in * by lia.
  remember (Z.to_nat (n - 1)) as d eqn:Ed. clear Ed Hn. revert last Hall. induction d as [|d IH]; intros last Hall Hl Ht.
  - exists 0, first. split; [lia|]. split; [done|]. replace (1 + Z.of_nat 0 - 1) with 0 in Hl by lia. rewrite Hfirst in Hl. by injection Hl as ->.
  - destruct (Hall (Z.of_nat d)) as [m Hm]; [lia|]. replace (1 + Z.of_nat (S d) - 1) with (Z.of_nat d + 1) in Hl by lia.
    destruct (decide (t < moment_of (ends_at m))) as [Htm|Htm].
    + destruct (IH m) as (i & p & Hi & Hp); [intros i Hi; apply Hall; lia|by replace (1 + Z.of_nat d - 1) with (Z.of_nat d) by lia|lia|].
      exists i, p. split; [lia|done].
    + exists (Z.of_nat d + 1), last. split; [lia|]. split; [done|].
      rewrite <-(periods_meet _ _ _ _ _ _ _ Hm Hl). lia.
Qed.
End periods.

(** ** Months *)

Definition month_of (d : date) : Z := month_number (year d) (month d).

(** A date so many months later: the same day, or the last of a shorter month. *)
Definition months_later (rule : EndOfMonthRule) (k : Z) (d d' : date) : Prop :=
  calendar_date d' ∧ month_of d' = month_of d + k ∧ day d' = Z.min (day d) (month_length (month_of d + k)) ∧
  (rule = strict_same_day_or_skip → day d' = day d).

Lemma month_index a k : 1 ≤ month a ≤ 12 →
  let total := month a - 1 + k in
  1 ≤ total mod 12 + 1 ≤ 12 ∧ month_number (year a + total / 12) (total mod 12 + 1) = month_of a + k.
Proof.
  intros Hm total. unfold month_of, month_number. subst total. Z.to_euclidean_division_equations. lia.
Qed.

Lemma anchor_date_Ok y m a rule d : 1 ≤ m ≤ 12 → 1 ≤ a →
  _anchor_date y m a rule = Ok (Some d) →
  d = MkDate y m (Z.min a (last_day_of y m)) ∧ (rule = strict_same_day_or_skip → a ≤ last_day_of y m) ∧ calendar_date d.
Proof.
  intros Hm Ha. unfold _anchor_date, date_new, calendar_date. destruct (Z.leb_spec a (last_day_of y m)) as [Hle|Hgt].
  - intros Hr. result_inv. rewrite Z.min_l by done. cbn. split_and!; [done|done|lia..].
  - assert (1 ≤ last_day_of y m) by (unfold last_day_of; repeat case_match; lia).
    destruct rule; intros Hr; [|done]. result_inv. rewrite Z.min_r by lia. cbn. split_and!; [done|done|lia..].
Qed.

Lemma add_months_Ok a k rule d : calendar_date a → _add_months a k rule = Ok (Some d) → months_later rule k a d.
Proof.
  intros [Hm Hd] Hr. destruct (month_index a k Hm) as [Hm' Hi]. unfold _add_months in Hr.
  apply anchor_date_Ok in Hr as (-> & Hstrict & Hc); [|done|lia]. unfold months_later, month_of in *. cbn [year month day] in *.
  rewrite <-Hi, month_length_of by done. split_and!; [done..|]. intros Hs. specialize (Hstrict Hs). lia.
Qed.

Lemma add_months_None a k rule : calendar_date a → _add_months a k rule = Ok None →
  rule = strict_same_day_or_skip ∧ month_length (month_of a + k) < day a.
Proof.
  intros [Hm _] Hr. destruct (month_index a k Hm) as [Hm' Hi]. rewrite <-Hi, month_length_of by done.
  unfold _add_months, _anchor_date in Hr. destruct (Z.leb_spec (day a) (last_day_of (year a + (month a - 1 + k) / 12) ((month a - 1 + k) mod 12 + 1))).
  - by result_inv.
  - destruct rule; [by result_inv|done].
Qed.

(** Two dates so many months later are the same. *)
Lemma months_later_days rule k a d : months_later rule k a d →
  days_of d = month_start (month_of a + k) + Z.min (day a) (month_length (month_of a + k)) - 1.
Proof.
  intros ([Hm Hd] & Hmo & Hday & _). rewrite days_of_month by done. unfold month_of in Hmo at 1. by rewrite Hmo, Hday.
Qed.

(** Later anniversaries are later days. *)
Lemma months_later_mono rule j k a d e : 1 ≤ day a → j < k → months_later rule j a d → months_later rule k a e →
  days_of d < days_of e.
Proof.
  intros Ha Hjk Hd He. rewrite (months_later_days _ _ _ _ Hd), (months_later_days _ _ _ _ He).
  pose proof (month_start_mono (month_of a + j) (month_of a + k) ltac:(lia)).
  pose proof (month_length_bounds (month_of a + j)). pose proof (month_length_bounds (month_of a + k)). lia.
Qed.

(** ** Local times *)

Section shift.
Context `{TzData} {laws : TzLaws}.

(** A wall time moved by calendar units: the time of day stays. *)
Definition advanced (unit : IntervalUnit) (count : Z) (rule : EndOfMonthRule) (w w' : Z) : Prop :=
  w' mod us_per_day = w mod us_per_day ∧
  match unit with
  | unit_day => w' / us_per_day = w / us_per_day + count
  | unit_week => w' / us_per_day = w / us_per_day + 7 * count
  | unit_month => months_later rule count (date_of_days (w / us_per_day)) (date_of_days (w' / us_per_day))
  | unit_year => months_later rule (12 * count) (date_of_days (w / us_per_day)) (date_of_days (w' / us_per_day))
  end.

Lemma us_per_day_pos : 0 < us_per_day.
Proof. done. Qed.

Lemma move_days w k : (w + k * us_per_day) / us_per_day = w / us_per_day + k ∧ (w + k * us_per_day) mod us_per_day = w mod us_per_day.
Proof. pose proof us_per_day_pos. by rewrite Z.div_add, Z.mod_add by lia. Qed.

Lemma day_and_time d w : (d * us_per_day + w mod us_per_day) / us_per_day = d ∧
  (d * us_per_day + w mod us_per_day) mod us_per_day = w mod us_per_day.
Proof.
  pose proof us_per_day_pos. pose proof (Z.mod_pos_bound w us_per_day ltac:(lia)).
  rewrite Z.add_comm, Z.div_add, Z.mod_add, Z.div_small, Z.mod_mod by lia. lia.
Qed.

Lemma local_of_fixed anchor z local : fixed anchor → astimezone anchor (Zone z) = Ok local →
  wall local = (zone_local z (moment_of anchor)).1 ∧ tz local = Some (Zone z).
Proof.
  intros [us Ha]. unfold astimezone, check_range. rewrite bool_decide_eq_false_2 by (rewrite Ha; congruence).
  intros Hr. result_inv. done.
Qed.

Lemma UTC_of_zone d z t : astimezone (replace_tz d (Zone z)) UTC = Ok t →
  moment_of t = wall d - zone_offset z (wall d) false ∧ tz t = Some UTC.
Proof.
  unfold astimezone. rewrite bool_decide_eq_false_2 by done. unfold check_range, UTC.
  intros Hr. result_inv. unfold moment_of. cbn. split; [lia|done].
Qed.

Lemma combined_later local k rule target : _add_months (date_of local) k rule = Ok (Some target) →
  wall (combine_date target local) mod us_per_day = wall local mod us_per_day ∧
  months_later rule k (date_of_days (wall local / us_per_day)) (date_of_days (wall (combine_date target local) / us_per_day)).
Proof.
  intros Ht. apply add_months_Ok in Ht; [|apply days_of_date_of]. unfold combine_date. cbn [wall].
  destruct (day_and_time (days_of target) (wall local)) as [-> ->]. split; [done|].
  rewrite date_of_days_of; [done|]. by destruct Ht.
Qed.

(** A boundary is the moment of a local time moved by the units of the
    interval. *)
Lemma shift_moves anchor unit count c z t :
  fixed anchor → timezone_name c = z → _shift anchor unit count c = Ok t →
  ∃ w, advanced unit count (end_of_month_rule c) (zone_local z (moment_of anchor)).1 w ∧
    moment_of t = w - zone_offset z w false.
Proof.
  intros Hf Hz Hr. unfold _shift, zone, zone_named in Hr. rewrite Hz in Hr.
  destruct (zone_known z); [|done]. cbn [mbind result_bind] in Hr.
  apply result_bind_Ok in Hr as (local & Hl & Hr). apply py_Ok in Hl. apply local_of_fixed in Hl as [Hl _]; [|done].
  apply result_bind_Ok in Hr as (d & Hd & Hr). apply py_Ok in Hr. apply UTC_of_zone in Hr as [-> _].
  rewrite <-Hl. exists (wall d). split; [|done]. unfold advanced. destruct unit.
  - apply py_Ok in Hd. unfold add_days, check_range in Hd. result_inv. cbn [wall]. destruct (move_days (wall local) count). done.
  - apply py_Ok in Hd. unfold add_days, check_range in Hd. result_inv. cbn [wall]. destruct (move_days (wall local) (7 * count)). done.
  - apply result_bind_Ok in Hd as (target & Ht & Hd). apply py_Ok in Ht. destruct target as [target|]; [|done].
    injection Hd as <-. rewrite Z.mul_1_r in Ht. by apply combined_later in Ht.
  - apply result_bind_Ok in Hd as (target & Ht & Hd). apply py_Ok in Ht. destruct target as [target|]; [|done].
    injection Hd as <-. rewrite Z.mul_comm in Ht. by apply combined_later in Ht.
Qed.

(** The clock of the zone shows that local time again. *)
Lemma shown_again z w : shown z w → zone_local z (w - zone_offset z w false) = (w, false).
Proof.
  intros [t Ht]. pose proof (zone_local_instant z t) as Hi. rewrite Ht in Hi. cbn [fst snd] in Hi. by rewrite Hi.
Qed.
End shift.

(** ** Whole months *)

Lemma whole_months_spec s e rule k : calendar_date s → calendar_date e → whole_months s e rule = Ok k →
  (∀ j d, k < j → months_later rule j s d → days_of e < days_of d) ∧
  (∀ j d, j ≤ k → months_later rule j s d → days_of d ≤ days_of e).
Proof.
  intros Hs He Hr. unfold whole_months in Hr. apply result_bind_Ok in Hr as (a & Ha & Hr).
  set (m := (year e - year s) * 12 + (month e - month s)) in *.
  assert (month_of s + m = month_of e) as Hm by (unfold month_of, month_number; lia).
  pose proof Hs as [Hs1 Hs2]. pose proof He as [He1 He2].
  assert (days_of e = month_start (month_of e) + day e - 1) as Ede by by apply days_of_month.
  assert (day e ≤ month_length (month_of e)) as Hde by (unfold month_of; rewrite month_length_of; lia).
  assert (Hlater : ∀ j d, m < j → months_later rule j s d → days_of e < days_of d).
  { intros j d Hj Hd. rewrite (months_later_days _ _ _ _ Hd), Ede.
    pose proof (month_start_mono (month_of e) (month_of s + j) ltac:(lia)). pose proof (month_length_bounds (month_of s + j)). lia. }
  assert (Hearlier : ∀ j d, j < m → months_later rule j s d → days_of d ≤ days_of e).
  { intros j d Hj Hd. rewrite (months_later_days _ _ _ _ Hd), Ede.
    pose proof (month_start_mono (month_of s + j) (month_of e) ltac:(lia)). pose proof (month_length_bounds (month_of s + j)). lia. }
  destruct a as [a|].
  - apply add_months_Ok in Ha; [|done]. unfold date_ltb in Hr.
    assert (Hsame : ∀ d, months_later rule m s d → days_of d = days_of a).
    { intros d Hd. by rewrite (months_later_days _ _ _ _ Hd), (months_later_days _ _ _ _ Ha). }
    destruct (Z.ltb_spec (days_of e) (days_of a)) as [Hlt|Hge]; injection Hr as <-; split; intros j d Hj Hd.
    + destruct (decide (j = m)) as [->|Hne]; [rewrite (Hsame d Hd); lia|]. apply (Hlater j d); [lia|done].
    + apply (Hearlier j d); [lia|done].
    + by apply (Hlater j d).
    + destruct (decide (j = m)) as [->|Hne]; [rewrite (Hsame d Hd); lia|]. apply (Hearlier j d); [lia|done].
  - injection Hr as <-. apply add_months_None in Ha as [-> Hgt]; [|done]. split; intros j d Hj Hd.
    + destruct (decide (j = m)) as [->|Hne]; [|apply (Hlater j d); [lia|done]].
      exfalso. destruct Hd as (_ & _ & Hd & Hstrict). rewrite Hstrict in Hd by done. lia.
    + apply (Hearlier j d); [lia|done].
Qed.
