(* ===== verification/SubscriptionAmount.v ===== *)
(** * Proration and amounts, computed

    The factor of a covered interval of a period: exact where it is a whole, and
    the rounded ratio of seconds or of local days. The price, quantity, units and
    factor multiplied, each step with its rounding error, and the last rounding to
    the scale of the price. *)

From S2P Require Import Prelude PyData PyTime PyZone PyDecimal DecimalFacts DecimalError SubscriptionCadence SubscriptionValues.
From S2P Require Import SubscriptionRating SubscriptionPeriods.
From stdpp Require Import base strings list numbers.
From Stdlib Require Import ZArith NArith QArith Qpower Qabs Lqa Lia.

Local Open Scope Z_scope.

(** The text of a number of seconds is exact below fifteen digits of
    microseconds. *)
Class SecondsLaws `{SecondsText} : Prop :=
  seconds_exact us : 0 < us < 10 ^ 15 → ∃ n e,
    parse_decimal (seconds_text us) = Some (Fin false n e) ∧ (value (Fin false n e) == inject_Z us * Q10 (-6))%Q.

Section factor.
Context `{TzData} {laws : TzLaws} `{SecondsText} {seconds : SecondsLaws}.

(** An interval of moments with fixed offsets. *)
Definition proper (i : Interval) : Prop :=
  fixed (starts_at i) ∧ fixed (ends_at i) ∧ moment_of (starts_at i) < moment_of (ends_at i).

Definition span (i : Interval) : Z := moment_of (ends_at i) - moment_of (starts_at i).

(** The local day of a moment. *)
Definition local_day (z : string) (t : Z) : Z := (zone_local z t).1 / us_per_day.
Definition day_span (z : string) (i : Interval) : Z :=
  local_day z (moment_of (ends_at i)) - local_day z (moment_of (starts_at i)).

(** The calendar of the zone does not go back over a range of moments. *)
Definition dates_in_order (z : string) (i : Interval) : Prop :=
  ∀ s t, moment_of (starts_at i) ≤ s → s ≤ t → t ≤ moment_of (ends_at i) → local_day z s ≤ local_day z t.

Lemma subtract_fixed a b : fixed a → fixed b → subtract_zoned a b = Ok (moment_of a - moment_of b).
Proof.
  intros [us Ha] [vs Hb]. unfold subtract_zoned, naive, moment_of. rewrite Ha, Hb. case_bool_decide as E; [|done].
  injection E as ->. cbn [offset_of]. f_equal. lia.
Qed.

Lemma duration_proper i : proper i → duration i = Ok (span i).
Proof. intros (Hs & He & _). unfold duration. by rewrite subtract_fixed. Qed.

Lemma calendar_span i z n : proper i → _calendar_day_span i (Zone z) = Ok n → n = day_span z i.
Proof.
  intros (Hs & He & _) Hr. unfold _calendar_day_span in Hr. result_inv.
  repeat match goal with Hz : py _ = Ok _ |- _ => apply py_Ok in Hz end.
  repeat match goal with Hz : astimezone _ _ = Ok _ |- _ => apply local_of_fixed in Hz as [Hz _]; [|done] end.
  unfold day_span, local_day. congruence.
Qed.

(** Integers as decimals. *)
Lemma value_of_Z k : 0 ≤ k → (value (of_Z k) == inject_Z k)%Q.
Proof.
  intros Hk. unfold value, of_Z. rewrite Q10_zero, Qmult_1_r. unfold signed.
  rewrite (proj2 (Z.ltb_ge k 0)) by lia. by rewrite Z2N.id, Z.abs_eq by lia.
Qed.

(** The ratio of two numbers of moderate size. *)
Lemma ratio_within p w : 0 < p → 0 < w → p < 10 ^ 18 → w < 10 ^ 18 → inside (inject_Z p / inject_Z w).
Proof.
  intros Hp Hw Hp' Hw'.
  assert (∀ k, 0 < k → k < 10 ^ 18 → within 0 18 (inject_Z k)) as Hk.
  { intros k Hk0 Hk1. split; [rewrite Q10_zero; change 1%Q with (inject_Z 1)|rewrite <-(Q10_int 18) by lia];
      rewrite <-Zle_Qle; lia. }
  pose proof (within_mult _ _ _ _ _ _ (Hk p Hp Hp') (within_inv _ _ _ (Hk w Hw Hw'))) as Hi.
  refine (within_weaken _ _ (-700000) 700000 _ _ _ Hi); lia.
Qed.

Lemma ratio_of_integers p w : 0 ≤ p ≤ w → 0 < w → w < 10 ^ 18 →
  ∃ d, decimal_div (of_Z p) (of_Z w) = Ok d ∧ finite d ∧ (0 <= value d <= 1)%Q ∧
    close 2 (inject_Z p / inject_Z w) (value d).
Proof.
  intros Hp Hw Hmax. unfold of_Z. rewrite (proj2 (Z.ltb_ge p 0)), (proj2 (Z.ltb_ge w 0)) by lia.
  rewrite !Z.abs_eq by lia. set (a := Fin false (Z.to_N p) 0). set (b := Fin false (Z.to_N w) 0).
  assert (mag a == inject_Z p)%Q as Ea by (unfold a, mag; by rewrite Q10_zero, Qmult_1_r, Z2N.id by lia).
  assert (mag b == inject_Z w)%Q as Eb by (unfold b, mag; by rewrite Q10_zero, Qmult_1_r, Z2N.id by lia).
  destruct (div_fraction (Z.to_N p) 0 (Z.to_N w) 0) as (d & Hd & Hf & H01 & Hc); [lia| |..].
  - fold a b. rewrite Ea, Eb. rewrite <-Zle_Qle. lia.
  - fold a b. rewrite Ea, Eb. destruct (decide (p = 0)) as [->|Hp0]; [by left|right]. apply ratio_within; lia.
  - fold a b in Hd, Hc. rewrite Ea, Eb in Hc. exists d. exact (conj Hd (conj Hf (conj H01 Hc))).
Qed.

(** The rounded ratio of two spans, from the texts of their seconds. *)
Lemma ratio_of_seconds p w : 0 < p ≤ w → w < 10 ^ 15 →
  ∃ part whole d, seconds_of p = Ok part ∧ seconds_of w = Ok whole ∧ decimal_gt whole (of_Z 0) = Ok true ∧
    decimal_div part whole = Ok d ∧ finite d ∧ (0 <= value d <= 1)%Q ∧ close 2 (inject_Z p / inject_Z w) (value d).
Proof.
  intros Hp Hw. destruct (seconds_exact p) as (m & e & Hpe & Hpv); [lia|].
  destruct (seconds_exact w) as (n & f & Hwe & Hwv); [lia|].
  exists (Fin false m e), (Fin false n f). unfold seconds_of. rewrite Hpe, Hwe.
  change (value (Fin false m e)) with (mag (Fin false m e)) in Hpv.
  assert (0 < value (Fin false n f))%Q as Hwpos.
  { rewrite Hwv, <-(Qmult_0_l (Q10 (-6))). apply Qmult_lt_compat_r; [apply Q10_pos|].
    change 0%Q with (inject_Z 0). rewrite <-Zlt_Qlt. lia. }
  assert (decimal_gt (Fin false n f) (of_Z 0) = Ok true) as Hgt.
  { unfold decimal_gt, decimal_order. rewrite cmp_zero by done. cbn [is_nan orb of_Z]. f_equal.
    destruct (Qcompare_spec (value (Fin false n f)) 0); try done; lra. }
  change (value (Fin false n f)) with (mag (Fin false n f)) in Hwv, Hwpos.
  assert (n ≠ 0%N) as Hn.
  { intros ->. revert Hwpos. cbn [mag]. change (inject_Z (Z.of_N 0)) with 0%Q. rewrite Qmult_0_l. apply Qlt_irrefl. }
  pose proof (Q10_pos (-6)) as H6. assert (¬ (inject_Z w == 0)%Q) as Hw0.
  { change 0%Q with (inject_Z 0). rewrite inject_Z_injective. lia. }
  assert (mag (Fin false m e) / mag (Fin false n f) == inject_Z p / inject_Z w)%Q as E.
  { rewrite Hpv, Hwv. field. split; [done|lra]. }
  destruct (div_fraction m e n f) as (d & Hd & Hf & H01 & Hc); [lia| |right; rewrite E; apply ratio_within; lia|].
  - rewrite Hpv, Hwv. apply Qmult_le_compat_r; [|lra]. rewrite <-Zle_Qle. lia.
  - rewrite E in Hc. exists d.
    exact (conj eq_refl (conj eq_refl (conj Hgt (conj Hd (conj Hf (conj H01 Hc)))))).
Qed.

(** The share of a period that is covered, exactly. *)
Definition exact_factor (c : BillingCadence) (period covered : Interval) : Q :=
  match proration_policy c with
  | no_proration | full_period => 1
  | actual_elapsed_time => inject_Z (span covered) / inject_Z (span period)
  | actual_calendar_days =>
      if day_span (timezone_name c) period <=? 0 then 0
      else inject_Z (day_span (timezone_name c) covered) / inject_Z (day_span (timezone_name c) period)
  end.

Lemma factor_Ok c period covered f : proper period → proper covered →
  proration_factor c period covered = Ok f →
  span period < 10 ^ 15 → dates_in_order (timezone_name c) period → day_span (timezone_name c) period < 10 ^ 18 →
  finite f ∧ (0 <= value f <= 1)%Q ∧ close 2 (exact_factor c period covered) (value f).
Proof.
  intros Hp Hc Hr Hspan Hdates Hdays. pose proof Hp as (Hps & Hpe & Hplt). pose proof Hc as (Hcs & Hce & Hclt).
  unfold proration_factor, zoned_ge in Hr.
  rewrite (le_fixed (starts_at period) (starts_at covered)) in Hr by (left; by split; [|apply fixed_aware]).
  cbn [py mbind result_bind] in Hr. destruct (Z.leb_spec (moment_of (starts_at period)) (moment_of (starts_at covered))) as [Hs|]; [|by cbn [mbind result_bind negb raise_if] in Hr].
  rewrite (le_fixed (ends_at covered) (ends_at period)) in Hr by (left; by split; [|apply fixed_aware]). cbn [py mbind result_bind] in Hr.
  destruct (Z.leb_spec (moment_of (ends_at covered)) (moment_of (ends_at period))) as [He|]; [|by cbn [mbind result_bind negb raise_if] in Hr].
  cbn [negb raise_if mbind result_bind] in Hr. unfold exact_factor.
  assert (value (of_Z 1) == 1)%Q as E1 by (by rewrite value_of_Z).
  assert (Hone : finite (of_Z 1) ∧ (0 <= value (of_Z 1) <= 1)%Q ∧ close 2 1 (value (of_Z 1))).
  { rewrite E1. split; [done|]. split; [split; discriminate|]. apply close_refl; [unfold few; lia|discriminate]. }
  destruct (proration_policy c).
  - by injection Hr as <-.
  - by injection Hr as <-.
  - apply result_bind_Ok in Hr as (z & Hz & Hr). unfold zone, zone_named in Hz. destruct (zone_known _); [|done].
    injection Hz as <-. apply result_bind_Ok in Hr as (pd & Hpd & Hr). apply result_bind_Ok in Hr as (cd & Hcd & Hr).
    apply calendar_span in Hpd as ->; [|done]. apply calendar_span in Hcd as ->; [|done].
    set (w := day_span _ period) in *. set (q := day_span _ covered) in *.
    assert (0 ≤ q ≤ w) as Hq.
    { assert (Hday : ∀ s t, moment_of (starts_at period) ≤ s → s ≤ t → t ≤ moment_of (ends_at period) →
        local_day (timezone_name c) s ≤ local_day (timezone_name c) t) by exact Hdates.
      pose proof (Hday _ _ (Z.le_refl _) Hs ltac:(lia)). pose proof (Hday _ _ Hs (Z.lt_le_incl _ _ Hclt) He).
      pose proof (Hday _ _ (Z.le_trans _ _ _ Hs (Z.lt_le_incl _ _ Hclt)) He (Z.le_refl _)).
      unfold q, w, day_span. lia. }
    destruct (Z.leb_spec w 0) as [Hw|Hw].
    + injection Hr as <-. assert (value (of_Z 0) == 0)%Q as -> by (by rewrite value_of_Z). split; [done|].
      split; [split; discriminate|]. apply close_refl; [unfold few; lia|apply Qle_refl].
    + destruct (ratio_of_integers q w) as (d & Hd & Hrest); [lia..|]. rewrite Hd in Hr. by injection Hr as <-.
  - rewrite !duration_proper in Hr by done. cbn [mbind result_bind] in Hr.
    destruct (ratio_of_seconds (span covered) (span period)) as (part & whole & d & H1 & H2 & H3 & H4 & H5);
      [unfold span in *; lia|done|].
    rewrite H1, H2 in Hr. cbn [mbind result_bind] in Hr. rewrite H3 in Hr. cbn [dec mbind result_bind] in Hr.
    rewrite H4 in Hr. by injection Hr as <-.
Qed.
End factor.

Lemma dec_Ok {A} (r : result signal A) a : dec r = Ok a ↔ r = Ok a.
Proof. destruct r; naive_solver. Qed.

(** A number of commercial size: zero, or within a hundred digits of one. *)
Definition commercial (d : decimal) : Prop :=
  finite d ∧ (0 <= value d)%Q ∧ ((value d == 0)%Q ∨ within (-100) 100 (value d)).

Lemma commercial_near d : commercial d → near 0 (-100) 100 (value d) d.
Proof. intros (Hf & Hd & Hw). by apply near_self. Qed.

(** The price of a line, exactly, from the units and the factor. *)
Definition exact_price (v : RatingInput) (units factor : decimal) : Q :=
  let base := (value (amount (unit_price v)) * value (quantity v))%Q in
  let rated := match rate_basis (cadence v) with
               | per_rate_unit => base * value units / value (rate_quantity (cadence v))
               | _ => base
               end%Q in
  match proration_policy (cadence v) with
  | actual_calendar_days | actual_elapsed_time => rated * value factor
  | _ => rated
  end%Q.

Lemma near_weaken j k a b c d x u : 0 ≤ j ≤ k → k ≤ 10 ^ 26 → c ≤ a → b ≤ d → near j a b x u → near k c d x u.
Proof.
  intros Hj Hk Hc Hd [H1 H2 H3 H4 H5]. split; [done..| |].
  - apply (close_weaken j); [apply few_small; lia|lia|done..].
  - destruct H5 as [H5|H5]; [by left|right]. by apply (within_weaken a b).
Qed.

Lemma raw_price_near v units factor d :
  commercial (amount (unit_price v)) → commercial (quantity v) → commercial units → commercial factor →
  commercial (rate_quantity (cadence v)) → (0 < value (rate_quantity (cadence v)))%Q →
  raw_price v units factor = Ok d → near 5 (-600) 600 (exact_price v units factor) d.
Proof.
  intros Hp%commercial_near Hq%commercial_near Hu%commercial_near Hf%commercial_near Hr%commercial_near Hr0.
  unfold raw_price, exact_price. cbn zeta.
  destruct (near_mul _ _ _ _ _ _ _ _ _ _ Hp Hq) as (base & -> & Hbase); [lia..|]. cbn [mbind result_bind].
  set (x := (value (amount (unit_price v)) * value (quantity v))%Q) in *.
  assert (∃ raw y, (match rate_basis (cadence v) with
     | per_rate_unit => rated ← decimal_mul base units; decimal_div rated (rate_quantity (cadence v))
     | _ => Ok base end) = Ok raw ∧ near 4 (-500) 500 y raw ∧
     y = match rate_basis (cadence v) with
         | per_rate_unit => x * value units / value (rate_quantity (cadence v)) | _ => x end%Q) as (raw & y & -> & Hraw & <-).
  { destruct (rate_basis (cadence v)); try (eexists base, _; split; [done|]; split; [by apply (near_weaken 1 4 (-200) 200)|done]).
    destruct (near_mul _ _ _ _ _ _ _ _ _ _ Hbase Hu) as (rated & -> & Hrated); [lia..|]. cbn [mbind result_bind].
    destruct (near_div _ _ _ _ _ _ _ _ _ _ Hrated Hr Hr0) as (raw & -> & Hraw); [lia..|].
    eexists raw, _. split; [done|]. split; [|done]. refine (near_weaken _ 4 _ _ (-500) 500 _ _ _ _ _ _ Hraw); lia. }
  cbn [mbind result_bind].
  destruct (proration_policy (cadence v)); intros Hd;
    try (injection Hd as <-; by apply (near_weaken 4 5 (-500) 500)).
  all: destruct (near_mul _ _ _ _ _ _ _ _ _ _ Hraw Hf) as (w & Hw & Hnear); [lia..|]; rewrite Hw in Hd; injection Hd as <-;
    exact Hnear.
Qed.

Lemma ExactAmount_scale amount currency scale x : ExactAmount_new amount currency scale = Ok x → 0 ≤ scale ≤ 6.
Proof.
  unfold ExactAmount_new. intros Hr. apply result_bind_Ok in Hr as (? & _ & Hr). apply result_bind_Ok in Hr as (? & _ & Hr).
  apply result_bind_Ok in Hr as (? & Hscale%raise_if_Ok & _).
  apply negb_false_iff, andb_true_iff in Hscale as [Hl%Z.leb_le Hu%Z.leb_le]. lia.
Qed.

(** An amount at its scale is the number it was made of. *)
Lemma ExactAmount_value amount currency scale x : finite amount →
  ExactAmount_new amount currency scale = Ok x →
  (value (SubscriptionValues.amount x) == value amount)%Q ∧ SubscriptionValues.currency x = currency ∧
  SubscriptionValues.scale x = scale.
Proof.
  destruct amount as [s n e| |]; [|done..]. intros _ Hr. pose proof (ExactAmount_scale _ _ _ _ Hr) as Hs.
  unfold ExactAmount_new in Hr. do 3 apply result_bind_Ok in Hr as (? & _ & Hr).
  rewrite scaleb_one in Hr by lia. cbn [dec mbind result_bind] in Hr.
  apply result_bind_Ok in Hr as (q & Hq & Hr).
  assert (quantize (Fin s n e) (Fin false 1 (- scale)) CONTEXT_ROUNDING = Ok q) as Hquant.
  { destruct (quantize (Fin s n e) (Fin false 1 (- scale)) CONTEXT_ROUNDING) as [d|[]]; [by injection Hq as <-|done..]. }
  apply quantize_Ok in Hquant as (c & -> & _ & _); [|done|lia].
  apply result_bind_Ok in Hr as (eq & Heq%dec_Ok & Hr). apply result_bind_Ok in Hr as (? & Htrue%raise_if_Ok & Hr).
  apply result_bind_Ok in Hr as (? & _ & Hr). injection Hr as <-. cbn [SubscriptionValues.amount].
  apply negb_false_iff in Htrue as ->. apply eq_value in Heq; [|done..]. by split.
Qed.

(** The last rounding of a price. *)
Lemma rounded_price x d scale q : near 5 (-600) 600 x d → 0 ≤ scale ≤ 6 →
  quantize d (Fin false 1 (- scale)) ROUND_HALF_UP = Ok q →
  finite q ∧ (Qabs (value q - x) <= (1 # 2) * Q10 (- scale) + 10 * UNIT * x)%Q.
Proof.
  intros Hd Hs Hq. pose proof Hd as [Hf Hsd Hx Hc _]. destruct d as [s n e| |]; [|done..].
  apply quantize_Ok in Hq as (c & -> & _ & Hh); [|done|lia]. split; [done|].
  pose proof (near_mag _ _ _ _ _ _ _ Hd) as Em. rewrite Em in Hc.
  pose proof (close_error 5 _ _ ltac:(lia) Hx (mag_nonneg _) Hc) as He.
  assert (inject_Z 5 * (2 * UNIT) * x == 10 * UNIT * x)%Q as E5 by (change (inject_Z 5) with (5 # 1)%Q; ring). rewrite E5 in He.
  assert (value (Fin s c (- scale)) - x == (if s then -1 else 1) * (inject_Z (Z.of_N c) * Q10 (- scale) - mag (Fin s n e))
    + (mag (Fin s n e) - x))%Q as E.
  { rewrite value_of_sign. destruct (near_sign_false _ _ _ _ _ _ _ Hd) as [->|E0]; [cbn [mag]; ring|].
    destruct s; [|cbn [mag]; ring]. rewrite !E0. cbn [mag]. ring. }
  rewrite E. eapply Qle_trans; [apply Qabs_triangle|]. apply Qplus_le_compat; [|done].
  rewrite Qabs_Qmult. assert (Qabs (if s then -1 else 1) == 1)%Q as -> by by destruct s. by rewrite Qmult_1_l.
Qed.
