(* ===== verification/SubscriptionText.v ===== *)
(** * Canonical decimal text

    The text of a decimal in [canonical_decimal] reads back as the number, so two
    decimals have the same text exactly when they are equal. *)

From S2P Require Import Prelude PyData PyTime PyDecimal DecimalFacts DecimalError PyZone DecimalText.
From S2P Require Import SubscriptionCadence SubscriptionValues.
From stdpp Require Import base numbers strings pretty list.
From Stdlib Require Import ZArith NArith QArith Ascii Lqa Lia.

Local Open Scope Z_scope.

(** ** Canonical text *)

Lemma strip_zeros_done fuel : ∀ n e, (0 < n)%N → ndigits n ≤ Z.of_nat fuel → e + Z.of_nat fuel ≤ EMAX →
  ∃ c j, strip_zeros fuel EMAX n e = (c, e + Z.of_nat j) ∧ n = (c * 10 ^ N.of_nat j)%N ∧ (c mod 10 ≠ 0)%N ∧ (j ≤ fuel)%nat.
Proof.
  induction fuel as [|fuel IH]; intros n e Hn Hf He; [pose proof (ndigits_pos n); lia|]. cbn [strip_zeros].
  rewrite (proj2 (Z.ltb_lt e EMAX)) by lia. cbn [andb]. destruct (N.eqb_spec (n mod 10) 0) as [E|E].
  - pose proof (N.div_mod n 10 ltac:(done)) as Hdm. rewrite E, N.add_0_r in Hdm.
    assert (0 < n / 10)%N as Hq by lia.
    destruct (IH (n / 10)%N (e + 1) Hq) as (c & j & -> & Hc & Hm & Hj); [|lia|].
    + destruct (decide (fuel = 0%nat)) as [->|Hf0].
      * assert (ndigits n ≤ 1) as H1 by lia. apply ndigits_le in H1; lia.
      * apply ndigits_le; [lia|]. assert (Z.of_N n < 10 ^ Z.of_nat (S fuel)) as H1 by (by apply ndigits_le; lia).
        rewrite Nat2Z.inj_succ, Z.pow_succ_r in H1 by lia. lia.
    + exists c, (S j). split; [f_equal; lia|]. split; [|split; [done|lia]].
      rewrite Nat2N.inj_succ, N.pow_succ_r', Hdm, Hc at 1. lia.
  - exists n, 0%nat. rewrite Z.add_0_r, N.pow_0_r, N.mul_1_r. split_and!; [done|done|done|lia].
Qed.

(** Decimals within the context, of no great exponent. *)
Definition plain (d : decimal) : Prop :=
  match d with Fin _ n e => Z.of_N n < 10 ^ PREC ∧ -1000 ≤ e ≤ 1000 | _ => False end.

(** No point among digits. *)
Lemma no_point a : str_all (λ c, negb (Ascii.eqb c ".")) a = true → str_contains "." a = false.
Proof.
  induction a as [|c a IH]; [done|]. cbn [str_all]. intros [Hc Ha]%andb_true_iff.
  change (str_contains "." (String c a)) with ((Ascii.eqb "." c && true) || str_contains "." a).
  rewrite IH, Ascii.eqb_sym by done. by apply negb_true_iff in Hc as ->.
Qed.

Lemma digit_not_point c : is_digit_char c = true → negb (Ascii.eqb c ".") = true.
Proof. destruct c as [[] [] [] [] [] [] [] []]; vm_compute; intros H; done. Qed.

Lemma canonical_zero s e : -1000 ≤ e ≤ 1000 → canonical_decimal (Fin s 0 e) = Ok "0".
Proof.
  intros He. unfold canonical_decimal. cbn [is_finite negb raise_if mbind result_bind decimal_normalize].
  rewrite fix_exact by (unfold fits, ETINY, ETOP, EMIN, EMAX, PREC; lia). by destruct s.
Qed.

(** The text of a normalized number is its fixed text. *)
Lemma canonical_text s n e : Z.of_N n < 10 ^ PREC → -1000 ≤ e ≤ 1000 → (0 < n)%N →
  ∃ c j, n = (c * 10 ^ N.of_nat j)%N ∧ (c mod 10 ≠ 0)%N ∧
    canonical_decimal (Fin s n e) = Ok (fixed_text s c (e + Z.of_nat j)).
Proof.
  intros Hn He Hpos. pose proof (proj2 (ndigits_le n PREC ltac:(unfold PREC; lia)) Hn) as Hd. pose proof (ndigits_pos n).
  destruct (strip_zeros_done (Z.to_nat (ndigits n)) n e Hpos) as (c & j & Hs & Hc & Hm & Hj); [lia|unfold EMAX, PREC in *; lia|].
  exists c, j. split; [done|]. split; [done|].
  assert (0 < c)%N as Hc0 by (destruct c; [done|lia]).
  unfold canonical_decimal. cbn [is_finite negb raise_if mbind result_bind decimal_normalize].
  rewrite fix_exact by (unfold fits, ETINY, ETOP, EMIN, EMAX, PREC in *; lia). cbn [mbind result_bind].
  rewrite (proj2 (N.eqb_neq n 0)), Hs by lia. cbn [dec mbind result_bind format_fixed].
  set (x := e + Z.of_nat j) in *. pose proof (fixed_text_parse s c x Hc0) as Hparse.
  assert (Hnz : (c * 10 ^ Z.to_N x ≠ 0)%N) by (pose proof (N.pow_nonzero 10 (Z.to_N x) ltac:(done)); lia).
  assert (String.eqb (fixed_text s c x) "-0" = false) as H0.
  { apply String.eqb_neq. intros E. rewrite E in Hparse. change (parse_decimal "-0") with (Some (Fin true 0 0)) in Hparse.
    injection Hparse as _ Hz _. by apply Hnz. }
  assert (String.eqb (fixed_text s c x) "" = false) as H1.
  { apply String.eqb_neq. intros E. rewrite E in Hparse. discriminate Hparse. }
  assert ((if str_contains "." (fixed_text s c x) then rstrip_char "." (rstrip_char "0" (fixed_text s c x))
           else fixed_text s c x) = fixed_text s c x) as ->; [|by rewrite H0, H1].
  rewrite fixed_text_body by done. destruct (fixed_body_shape c x Hc0) as [a Hx Ha Hne _|a b d Hx Ha Hne Hb Hdv Hlen _].
  - rewrite no_point; [done|]. rewrite str_all_app. apply andb_true_iff. split; [by destruct s|].
    revert Ha. apply str_all_weaken. apply digit_not_point.
  - assert (d ≠ "0"%char ∧ d ≠ "."%char) as [Hd0 Hdp].
    { split; intros ->; cbn in Hdv; [|done]. injection Hdv as Hdv. lia. }
    rewrite <-!string_app_assoc. rewrite !rstrip_last by done. by destruct (str_contains _ _).
Qed.

(** A normalized number has one coefficient and exponent. *)
Lemma normal_unique c x c' x' : (c mod 10 ≠ 0)%N → (c' mod 10 ≠ 0)%N →
  (inject_Z (Z.of_N c) * Q10 x == inject_Z (Z.of_N c') * Q10 x')%Q → c = c' ∧ x = x'.
Proof.
  assert (Hone : ∀ c x c' x', (c mod 10 ≠ 0)%N → (inject_Z (Z.of_N c) * Q10 x == inject_Z (Z.of_N c') * Q10 x')%Q →
    x ≤ x' → c = c' ∧ x = x').
  { clear. intros c x c' x' Hc E Hle. replace x' with ((x' - x) + x) in E by lia. rewrite Q10_plus, Qmult_assoc in E.
    apply Qmult_inj_r in E; [|pose proof (Q10_pos x) as Hx; intros Hz; rewrite Hz in Hx; discriminate Hx].
    rewrite <-(Q10_int (x' - x)), <-inject_Z_mult in E by lia.
    apply (proj1 (inject_Z_injective _ _)) in E. destruct (decide (x = x')) as [->|Hne].
    - rewrite Z.sub_diag, Z.pow_0_r, Z.mul_1_r in E. split; [apply N2Z.inj; exact E|done].
    - exfalso. rewrite pow_succ in E by lia. apply Hc.
      assert (c = (c' * Z.to_N (10 ^ (x' - x - 1)) * 10)%N) as ->; [|apply N.Div0.mod_mul].
      apply N2Z.inj. rewrite E, !N2Z.inj_mul, Z2N.id by (apply Z.pow_nonneg; lia). ring. }
  intros Hc Hc' E. destruct (Z.le_ge_cases x x') as [Hle|Hle].
  - by apply Hone.
  - symmetry in E. destruct (Hone _ _ _ _ Hc' E Hle) as [-> ->]. done.
Qed.

Lemma value_stripped s c x j :
  (value (Fin s (c * 10 ^ N.of_nat j) x) == inject_Z (signed s c) * Q10 (x + Z.of_nat j))%Q.
Proof.
  cbn [value]. rewrite (Z.add_comm x), Q10_plus, Qmult_assoc, <-(Q10_int (Z.of_nat j)), <-inject_Z_mult by lia.
  assert (signed s (c * 10 ^ N.of_nat j) = signed s c * 10 ^ Z.of_nat j) as ->; [|reflexivity].
  unfold signed. rewrite N2Z.inj_mul, N2Z.inj_pow, nat_N_Z. change (Z.of_N 10) with 10. destruct s; ring.
Qed.

Lemma value_zero_iff s n e : (value (Fin s n e) == 0)%Q ↔ n = 0%N.
Proof.
  cbn [value]. split; [|intros ->; by destruct s; rewrite Qmult_0_l].
  intros [E|E]%Qmult_integral.
  - change 0%Q with (inject_Z 0) in E. apply (proj1 (inject_Z_injective _ _)) in E. unfold signed in E. destruct s; lia.
  - exfalso. pose proof (Q10_pos e) as Hp. rewrite E in Hp. discriminate Hp.
Qed.

(** The text reads back as the number. *)
Lemma canonical_reads a : plain a →
  ∃ s a', canonical_decimal a = Ok s ∧ parse_decimal s = Some a' ∧ (value a' == value a)%Q.
Proof.
  destruct a as [s n e| |]; [|done..]. intros [Hn He]. destruct (decide (n = 0%N)) as [->|Hpos].
  - exists "0", (Fin false 0 0). rewrite canonical_zero by done. split_and!; [done|reflexivity|].
    by rewrite (proj2 (value_zero_iff s 0 e) eq_refl).
  - destruct (canonical_text s n e Hn He ltac:(lia)) as (c & j & Hc & Hm & Ht).
    assert (0 < c)%N as Hc0 by (destruct c; [done|lia]).
    eexists _, _. split_and!; [done|by apply fixed_text_parse|].
    rewrite Hc, value_stripped. set (x := e + Z.of_nat j).
    replace (Z.to_N x) with (N.of_nat (Z.to_nat x)) by lia. rewrite value_stripped.
    replace (Z.min x 0 + Z.of_nat (Z.to_nat x)) with x by lia. reflexivity.
Qed.

(** Equal numbers have one text. *)
Lemma canonical_same a b : plain a → plain b → (value a == value b)%Q → canonical_decimal a = canonical_decimal b.
Proof.
  destruct a as [s n e| |]; [|done..]. destruct b as [t m f| |]; [|done..]. intros [Hn He] [Hm Hf] E.
  destruct (decide (n = 0%N)) as [->|Hn0]; [|destruct (decide (m = 0%N)) as [->|Hm0]].
  - rewrite (proj2 (value_zero_iff s 0 e) eq_refl) in E. symmetry in E. apply value_zero_iff in E as ->.
    by rewrite !canonical_zero.
  - rewrite (proj2 (value_zero_iff t 0 f) eq_refl) in E. by apply value_zero_iff in E.
  - destruct (canonical_text s n e Hn He ltac:(lia)) as (c & j & -> & Hc & ->).
    destruct (canonical_text t m f Hm Hf ltac:(lia)) as (c' & j' & -> & Hc' & ->).
    rewrite !value_stripped in E. pose proof (Q10_pos (e + Z.of_nat j)). pose proof (Q10_pos (f + Z.of_nat j')).
    assert (∀ k, (k mod 10 ≠ 0)%N → (1 <= inject_Z (Z.of_N k))%Q) as Hone.
    { intros k Hk. change 1%Q with (inject_Z 1). rewrite <-Zle_Qle. destruct k; [done|lia]. }
    pose proof (Hone _ Hc). pose proof (Hone _ Hc'). clear Hone.
    assert (∀ k, inject_Z (signed true k) = (- inject_Z (Z.of_N k))%Q) as Hneg by done.
    assert (∀ k, inject_Z (signed false k) = inject_Z (Z.of_N k)) as Hpos by done.
    assert (s = t) as ->.
    { destruct s, t; [done| | |done]; exfalso.
      - rewrite Hneg, (Hpos c') in E. nra.
      - rewrite (Hneg c'), (Hpos c) in E. nra. }
    destruct (normal_unique c (e + Z.of_nat j) c' (f + Z.of_nat j')) as [-> ->]; [done..| |done].
    destruct t; [|exact E]. rewrite !Hneg in E. lra.
Qed.
