(* ===== verification/SubscriptionTheorems.v ===== *)
(** * What cadences and rating guarantee

    Properties of [dotmac_subscriptions/cadence.py] and [engine.py]: periods tile
    the time line, boundaries keep the local time of day, whole months are
    counted by anniversaries, proration is a fraction. They are applied to a
    contract in Lagos, of monthly periods that start on the last day of a month,
    with a zone database of fixed offsets and a text of seconds that keep the
    laws of the parameters. *)

From S2P Require Import Prelude PyTime PyZone PyData PyDecimal DecimalFacts DecimalError SubscriptionCadence SubscriptionValues.
From S2P Require Import SubscriptionRating SubscriptionPeriods SubscriptionAmount DecimalText SubscriptionText.
From stdpp Require Import base strings list.
From Stdlib Require Import ZArith NArith QArith Lia Qabs.

Local Open Scope Z_scope.

Definition toy_offset (z : string) : Z := if String.eqb z "Africa/Lagos" then 3600 * us_per_second else 0.

#[local] Instance toy_zones : TzData := {|
  zone_known z := String.eqb z "Africa/Lagos" || String.eqb z "UTC";
  zone_offset z _ _ := toy_offset z;
  zone_local z t := (t + toy_offset z, false);
  system_offset _ _ := 0
|}.

#[local] Instance toy_zones_laws : TzLaws.
Proof.
  split; cbn; intros z *; unfold toy_offset; destruct (String.eqb z "Africa/Lagos"); cbv [us_per_second us_per_day]; lia.
Qed.

(** Every microsecond is written out. *)
#[local] Instance toy_seconds : SecondsText := λ us, fixed_text false (Z.to_N us) (-6).

#[local] Instance toy_seconds_laws : SecondsLaws.
Proof.
  intros us Hus. exists (Z.to_N us), (-6). unfold seconds_text, toy_seconds. rewrite fixed_text_parse by lia.
  change (Z.to_N (-6)) with 0%N. rewrite N.pow_0_r, N.mul_1_r. split; [done|].
  cbn [value]. unfold signed. rewrite Z2N.id by lia. reflexivity.
Qed.

#[local] Existing Instance toy_runtime.

(** ** A contract *)

Definition utc_at (y m d hour : Z) : zoned :=
  MkZoned (days_of_civil y m d * us_per_day + hour * 3600 * us_per_second) false (Some UTC).

Lemma utc_fixed y m d hour : fixed (utc_at y m d hour).
Proof. by exists 0. Qed.

Definition monthly (policy : ProrationPolicy) : BillingCadence :=
  MkCadence per_rate_unit unit_month (of_Z 1) unit_month 1 unit_month 1 advance contract_anniversary "Africa/Lagos"
    clamp_to_month_end policy None.

(** Midnight of the last of January, in Lagos. *)
Definition contract_start : zoned := utc_at 2026 1 30 23.

Definition period_at (index : Z) : option Interval :=
  match service_period (monthly actual_calendar_days) contract_start index with Ok p => Some p | Raise _ => None end.

Example periods_clamp : period_at <$> [0; 1; 2] =
  [Some (MkInterval (utc_at 2026 1 30 23) (utc_at 2026 2 27 23));
   Some (MkInterval (utc_at 2026 2 27 23) (utc_at 2026 3 30 23));
   Some (MkInterval (utc_at 2026 3 30 23) (utc_at 2026 4 29 23))].
Proof. vm_compute. reflexivity. Qed.

Lemma period_0 : service_period (monthly actual_calendar_days) contract_start 0
  = Ok (MkInterval (utc_at 2026 1 30 23) (utc_at 2026 2 27 23)).
Proof. vm_compute. reflexivity. Qed.
Lemma period_1 : service_period (monthly actual_calendar_days) contract_start 1
  = Ok (MkInterval (utc_at 2026 2 27 23) (utc_at 2026 3 30 23)).
Proof. vm_compute. reflexivity. Qed.
Lemma period_2 : service_period (monthly actual_calendar_days) contract_start 2
  = Ok (MkInterval (utc_at 2026 3 30 23) (utc_at 2026 4 29 23)).
Proof. vm_compute. reflexivity. Qed.

Lemma periods_placed i : 0 ≤ i < 3 → ∃ p, service_period (monthly actual_calendar_days) contract_start i = Ok p.
Proof.
  intros Hi. assert (i = 0 ∨ i = 1 ∨ i = 2) as [->|[->| ->]] by lia;
    [rewrite period_0|rewrite period_1|rewrite period_2]; eexists; reflexivity.
Qed.

Lemma february_boundary : _shift contract_start unit_month 1 (monthly no_proration) = Ok (utc_at 2026 2 27 23).
Proof. vm_compute. reflexivity. Qed.

(** A boundary that a strict rule cannot place. *)
Example strict_rule_refuses :
  (match _shift contract_start unit_month 1
      (MkCadence per_rate_unit unit_month (of_Z 1) unit_month 1 unit_month 1 advance contract_anniversary "Africa/Lagos"
         strict_same_day_or_skip no_proration None) with
   | Raise (SubscriptionError CadenceError code _ _) => code | _ => "" end) = "subscriptions.cadence.skipped_month_boundary".
Proof. vm_compute. reflexivity. Qed.

(** ** A line *)

Definition march : Interval := MkInterval (utc_at 2026 2 28 23) (utc_at 2026 3 31 23).
Definition from_the_eleventh : Interval := MkInterval (utc_at 2026 3 10 23) (utc_at 2026 3 31 23).

Definition line (policy : ProrationPolicy) : RatingInput :=
  MkRatingInput (MkExactAmount (Fin false 1000000 (-2)) "NGN" 2) (of_Z 2) (monthly policy) march from_the_eleventh
    "fixed.v1" "offer-1".

Definition rated (policy : ProrationPolicy) : option (decimal * decimal * decimal) :=
  match rate_recurring_line (line policy) with
  | Ok r => Some (amount (pre_tax_amount r), rr_rate_units r, rr_proration_factor r)
  | Raise _ => None
  end.

Definition prorated_result : RatingResult := Eval vm_compute in
  match rate_recurring_line (line actual_calendar_days) with
  | Ok r => r
  | Raise _ => MkRatingResult (MkExactAmount (of_Z 0) "" 0) (of_Z 0) (of_Z 0) ""
  end.

Lemma prorated_line_result : rate_recurring_line (line actual_calendar_days) = Ok prorated_result.
Proof. vm_compute. reflexivity. Qed.

(** Twenty-one of thirty-one days of twenty thousand naira. *)
Example prorated_line : rated actual_calendar_days =
  Some (Fin false 1354839 (-2), of_Z 1, Fin false 6774193548387096774193548387 (-28)).
Proof. vm_compute. reflexivity. Qed.
Example full_line : rated full_period = Some (Fin false 2000000 (-2), of_Z 1, of_Z 1).
Proof. vm_compute. reflexivity. Qed.

Example canonical_texts :
  canonical_decimal <$> [Fin false 15000 (-4); Fin true 0 (-2); Fin false 25 3; Fin true 5 (-1)]
  = [Ok "1.5"; Ok "0"; Ok "25000"; Ok "-0.5"].
Proof. vm_compute. reflexivity. Qed.

Section cadence.
Context `{TzData}.

(** A moment is inside a period. *)
Definition inside_period (p : Interval) (moment : zoned) : Prop :=
  moment_of (starts_at p) ≤ moment_of moment < moment_of (ends_at p).

Lemma period_walk_finds c start moment fuel : ∀ index, 0 ≤ index → fixed moment →
  (∀ j, index ≤ j < index + Z.of_nat fuel → ∃ p, service_period c start j = Ok p) →
  ∃ r, period_walk fuel index c start moment = Ok r ∧
    match r with
    | Some (i, p) => index ≤ i < index + Z.of_nat fuel ∧ service_period c start i = Ok p ∧ inside_period p moment
    | None => ∀ j q, index ≤ j < index + Z.of_nat fuel → service_period c start j = Ok q → ¬ inside_period q moment
    end.
Proof.
  induction fuel as [|fuel IH]; intros index Hi Hm Hall; cbn [period_walk].
  - exists None. split; [done|]. lia.
  - destruct (Hall index ltac:(lia)) as [p Hp]. rewrite Hp. cbn [mbind result_bind].
    rewrite (contains_Ok _ _ _ _ _ _ _ Hp Hm). cbn [mbind result_bind].
    destruct (_ && _) eqn:E.
    + exists (Some (index, p)). split; [done|]. split; [lia|]. split; [done|].
      apply andb_true_iff in E as [E1%Z.leb_le E2%Z.ltb_lt]. by split.
    + destruct (IH (index + 1) ltac:(lia) Hm) as (r & Hr & Hspec); [intros j Hj; apply Hall; lia|].
      exists r. split; [done|]. destruct r as [[i q]|].
      * destruct Hspec as (Hir & Hq). split; [lia|done].
      * intros j q Hj Hq Hin. destruct (decide (j = index)) as [->|Hne].
        -- rewrite Hp in Hq. injection Hq as <-. destruct Hin as [H1%Z.leb_le H2%Z.ltb_lt]. by rewrite H1, H2 in E.
        -- apply (Hspec j q); [lia|done..].
Qed.

(** C13. When the periods of a cadence up to the bound can be placed, looking up
    a moment gives the one period that holds it; a moment before the first
    start or from the last end on is refused, and nothing else is. *)
Theorem period_containing_exact c start moment n (first last : Interval) :
  fixed moment → 0 < n → (∀ i, 0 ≤ i < n → ∃ p, service_period c start i = Ok p) →
  service_period c start 0 = Ok first → service_period c start (n - 1) = Ok last →
  let t := moment_of moment in
  (t < moment_of (starts_at first) →
    ∃ message details, period_containing c start moment n =
      Raise (SubscriptionError CadenceError "subscriptions.cadence.moment_before_contract" message details)) ∧
  (moment_of (ends_at last) ≤ t →
    ∃ message details, period_containing c start moment n =
      Raise (SubscriptionError CadenceError "subscriptions.cadence.period_walk_exhausted" message details)) ∧
  (moment_of (starts_at first) ≤ t < moment_of (ends_at last) →
    ∃ i p, period_containing c start moment n = Ok (i, p) ∧ 0 ≤ i < n ∧
      service_period c start i = Ok p ∧ inside_period p moment ∧
      ∀ j q, 0 ≤ j < n → service_period c start j = Ok q → inside_period q moment → j = i).
Proof.
  intros Hm Hn Hall Hfirst Hlast t.
  assert (0 ≤ n - 1 ∧ moment_of (starts_at first) < moment_of (ends_at last)) as [_ Hord].
  { split; [lia|]. destruct (decide (n = 1)) as [->|Hn1].
    - replace (1 - 1) with 0 in Hlast by lia. rewrite Hfirst in Hlast. injection Hlast as <-.
      by apply service_period_Ok in Hfirst as (_ & _ & _ & _ & _ & _ & _ & _ & Hlt).
    - pose proof (periods_ordered _ _ _ _ _ 0 (n - 1) _ _ Hall ltac:(lia) ltac:(lia) Hfirst Hlast).
      apply service_period_Ok in Hfirst as (_ & _ & _ & _ & _ & _ & _ & _ & H1).
      apply service_period_Ok in Hlast as (_ & _ & _ & _ & _ & _ & _ & _ & H2). lia. }
  pose proof Hfirst as (aligned & Hns & _ & Ha & Hb & _ & Hna & _)%service_period_Ok.
  unfold boundary in Hb. cbn in Hb. injection Hb as Hb. subst aligned.
  unfold period_containing, _require_aware. rewrite (fixed_aware _ Hm). cbn [raise_if mbind result_bind].
  rewrite Ha. cbn [mbind result_bind]. rewrite lt_fixed by (left; by split). cbn [py mbind result_bind]. fold t.
  destruct (period_walk_finds c start moment (Z.to_nat n) 0) as (r & -> & Hr); [lia|done|intros j Hj; apply Hall; lia|].
  rewrite Z2Nat.id, Z.add_0_l in Hr by lia.
  split; [|split].
  - intros Ht. rewrite (proj2 (Z.ltb_lt _ _) Ht). cbn. by eexists _, _.
  - intros Ht. rewrite (proj2 (Z.ltb_ge t _)) by lia. cbn [raise_if mbind result_bind]. destruct r as [[i p]|].
    + exfalso. destruct Hr as (Hi & Hp & _ & Hin). fold t in Hin.
      destruct (decide (i = n - 1)) as [->|Hne]; [rewrite Hlast in Hp; injection Hp as <-; lia|].
      pose proof (periods_ordered _ _ _ _ _ i (n - 1) _ _ Hall ltac:(lia) ltac:(lia) Hp Hlast).
      apply service_period_Ok in Hlast as (_ & _ & _ & _ & _ & _ & _ & _ & H2). lia.
    + by eexists _, _.
  - intros Ht. rewrite (proj2 (Z.ltb_ge t _)) by lia. cbn [raise_if mbind result_bind]. destruct r as [[i p]|].
    + destruct Hr as (Hi & Hp & Hin). exists i, p. split_and!; [done|lia|lia|done|done..|].
      intros j q Hj Hq Hin'. by apply (periods_disjoint _ _ _ _ _ j i q p t Hall).
    + exfalso. destruct (periods_cover _ _ _ _ n t first last Hn Hall Hfirst Hlast Ht) as (i & p & Hi & Hp & Hin).
      by apply (Hr i p).
Qed.

(** C14. A boundary is placed on the local clock of the contract: the time of day
    of the anchor, the units of the interval later, months by the day of the
    month or the last of a shorter one; and that clock shows it, unless it skips
    it. *)
Theorem boundary_keeps_local_time {laws : TzLaws} anchor unit count c t :
  fixed anchor → _shift anchor unit count c = Ok t →
  let z := timezone_name c in
  ∃ w, advanced unit count (end_of_month_rule c) (zone_local z (moment_of anchor)).1 w ∧
    tz t = Some UTC ∧ moment_of t = w - zone_offset z w false ∧
    (shown z w → zone_local z (moment_of t) = (w, false)).
Proof.
  intros Hf Ht z. destruct (shift_moves anchor unit count c z t Hf eq_refl Ht) as (w & Hw & Hm).
  exists w. split_and!; [done|by eapply shift_UTC|done|]. intros Hs. rewrite Hm. by apply shown_again.
Qed.

(** The local date of a moment. *)
Definition local_date (z : string) (t : Z) : date := date_of_days ((zone_local z t).1 / us_per_day).

(** C15. The months of a period are the number of anniversaries of its start
    that have come by its end: every one up to that number has, and no later
    one. *)
Theorem months_are_whole c period units :
  fixed (starts_at period) → fixed (ends_at period) → rate_unit c = unit_month →
  rate_units_in c period = Ok units →
  let z := timezone_name c in
  let s := local_date z (moment_of (starts_at period)) in
  let e := local_date z (moment_of (ends_at period)) in
  ∃ k, units = of_Z k ∧
    (∀ j d, j ≤ k → months_later (end_of_month_rule c) j s d → days_of d ≤ days_of e) ∧
    (∀ j d, k < j → months_later (end_of_month_rule c) j s d → days_of e < days_of d).
Proof.
  intros Hs He Hu Hr z s e. unfold rate_units_in in Hr. rewrite Hu in Hr.
  apply result_bind_Ok in Hr as (y & Hy & Hr). unfold zone, zone_named in Hy. destruct (zone_known _); [|done].
  injection Hy as <-. apply result_bind_Ok in Hr as (sl & Hsl & Hr). apply result_bind_Ok in Hr as (el & Hel & Hr).
  apply result_bind_Ok in Hr as (k & Hk & Hr). apply py_Ok in Hsl, Hel, Hk. injection Hr as <-.
  apply local_of_fixed in Hsl as [Hsl _], Hel as [Hel _]; [|done..]. unfold date_of in Hk. rewrite Hsl, Hel in Hk.
  fold (local_date (timezone_name c) (moment_of (starts_at period))) in Hk.
  fold (local_date (timezone_name c) (moment_of (ends_at period))) in Hk.
  apply whole_months_spec in Hk as [H1 H2]; [|apply days_of_date_of..]. exists k. by split_and!.
Qed.

(** C16. The proration factor of a covered part of a period is between nothing
    and one, and is the exact share up to two rounding errors. *)
Theorem proration_is_a_share `{SecondsText} {seconds : SecondsLaws} c period covered f :
  proper period → proper covered → proration_factor c period covered = Ok f →
  span period < 10 ^ 15 → dates_in_order (timezone_name c) period → day_span (timezone_name c) period < 10 ^ 18 →
  finite f ∧ (0 <= value f <= 1)%Q ∧ close 2 (exact_factor c period covered) (value f).
Proof. apply factor_Ok. Qed.

(** C17. A rated amount is the price, times the quantity, the units per rate
    quantity where the rate is per unit, and the factor where it is prorated:
    exactly, to half a unit of the scale and the rounding errors of the
    multiplications. *)
Theorem rated_amount_bound `{SecondsText} `{Runtime} v r :
  rate_recurring_line v = Ok r →
  commercial (amount (unit_price v)) → commercial (quantity v) →
  commercial (rr_rate_units r) → commercial (rr_proration_factor r) →
  commercial (rate_quantity (cadence v)) → (0 < value (rate_quantity (cadence v)))%Q →
  let rated := pre_tax_amount r in
  let exact := exact_price v (rr_rate_units r) (rr_proration_factor r) in
  rate_units_in (cadence v) (period v) = Ok (rr_rate_units r) ∧
  proration_factor (cadence v) (period v) (coverage v) = Ok (rr_proration_factor r) ∧
  currency rated = currency (unit_price v) ∧ scale rated = scale (unit_price v) ∧
  (Qabs (value (amount rated) - exact) <= (1 # 2) * Q10 (- scale rated) + 10 * UNIT * exact)%Q.
Proof.
  intros Hr Hp Hq Hu Hf Hrq Hrq0 rated x. unfold rate_recurring_line in Hr.
  apply result_bind_Ok in Hr as (? & _ & Hr). apply result_bind_Ok in Hr as (? & _ & Hr).
  apply result_bind_Ok in Hr as (units & Hunits & Hr). apply result_bind_Ok in Hr as (factor & Hfactor & Hr).
  apply result_bind_Ok in Hr as (raw & Hraw%dec_Ok & Hr). apply result_bind_Ok in Hr as (quantum & Hqu%dec_Ok & Hr).
  apply result_bind_Ok in Hr as (am & Ham%dec_Ok & Hr). apply result_bind_Ok in Hr as (ex & Hex & Hr).
  apply result_bind_Ok in Hr as (fp & _ & Hr). injection Hr as <-. cbn [rr_rate_units rr_proration_factor pre_tax_amount] in *.
  apply raw_price_near in Hraw; [|done..]. fold x in Hraw. subst rated.
  pose proof (ExactAmount_scale _ _ _ _ Hex) as Hs.
  rewrite scaleb_one in Hqu by lia. injection Hqu as <-.
  destruct (rounded_price x raw _ am Hraw Hs Ham) as [Hfin Hb].
  apply ExactAmount_value in Hex as (Hval & -> & ->); [|done]. rewrite <-Hval in Hb. by split_and!.
Qed.
End cadence.

(** C18. The text that a fingerprint takes of a decimal reads back as the number,
    and two decimals have one text exactly when they are equal: however many
    zeros they were written with. *)
Theorem canonical_decimal_round_trip a b :
  plain a → plain b →
  ∃ s t a', canonical_decimal a = Ok s ∧ canonical_decimal b = Ok t ∧
    parse_decimal s = Some a' ∧ (value a' == value a)%Q ∧ (s = t ↔ (value a == value b)%Q).
Proof.
  intros Ha Hb. destruct (canonical_reads a Ha) as (s & a' & Hs & Hpa & Hva).
  destruct (canonical_reads b Hb) as (t & b' & Ht & Hpb & Hvb).
  exists s, t, a'. split_and!; [done..|]. split; intros E.
  - rewrite <-Hva, <-Hvb. rewrite E, Hpb in Hpa. by injection Hpa as ->.
  - pose proof (canonical_same a b Ha Hb E) as Hab. rewrite Hs, Ht in Hab. by injection Hab.
Qed.

(** ** Witnesses *)

#[local] Existing Instance toy_zones.
#[local] Existing Instance toy_zones_laws.
#[local] Existing Instance toy_seconds.
#[local] Existing Instance toy_seconds_laws.
#[local] Existing Instance toy_runtime.

Lemma march_first_inside :
  moment_of (utc_at 2026 1 30 23) ≤ moment_of (utc_at 2026 3 1 0) < moment_of (utc_at 2026 4 29 23).
Proof. by vm_compute. Qed.
Lemma march_first_in_period : inside_period (MkInterval (utc_at 2026 2 27 23) (utc_at 2026 3 30 23)) (utc_at 2026 3 1 0).
Proof. by vm_compute. Qed.
Lemma one_of_three : 0 ≤ 1 < 3.
Proof. lia. Qed.

Lemma period_containing_exact_witness :
  ∃ i p, period_containing (monthly actual_calendar_days) contract_start (utc_at 2026 3 1 0) 3 = Ok (i, p) ∧ i = 1 ∧
    inside_period p (utc_at 2026 3 1 0).
Proof.
  destruct (proj2 (proj2 (period_containing_exact (monthly actual_calendar_days) contract_start (utc_at 2026 3 1 0) 3
    _ _ (utc_fixed 2026 3 1 0) eq_refl periods_placed period_0 period_2)) march_first_inside) as (i & p & Hr & _ & _ & Hin & Hone).
  exists i, p. exact (conj Hr (conj (eq_sym (Hone 1 _ one_of_three period_1 march_first_in_period)) Hin)).
Defined.

Lemma boundary_keeps_local_time_witness :
  ∃ w, advanced unit_month 1 clamp_to_month_end (days_of_civil 2026 1 31 * us_per_day) w ∧
    moment_of (utc_at 2026 2 27 23) = w - 3600 * us_per_second ∧
    zone_local "Africa/Lagos" (moment_of (utc_at 2026 2 27 23)) = (w, false).
Proof.
  destruct (boundary_keeps_local_time contract_start unit_month 1 (monthly no_proration) (utc_at 2026 2 27 23)
    (utc_fixed 2026 1 30 23) february_boundary) as (w & Hw & _ & Hm & Hs).
  exists w. split; [exact Hw|]. split; [exact Hm|]. apply Hs. exists (w - 3600 * us_per_second).
  change ((w - 3600 * us_per_second + 3600 * us_per_second, false) = (w, false)). f_equal. lia.
Defined.

Lemma months_are_whole_witness :
  let z := "Africa/Lagos" in
  let s := local_date z (moment_of (utc_at 2026 1 30 23)) in
  let e := local_date z (moment_of (utc_at 2026 4 29 22)) in
  ∃ k, of_Z 2 = of_Z k ∧
    (∀ j d, j ≤ k → months_later clamp_to_month_end j s d → days_of d ≤ days_of e) ∧
    (∀ j d, k < j → months_later clamp_to_month_end j s d → days_of e < days_of d).
Proof.
  refine (months_are_whole (monthly no_proration) (MkInterval (utc_at 2026 1 30 23) (utc_at 2026 4 29 22)) (of_Z 2)
    (utc_fixed 2026 1 30 23) (utc_fixed 2026 4 29 22) eq_refl _). vm_compute. reflexivity.
Defined.

Lemma march_proper : proper march ∧ proper from_the_eleventh.
Proof. split; (split; [by exists 0|split; [by exists 0|by vm_compute]]). Qed.

Lemma toy_dates_in_order z i : dates_in_order z i.
Proof. intros s t _ Hst _. unfold local_day. cbn. apply Z.div_le_mono; [done|lia]. Qed.

Lemma proration_is_a_share_witness :
  let f := Fin false 6774193548387096774193548387 (-28) in
  finite f ∧ (0 <= value f <= 1)%Q ∧
  close 2 (exact_factor (monthly actual_calendar_days) march from_the_eleventh) (value f).
Proof.
  refine (proration_is_a_share (monthly actual_calendar_days) march from_the_eleventh _ (proj1 march_proper) (proj2 march_proper)
    _ _ (toy_dates_in_order _ _) _); vm_compute; reflexivity.
Defined.

Lemma commercial_digits n e : (0 < n)%N → -100 ≤ ndigits n + e - 1 → ndigits n + e ≤ 100 → commercial (Fin false n e).
Proof.
  intros Hn H1 H2. split; [exact I|]. split; [apply (mag_nonneg (Fin false n e))|]. right. by apply digits_within.
Qed.

Lemma rated_amount_bound_witness :
  let v := line actual_calendar_days in
  (Qabs (value (Fin false 1354839 (-2)) - exact_price v (of_Z 1) (Fin false 6774193548387096774193548387 (-28)))
    <= (1 # 2) * Q10 (-2) + 10 * UNIT * exact_price v (of_Z 1) (Fin false 6774193548387096774193548387 (-28)))%Q.
Proof.
  refine (proj2 (proj2 (proj2 (proj2 (rated_amount_bound (line actual_calendar_days) prorated_result
    prorated_line_result _ _ _ _ _ _))))); [apply commercial_digits; vm_compute; first [reflexivity|by intros [=]].. |].
  vm_compute. reflexivity.
Defined.

Lemma canonical_decimal_round_trip_witness :
  ∃ s t a', canonical_decimal (Fin false 15000 (-4)) = Ok s ∧ canonical_decimal (Fin false 15 (-1)) = Ok t ∧
    parse_decimal s = Some a' ∧ (value a' == value (Fin false 15000 (-4)))%Q ∧
    (s = t ↔ (value (Fin false 15000 (-4)) == value (Fin false 15 (-1)))%Q).
Proof.
  refine (canonical_decimal_round_trip _ _ _ _); unfold plain, PREC; lia.
Defined.
