(* ===== verification/Money.v ===== *)
(** * Exact money and exchange rates

    [packages/dotmac-kernel/src/dotmac_kernel/money.py]: currencies, amounts
    quantized to their minor units, allocation over weights, and exchange
    rates. A decimal signal that the code does not catch is [Signal]; other
    exceptions of the language are [PyError] with their class. *)

From S2P Require Import Prelude PyData PyTime PyDecimal.
From stdpp Require Import base gmap strings pretty list.
From Stdlib Require Import ZArith NArith Ascii.

Inductive money_error : Type :=
  | MoneyError (message : string)
  | CurrencyMismatchError (message : string)
  | Signal (s : signal)
  | PyError (cls message : string).

(** A decimal operation inside a call on money. *)
Definition exact {A} (r : result signal A) : result money_error A :=
  match r with Ok a => Ok a | Raise s => Raise (Signal s) end.

(** ** Currencies *)

Record Currency : Type := MkCurrency {
  code : string;
  minor_units : Z;
}.

#[export] Instance Currency_eq_dec : EqDecision Currency.
Proof. solve_decision. Defined.

Definition Currency_new (code : string) (minor_units : Z) : result money_error Currency :=
  _ ← raise_if (negb ((str_len code =? 3)%Z && str_isalpha code))
        (MoneyError ("invalid ISO-4217 code: " +:+ py_repr_str code));
  _ ← raise_if (minor_units <? 0)%Z
        (MoneyError ("minor_units must be >= 0, got " +:+ pretty minor_units));
  Ok (MkCurrency (str_upper code) minor_units).

Definition _quantum (c : Currency) : result money_error decimal :=
  exact (scaleb (of_Z 1) (- minor_units c)).

Definition _REGISTRY : list (string * Currency) :=
  [("NGN", MkCurrency "NGN" 2); ("USD", MkCurrency "USD" 2); ("EUR", MkCurrency "EUR" 2);
   ("GBP", MkCurrency "GBP" 2); ("JPY", MkCurrency "JPY" 0)].

(** The default of the lookup is made before it is needed. *)
Definition currency (code : string) : result money_error Currency :=
  fallback ← Currency_new code 2;
  Ok (default fallback (assoc_get (str_upper code) _REGISTRY)).

(** ** Amounts *)

Definition DEFAULT_ROUNDING : Rounding := ROUND_HALF_UP.

(** What an amount may be made of, never a float. *)
Inductive Amountable : Type := AInt (z : Z) | AStr (s : string) | ADec (d : decimal).

(** [Decimal(amount)]. *)
Definition Decimal_of (a : Amountable) : result signal decimal :=
  match a with
  | AInt z => Ok (of_Z z)
  | AStr s => match parse_decimal s with Some d => Ok d | None => Raise InvalidOperation end
  | ADec d => Ok d
  end.

Record Money : Type := MkMoney {
  amount : decimal;
  money_currency : Currency;
}.

Definition _quantize (c : Currency) (value : decimal) (rounding : Rounding)
    : result money_error decimal :=
  quantum ← _quantum c; exact (quantize value quantum rounding).

(** The constructor, which quantizes what it is given. *)
Definition Money_new (amount : decimal) (c : Currency) : result money_error Money :=
  amount ← _quantize c amount DEFAULT_ROUNDING; Ok (MkMoney amount c).

(** [repr] of an amount, for a message. *)
Definition amount_repr (a : Amountable) : string :=
  match a with
  | AInt z => pretty z
  | AStr s => py_repr_str s
  | ADec d => "Decimal('" +:+ decimal_str d +:+ "')"
  end.

Definition Money_of (amount : Amountable) (c : Currency) (rounding : Rounding)
    : result money_error Money :=
  dec ← (match Decimal_of amount with
         | Ok d => Ok d
         | Raise _ => Raise (MoneyError ("not a valid amount: " +:+ amount_repr amount))
         end);
  quantum ← _quantum c;
  amount ← exact (quantize dec quantum rounding);
  Money_new amount c.

Definition Money_zero (c : Currency) : result money_error Money := Money_new (of_Z 0) c.

Definition _same_currency (a b : Money) : result money_error unit :=
  raise_if (negb (bool_decide (money_currency a = money_currency b)))
    (CurrencyMismatchError (code (money_currency a) +:+ " vs " +:+ code (money_currency b))).

Definition Money_add (a b : Money) : result money_error Money :=
  _ ← _same_currency a b;
  sum ← exact (decimal_add (amount a) (amount b));
  Money_new sum (money_currency a).

Definition Money_subtract (a b : Money) : result money_error Money :=
  _ ← _same_currency a b;
  difference ← exact (decimal_sub (amount a) (amount b));
  Money_new difference (money_currency a).

Definition Money_multiply (a : Money) (factor : Amountable) (rounding : Rounding)
    : result money_error Money :=
  factor ← exact (Decimal_of factor);
  product ← exact (decimal_mul (amount a) factor);
  quantized ← _quantize (money_currency a) product rounding;
  Money_new quantized (money_currency a).

Definition Money_neg (a : Money) : result money_error Money :=
  negated ← exact (decimal_neg (amount a)); Money_new negated (money_currency a).

(** ** Comparison *)

Definition _cmp_key (a b : Money) : result money_error decimal :=
  _ ← _same_currency a b; Ok (amount b).

Definition Money_lt (a b : Money) : result money_error bool :=
  key ← _cmp_key a b; exact (decimal_lt (amount a) key).
Definition Money_le (a b : Money) : result money_error bool :=
  key ← _cmp_key a b; exact (decimal_le (amount a) key).
Definition Money_gt (a b : Money) : result money_error bool :=
  key ← _cmp_key a b; exact (decimal_gt (amount a) key).
Definition Money_ge (a b : Money) : result money_error bool :=
  key ← _cmp_key a b; exact (decimal_ge (amount a) key).

Definition is_zero (a : Money) : result money_error bool := exact (decimal_eq (amount a) (of_Z 0)).
Definition is_negative (a : Money) : result money_error bool := exact (decimal_lt (amount a) (of_Z 0)).
Definition is_positive (a : Money) : result money_error bool := exact (decimal_gt (amount a) (of_Z 0)).

Definition Money_str (a : Money) : string := decimal_str (amount a) +:+ " " +:+ code (money_currency a).

(** ** Allocation *)

(** [int(d)]. *)
Definition to_int (d : decimal) : result money_error Z :=
  match int_of d with
  | Some z => Ok z
  | None => Raise (if is_nan d then PyError "ValueError" "cannot convert NaN to integer"
                   else PyError "OverflowError" "cannot convert Infinity to integer")
  end.

(** [any(w < 0 for w in decs)]. *)
Fixpoint any_negative (decs : list decimal) : result money_error bool :=
  match decs with
  | [] => Ok false
  | w :: decs => neg ← exact (decimal_lt w (of_Z 0)); if (neg : bool) then Ok true else any_negative decs
  end.

(** The order of a sort by keys, largest first, equal keys in their order. *)
Definition larger_first (x y : decimal * nat) : bool :=
  match decimal_cmp (fst y) (fst x) with Gt => false | _ => true end.

(** One leftover unit to each of the first indices of the order. *)
Fixpoint hand_out (remainder : nat) (order : list nat) (floors : list Z) : result money_error (list Z) :=
  match remainder with
  | O => Ok floors
  | S remainder =>
      match order with
      | [] => Raise (PyError "IndexError" "list index out of range")
      | i :: order => hand_out remainder order (alter Z.succ i floors)
      end
  end.

Definition allocate (m : Money) (weights : list Amountable) : result money_error (list Money) :=
  _ ← raise_if (bool_decide (length weights = 0)) (MoneyError "allocate needs at least one weight");
  decs ← map_result (λ w, exact (Decimal_of w)) weights;
  negative ← any_negative decs;
  _ ← raise_if negative (MoneyError "allocate weights must be non-negative");
  total ← exact (decimal_sum decs);
  not_positive ← exact (decimal_le total (of_Z 0));
  _ ← raise_if not_positive (MoneyError "allocate weights must sum to a positive value");
  quantum ← _quantum (money_currency m);
  quotient ← exact (decimal_div (amount m) quantum);
  integral ← exact (to_integral_value quotient CONTEXT_ROUNDING);
  total_units ← to_int integral;
  raw ← map_result (λ w, share ← exact (decimal_mul (of_Z total_units) w);
                         exact (decimal_div share total)) decs;
  floors ← map_result (λ r, floored ← exact (to_integral_value r ROUND_FLOOR); to_int floored) raw;
  let remainder := (total_units - foldr Z.add 0 floors)%Z in
  keys ← map_result (λ rf : decimal * Z, exact (decimal_sub rf.1 (of_Z rf.2))) (zip raw floors);
  let order := (py_sorted larger_first (zip keys (seq 0 (length keys)))).*2 in
  units ← hand_out (Z.to_nat remainder) order floors;
  map_result (λ u, part ← exact (decimal_mul (of_Z u) quantum); Money_new part (money_currency m)) units.

Definition split (m : Money) (n : Z) : result money_error (list Money) :=
  _ ← raise_if (n <=? 0)%Z (MoneyError "split n must be >= 1");
  allocate m (replicate (Z.to_nat n) (AInt 1)).

(** ** Exchange rates *)

Record ExchangeRate : Type := MkExchangeRate {
  base : Currency;
  quote : Currency;
  rate : decimal;
  as_of : datetime;
  source : string;
  rate_id : option string;
}.

Definition ExchangeRate_new (base quote : Currency) (rate : Amountable) (as_of : datetime)
    (source : string) (rate_id : option string) : result money_error ExchangeRate :=
  rate ← exact (Decimal_of rate);
  not_positive ← exact (decimal_le rate (of_Z 0));
  _ ← raise_if not_positive
        (MoneyError ("exchange rate must be positive, got " +:+ decimal_str rate));
  _ ← raise_if (bool_decide (base = quote)) (MoneyError "base and quote currencies must differ");
  Ok (MkExchangeRate base quote rate as_of source rate_id).

Definition convert (r : ExchangeRate) (m : Money) (rounding : Rounding) : result money_error Money :=
  _ ← raise_if (negb (bool_decide (money_currency m = base r)))
        (CurrencyMismatchError ("rate is " +:+ code (base r) +:+ "->" +:+ code (quote r)
           +:+ ", cannot convert " +:+ code (money_currency m)));
  converted ← exact (decimal_mul (amount m) (rate r));
  Money_of (ADec converted) (quote r) rounding.
