(* ===== verification/MoneyAllocate.v ===== *)
(** * Allocation and conversion, step by step

    An amount as a number of minor units; each share of an allocation is within
    a few rounding errors of the exact one; the floors of the shares leave a
    remainder no larger than the number of parts, which is handed out a unit at
    a time; and a conversion is a rounded product. *)

From S2P Require Import Prelude PyData PyTime PyDecimal DecimalFacts DecimalError Money.
From stdpp Require Import base gmap strings pretty list sorting.
From Stdlib Require Import ZArith NArith QArith Qpower Qabs Lqa Lia.

Local Open Scope Z_scope.

(** ** Amounts in minor units *)

(** A currency whose minor units are within the context. *)
Definition known_currency (c : Currency) : Prop := 0 ≤ minor_units c ≤ 1000.

(** An amount of that many minor units. *)
Definition has_units (m : Money) (u : Z) : Prop :=
  ∃ s n, amount m = Fin s n (- minor_units (money_currency m)) ∧ signed s n = u ∧ Z.abs u < 10 ^ PREC.

Lemma exact_Ok {A} (r : result signal A) a : exact r = Ok a ↔ r = Ok a.
Proof. destruct r; naive_solver. Qed.

Lemma quantum_Ok c : known_currency c → _quantum c = Ok (Fin false 1 (- minor_units c)).
Proof. intros Hc. unfold _quantum. by rewrite scaleb_one. Qed.

Lemma signed_abs s n : Z.abs (signed s n) = Z.of_N n.
Proof. unfold signed. destruct s; lia. Qed.

(** Quantizing a number of units that already has the exponent. *)
Lemma quantize_same s n e mode : Z.of_N n < 10 ^ PREC → -1000 ≤ e ≤ 0 →
  quantize (Fin s n e) (Fin false 1 e) mode = Ok (Fin s n e).
Proof.
  intros Hn He. assert (fits n e) as Hfit.
  { unfold fits, ETINY, ETOP, EMIN, EMAX, PREC in *. lia. }
  cbn [quantize nan_check].
  rewrite (proj2 (Z.ltb_ge e ETINY)), (proj2 (Z.ltb_ge EMAX e)) by (unfold ETINY, EMIN, EMAX, PREC; lia).
  cbn [orb]. destruct (N.eqb_spec n 0) as [->|Hn0]; [by apply fix_exact|].
  pose proof (proj2 (ndigits_le n PREC ltac:(unfold PREC; lia)) Hn) as Hd. pose proof (ndigits_pos n).
  assert (rescale mode s n e e = n) as ->.
  { unfold rescale. rewrite (proj2 (Z.leb_le e e)), Z.sub_diag by lia. apply N.mul_1_r. }
  unfold EMAX, PREC in *.
  rewrite (proj2 (Z.ltb_ge 999999 (ndigits n + e - 1))), (proj2 (Z.ltb_ge 28 (ndigits n + e - e))),
    (proj2 (Z.ltb_ge 28 (ndigits n))) by lia. cbn [orb]. by apply fix_exact.
Qed.

Lemma new_units c s n : known_currency c → Z.of_N n < 10 ^ PREC →
  Money_new (Fin s n (- minor_units c)) c = Ok (MkMoney (Fin s n (- minor_units c)) c).
Proof.
  intros Hc Hn. unfold Money_new, _quantize. rewrite quantum_Ok by done. cbn [mbind result_bind].
  unfold known_currency in Hc. rewrite quantize_same by lia. reflexivity.
Qed.

(** ** The units of an amount *)

Lemma strip_zeros_power k : ∀ fuel n e, (k ≤ fuel)%nat →
  strip_zeros fuel (e + Z.of_nat k) (n * 10 ^ N.of_nat k) e = (n, e + Z.of_nat k).
Proof.
  induction k as [|k IH]; intros fuel n e Hf.
  - rewrite N.pow_0_r, N.mul_1_r, Z.add_0_r. destruct fuel; [done|]. cbn [strip_zeros].
    by rewrite (proj2 (Z.ltb_ge e e)) by lia.
  - destruct fuel as [|fuel]; [lia|]. cbn [strip_zeros].
    rewrite (proj2 (Z.ltb_lt _ _)) by lia.
    replace (n * 10 ^ N.of_nat (S k))%N with (n * 10 ^ N.of_nat k * 10)%N
      by (rewrite Nat2N.inj_succ, N.pow_succ_r'; lia).
    rewrite N.Div0.mod_mul, N.div_mul by lia. cbn [andb].
    replace (e + Z.of_nat (S k)) with (e + 1 + Z.of_nat k) by lia. apply IH. lia.
Qed.

(** [amount / quantum] is the number of units. *)
Lemma units_of_amount s n e : Z.of_N n < 10 ^ PREC → -1000 ≤ e ≤ 0 →
  decimal_div (Fin s n e) (Fin false 1 e) = Ok (Fin (xorb s false) n 0).
Proof.
  intros Hn He. cbn [decimal_div nan_check sign_of N.eqb Pos.eqb].
  destruct (N.eqb_spec n 0) as [->|Hn0].
  { by rewrite Z.sub_diag. }
  pose proof (proj2 (ndigits_le n PREC ltac:(unfold PREC; lia)) Hn) as Hd. pose proof (ndigits_pos n).
  change (ndigits 1) with 1. set (shift := 1 - ndigits n + PREC + 1).
  assert (Hs : 0 < shift) by (unfold shift, PREC in *; lia).
  unfold is_exact, quotient. rewrite (proj2 (Z.leb_le 0 shift)) by lia. rewrite N.mod_1_r, N.div_1_r.
  cbn [N.eqb].
  assert (strip_zeros (Z.to_nat (ndigits (n * pow10 shift))) (e - e) (n * pow10 shift) (e - e - shift)
    = (n, 0)) as ->.
  { replace (e - e) with (- shift + Z.of_nat (Z.to_nat shift)) by lia.
    replace (- shift + Z.of_nat (Z.to_nat shift) - shift) with (- shift) by lia.
    unfold pow10. replace (Z.to_N shift) with (N.of_nat (Z.to_nat shift)) by lia.
    rewrite strip_zeros_power; [f_equal; lia|]. apply Z2Nat.inj_le; [lia|pose proof (ndigits_pos (n * 10 ^ N.of_nat (Z.to_nat shift))); lia|].
    apply Z.nlt_ge. intros Hlt.
    assert (ndigits (n * 10 ^ N.of_nat (Z.to_nat shift)) ≤ shift - 1) as Hle by lia.
    destruct (Z.eq_dec shift 1) as [H1|H1]; [pose proof (ndigits_pos (n * 10 ^ N.of_nat (Z.to_nat shift))); lia|].
    apply ndigits_le in Hle; [|lia]. rewrite N2Z.inj_mul, N2Z.inj_pow in Hle.
    replace (Z.of_N (N.of_nat (Z.to_nat shift))) with shift in Hle by lia. change (Z.of_N 10) with 10 in Hle.
    assert (10 ^ (shift - 1) < 10 ^ shift) by (apply Z.pow_lt_mono_r; lia). nia. }
  cbn iota zeta beta. apply fix_exact. unfold fits, ETINY, ETOP, EMIN, EMAX, PREC in *. lia.
Qed.

(** ** Weights *)

(** A weight that is zero or within a hundred thousand digits of one. *)
Definition ordinary (w : decimal) : Prop :=
  finite w ∧ (0 <= value w)%Q ∧ (value w == 0 ∨ Q10 (-100000) <= value w <= Q10 100000)%Q.

Lemma ordinary_digits n e : n = 0%N ∨ -100000 ≤ ndigits n + e - 1 ∧ ndigits n + e ≤ 100000 → ordinary (Fin false n e).
Proof.
  intros H. split; [done|]. split; [apply (mag_nonneg (Fin false n e))|].
  destruct (N.eq_dec n 0) as [->|Hn]; [left; apply Qmult_0_l|right].
  destruct H as [H|[H1 H2]]; [done|]. apply digits_within; [lia|done..].
Qed.

Definition total_value (ws : list decimal) : Q := foldr (λ w, Qplus (value w)) 0%Q ws.

Lemma total_nonneg ws : Forall ordinary ws → (0 <= total_value ws)%Q.
Proof.
  induction 1 as [|w ws (_ & H & _) _ IH]; [apply Qle_refl|].
  change (0 <= value w + total_value ws)%Q. lra.
Qed.

(** The partial sums of ordinary weights are zero or well inside the range. *)
Definition wide (n : Z) (x : Q) : Prop :=
  (x == 0 ∨ Q10 (-100000) <= x <= inject_Z n * Q10 100000)%Q.

Lemma wide_plus n x w : 0 ≤ n → (0 <= x)%Q → wide n x → ordinary w → wide (n + 1) (x + value w).
Proof.
  intros Hn Hx Hwx (_ & Hw & Hww). rewrite Zle_Qle in Hn. change (inject_Z 0) with 0%Q in Hn.
  pose proof (Q10_pos 100000) as Hp. pose proof (Q10_pos (-100000)). unfold wide in *.
  rewrite inject_Z_plus. change (inject_Z 1) with 1%Q.
  assert (0 <= inject_Z n * Q10 100000)%Q by (apply Qmult_le_0_compat; lra).
  assert ((inject_Z n + 1) * Q10 100000 == inject_Z n * Q10 100000 + Q10 100000)%Q as -> by ring.
  destruct Hwx as [E|[]], Hww as [E'|[]]; [left|right..]; lra.
Qed.

Lemma wide_inside n x : n ≤ 10 ^ 27 → wide n x → (x == 0)%Q ∨ inside x.
Proof.
  intros Hn [E|[Hl Hu]]; [by left|right]. split.
  - eapply Qle_trans; [|exact Hl]. apply Q10_le. lia.
  - eapply Qle_trans; [exact Hu|]. apply (Qle_trans _ (Q10 27 * Q10 100000)).
    + apply Qmult_le_compat_r; [|apply Qlt_le_weak, Q10_pos]. rewrite <-(Q10_int 27) by lia.
      by rewrite <-Zle_Qle.
    + rewrite <-Q10_plus. apply Q10_le. lia.
Qed.

(** One rounding error for each addition. *)
Lemma sum_close ws : ∀ k acc exact, Forall ordinary ws → finite acc →
  0 ≤ k → k + Z.of_nat (length ws) ≤ 10 ^ 27 → (0 <= exact)%Q → (0 <= value acc)%Q →
  wide k exact → close k exact (value acc) →
  ∃ d, fold_result decimal_add acc ws = Ok d ∧ finite d ∧ (0 <= value d)%Q ∧
    wide (k + Z.of_nat (length ws)) (exact + total_value ws) ∧
    close (k + Z.of_nat (length ws)) (exact + total_value ws) (value d).
Proof.
  induction ws as [|w ws IH]; intros k acc exact Hall Hacc Hk Hn He Hv Hw Hc.
  - exists acc. cbn [total_value foldr length Z.of_nat]. rewrite Z.add_0_r. unfold wide.
    rewrite !Qplus_0_r. by split_and!.
  - apply Forall_cons in Hall as [Ho Hall]. destruct Ho as (Hf & Hw0 & Hww) eqn:Eo. clear Eo.
    rename Ho into Ho'. assert (ordinary w) as Ho by done. clear Ho'.
    cbn [length] in Hn. rewrite Nat2Z.inj_succ in Hn.
    assert (few k) as Hfk by (apply few_small; lia).
    assert (Hc1 : close k (exact + value w) (value acc + value w)).
    { apply close_plus; [done|]. by apply close_refl. }
    assert (moderate (value acc + value w)) as Hm.
    { pose proof (wide_plus k exact w Hk He Hw Ho) as Hw'.
      destruct (wide_inside (k + 1) _ ltac:(lia) Hw') as [E|E].
      - left. apply (close_zero k); [done|lia|lra|]. by rewrite E in Hc1.
      - apply (close_moderate k (exact + value w)); [lia|done|lra|done]. }
    destruct (add_close acc w) as (d & Hd & Hfd & Hd0 & Hcd); [assumption..|].
    cbn [fold_result]. rewrite Hd. cbn [mbind result_bind].
    assert (close (k + 1) (exact + value w) (value d)) as Hc2.
    { apply (close_trans k 1 _ (value acc + value w)); [assumption|apply few_small; lia|lra|lra|lra|assumption..]. }
    assert (0 <= exact + value w)%Q as He' by lra.
    destruct (IH (k + 1) d (exact + value w)%Q Hall Hfd ltac:(lia) ltac:(lia) He' Hd0
      (wide_plus k exact w Hk He Hw Ho) Hc2) as (d' & Hd' & Hf' & Hd'0 & Hw' & Hc').
    exists d'. cbn [length]. replace (k + Z.of_nat (S (length ws))) with (k + 1 + Z.of_nat (length ws)) by lia.
    assert (exact + total_value (w :: ws) == exact + value w + total_value ws)%Q as E.
    { change (exact + (value w + total_value ws) == exact + value w + total_value ws)%Q. ring. }
    unfold wide in Hw' |- *. rewrite E. exact (conj Hd' (conj Hf' (conj Hd'0 (conj Hw' Hc')))).
Qed.

(** ** A share *)

Lemma mag_of_Z U : mag (of_Z U) = (inject_Z (Z.abs U) * Q10 0)%Q.
Proof. cbn [of_Z mag]. by rewrite Z2N.id by lia. Qed.

Lemma wide_within n x : n ≤ 10 ^ 27 → wide n x → ¬ (x == 0)%Q → within (-100000) 100027 x.
Proof.
  intros Hn [E|[Hl Hu]] Hx; [done|]. split; [done|]. eapply Qle_trans; [exact Hu|].
  change 100027 with (27 + 100000). rewrite Q10_plus. apply Qmult_le_compat_r; [|apply Qlt_le_weak, Q10_pos].
  rewrite <-(Q10_int 27) by lia. by rewrite <-Zle_Qle.
Qed.

Lemma units_within U : U ≠ 0 → Z.abs U < 10 ^ PREC → within 0 28 (inject_Z (Z.abs U)).
Proof.
  intros HU Hb. split.
  - rewrite Q10_zero. change 1%Q with (inject_Z 1). rewrite <-Zle_Qle. lia.
  - rewrite <-(Q10_int 28) by lia. rewrite <-Zle_Qle. unfold PREC in Hb. lia.
Qed.

(** [total_units * w / total], three rounding errors and those of the total. *)
Lemma share_close U w d T k : Z.abs U < 10 ^ PREC → ordinary w →
  0 ≤ k ≤ 10 ^ 26 → finite d → (0 <= value d)%Q → (0 < T)%Q → wide k T → close k T (value d) →
  ∃ p s n e, decimal_mul (of_Z U) w = Ok p ∧ decimal_div p d = Ok (Fin s n e) ∧
    close (k + 3) (inject_Z (Z.abs U) * (value w / T)) (mag (Fin s n e)) ∧
    (value (Fin s n e) == (if U <? 0 then -1 else 1) * mag (Fin s n e))%Q.
Proof.
  intros HU (Hf & Hw0 & Hw) Hk Hfd Hd0 HT HwT Hc.
  destruct w as [sw m e| |]; [|done..]. destruct d as [sd b f| |]; [|done..].
  pose proof (value_mag _ Hw0) as Ew. pose proof (value_mag _ Hd0) as Ed.
  assert (within (-100001) 100028 (mag (Fin sd b f))) as Hwd.
  { apply (within_close k (-100000) 100027 T); [lia|apply (wide_within k); [lia|done|lra]|apply mag_nonneg|].
    by rewrite <-Ed. }
  pose proof (Q10_pos (-100001)) as Hp. assert (0 < mag (Fin sd b f))%Q as Hdp by (destruct Hwd; lra).
  assert (b ≠ 0%N) as Hb. { intros ->. revert Hdp. cbn [mag]. change (inject_Z (Z.of_N 0)) with 0%Q. lra. }
  assert (sd = false) as ->.
  { destruct sd; [|done]. rewrite value_of_sign in Hd0. lra. }
  set (x := (inject_Z (Z.abs U) * mag (Fin sw m e))%Q).
  assert (mag (of_Z U) * mag (Fin sw m e) == x)%Q as Ex.
  { unfold x. rewrite mag_of_Z. by rewrite Q10_zero, Qmult_1_r. }
  assert (x == 0 ∨ within (-100000) 100028 x)%Q as Hx.
  { destruct (decide (U = 0)) as [->|HU0]; [left; apply Qmult_0_l|]. rewrite Ew in Hw.
    destruct Hw as [E|Hw]; [left; unfold x; rewrite E, Qmult_0_r; apply Qeq_refl|right].
    exact (within_mult 0 28 (-100000) 100000 _ _ (units_within U HU0 HU) Hw). }
  pose proof (mag_nonneg (Fin sw m e)) as Hm0.
  assert (0 <= inject_Z (Z.abs U))%Q as HU1.
  { change 0%Q with (inject_Z 0). rewrite <-Zle_Qle. lia. }
  assert (0 <= x)%Q as Hx0 by by apply Qmult_le_0_compat.
  destruct (mul_close (U <? 0) (Z.to_N (Z.abs U)) 0 sw m e) as (n1 & e1 & Hmul & Hc1).
  { fold (of_Z U). rewrite Ex. destruct Hx as [E|E]; [by left|right].
    exact (within_weaken (-100000) 100028 (-800000) 800000 _ ltac:(lia) ltac:(lia) E). }
  fold (of_Z U) in Hmul, Hc1. set (p := Fin _ n1 e1) in *. rewrite Ex in Hc1.
  pose proof (mag_nonneg p) as Hp0.
  assert (n1 = 0%N ∨ inside (mag p / mag (Fin false b f))) as Hin.
  { destruct Hx as [E|E]; [left|right].
    - rewrite E in Hc1. apply (mag_zero n1 e1). exact (few_close_zero 1 (mag p) ltac:(lia) Hp0 Hc1).
    - pose proof (within_mult _ _ _ _ _ _ (within_close 1 (-100000) 100028 _ _ ltac:(lia) E Hp0 Hc1) (within_inv _ _ _ Hwd)) as Hi.
      refine (within_weaken _ _ (-700000) 700000 _ _ _ Hi); lia. }
  destruct (div_close (xorb (U <? 0) sw) n1 e1 false b f ltac:(lia) Hin) as (n2 & e2 & Hdiv & Hc2).
  fold p in Hdiv, Hc2. exists p, (xorb (xorb (U <? 0) sw) false), n2, e2.
  split; [exact Hmul|]. split; [exact Hdiv|]. set (r := Fin _ n2 e2) in *.
  assert (0 <= / T)%Q as HT' by by apply Qlt_le_weak, Qinv_lt_0_compat.
  assert (0 <= / mag (Fin false b f))%Q as Hd' by by apply Qlt_le_weak, Qinv_lt_0_compat.
  assert (inject_Z (Z.abs U) * (value (Fin sw m e) / T) == x * / T)%Q as Ey.
  { unfold x, Qdiv. rewrite Ew. ring. }
  assert (0 <= x * / T)%Q as Hy0 by by apply Qmult_le_0_compat.
  pose proof (mag_nonneg r) as Hr0.
  assert (close (k + 3) (x * / T) (mag r)) as Hc3.
  { replace (k + 3) with (1 + k + 2) by lia.
    apply (close_trans (1 + k) 2 _ (mag p * / mag (Fin false b f)));
      [apply few_small; lia|apply few_small; lia|exact Hy0|by apply Qmult_le_0_compat|exact Hr0| |exact Hc2].
    apply close_mult; [apply few_small; lia|apply few_small; lia|exact Hx0|exact Hp0|exact HT'|exact Hd'|exact Hc1|].
    apply close_inv; [exact HT|exact Hdp|]. by rewrite <-Ed. }
  split; [by rewrite Ey|]. unfold r in *. rewrite value_of_sign, xorb_false_r.
  destruct sw; [|rewrite xorb_false_r; by destruct (U <? 0)].
  assert (mag (Fin true m e) == 0)%Q as Em.
  { rewrite value_of_sign in Hw0. apply Qle_antisym; [lra|exact Hm0]. }
  assert (x * / T == 0)%Q as E0 by (unfold x; rewrite Em; ring). rewrite E0 in Hc3.
  pose proof (few_close_zero (k + 3) _ ltac:(lia) Hr0 Hc3) as ->. ring.
Qed.

Definition sum_Z : list Z → Z := foldr Z.add 0.

(** ** Handing out the remainder *)

Lemma alter_sum i (l : list Z) : (i < length l)%nat → sum_Z (alter Z.succ i l) = sum_Z l + 1.
Proof.
  revert i. induction l as [|z l IH]; intros [|i] Hi; cbn [length] in Hi; [lia..| |].
  - change (Z.succ z + sum_Z l = z + sum_Z l + 1). lia.
  - change (z + sum_Z (alter Z.succ i l) = z + sum_Z l + 1). rewrite IH; lia.
Qed.

Lemma hand_out_Ok r : ∀ order floors, (r ≤ length order)%nat →
  hand_out r order floors = Ok (foldl (λ fs i, alter Z.succ i fs) floors (take r order)).
Proof.
  induction r as [|r IH]; intros order floors Hr; [done|].
  destruct order as [|i order]; cbn in *; [lia|]. apply IH. lia.
Qed.

Lemma handed_sum ix : ∀ fs, Forall (λ i, i < length fs)%nat ix →
  sum_Z (foldl (λ fs i, alter Z.succ i fs) fs ix) = sum_Z fs + Z.of_nat (length ix) ∧
  length (foldl (λ fs i, alter Z.succ i fs) fs ix) = length fs.
Proof.
  induction ix as [|i ix IH]; intros fs Hall; cbn [foldl length].
  - split; [lia|done].
  - apply Forall_cons in Hall as [Hi Hall]. destruct (IH (alter Z.succ i fs)) as [-> ->].
    { by rewrite length_alter. }
    rewrite alter_sum, length_alter by done. split; [lia|done].
Qed.

Lemma handed_lookup ix : ∀ (fs : list Z) j f, NoDup ix → fs !! j = Some f →
  foldl (λ fs i, alter Z.succ i fs) fs ix !! j = Some (if bool_decide (j ∈ ix) then f + 1 else f).
Proof.
  induction ix as [|i ix IH]; intros fs j f Hnd Hj; cbn [foldl]; [done|].
  apply NoDup_cons in Hnd as [Hi Hnd]. destruct (decide (i = j)) as [->|Hij].
  - rewrite (IH _ j (f + 1)); [|done|by rewrite list_lookup_alter_eq, Hj].
    rewrite bool_decide_eq_false_2 by done. rewrite bool_decide_eq_true_2 by left. done.
  - rewrite (IH _ j f); [|done|by rewrite list_lookup_alter_ne].
    case_bool_decide as H1; case_bool_decide as H2; try done; exfalso; [|apply H1]; set_solver.
Qed.

(** ** Errors of a whole list of shares *)

(** A share computed with an error relative to the exact one. *)
Definition share (U : Z) (T err : Q) (w r : decimal) : Prop :=
  finite r ∧ (Qabs (value r - inject_Z U * (value w / T)) <= err * (inject_Z (Z.abs U) * (value w / T)))%Q.

Lemma shares_sum U T err ws raw : ¬ (T == 0)%Q → Forall2 (share U T err) ws raw →
  (Qabs (total_value raw - inject_Z U * (total_value ws / T)) <= err * (inject_Z (Z.abs U) * (total_value ws / T)))%Q.
Proof.
  intros HT. induction 1 as [|w r ws raw [_ Hr] _ IH].
  - cbn [total_value foldr].
    assert (0 - inject_Z U * (0 / T) == 0)%Q as -> by (field; done).
    assert (err * (inject_Z (Z.abs U) * (0 / T)) == 0)%Q as -> by (field; done). apply Qle_refl.
  - change (total_value (r :: raw)) with (value r + total_value raw)%Q.
    change (total_value (w :: ws)) with (value w + total_value ws)%Q.
    assert (value r + total_value raw - inject_Z U * ((value w + total_value ws) / T)
      == (value r - inject_Z U * (value w / T)) + (total_value raw - inject_Z U * (total_value ws / T)))%Q
      as -> by (field; done).
    eapply Qle_trans; [apply Qabs_triangle|].
    assert (err * (inject_Z (Z.abs U) * ((value w + total_value ws) / T))
      == err * (inject_Z (Z.abs U) * (value w / T)) + err * (inject_Z (Z.abs U) * (total_value ws / T)))%Q
      as -> by (field; done). by apply Qplus_le_compat.
Qed.

(** An integer below a number by less than one. *)
Definition floor_of (r : decimal) (f : Z) : Prop := (inject_Z f <= value r < inject_Z f + 1)%Q.

Lemma floors_sum raw floors : Forall2 floor_of raw floors →
  (inject_Z (sum_Z floors) <= total_value raw <= inject_Z (sum_Z floors + Z.of_nat (length floors)))%Q.
Proof.
  induction 1 as [|r f raw floors [H1 H2] _ [IH1 IH2]].
  - split; apply Qle_refl.
  - change (total_value (r :: raw)) with (value r + total_value raw)%Q.
    change (sum_Z (f :: floors)) with (f + sum_Z floors). cbn [length].
    rewrite Nat2Z.inj_succ, <-Z.add_1_r. rewrite !inject_Z_plus in *. change (inject_Z 1) with 1%Q. lra.
Qed.

Definition share_error (n : nat) : Q := inject_Z (Z.of_nat n + 3) * (2 * UNIT).

(** Each raw share, its floor, and what the floor leaves. *)
Lemma one_share U w d T n : Z.abs U < 10 ^ PREC → ordinary w →
  Z.of_nat n + 3 ≤ 10 ^ 26 → finite d → (0 <= value d)%Q → (0 < T)%Q →
  wide (Z.of_nat n) T → close (Z.of_nat n) T (value d) →
  ∃ r f key,
    (share ← exact (decimal_mul (of_Z U) w); exact (decimal_div share d)) = Ok r ∧
    share U T (share_error n) w r ∧
    (floored ← exact (to_integral_value r ROUND_FLOOR); to_int floored) = Ok f ∧
    exact (decimal_sub r (of_Z f)) = Ok key ∧ floor_of r f.
Proof.
  intros HU Ho Hn Hf Hd HT HwT Hc. pose proof Ho as (_ & Hw & _).
  destruct (share_close U w d T (Z.of_nat n) HU Ho ltac:(lia) Hf Hd HT HwT Hc)
    as (p & s & c & e & Hmul & Hdiv & Hcl & Hv).
  assert (0 <= inject_Z (Z.abs U) * (value w / T))%Q as Hy.
  { apply Qmult_le_0_compat; [|apply Qmult_le_0_compat; [done|by apply Qlt_le_weak, Qinv_lt_0_compat]].
    change 0%Q with (inject_Z 0). rewrite <-Zle_Qle. lia. }
  pose proof (close_error (Z.of_nat n + 3) _ _ ltac:(lia) Hy (mag_nonneg _) Hcl) as He.
  destruct (floor_int s c e) as (c' & x & z & Hfl & Hint & Hz).
  destruct (sub_floor (Fin s c e) z I) as [key Hkey]; [lra|].
  exists (Fin s c e), z, key. split_and!; [|split; [done|]| | |done].
  - rewrite Hmul. cbn [mbind result_bind Money.exact]. by rewrite Hdiv.
  - rewrite Hv. assert (inject_Z U == (if U <? 0 then -1 else 1) * inject_Z (Z.abs U))%Q as ->.
    { destruct (Z.ltb_spec U 0).
      - rewrite Z.abs_neq, inject_Z_opp by lia. ring.
      - rewrite Z.abs_eq by lia. ring. }
    assert (∀ t a b x : Q, t * x - t * a * b == t * (x - a * b))%Q as E by (intros; ring).
    rewrite E, Qabs_Qmult. assert (∀ t x : Q, Qabs t == 1 → Qabs t * x == x)%Q as E1.
    { intros t y ->. apply Qmult_1_l. }
    rewrite E1 by by destruct (U <? 0). exact He.
  - rewrite Hfl. cbn [mbind result_bind Money.exact]. unfold to_int. by rewrite Hint.
  - by rewrite Hkey.
Qed.

(** ** All the shares *)

Lemma map_result_cons {E A B} (f : A → result E B) a l b bs :
  f a = Ok b → map_result f l = Ok bs → map_result f (a :: l) = Ok (b :: bs).
Proof. intros H1 H2. cbn [map_result]. rewrite H1. cbn [mbind result_bind]. by rewrite H2. Qed.

Lemma all_shares U d T n ws : Z.abs U < 10 ^ PREC → Forall ordinary ws →
  Z.of_nat n + 3 ≤ 10 ^ 26 → finite d → (0 <= value d)%Q → (0 < T)%Q →
  wide (Z.of_nat n) T → close (Z.of_nat n) T (value d) →
  ∃ raw floors keys,
    map_result (λ w, share ← exact (decimal_mul (of_Z U) w); exact (decimal_div share d)) ws = Ok raw ∧
    map_result (λ r, floored ← exact (to_integral_value r ROUND_FLOOR); to_int floored) raw = Ok floors ∧
    map_result (λ rf : decimal * Z, exact (decimal_sub rf.1 (of_Z rf.2))) (zip raw floors) = Ok keys ∧
    Forall2 (share U T (share_error n)) ws raw ∧ Forall2 floor_of raw floors.
Proof.
  intros HU Hall Hn Hf Hd HT HwT Hc. induction Hall as [|w ws Ho _ IH].
  - by exists [], [], [].
  - destruct IH as (raw & floors & keys & Hr & Hfl & Hk & Hs & Hof).
    destruct (one_share U w d T n) as (r & f & key & H1 & H2 & H3 & H4 & H5); [assumption..|].
    exists (r :: raw), (f :: floors), (key :: keys). split_and!; [..|by constructor|by constructor].
    + by apply (map_result_cons (λ w, share ← exact (decimal_mul (of_Z U) w); exact (decimal_div share d))).
    + by apply map_result_cons.
    + by apply (map_result_cons (λ rf : decimal * Z, exact (decimal_sub rf.1 (of_Z rf.2)))).
Qed.

(** The size in which the rounding errors stay below a thousandth of a unit. *)
Definition few_units (U : Z) (n : nat) : Prop := (Z.of_nat n + 3) * (Z.abs U + 1) ≤ 10 ^ 24.

Lemma error_small U n : few_units U n → (share_error n * inject_Z (Z.abs U) <= 1 # 1000)%Q.
Proof.
  intros H. unfold few_units in H. assert ((Z.of_nat n + 3) * Z.abs U ≤ 10 ^ 24) as H1 by lia.
  rewrite Zle_Qle, inject_Z_mult in H1. change (inject_Z (10 ^ 24)) with (1000000000000000000000000 # 1)%Q in H1.
  unfold share_error, UNIT. generalize dependent (inject_Z (Z.of_nat n + 3)). generalize (inject_Z (Z.abs U)). intros u k Hk.
  assert (k * (2 * (5 # 10000000000000000000000000000)) * u == (1 # 1000000000000000000000000000) * (k * u))%Q as -> by ring.
  lra.
Qed.

Lemma error_nonneg n : (0 <= share_error n)%Q.
Proof.
  apply Qmult_le_0_compat; [|discriminate]. change 0%Q with (inject_Z 0). rewrite <-Zle_Qle. lia.
Qed.

Lemma remainder_bounds U ws raw floors : few_units U (length ws) → (0 < total_value ws)%Q →
  Forall2 (share U (total_value ws) (share_error (length ws))) ws raw → Forall2 floor_of raw floors →
  0 ≤ U - sum_Z floors ≤ Z.of_nat (length ws).
Proof.
  intros Hfew HT Hs Hf. pose proof (error_small _ _ Hfew) as He.
  assert (¬ (total_value ws == 0)%Q) as HT0 by lra. pose proof (shares_sum _ _ _ _ _ HT0 Hs) as Hd. pose proof (floors_sum _ _ Hf) as [Hl Hu].
  assert (total_value ws / total_value ws == 1)%Q as E1 by (field; lra). rewrite E1, !Qmult_1_r in Hd.
  apply Qabs_Qle_condition in Hd as [Hd1 Hd2].
  pose proof (Forall2_length _ _ _ Hs) as Hlr. pose proof (Forall2_length _ _ _ Hf) as Hlf. rewrite <-Hlf, <-Hlr in Hu.
  assert (inject_Z (sum_Z floors) < inject_Z (U + 1))%Q as H1.
  { rewrite inject_Z_plus. change (inject_Z 1) with 1%Q. lra. }
  assert (inject_Z U < inject_Z (sum_Z floors + Z.of_nat (length ws) + 1))%Q as H2.
  { rewrite (inject_Z_plus _ 1). change (inject_Z 1) with 1%Q. lra. }
  rewrite <-Zlt_Qlt in H1, H2. lia.
Qed.

(** A weight is at most the total. *)
Lemma weight_le_total ws w : Forall ordinary ws → w ∈ ws → (0 <= value w <= total_value ws)%Q.
Proof.
  intros Hall. induction Hall as [|x ws (_ & Hx & _) Hws IH]; intros Hin; [by apply elem_of_nil in Hin|].
  pose proof (total_nonneg ws Hws). change (total_value (x :: ws)) with (value x + total_value ws)%Q.
  apply elem_of_cons in Hin as [->|Hin]; [lra|]. specialize (IH Hin). lra.
Qed.

(** ** The whole allocation *)

Definition money_of_units (c : Currency) (u : Z) : Money :=
  MkMoney (Fin (u <? 0) (Z.to_N (Z.abs u)) (- minor_units c)) c.

Lemma money_of_units_has c u : Z.abs u < 10 ^ PREC → has_units (money_of_units c u) u.
Proof.
  intros Hu. eexists _, _. split; [done|]. split; [|done]. unfold signed.
  destruct (Z.ltb_spec u 0); lia.
Qed.

(** A number of units times the quantum. *)
Lemma unit_part c u : known_currency c → Z.abs u < 10 ^ PREC →
  (part ← exact (decimal_mul (of_Z u) (Fin false 1 (- minor_units c))); Money_new part c)
    = Ok (money_of_units c u).
Proof.
  intros Hc Hu. unfold of_Z. cbn [decimal_mul sign_of nan_check]. rewrite N.mul_1_r, xorb_false_r, Z.add_0_l.
  rewrite fix_exact.
  - cbn [mbind result_bind exact]. apply new_units; [done|lia].
  - unfold known_currency, fits, ETINY, ETOP, EMIN, EMAX, PREC in *. lia.
Qed.

Lemma unit_parts c us : known_currency c → Forall (λ u, Z.abs u < 10 ^ PREC) us →
  map_result (λ u, part ← exact (decimal_mul (of_Z u) (Fin false 1 (- minor_units c))); Money_new part c) us
    = Ok (money_of_units c <$> us).
Proof.
  intros Hc. induction 1 as [|u us Hu _ IH]; [done|]. cbn [fmap list_fmap].
  apply (map_result_cons (λ u, part ← exact (decimal_mul (of_Z u) (Fin false 1 (- minor_units c))); Money_new part c));
    [by apply unit_part|done].
Qed.

(** The whole amount, in units. *)
Lemma amount_units m U : known_currency (money_currency m) → has_units m U →
  ∃ q i, decimal_div (amount m) (Fin false 1 (- minor_units (money_currency m))) = Ok q ∧
    to_integral_value q CONTEXT_ROUNDING = Ok i ∧ to_int i = Ok U.
Proof.
  intros Hc (s & n & -> & <- & Hn). rewrite signed_abs in Hn.
  rewrite units_of_amount by (unfold known_currency in *; lia). rewrite xorb_false_r.
  eexists _, _. split; [done|]. split; [done|]. unfold to_int, int_of, rescale. cbn. by rewrite N.mul_1_r.
Qed.

Lemma none_negative ws : Forall ordinary ws → any_negative ws = Ok false.
Proof.
  induction 1 as [|w ws (Hf & Hw & _) _ IH]; [done|]. cbn [any_negative].
  by rewrite not_below_zero.
Qed.

(** The order in which the leftover units are given. *)
Definition order_of (keys : list decimal) : list nat :=
  (py_sorted larger_first (zip keys (seq 0 (length keys)))).*2.

Lemma order_of_perm keys : order_of keys ≡ₚ seq 0 (length keys).
Proof.
  unfold order_of. rewrite py_sorted_perm, snd_zip; [done|]. by rewrite length_seq.
Qed.

Definition units_given (r : nat) (keys : list decimal) (floors : list Z) : list Z :=
  foldl (λ fs i, alter Z.succ i fs) floors (take r (order_of keys)).

Lemma order_length keys : length (order_of keys) = length keys.
Proof. by rewrite order_of_perm, length_seq. Qed.

Lemma units_given_sum r keys floors : (r ≤ length keys)%nat → length keys = length floors →
  sum_Z (units_given r keys floors) = sum_Z floors + Z.of_nat r ∧
  length (units_given r keys floors) = length floors.
Proof.
  intros Hr Hl. destruct (handed_sum (take r (order_of keys)) floors) as [Hs Hn].
  - apply Forall_take. rewrite order_of_perm, Hl. apply Forall_seq. lia.
  - unfold units_given. rewrite Hs, length_take, order_length. split; [lia|done].
Qed.

Lemma units_given_lookup r keys floors j u : units_given r keys floors !! j = Some u →
  ∃ f, floors !! j = Some f ∧ u = if bool_decide (j ∈ take r (order_of keys)) then f + 1 else f.
Proof.
  intros Hu. assert (NoDup (take r (order_of keys))) as Hnd.
  { apply (sublist_NoDup _ (order_of keys)); [rewrite order_of_perm; apply NoDup_seq|apply sublist_take]. }
  destruct (floors !! j) as [f|] eqn:Hf.
  - exists f. split; [done|]. unfold units_given in Hu. rewrite (handed_lookup _ _ _ _ Hnd Hf) in Hu. by injection Hu.
  - exfalso. revert Hu Hf. unfold units_given. generalize (take r (order_of keys)). intros ix. revert floors.
    induction ix as [|i ix IH]; intros fs Hu Hf; cbn in Hu; [congruence|].
    apply (IH _ Hu). apply lookup_ge_None. rewrite length_alter. by apply lookup_ge_None.
Qed.

Lemma floor_near U T n w r f : few_units U n → (0 < T)%Q → (0 <= value w <= T)%Q →
  share U T (share_error n) w r → floor_of r f →
  (Qabs (inject_Z f - inject_Z U * (value w / T)) < 1 + (1 # 1000) ∧
   Qabs (inject_Z (f + 1) - inject_Z U * (value w / T)) <= 1 + (1 # 1000))%Q.
Proof.
  intros Hfew HT [Hw0 Hw] [_ Hs] [Hl Hu]. pose proof (error_small _ _ Hfew) as He.
  assert (0 <= value w / T <= 1)%Q as [Hq0 Hq1].
  { split; [apply Qmult_le_0_compat; [done|by apply Qlt_le_weak, Qinv_lt_0_compat]|].
    apply Qle_shift_div_r; [done|]. by rewrite Qmult_1_l. }
  set (q := (value w / T)%Q) in *. set (x := (inject_Z U * q)%Q) in *.
  assert (share_error n * (inject_Z (Z.abs U) * q) <= 1 # 1000)%Q as Herr.
  { rewrite Qmult_assoc. apply (Qle_trans _ (share_error n * inject_Z (Z.abs U) * 1)); [|by rewrite Qmult_1_r].
    apply Qmult_le_compat_nonneg; [split; [|apply Qle_refl]|by split].
    apply Qmult_le_0_compat; [apply error_nonneg|]. change 0%Q with (inject_Z 0). rewrite <-Zle_Qle. lia. }
  pose proof (Qle_trans _ _ _ Hs Herr) as H. apply Qabs_Qle_condition in H as [H1 H2].
  rewrite inject_Z_plus. change (inject_Z 1) with 1%Q. split.
  - apply Qabs_Qlt_condition. split; lra.
  - apply Qabs_Qle_condition. split; lra.
Qed.

Lemma few_units_size U n : few_units U n → Z.abs U < 10 ^ PREC ∧ Z.of_nat n + 3 ≤ 10 ^ 26 ∧ Z.abs U + 3 < 10 ^ PREC.
Proof. unfold few_units, PREC. nia. Qed.

Lemma sum_of_weights ws : Forall ordinary ws → Z.of_nat (length ws) + 3 ≤ 10 ^ 26 →
  ∃ d, decimal_sum ws = Ok d ∧ finite d ∧ (0 <= value d)%Q ∧
    wide (Z.of_nat (length ws)) (total_value ws) ∧ close (Z.of_nat (length ws)) (total_value ws) (value d).
Proof.
  intros Hall Hn. assert (value (of_Z 0) == 0)%Q as Ez by apply Qmult_0_l.
  assert (close 0 0 (value (of_Z 0))) as Hc by (rewrite Ez; apply close_refl; [apply few_small; lia|apply Qle_refl]).
  destruct (sum_close ws 0 (of_Z 0) 0%Q Hall I ltac:(lia) ltac:(lia) (Qle_refl _)) as (d & Hd & Hf & H0 & Hw & Hcl);
    [rewrite Ez; apply Qle_refl|left; apply Qeq_refl|exact Hc|].
  exists d. rewrite Z.add_0_l in Hw, Hcl. unfold wide in Hw |- *. rewrite Qplus_0_l in Hw, Hcl.
  exact (conj Hd (conj Hf (conj H0 (conj Hw Hcl)))).
Qed.

Lemma total_above T d k : 0 ≤ k ≤ 10 ^ 26 → (0 < T)%Q → close k T (value d) → (0 < value d)%Q.
Proof.
  intros Hk HT [H _]. assert (1 # 2 <= 1 - inject_Z k * UNIT)%Q as Hhalf.
  { unfold UNIT. destruct Hk as [_ Hk]. rewrite Zle_Qle in Hk.
    change (inject_Z (10 ^ 26)) with (100000000000000000000000000 # 1)%Q in Hk. lra. }
  eapply Qlt_le_trans; [|exact H]. rewrite <-(Qmult_0_l T). apply Qmult_lt_compat_r; lra.
Qed.

Lemma allocate_steps m U weights ws :
  known_currency (money_currency m) → has_units m U →
  Forall2 (λ w d, Decimal_of w = Ok d) weights ws → Forall ordinary ws → (0 < total_value ws)%Q →
  few_units U (length ws) →
  ∃ d raw floors keys,
    map_result (λ w, share ← exact (decimal_mul (of_Z U) w); exact (decimal_div share d)) ws = Ok raw ∧
    map_result (λ r, floored ← exact (to_integral_value r ROUND_FLOOR); to_int floored) raw = Ok floors ∧
    Forall2 (share U (total_value ws) (share_error (length ws))) ws raw ∧ Forall2 floor_of raw floors ∧
    map_result (λ rf : decimal * Z, exact (decimal_sub rf.1 (of_Z rf.2))) (zip raw floors) = Ok keys ∧
    allocate m weights =
      map_result (λ u, part ← exact (decimal_mul (of_Z u) (Fin false 1 (- minor_units (money_currency m))));
                       Money_new part (money_currency m))
        (units_given (Z.to_nat (U - sum_Z floors)) keys floors).
Proof.
  intros Hc HU Hws Hall HT Hfew. destruct (few_units_size _ _ Hfew) as (HU1 & Hn & _).
  destruct (sum_of_weights ws Hall Hn) as (d & Hd & Hf & H0 & Hw & Hcl).
  destruct (all_shares U d (total_value ws) (length ws) ws) as (raw & floors & keys & Hraw & Hfl & Hk & Hs & Ho);
    [assumption..|].
  pose proof (total_above _ d (Z.of_nat (length ws)) ltac:(lia) HT Hcl) as Hdp.
  exists d, raw, floors, keys. split_and!; [done..|].
  unfold allocate. rewrite bool_decide_eq_false_2.
  2:{ intros E. apply nil_length_inv in E as ->. apply Forall2_nil_inv_l in Hws as ->. by apply Qlt_irrefl in HT. }
  cbn [raise_if mbind result_bind].
  assert (map_result (λ w, exact (Decimal_of w)) weights = Ok ws) as ->.
  { apply map_result_Ok. eapply Forall2_impl; [exact Hws|]. intros w x Hx. by apply exact_Ok. }
  cbn [mbind result_bind]. rewrite none_negative by done. cbn [raise_if mbind result_bind].
  rewrite Hd. cbn [mbind result_bind exact]. rewrite (above_zero d Hf Hdp).
  cbn [raise_if mbind result_bind exact]. rewrite quantum_Ok by done. cbn [mbind result_bind exact].
  destruct (amount_units m U Hc HU) as (q & i & -> & Hi & Hint). cbn [mbind result_bind exact].
  rewrite Hi. cbn [mbind result_bind exact]. rewrite Hint. cbn [mbind result_bind].
  rewrite Hraw. cbn [mbind result_bind]. rewrite Hfl. cbn [mbind result_bind].
  rewrite Hk. cbn [mbind result_bind]. rewrite hand_out_Ok; [done|].
  destruct (remainder_bounds U ws raw floors Hfew HT Hs Ho) as [H1 H2].
  change (foldr Z.add 0 floors) with (sum_Z floors). fold (order_of keys). rewrite order_length.
  apply map_result_Ok, Forall2_length in Hk. rewrite length_zip in Hk.
  apply Forall2_length in Ho, Hs. lia.
Qed.

(** The parts, in units: each a floor, or one more. *)
Lemma given_near U ws raw floors keys :
  few_units U (length ws) → (0 < total_value ws)%Q → Forall ordinary ws →
  Forall2 (share U (total_value ws) (share_error (length ws))) ws raw → Forall2 floor_of raw floors →
  length keys = length ws → length (units_given (Z.to_nat (U - sum_Z floors)) keys floors) = length ws →
  Forall2 (λ u w, Qabs (inject_Z u - inject_Z U * (value w / total_value ws)) <= 1 + (1 # 1000))%Q
    (units_given (Z.to_nat (U - sum_Z floors)) keys floors) ws.
Proof.
  intros Hfew HT Hall Hs Ho Hk Hlen. apply Forall2_same_length_lookup. split; [done|].
  intros j u w Hu Hw. apply units_given_lookup in Hu as (f & Hf & ->).
  destruct (Forall2_lookup_r _ _ _ _ _ Ho Hf) as (r & Hr & Hrf).
  destruct (Forall2_lookup_lr _ _ _ _ _ _ Hs Hw Hr) as (Hfin & Herr).
  destruct (floor_near U (total_value ws) (length ws) w r f) as [H1 H2]; try done.
  { apply weight_le_total; [done|]. by eapply list_elem_of_lookup_2. }
  case_bool_decide; [done|]. by apply Qlt_le_weak.
Qed.

(** An equal weight for every part gives equal shares. *)
Lemma map_result_replicate {E A B} (f : A → result E B) n a l :
  map_result f (replicate n a) = Ok l → (0 < n)%nat → ∃ b, l = replicate n b.
Proof.
  intros H%map_result_Ok Hn. destruct n as [|n]; [lia|]. cbn [replicate] in H.
  destruct l as [|b l]; [by inversion H|]. apply Forall2_cons in H as [Hb H]. exists b. cbn [replicate]. f_equal.
  revert l H. clear Hn. induction n as [|n IH]; intros l H; cbn [replicate] in *.
  - by apply Forall2_nil_inv_l in H.
  - destruct l as [|b' l]; [by inversion H|]. apply Forall2_cons in H as [Hb' H]. f_equal; [congruence|by apply IH].
Qed.

(** Elements that the order does not tell apart stay as they are. *)
Lemma order_of_replicate n key : order_of (replicate n key) = seq 0 n.
Proof.
  unfold order_of. rewrite length_replicate. assert (∀ l : list nat,
    py_sorted larger_first (zip (replicate (length l) key) l) = zip (replicate (length l) key) l) as Hs.
  { induction l as [|i l IH]; [done|]. cbn [length replicate zip zip_with py_sorted foldr].
    change (insert_sorted larger_first (key, i) (py_sorted larger_first (zip (replicate (length l) key) l))
      = (key, i) :: zip (replicate (length l) key) l).
    rewrite IH. destruct l as [|j l]; [done|]. cbn [length replicate zip zip_with insert_sorted].
    assert (larger_first (key, i) (key, j) = true) as ->; [|done]. unfold larger_first. cbn [fst].
    destruct key as [s m e|[]|]; [|done..]. cbn [decimal_cmp]. by rewrite Z.compare_refl. }
  specialize (Hs (seq 0 n)). rewrite length_seq in Hs. rewrite Hs, snd_zip; [done|].
  by rewrite length_seq, length_replicate.
Qed.

(** The sum of numbers that are one of two. *)
Lemma even_parts us n f r : (0 < n)%nat → (r ≤ n)%nat → length us = n → sum_Z us = Z.of_nat n * f + Z.of_nat r →
  (∀ j u, us !! j = Some u → u = if bool_decide (j < r)%nat then f + 1 else f) →
  us = (λ j, sum_Z us / Z.of_nat n + (if Z.of_nat j <? sum_Z us mod Z.of_nat n then 1 else 0)) <$> seq 0 n.
Proof.
  intros Hn Hr Hl Hs Hus. apply list_eq. intros j. destruct (decide (j < n)%nat) as [Hj|Hj].
  - destruct (us !! j) as [u|] eqn:Hu; [|apply lookup_ge_None in Hu; lia].
    rewrite list_lookup_fmap, lookup_seq_lt by done. cbn [fmap option_fmap option_map Nat.add]. f_equal.
    apply Hus in Hu as ->. rewrite Hs. destruct (decide (r = n)) as [->|Hrn].
    + rewrite bool_decide_eq_true_2 by done. replace (Z.of_nat n * f + Z.of_nat n) with ((f + 1) * Z.of_nat n) by lia.
      rewrite Z.div_mul, Z.mod_mul by lia. destruct (Z.ltb_spec (Z.of_nat j) 0); lia.
    + replace (Z.of_nat n * f + Z.of_nat r) with (Z.of_nat r + f * Z.of_nat n) by lia.
      rewrite Z.div_add, Z.mod_add, Z.div_small, Z.mod_small by lia. case_bool_decide; destruct (Z.ltb_spec (Z.of_nat j) (Z.of_nat r)); lia.
  - rewrite (proj2 (lookup_ge_None us j)) by lia. symmetry. apply lookup_ge_None. rewrite length_fmap, length_seq. lia.
Qed.

Lemma near_size U u q : (0 <= q)%Q → (q <= 1)%Q → Z.abs U + 3 < 10 ^ PREC →
  (Qabs (inject_Z u - inject_Z U * q) <= 1 + (1 # 1000))%Q → Z.abs u < 10 ^ PREC.
Proof.
  intros H0 H1 HU H. apply Qabs_Qle_condition in H as [Hl Hu].
  assert (Qabs (inject_Z U * q) <= inject_Z (Z.abs U))%Q as Hx.
  { rewrite Qabs_Qmult, (Qabs_pos q) by done. apply (Qle_trans _ (Qabs (inject_Z U) * 1)).
    - rewrite !(Qmult_comm (Qabs _)). apply Qmult_le_compat_r; [done|apply Qabs_nonneg].
    - rewrite Qmult_1_r. apply Qle_refl. }
  apply Qabs_Qle_condition in Hx as [Hx1 Hx2].
  assert (inject_Z u < inject_Z (Z.abs U + 2))%Q as A.
  { rewrite inject_Z_plus. change (inject_Z 2) with 2%Q. lra. }
  assert (inject_Z (- (Z.abs U + 2)) < inject_Z u)%Q as B.
  { rewrite inject_Z_opp, inject_Z_plus. change (inject_Z 2) with 2%Q. lra. }
  rewrite <-Zlt_Qlt in A, B. lia.
Qed.

(** The units given: the whole amount, every part within the context. *)
Lemma given_units U ws raw floors keys :
  few_units U (length ws) → (0 < total_value ws)%Q → Forall ordinary ws →
  Forall2 (share U (total_value ws) (share_error (length ws))) ws raw → Forall2 floor_of raw floors →
  map_result (λ rf : decimal * Z, exact (decimal_sub rf.1 (of_Z rf.2))) (zip raw floors) = Ok keys →
  let us := units_given (Z.to_nat (U - sum_Z floors)) keys floors in
  sum_Z us = U ∧ length us = length ws ∧ Forall (λ u, Z.abs u < 10 ^ PREC) us ∧
  Forall2 (λ u w, Qabs (inject_Z u - inject_Z U * (value w / total_value ws)) <= 1 + (1 # 1000))%Q us ws.
Proof.
  intros Hfew HT Hall Hs Ho Hk us. destruct (remainder_bounds U ws raw floors Hfew HT Hs Ho) as [H1 H2].
  apply map_result_Ok, Forall2_length in Hk. rewrite length_zip in Hk.
  pose proof (Forall2_length _ _ _ Ho) as Hlo. pose proof (Forall2_length _ _ _ Hs) as Hls.
  destruct (units_given_sum (Z.to_nat (U - sum_Z floors)) keys floors) as [Hsum Hlen]; [lia..|]. fold us in Hsum, Hlen.
  assert (length keys = length ws) as Hkl by lia. assert (length us = length ws) as Hul by lia.
  pose proof (given_near U ws raw floors keys Hfew HT Hall Hs Ho Hkl Hul) as Hnear. fold us in Hnear.
  split_and!; [lia|lia| |done]. apply Forall_lookup. intros j u Hu.
  destruct (Forall2_lookup_l _ _ _ _ _ Hnear Hu) as (w & Hw & Hq).
  destruct (weight_le_total ws w Hall) as [Hw0 Hw1]; [by eapply list_elem_of_lookup_2|].
  destruct (few_units_size _ _ Hfew) as (_ & _ & HU). apply (near_size U u (value w / total_value ws)); [..|done|done].
  - apply Qmult_le_0_compat; [done|by apply Qlt_le_weak, Qinv_lt_0_compat].
  - apply Qle_shift_div_r; [done|]. by rewrite Qmult_1_l.
Qed.

(** Weights of one. *)
Lemma value_one : (value (of_Z 1) == 1)%Q.
Proof. unfold value, of_Z. rewrite Q10_zero. reflexivity. Qed.

Lemma one_ordinary : ordinary (of_Z 1).
Proof.
  split; [done|]. rewrite value_one. split; [discriminate|right].
  rewrite <-Q10_zero. split; apply Q10_le; lia.
Qed.

Lemma ones_positive n : (0 < n)%nat → (0 < total_value (replicate n (of_Z 1)))%Q.
Proof.
  destruct n as [|n]; [lia|]. intros _. cbn [replicate].
  change (0 < value (of_Z 1) + total_value (replicate n (of_Z 1)))%Q.
  pose proof (total_nonneg (replicate n (of_Z 1)) (Forall_replicate _ _ _ one_ordinary)). rewrite value_one. lra.
Qed.

Lemma take_seq r n j : (r ≤ n)%nat → j ∈ take r (seq 0 n) ↔ (j < r)%nat.
Proof.
  intros Hr. replace n with (r + (n - r))%nat by lia. rewrite seq_app, take_app_length' by by rewrite length_seq.
  rewrite elem_of_seq. lia.
Qed.

(** The units given when the shares come from equal weights. *)
Lemma split_units U n d (one : decimal) raw floors keys :
  map_result (λ w, share ← exact (decimal_mul (of_Z U) w); exact (decimal_div share d)) (replicate n one) = Ok raw →
  map_result (λ r, floored ← exact (to_integral_value r ROUND_FLOOR); to_int floored) raw = Ok floors →
  map_result (λ rf : decimal * Z, exact (decimal_sub rf.1 (of_Z rf.2))) (zip raw floors) = Ok keys →
  (0 < n)%nat → 0 ≤ U - sum_Z floors ≤ Z.of_nat n →
  let us := units_given (Z.to_nat (U - sum_Z floors)) keys floors in
  sum_Z us = U → length us = n →
  us = (λ j, U / Z.of_nat n + (if Z.of_nat j <? U mod Z.of_nat n then 1 else 0)) <$> seq 0 n.
Proof.
  intros Hraw Hfl Hk Hn Hr us Hsum Hlen.
  destruct (map_result_replicate _ _ _ _ Hraw Hn) as [r Er]. subst raw.
  destruct (map_result_replicate _ _ _ _ Hfl Hn) as [f Ef]. subst floors.
  rewrite zip_with_replicate in Hk. destruct (map_result_replicate _ _ _ _ Hk Hn) as [key Ekey]. subst keys.
  rewrite <-Hsum. apply (even_parts us n f (Z.to_nat (U - sum_Z (replicate n f)))); [done|lia|done| |].
  - rewrite Hsum. assert (∀ k, sum_Z (replicate k f) = Z.of_nat k * f) as Hrep.
    { induction k as [|k IH]; [done|]. change (f + sum_Z (replicate k f) = Z.of_nat (S k) * f). lia. }
    rewrite Hrep in *. lia.
  - intros j u Hu. apply units_given_lookup in Hu as (f' & [-> _]%lookup_replicate & ->).
    rewrite order_of_replicate. set (k := Z.to_nat _).
    by rewrite (bool_decide_ext (j ∈ take k (seq 0 n)) (j < k)%nat (take_seq k n j ltac:(lia))).
Qed.

(** Quantizing a number that leaves room for it. *)
Lemma quantize_near mode s n e t : -1000 ≤ t ≤ 0 →
  (mag (Fin s n e) <= inject_Z (2 * 10 ^ 27) * Q10 t)%Q →
  ∃ c, quantize (Fin s n e) (Fin false 1 t) mode = Ok (Fin s c t) ∧ Z.of_N c < 10 ^ PREC ∧
    (Qabs (inject_Z (Z.of_N c) * Q10 t - mag (Fin s n e)) <= slack mode * Q10 t)%Q.
Proof.
  intros Ht Hsize. pose proof (rescale_near mode s n e t) as Hh. pose proof (Q10_pos t) as Hp.
  set (c := rescale mode s n e t) in *.
  assert (Z.of_N c < 10 ^ PREC) as Hc.
  { unfold PREC. apply Qabs_Qle_condition in Hh as [_ Hh]. cbn [mag] in Hsize.
    pose proof (Qmult_le_compat_r _ _ (Q10 t) (slack_le mode) (Qlt_le_weak _ _ Hp)) as Hone.
    assert (inject_Z (Z.of_N c) * Q10 t < inject_Z (10 ^ 28) * Q10 t)%Q as H.
    { change (inject_Z (10 ^ 28)) with (10000000000000000000000000000 # 1)%Q.
      change (inject_Z (2 * 10 ^ 27)) with (2000000000000000000000000000 # 1)%Q in Hsize. lra. }
    rewrite Zlt_Qlt. exact (proj1 (Qmult_lt_r _ _ _ Hp) H). }
  assert (Hfix : fix_ s c t = Ok (Fin s c t)).
  { apply fix_exact. unfold fits, ETINY, ETOP, EMIN, EMAX, PREC in *. lia. }
  exists c. split; [|by split]. cbn [quantize nan_check].
  rewrite (proj2 (Z.ltb_ge t ETINY)), (proj2 (Z.ltb_ge EMAX t)) by (unfold ETINY, EMIN, EMAX, PREC; lia). cbn [orb].
  destruct (N.eqb_spec n 0) as [->|Hn].
  { rewrite <-Hfix. f_equal. unfold c, rescale. destruct (t <=? e); [done|].
    symmetry. pose proof (pow10_pos (t - e)). by apply (round_div_exact mode s 0); lia. }
  pose proof (leading_digit n e ltac:(lia)) as [Hl _]. pose proof (ndigits_pos n).
  assert (ndigits n + e - 1 < 28 + t) as Hd.
  { apply Q10_lt_inv. eapply Qle_lt_trans; [exact Hl|]. eapply Qle_lt_trans; [exact Hsize|].
    rewrite Q10_plus, <-(Q10_int 28) by lia. apply Qmult_lt_compat_r; [done|]. by rewrite <-Zlt_Qlt. }
  pose proof (proj2 (ndigits_le c PREC ltac:(unfold PREC; lia)) Hc) as Hdc. unfold EMAX, PREC in *.
  rewrite (proj2 (Z.ltb_ge 999999 (ndigits n + e - 1))), (proj2 (Z.ltb_ge 28 (ndigits n + e - t))) by lia.
  cbn [orb]. fold c. rewrite (proj2 (Z.ltb_ge 999999 _)), (proj2 (Z.ltb_ge 28 _)) by lia. exact Hfix.
Qed.
