(* ===== verification/MoneyTheorems.v ===== *)
(** * What exact money guarantees

    Properties of the amounts of [dotmac_kernel/money.py]: allocation and even
    splits lose nothing, sums are exact or refused, and a conversion is within a
    minor unit of the exact product, or half of one. *)

From S2P Require Import Prelude PyData PyTime PyDecimal DecimalFacts DecimalError Money MoneyAllocate.
From stdpp Require Import base gmap strings pretty list.
From Stdlib Require Import ZArith NArith QArith Qpower Qabs Lqa Lia.

Local Open Scope Z_scope.

(** ** Amounts for examples *)

Definition NGN : Currency := MkCurrency "NGN" 2.
Definition naira (kobo : Z) : Money := MkMoney (Fin (kobo <? 0)%Z (Z.to_N (Z.abs kobo)) (-2)) NGN.
Definition USD : Currency := MkCurrency "USD" 2.

(** ** Sums of units *)

(** A coefficient of more digits than the target leaves room for. *)
Lemma quantize_refuses s n e f mode : (0 < n)%N → PREC < ndigits n + e - f →
  quantize (Fin s n e) (Fin false 1 f) mode = Raise InvalidOperation.
Proof.
  intros Hn Hd. cbn [quantize nan_check]. destruct (_ || _); [done|].
  rewrite (proj2 (N.eqb_neq n 0)) by lia. by rewrite (proj2 (Z.ltb_lt PREC _)), orb_true_r by done.
Qed.

(** Rounding leaves the first digit where it is, or moves it up. *)
Lemma fix_too_long s k e : 10 ^ PREC ≤ Z.of_N k < 2 * 10 ^ PREC → -1000 ≤ e ≤ 0 →
  ∃ n' e', fix_ s k e = Ok (Fin s n' e') ∧ (0 < n')%N ∧ PREC < ndigits n' + e' - e.
Proof.
  intros Hk He. assert (ndigits k = 29) as Hd.
  { pose proof (ndigits_le k 29 ltac:(lia)) as H1. pose proof (ndigits_le k 28 ltac:(lia)) as H2. unfold PREC in Hk.
    change (10 ^ 28) with 10000000000000000000000000000 in *. change (10 ^ 29) with 100000000000000000000000000000 in *. lia. }
  assert (0 < k)%N as Hk0 by (destruct k; [cbn in Hk; lia|lia]).
  unfold fix_. rewrite (proj2 (N.eqb_neq k 0)), Hd by lia. unfold ETOP, ETINY, EMIN, EMAX, PREC in *.
  rewrite (proj2 (Z.ltb_ge _ _)), Z.max_l, (proj2 (Z.ltb_lt _ _)) by lia.
  unfold rescale. rewrite (proj2 (Z.leb_gt _ _)) by lia.
  replace (29 + e - 28 - e) with 1 by lia.
  destruct (round_coef CONTEXT_ROUNDING s k 1 eq_refl ltac:(lia) ltac:(unfold PREC; lia)) as [[Hlo Hhi] _].
  set (c := round_div _ _ _ _) in *.
  destruct (Z.ltb_spec 28 (ndigits c)) as [Hc|Hc].
  - rewrite (proj2 (Z.ltb_ge _ _)) by lia.
    assert (Z.of_N c = 10 ^ 28) as Ec by (apply Z.le_antisymm; [done|]; apply Z.nlt_ge; intros H; apply ndigits_le in H; lia).
    assert (c = 10000000000000000000000000000)%N as -> by (change (10 ^ 28) with 10000000000000000000000000000 in Ec; lia).
    eexists _, _. split; [done|]. change (ndigits (10000000000000000000000000000 / 10)) with 28. split; [done|lia].
  - rewrite (proj2 (Z.ltb_ge _ _)) by lia. eexists _, _. split; [done|].
    assert (27 < ndigits c) as H28.
    { apply Z.nle_gt. intros H. apply ndigits_le in H; lia. }
    split; [destruct c; [cbn in Hlo; lia|lia]|lia].
Qed.

(** A result that is an exact amount, or refused for want of digits. *)
Definition exact_or_refused (run : result money_error Money) (c : Currency) (u : Z) : Prop :=
  if Z.abs u <? 10 ^ PREC
  then ∃ m, run = Ok m ∧ has_units m u ∧ money_currency m = c
  else run = Raise (Signal InvalidOperation).

(** The sum of two amounts of a currency, made into an amount. *)
Lemma sum_of_units c s m t n :
  known_currency c → Z.of_N m < 10 ^ PREC → Z.of_N n < 10 ^ PREC →
  exact_or_refused
    (sum ← exact (decimal_add (Fin s m (- minor_units c)) (Fin t n (- minor_units c))); Money_new sum c)
    c (signed s m + signed t n).
Proof.
  intros Hc Hm Hn. unfold exact_or_refused. set (u := signed s m + signed t n). cbn [decimal_add nan_check]. rewrite Z.min_id. unfold scaled. rewrite Z.sub_diag.
  change (pow10 0) with 1%N. rewrite !N.mul_1_r. fold u. pose proof (signed_abs s m). pose proof (signed_abs t n).
  destruct (Z.eqb_spec u 0) as [E|E].
  - rewrite E. unfold known_currency in Hc.
    rewrite fix_exact by (unfold fits, ETINY, ETOP, EMIN, EMAX, PREC in *; lia).
    cbn [exact mbind result_bind Z.abs Z.to_N]. rewrite new_units by done. rewrite (proj2 (Z.ltb_lt 0 _)) by done.
    eexists. split; [done|]. split; [|done]. eexists _, _. split; [done|]. by destruct s, t.
  - destruct (Z.ltb_spec (Z.abs u) (10 ^ PREC)) as [Hlt|Hge].
    + rewrite fix_exact by (unfold known_currency, fits, ETINY, ETOP, EMIN, EMAX, PREC in *; lia).
      cbn [exact mbind result_bind]. rewrite new_units by (done || lia).
      eexists. split; [done|]. split; [|done]. eexists _, _. split; [done|]. split; [|done].
      unfold signed. destruct (Z.ltb_spec u 0); lia.
    + destruct (fix_too_long (u <? 0) (Z.to_N (Z.abs u)) (- minor_units c)) as (n' & e' & -> & Hn' & Hd).
      { rewrite Z2N.id by lia. unfold u in *. lia. } { unfold known_currency in Hc. lia. }
      cbn [exact mbind result_bind]. unfold Money_new, _quantize. rewrite quantum_Ok by done.
      cbn [mbind result_bind]. by rewrite quantize_refuses.
Qed.

(** The product of an amount and a rate, before it is quantized. *)
Lemma rate_product s n t k e U mu :
  0 ≤ mu ≤ 1000 → signed s n = U → Z.abs U < 10 ^ PREC → within (-100000) 100000 (value (Fin t k e)) →
  let x := (inject_Z U * Q10 (- mu) * value (Fin t k e))%Q in
  ∃ c f, decimal_mul (Fin s n (- mu)) (Fin t k e) = Ok (Fin s c f) ∧ close 1 (Qabs x) (mag (Fin s c f)) ∧
    (x == (if s then -1 else 1) * Qabs x)%Q.
Proof.
  intros Hmu HU HUb Hr x. pose proof (Q10_pos (-100000)) as Hp0.
  assert (0 < value (Fin t k e))%Q as Hrp by (destruct Hr; lra). pose proof (value_mag _ (Qlt_le_weak _ _ Hrp)) as Er.
  assert (t = false) as ->.
  { destruct t; [|done]. rewrite value_of_sign in Hrp. pose proof (mag_nonneg (Fin true k e)). lra. }
  assert (mag (Fin s n (- mu)) * mag (Fin false k e) == Qabs x)%Q as Ex.
  { unfold x. rewrite <-Er, !Qabs_Qmult, (Qabs_pos (value _)) by lra.
    rewrite (Qabs_pos (Q10 _)) by (apply Qlt_le_weak, Q10_pos). cbn [mag].
    rewrite <-(signed_abs s n), HU. reflexivity. }
  destruct (mul_close s n (- mu) false k e) as (c & f & Hmul & Hc).
  { destruct (N.eq_dec n 0) as [->|Hn]; [left; apply Qmult_0_l|right]. rewrite <-Er.
    assert (within 0 28 (inject_Z (Z.of_N n))) as Hnw.
    { rewrite <-(signed_abs s n), HU. apply units_within; [|done]. intros ->. destruct s; cbn in HU; lia. }
    assert (within (- mu) (- mu) (Q10 (- mu))) as Hqw by (split; apply Qle_refl).
    pose proof (within_mult _ _ _ _ _ _ (within_mult _ _ _ _ _ _ Hnw Hqw) Hr) as Hw.
    refine (within_weaken _ _ (-800000) 800000 _ _ _ Hw); lia. }
  rewrite xorb_false_r in *. rewrite Ex in Hc. exists c, f. split; [done|]. split; [done|].
  rewrite <-Ex, <-Er. unfold x. rewrite <-HU. cbn [mag]. unfold signed. destruct s; rewrite ?inject_Z_opp; ring.
Qed.

(** ** The properties *)

(** Addition and subtraction of amounts of one currency are exact, or
    refused when the result has more than twenty-eight digits; amounts of two
    currencies are never added. *)
Theorem sums_are_exact a b ua ub :
  known_currency (money_currency a) → has_units a ua → has_units b ub →
  (money_currency a ≠ money_currency b →
    ∃ message, Money_add a b = Raise (CurrencyMismatchError message) ∧
      Money_subtract a b = Raise (CurrencyMismatchError message)) ∧
  (money_currency a = money_currency b →
    exact_or_refused (Money_add a b) (money_currency a) (ua + ub) ∧
    exact_or_refused (Money_subtract a b) (money_currency a) (ua - ub)).
Proof.
  intros Hc (s & m & Ha & Hua & Hma) (t & n & Hb & Hub & Hmb). split.
  - intros Hne. eexists. unfold Money_add, Money_subtract, _same_currency.
    rewrite (bool_decide_eq_false_2 _ Hne). by split.
  - intros E. rewrite <-E in Hb. assert (Z.of_N m < 10 ^ PREC) by (rewrite <-(signed_abs s m), Hua; done).
    assert (Z.of_N n < 10 ^ PREC) by (rewrite <-(signed_abs t n), Hub; done).
    assert (ua - ub = signed s m + signed (negb t) n) as ->.
    { rewrite <-Hua, <-Hub. destruct t; cbn [signed negb]; lia. }
    rewrite <-Hua, <-Hub. unfold Money_add, Money_subtract, _same_currency. rewrite (bool_decide_eq_true_2 _ E).
    cbn [negb raise_if mbind result_bind]. rewrite Ha, Hb. unfold decimal_sub. cbn [copy_negate].
    split; by apply sum_of_units.
Qed.

(** C11. Allocating an amount over weights gives one part for each weight, in
    the currency of the amount, and the parts add up to the amount exactly;
    each part is within one unit and a thousandth of its exact share. *)
Theorem allocate_exact m U weights ws :
  known_currency (money_currency m) → has_units m U →
  Forall2 (λ w d, Decimal_of w = Ok d) weights ws → Forall ordinary ws → (0 < total_value ws)%Q →
  few_units U (length ws) →
  ∃ parts us, allocate m weights = Ok parts ∧
    Forall2 has_units parts us ∧ Forall (λ p, money_currency p = money_currency m) parts ∧
    sum_Z us = U ∧
    Forall2 (λ u w, Qabs (inject_Z u - inject_Z U * (value w / total_value ws)) <= 1 + (1 # 1000))%Q us ws.
Proof.
  intros Hc HU Hws Hall HT Hfew.
  destruct (allocate_steps m U weights ws) as (d & raw & floors & keys & Hraw & Hfl & Hs & Ho & Hk & ->); [done..|].
  destruct (given_units U ws raw floors keys) as (Hsum & Hlen & Hsize & Hnear); [done..|].
  set (us := units_given _ _ _) in *. exists (money_of_units (money_currency m) <$> us), us.
  split; [by apply unit_parts|]. split_and!.
  - apply Forall2_fmap_l, Forall_Forall2_diag. eapply Forall_impl; [exact Hsize|]. apply money_of_units_has.
  - by apply Forall_fmap, Forall_true.
  - done.
  - done.
Qed.

(** A split into equal parts gives every part the whole quotient, and one
    unit more to the first parts, as many as the remainder. *)
Theorem split_even m U n :
  known_currency (money_currency m) → has_units m U → (0 < n)%nat → few_units U n →
  Money.split m (Z.of_nat n) = Ok ((λ j, money_of_units (money_currency m)
    (U / Z.of_nat n + (if Z.of_nat j <? U mod Z.of_nat n then 1 else 0))) <$> seq 0 n).
Proof.
  intros Hc HU Hn Hfew. unfold Money.split. rewrite (proj2 (Z.leb_gt _ _)), Nat2Z.id by lia. cbn [raise_if mbind result_bind].
  set (ws := replicate n (of_Z 1)). assert (length ws = n) as Hl by apply length_replicate.
  assert (0 < total_value ws)%Q as HT by by apply ones_positive.
  destruct (allocate_steps m U (replicate n (AInt 1)) ws) as (d & raw & floors & keys & Hraw & Hfl & Hs & Ho & Hk & ->);
    [done|done|by apply Forall2_replicate|by apply Forall_replicate, one_ordinary|done|by rewrite Hl|].
  assert (few_units U (length ws)) as Hfew' by by rewrite Hl.
  assert (Forall ordinary ws) as Hone by by apply Forall_replicate, one_ordinary.
  destruct (given_units U ws raw floors keys) as (Hsum & Hlen & Hsize & _); [done..|].
  destruct (remainder_bounds U ws raw floors Hfew' HT Hs Ho) as [Hr0 Hrn]. rewrite Hl in Hrn, Hlen.
  rewrite unit_parts by done. f_equal.
  rewrite (split_units U n _ _ _ _ _ Hraw Hfl Hk Hn) at 1; [|lia|done|done]. by rewrite <-list_fmap_compose.
Qed.

(** C12. A conversion in any rounding mode is the exact product of the amount and
    the rate, to half a minor unit of the quote currency for the three modes to
    the nearest and one for the others, and two rounding errors of the context;
    it is of the quote currency. This is for an amount in the base currency of
    the rate and at its scale, of less than 10^28 minor units, currencies of at
    most a thousand places, a finite rate between 10^-100000 and 10^100000, and a
    product of at most 10^27 minor units of the quote currency, above which the
    digits of the context may not be enough. *)
Theorem conversion_bound r m U rounding :
  known_currency (base r) → known_currency (quote r) → money_currency m = base r → has_units m U →
  finite (rate r) → within (-100000) 100000 (value (rate r)) →
  let exact_product := (inject_Z U * Q10 (- minor_units (base r)) * value (rate r))%Q in
  let quantum := Q10 (- minor_units (quote r)) in
  (Qabs exact_product <= inject_Z (10 ^ 27) * quantum)%Q →
  ∃ c u, convert r m rounding = Ok c ∧ has_units c u ∧ money_currency c = quote r ∧
    (Qabs (inject_Z u * quantum - exact_product) <= slack rounding * quantum + 2 * UNIT * Qabs exact_product)%Q.
Proof.
  intros Hb Hq Hcur (s & n & Ha & HU & HUb) Hf Hr x q Hx. unfold convert. rewrite Hcur in Ha |- *.
  rewrite bool_decide_eq_true_2 by done. cbn [negb raise_if mbind result_bind]. rewrite Ha.
  destruct (rate r) as [t k e| |]; [|done..].
  destruct (rate_product s n t k e U (minor_units (base r)) Hb HU HUb Hr) as (c & f & Hmul & Hc & Ex).
  fold x in Hc, Ex.
  rewrite Hmul. set (y := mag (Fin s c f)) in Hc.
  pose proof (close_error 1 _ _ ltac:(lia) (Qabs_nonneg x) (mag_nonneg (Fin s c f)) Hc) as He. fold y in He.
  change (inject_Z 1) with 1%Q in He. rewrite Qmult_1_l in He.
  cbn [exact mbind result_bind]. unfold Money_of. cbn [Decimal_of]. rewrite quantum_Ok by done. cbn [mbind result_bind].
  destruct (quantize_near rounding s c f (- minor_units (quote r))) as (u & Hqz & Hu & Hh).
  { unfold known_currency in Hq. lia. }
  { apply Qabs_Qle_condition in He as [_ He]. fold q y. change (inject_Z (2 * 10 ^ 27)) with (2000000000000000000000000000 # 1)%Q.
    change (inject_Z (10 ^ 27)) with (1000000000000000000000000000 # 1)%Q in Hx.
    pose proof (Q10_pos (- minor_units (quote r))) as Hqp. fold q in Hqp. unfold UNIT in He. lra. }
  rewrite Hqz. cbn [exact mbind result_bind]. rewrite new_units by done.
  eexists _, (signed s u). split; [done|]. split; [eexists _, _; split; [done|]; by rewrite signed_abs|]. split; [done|].
  fold q y in Hh. assert (inject_Z (signed s u) * q - x == (if s then -1 else 1) * (inject_Z (Z.of_N u) * q - Qabs x))%Q as E.
  { rewrite Ex at 1. unfold signed. destruct s; rewrite ?inject_Z_opp; ring. }
  rewrite E, Qabs_Qmult. assert (Qabs (if s then -1 else 1) == 1)%Q as -> by by destruct s. rewrite Qmult_1_l.
  assert (inject_Z (Z.of_N u) * q - Qabs x == (inject_Z (Z.of_N u) * q - y) + (y - Qabs x))%Q as -> by ring.
  eapply Qle_trans; [apply Qabs_triangle|]. by apply Qplus_le_compat.
Qed.

(** ** At concrete amounts *)

Lemma naira_units k : Z.abs k < 10 ^ PREC → has_units (naira k) k.
Proof. exact (money_of_units_has NGN k). Qed.

Lemma NGN_known : known_currency NGN.
Proof. unfold known_currency. cbn. lia. Qed.

Lemma sums_are_exact_witness :
  exact_or_refused (Money_add (naira 150) (naira (-250))) NGN (-100) ∧
  exact_or_refused (Money_subtract (naira 150) (naira (-250))) NGN 400.
Proof.
  exact (proj2 (sums_are_exact (naira 150) (naira (-250)) 150 (-250) NGN_known
    (naira_units 150 eq_refl) (naira_units (-250) eq_refl)) eq_refl).
Defined.

Lemma allocate_exact_witness :
  ∃ parts us, allocate (naira 10001) [AInt 1; AStr "2.5"; AStr "0"] = Ok parts ∧
    Forall2 has_units parts us ∧ Forall (λ p, money_currency p = NGN) parts ∧ sum_Z us = 10001 ∧
    Forall2 (λ u w, Qabs (inject_Z u - inject_Z 10001 * (value w / total_value [Fin false 1 0; Fin false 25 (-1); Fin false 0 0])) <= 1 + (1 # 1000))%Q
      us [Fin false 1 0; Fin false 25 (-1); Fin false 0 0].
Proof.
  refine (allocate_exact (naira 10001) 10001 [AInt 1; AStr "2.5"; AStr "0"]
    [Fin false 1 0; Fin false 25 (-1); Fin false 0 0] NGN_known (naira_units 10001 eq_refl) _ _ _ _).
  - repeat constructor.
  - repeat (apply Forall_cons; split; [apply ordinary_digits; vm_compute; first [by left|by right]|]). by apply Forall_nil.
  - change (total_value _) with (value (of_Z 1) + (value (Fin false 25 (-1)) + (value (Fin false 0 0) + 0)))%Q.
    rewrite value_one. pose proof (mag_nonneg (Fin false 25 (-1))). pose proof (mag_nonneg (Fin false 0 0)).
    change (mag (Fin false 25 (-1))) with (value (Fin false 25 (-1))) in *. change (mag (Fin false 0 0)) with (value (Fin false 0 0)) in *.
    lra.
  - unfold few_units. cbn [length]. lia.
Defined.

Lemma split_even_witness :
  Money.split (naira (-100)) 3 = Ok [naira (-33); naira (-33); naira (-34)] .
Proof.
  refine (split_even (naira (-100)) (-100) 3 NGN_known (naira_units (-100) eq_refl) _ _); [lia|].
  unfold few_units. lia.
Defined.

Lemma conversion_bound_witness :
  let r := MkExchangeRate USD NGN (Fin false 15505 (-1)) (MkDatetime 0 (Some 0)) "desk" None in
  ∃ c u, convert r (MkMoney (Fin false 1999 (-2)) USD) ROUND_HALF_UP = Ok c ∧ has_units c u ∧ money_currency c = NGN ∧
    (Qabs (inject_Z u * Q10 (-2) - inject_Z 1999 * Q10 (-2) * value (Fin false 15505 (-1)))
      <= (1 # 2) * Q10 (-2) + 2 * UNIT * Qabs (inject_Z 1999 * Q10 (-2) * value (Fin false 15505 (-1))))%Q.
Proof.
  intros r. assert (known_currency USD) as HUSD by (unfold known_currency; cbn; lia).
  refine (conversion_bound r (MkMoney (Fin false 1999 (-2)) USD) 1999 ROUND_HALF_UP HUSD NGN_known eq_refl _ I _ _).
  - exists false, 1999%N. by repeat split.
  - apply digits_within; [done|vm_compute; by intros [=]..].
  - cbn [base quote rate r minor_units USD NGN]. pose proof (Q10_pos (-2)) as Hp. change (- (2)) with (-2). rewrite !Qabs_Qmult, (Qabs_pos (Q10 (-2))) by lra.
    assert (Q10 (-1) <= 1)%Q as H1 by (rewrite <-Q10_zero; by apply Q10_le). pose proof (Q10_pos (-1)).
    rewrite (Qabs_pos (value _)) by apply (mag_nonneg (Fin false 15505 (-1))).
    change (value (Fin false 15505 (-1))) with (inject_Z 15505 * Q10 (-1))%Q.
    assert (Qabs (inject_Z 1999) * Q10 (-2) * (inject_Z 15505 * Q10 (-1))
      == inject_Z (1999 * 15505) * Q10 (-1) * Q10 (-2))%Q as -> by (change (Qabs (inject_Z 1999)) with (inject_Z 1999); rewrite inject_Z_mult; ring).
    apply Qmult_le_compat_r; [|lra]. change (inject_Z (1999 * 15505)) with (30994495 # 1)%Q.
    change (inject_Z (10 ^ 27)) with (1000000000000000000000000000 # 1)%Q. lra.
Defined.

(** ** Runs

    Splits and allocations of amounts in naira, the last of them at the limit of
    the precision, where an allocation is not exact. *)

(** The parts, in units. *)
Definition kobo_of (r : result money_error (list Money)) : option (list Z) :=
  match r with
  | Ok parts => Some ((λ p, match amount p with Fin s n _ => signed s n | _ => 0%Z end) <$> parts)
  | Raise _ => None
  end.

Example split_three : kobo_of (Money.split (naira 10000) 3) = Some [3334; 3333; 3333]%Z.
Proof. vm_compute. reflexivity. Qed.
Example allocate_debt : kobo_of (allocate (naira (-100)) [AInt 1; AStr "2"; AInt 0]) = Some [-33; -67; 0]%Z.
Proof. vm_compute. reflexivity. Qed.

(** At the limit of the precision, the shares add up to a unit too much. *)
Example allocate_invents_a_unit :
  kobo_of (allocate (naira (10 ^ 28 - 1)) [AInt 2; AInt 1])
  = Some [6666666666666666666666666667; 3333333333333333333333333333]%Z.
Proof. vm_compute. reflexivity. Qed.
