(* ===== verification/ApprovalContracts.v ===== *)
(** * The approval vocabulary

    [dotmac_approvals/contracts.py]: the states, actions, rules and errors of an
    approval, the frozen values the policy and the two services exchange, and
    the constructors that refuse a malformed one. *)

From S2P Require Import Prelude PyData PyTime.
From stdpp Require Import base gmap strings pretty list.
From Stdlib Require Import ZArith.

(** ** States, actions and rules *)

Inductive ApprovalState := PENDING | APPROVED | REJECTED | CANCELLED | WITHDRAWN.

#[export] Instance ApprovalState_eq_dec : EqDecision ApprovalState.
Proof. solve_decision. Defined.

(** [str(state)]: the value of the [StrEnum] member. *)
Definition state_value (s : ApprovalState) : string :=
  match s with
  | PENDING => "pending"
  | APPROVED => "approved"
  | REJECTED => "rejected"
  | CANCELLED => "cancelled"
  | WITHDRAWN => "withdrawn"
  end.

Definition TERMINAL_STATES : list ApprovalState :=
  [APPROVED; REJECTED; CANCELLED; WITHDRAWN].

Inductive DecisionAction := APPROVE | REJECT.

#[export] Instance DecisionAction_eq_dec : EqDecision DecisionAction.
Proof. solve_decision. Defined.

Definition action_value (a : DecisionAction) : string :=
  match a with APPROVE => "approve" | REJECT => "reject" end.

Inductive ApproverKind := USER | ROLE.

#[export] Instance ApproverKind_eq_dec : EqDecision ApproverKind.
Proof. solve_decision. Defined.

Definition approver_kind_value (k : ApproverKind) : string :=
  match k with USER => "user" | ROLE => "role" end.

Inductive SoDRule := CANNOT_BE_REQUESTER | CANNOT_BE_PREVIOUS_APPROVER.

#[export] Instance SoDRule_eq_dec : EqDecision SoDRule.
Proof. solve_decision. Defined.

Definition sod_rule_value (r : SoDRule) : string :=
  match r with
  | CANNOT_BE_REQUESTER => "cannot_be_requester"
  | CANNOT_BE_PREVIOUS_APPROVER => "cannot_be_previous_approver"
  end.

(** ** Errors *)

(** The subclasses of [ApprovalError] that carry only a message. *)
Inductive ApprovalErrorClass :=
  | PolicyNotFound | PolicyVersionExists | InvalidPolicy | ContentChanged
  | RequestNotPending | NotEligible | SoDViolation | SelfApprovalRefused
  | DuplicateDecision | NotRequester | MFARequired | WithdrawalRefused
  | WithdrawalReferenceConflict.

#[export] Instance ApprovalErrorClass_eq_dec : EqDecision ApprovalErrorClass.
Proof. solve_decision. Defined.

(** [type(refusal).__name__]. *)
Definition error_name (c : ApprovalErrorClass) : string :=
  match c with
  | PolicyNotFound => "PolicyNotFound"
  | PolicyVersionExists => "PolicyVersionExists"
  | InvalidPolicy => "InvalidPolicy"
  | ContentChanged => "ContentChanged"
  | RequestNotPending => "RequestNotPending"
  | NotEligible => "NotEligible"
  | SoDViolation => "SoDViolation"
  | SelfApprovalRefused => "SelfApprovalRefused"
  | DuplicateDecision => "DuplicateDecision"
  | NotRequester => "NotRequester"
  | MFARequired => "MFARequired"
  | WithdrawalRefused => "WithdrawalRefused"
  | WithdrawalReferenceConflict => "WithdrawalReferenceConflict"
  end.

Inductive ApprovalHoldRefusal :=
  | MALFORMED_DIGEST | REQUEST_NOT_FOUND | SUBJECT_MISMATCH | DIGEST_MISMATCH
  | HOLD_WITHDRAWN | NOT_APPROVED | NO_APPROVE_DECISION.

#[export] Instance ApprovalHoldRefusal_eq_dec : EqDecision ApprovalHoldRefusal.
Proof. solve_decision. Defined.

(** Everything a call of the package can raise: the module's own errors with
    their text, the interpreter's errors by class, and the errors of the
    database session. *)
Inductive exn :=
  | ApprovalError (cls : ApprovalErrorClass) (msg : string)
  | ApprovalNotHeld (code : ApprovalHoldRefusal) (msg : string)
  | ValueError
  | KeyError
  | TypeError
  | AttributeError
  | OverflowError
  | IntegrityError (constraint_name orig : string)
  | DatabaseError (msg : string)
  | MultipleResultsFound
  | NoResultFound.

#[export] Instance exn_eq_dec : EqDecision exn.
Proof. solve_decision. Defined.

(** The refusals [except ApprovalError] catches. *)
Definition is_approval_error (e : exn) : bool :=
  match e with ApprovalError _ _ | ApprovalNotHeld _ _ => true | _ => false end.

(** ** Enum members from stored values *)

(** [ApprovalState(value)], [DecisionAction(value)]. *)
Definition ApprovalState_of (v : string) : result exn ApprovalState :=
  if String.eqb v "pending" then Ok PENDING
  else if String.eqb v "approved" then Ok APPROVED
  else if String.eqb v "rejected" then Ok REJECTED
  else if String.eqb v "cancelled" then Ok CANCELLED
  else if String.eqb v "withdrawn" then Ok WITHDRAWN
  else Raise ValueError.

Definition DecisionAction_of (v : string) : result exn DecisionAction :=
  if String.eqb v "approve" then Ok APPROVE
  else if String.eqb v "reject" then Ok REJECT
  else Raise ValueError.

(** [ApproverKind(x)] and [SoDRule(x)] of a decoded JSON value. *)
Definition ApproverKind_of (v : json) : result exn ApproverKind :=
  match v with
  | JStr "user" => Ok USER
  | JStr "role" => Ok ROLE
  | _ => Raise ValueError
  end.

Definition SoDRule_of (v : json) : result exn SoDRule :=
  match v with
  | JStr "cannot_be_requester" => Ok CANNOT_BE_REQUESTER
  | JStr "cannot_be_previous_approver" => Ok CANNOT_BE_PREVIOUS_APPROVER
  | _ => Raise ValueError
  end.

Lemma ApprovalState_of_value s : ApprovalState_of (state_value s) = Ok s.
Proof. by destruct s. Qed.

Lemma DecisionAction_of_value a : DecisionAction_of (action_value a) = Ok a.
Proof. by destruct a. Qed.

#[export] Instance state_value_inj : Inj (=) (=) state_value.
Proof. by intros [] []. Qed.

#[export] Instance action_value_inj : Inj (=) (=) action_value.
Proof. by intros [] []. Qed.

(** [int(x)] of a decoded JSON value. *)
Definition py_int (v : json) : result exn Z :=
  match v with
  | JInt z => Ok z
  | JBool b => Ok (Z.b2z b)
  | JStr s => match int_of_str s with Some z => Ok z | None => Raise ValueError end
  | JFloat f =>
      match f with
      | SpecFloat.S754_zero _ => Ok 0%Z
      | SpecFloat.S754_infinity _ => Raise OverflowError
      | SpecFloat.S754_nan => Raise ValueError
      | SpecFloat.S754_finite neg m e =>
          let a := (if 0 <=? e then Z.pos m * 2 ^ e else Z.pos m / 2 ^ (- e))%Z in
          Ok (if neg then (- a)%Z else a)
      end
  | JNull | JList _ | JObj _ => Raise TypeError
  end.

(** [type(x).__name__] of a decoded JSON value. *)
Definition json_type_name (v : json) : string :=
  match v with
  | JNull => "NoneType" | JBool _ => "bool" | JInt _ => "int" | JFloat _ => "float"
  | JStr _ => "str" | JList _ => "list" | JObj _ => "dict"
  end.

(** [str(t)] of a tuple of integers. *)
Definition tuple_str (l : list Z) : string :=
  match l with
  | [x] => "(" +:+ pretty x +:+ ",)"
  | _ => "(" +:+ str_join ", " (map pretty l) +:+ ")"
  end.

(** [document[key]] of a mapping. *)
Definition doc_item (fields : list (string * json)) (key : string) : result exn json :=
  match assoc_get key fields with Some v => Ok v | None => Raise KeyError end.

(** ** Policy values *)

(** One ordered rung of a policy. *)
Record ApprovalLevel : Type := MkApprovalLevel {
  al_sequence : Z;
  al_approver_kind : ApproverKind;
  al_approver_id : string;
  al_quorum : Z;
  al_sod_rule : option SoDRule;
  al_requires_mfa : bool;
  al_allow_delegation : bool;
}.

#[export] Instance ApprovalLevel_eq_dec : EqDecision ApprovalLevel.
Proof. solve_decision. Defined.

(** [ApprovalLevel.__post_init__]. *)
Definition ApprovalLevel_check (l : ApprovalLevel) : result exn ApprovalLevel :=
  _ ← raise_if (al_sequence l <? 1)%Z
        (ApprovalError InvalidPolicy
           ("level sequence " +:+ pretty (al_sequence l) +:+ " must start at 1"));
  _ ← raise_if (al_quorum l <? 1)%Z
        (ApprovalError InvalidPolicy
           ("level " +:+ pretty (al_sequence l) +:+ " declares quorum "
            +:+ pretty (al_quorum l)
            +:+ "; a level that needs nobody is not a level"));
  _ ← raise_if (negb (str_truthy (strip (al_approver_id l))))
        (ApprovalError InvalidPolicy
           ("level " +:+ pretty (al_sequence l)
            +:+ " names no approver — ERP's own service refused this configuration at decision time, which is too late"));
  Ok l.

(** [ApprovalLevel.as_document]. *)
Definition ApprovalLevel_as_document (l : ApprovalLevel) : json :=
  JObj [ ("sequence", JInt (al_sequence l));
         ("approver_kind", JStr (approver_kind_value (al_approver_kind l)));
         ("approver_id", JStr (al_approver_id l));
         ("quorum", JInt (al_quorum l));
         ("sod_rule", match al_sod_rule l with
                      | Some r => JStr (sod_rule_value r) | None => JNull end);
         ("requires_mfa", JBool (al_requires_mfa l));
         ("allow_delegation", JBool (al_allow_delegation l)) ].

(** [ApprovalLevel.from_document]: keyword arguments are evaluated in the
    order the source writes them, then the constructor checks the level. *)
Definition ApprovalLevel_from_document `{Runtime} (document : json)
    : result exn ApprovalLevel :=
  match document with
  | JObj fields =>
      let rule := assoc_get "sod_rule" fields in
      sequence ← doc_item fields "sequence" ≫= py_int;
      approver_kind ← doc_item fields "approver_kind" ≫= ApproverKind_of;
      approver_id ← py_str <$> doc_item fields "approver_id";
      quorum ← doc_item fields "quorum" ≫= py_int;
      sod_rule ← match rule with
                 | Some v => if py_truthy v then Some <$> SoDRule_of v else Ok None
                 | None => Ok None
                 end;
      let requires_mfa :=
        match assoc_get "requires_mfa" fields with
        | Some v => py_truthy v | None => false end in
      let allow_delegation :=
        match assoc_get "allow_delegation" fields with
        | Some v => py_truthy v | None => true end in
      ApprovalLevel_check
        (MkApprovalLevel sequence approver_kind approver_id quorum sod_rule
           requires_mfa allow_delegation)
  | _ => Raise AttributeError
  end.

(** An immutable [(policy_code, version)] and the levels it fixes. *)
Record PolicyRevision : Type := MkPolicyRevision {
  pr_policy_code : string;
  pr_version : Z;
  pr_levels : list ApprovalLevel;
  pr_allow_self_approval : bool;
}.

#[export] Instance PolicyRevision_eq_dec : EqDecision PolicyRevision.
Proof. solve_decision. Defined.

Definition pr_total_levels (p : PolicyRevision) : Z := Z.of_nat (length (pr_levels p)).

(** [str(policy_code) + " v" + str(version)], as the messages print it. *)
Definition policy_label (code : string) (version : Z) : string :=
  code +:+ " v" +:+ pretty version.

(** [tuple(range(1, n + 1))]. *)
Definition range_from_1 (n : nat) : list Z := Z.of_nat <$> seq 1 n.

(** [PolicyRevision.__post_init__]. *)
Definition PolicyRevision_check (p : PolicyRevision) : result exn PolicyRevision :=
  _ ← raise_if (negb (str_truthy (strip (pr_policy_code p))))
        (ApprovalError InvalidPolicy "policy_code must be a non-empty string");
  _ ← raise_if (pr_version p <? 1)%Z
        (ApprovalError InvalidPolicy
           ("policy version " +:+ pretty (pr_version p) +:+ " must start at 1"));
  _ ← raise_if (bool_decide (pr_levels p = []))
        (ApprovalError InvalidPolicy
           (policy_label (pr_policy_code p) (pr_version p)
            +:+ " declares no levels; a policy that can be satisfied by nobody would approve by default"));
  let expected := range_from_1 (length (pr_levels p)) in
  let actual := al_sequence <$> pr_levels p in
  _ ← raise_if (bool_decide (actual ≠ expected))
        (ApprovalError InvalidPolicy
           (policy_label (pr_policy_code p) (pr_version p)
            +:+ " levels are " +:+ tuple_str actual +:+ ", expected "
            +:+ tuple_str expected
            +:+ " — levels are ORDERED and dense, not a set of labels"));
  Ok p.

(** [PolicyRevision.level]. *)
Definition pr_level (p : PolicyRevision) (sequence : Z) : result exn ApprovalLevel :=
  _ ← raise_if ((sequence <? 1) || (pr_total_levels p <? sequence))%Z
        (ApprovalError InvalidPolicy
           (policy_label (pr_policy_code p) (pr_version p)
            +:+ " has no level " +:+ pretty sequence));
  match pr_levels p !! Z.to_nat (sequence - 1) with
  | Some l => Ok l
  | None => Raise KeyError (* unreachable: the index was just checked *)
  end.

(** [PolicyRevision.as_document]. *)
Definition PolicyRevision_as_document (p : PolicyRevision) : json :=
  JObj [ ("policy_code", JStr (pr_policy_code p));
         ("version", JInt (pr_version p));
         ("allow_self_approval", JBool (pr_allow_self_approval p));
         ("levels", JList (ApprovalLevel_as_document <$> pr_levels p)) ].

(** [PolicyRevision.from_document]. *)
Definition PolicyRevision_from_document `{Runtime} (document : json)
    : result exn PolicyRevision :=
  match document with
  | JObj fields =>
      levels ← doc_item fields "levels";
      match levels with
      | JList entries =>
          policy_code ← py_str <$> doc_item fields "policy_code";
          version ← doc_item fields "version" ≫= py_int;
          levels ← map_result ApprovalLevel_from_document entries;
          let allow_self_approval :=
            match assoc_get "allow_self_approval" fields with
            | Some v => py_truthy v | None => false end in
          PolicyRevision_check
            (MkPolicyRevision policy_code version levels allow_self_approval)
      | _ =>
          Raise (ApprovalError InvalidPolicy
            ("policy "
             +:+ match assoc_get "policy_code" fields with
                 | Some v => py_repr v | None => "None" end
             +:+ " stores `levels` as " +:+ json_type_name levels
             +:+ "; an ordered sequence is required"))
      end
  | _ => Raise TypeError
  end.

(** ** Actors, decisions and verdicts *)

Record Actor : Type := MkActor {
  actor_id : UUID;
  role_ids : list UUID; (* a frozenset: only membership is observed *)
  mfa_verified : bool;
}.

Record RecordedDecision : Type := MkRecordedDecision {
  rd_level : Z;
  rd_actor_id : UUID;
  rd_action : DecisionAction;
}.

#[export] Instance RecordedDecision_eq_dec : EqDecision RecordedDecision.
Proof. solve_decision. Defined.

Record Evaluation : Type := MkEvaluation {
  ev_state : ApprovalState;
  ev_current_level : Z;
  ev_total_levels : Z;
  ev_satisfied_levels : Z;
  ev_reason : string;
}.

Definition ev_is_approved (e : Evaluation) : bool := bool_decide (ev_state e = APPROVED).

(** ** Withdrawal evidence and events *)

Record WithdrawalEvidence : Type := MkWithdrawalEvidence {
  we_withdrawal_id : UUID;
  we_approved_at : datetime;
  we_actor_id : UUID;
  we_authority_ref : string;
  we_reason : string;
  we_effective_at : datetime;
  we_external_ref : string;
}.

(** [not value.strip()]. *)
Definition blank (s : string) : bool := negb (str_truthy (strip s)).

(** [WithdrawalEvidence.__post_init__]. *)
Definition WithdrawalEvidence_check (w : WithdrawalEvidence)
    : result exn WithdrawalEvidence :=
  _ ← raise_if (blank (we_authority_ref w)) ValueError;
  _ ← raise_if (blank (we_reason w)) ValueError;
  _ ← raise_if (blank (we_external_ref w)) ValueError;
  _ ← raise_if ((200 <? str_len (we_authority_ref w))
                || (200 <? str_len (we_external_ref w)))%Z ValueError;
  _ ← raise_if (is_naive (we_approved_at w) || is_naive (we_effective_at w)) ValueError;
  match dt_ltb (we_effective_at w) (we_approved_at w) with
  | None => Raise TypeError
  | Some true => Raise ValueError
  | Some false => Ok w
  end.

Record ApprovalEvent : Type := MkApprovalEvent {
  ae_event_type : string;
  ae_subject_type : string;
  ae_subject_id : string;
  ae_request_id : UUID;
  ae_policy_code : string;
  ae_policy_version : Z;
  ae_content_digest : string;
  ae_state : ApprovalState;
  ae_withdrawal : option WithdrawalEvidence;
}.

(** [ApprovalEvent.__post_init__]: evidence exactly for withdrawn events. *)
Definition ApprovalEvent_check (e : ApprovalEvent) : result exn ApprovalEvent :=
  _ ← raise_if (negb (Bool.eqb (bool_decide (ae_state e = WITHDRAWN))
                        (bool_decide (is_Some (ae_withdrawal e))))) ValueError;
  Ok e.

(** [ApprovalEvent.payload]. *)
Definition ApprovalEvent_payload (e : ApprovalEvent) : json :=
  JObj ([ ("request_id", JStr (str_uuid (ae_request_id e)));
          ("subject_type", JStr (ae_subject_type e));
          ("subject_id", JStr (ae_subject_id e));
          ("policy_code", JStr (ae_policy_code e));
          ("policy_version", JInt (ae_policy_version e));
          ("content_digest", JStr (ae_content_digest e));
          ("state", JStr (state_value (ae_state e))) ]
        ++ match ae_withdrawal e with
           | None => []
           | Some w =>
               [ ("withdrawal_id", JStr (str_uuid (we_withdrawal_id w)));
                 ("approved_at", JStr (isoformat (we_approved_at w)));
                 ("actor_id", JStr (str_uuid (we_actor_id w)));
                 ("authority_ref", JStr (we_authority_ref w));
                 ("reason", JStr (we_reason w));
                 ("effective_at", JStr (isoformat (we_effective_at w)));
                 ("external_ref", JStr (we_external_ref w)) ]
           end).

Definition EVENT_FOR_STATE (s : ApprovalState) : string :=
  match s with
  | PENDING => "approval.requested"
  | APPROVED => "approval.approved"
  | REJECTED => "approval.rejected"
  | CANCELLED => "approval.cancelled"
  | WITHDRAWN => "approval.withdrawn"
  end.

(** ** Read contracts *)

Inductive RequestAction := ACT_APPROVE | ACT_REJECT | ACT_CANCEL.

#[export] Instance RequestAction_eq_dec : EqDecision RequestAction.
Proof. solve_decision. Defined.

Record ActionRefusal : Type := MkActionRefusal {
  ar_action : RequestAction;
  ar_code : string;
  ar_detail : string;
}.

Record HeldPlatformApproval : Type := MkHeldPlatformApproval {
  hp_request_id : UUID;
  hp_subject_type : string;
  hp_subject_id : string;
  hp_content_digest : string;
  hp_policy_code : string;
  hp_policy_version : Z;
  hp_decided_at : datetime;
  hp_approver_ids : list UUID;
}.

Record DecisionView : Type := MkDecisionView {
  dv_id : UUID;
  dv_request_id : UUID;
  dv_level : Z;
  dv_actor_id : UUID;
  dv_action : DecisionAction;
  dv_comment : option string;
  dv_delegated_from : option UUID;
  dv_mfa_verified : bool;
  dv_decided_at : datetime;
}.

Record PolicyView : Type := MkPolicyView {
  pv_id : UUID;
  pv_policy_code : string;
  pv_version : Z;
  pv_levels : list ApprovalLevel;
  pv_allow_self_approval : bool;
  pv_document_digest : string;
  pv_published_at : datetime;
}.

Record RequestView : Type := MkRequestView {
  rv_id : UUID;
  rv_policy_code : string;
  rv_policy_version : Z;
  rv_subject_type : string;
  rv_subject_id : string;
  rv_content_digest : string;
  rv_requested_by : UUID;
  rv_state : ApprovalState;
  rv_current_level : Z;
  rv_idempotency_key : string;
  rv_note : option string;
  rv_opened_at : datetime;
  rv_completed_at : option datetime;
}.

Record RequestDetail : Type := MkRequestDetail {
  rq_request : RequestView;
  rq_policy : PolicyView;
  rq_decisions : list DecisionView;
  rq_evaluation : Evaluation;
  rq_permitted_actions : list RequestAction;
  rq_refusals : list ActionRefusal;
  rq_withdrawal : option WithdrawalEvidence;
}.

(** [RequestDetail.__post_init__]. *)
Definition RequestDetail_check (d : RequestDetail) : result exn RequestDetail :=
  _ ← raise_if (negb (Bool.eqb (bool_decide (ev_state (rq_evaluation d) = WITHDRAWN))
                        (bool_decide (is_Some (rq_withdrawal d))))) ValueError;
  Ok d.

Record RequestFilter : Type := MkRequestFilter {
  rf_state : option ApprovalState;
  rf_policy_code : option string;
  rf_subject_type : option string;
  rf_subject_id : option string;
  rf_requested_by : option UUID;
  rf_page : Z;
  rf_page_size : Z;
}.

Definition MAX_PAGE_SIZE : Z := 200.

(** [RequestFilter.__post_init__]. *)
Definition RequestFilter_check (f : RequestFilter) : result exn RequestFilter :=
  _ ← raise_if (rf_page f <? 1)%Z ValueError;
  _ ← raise_if (negb ((1 <=? rf_page_size f) && (rf_page_size f <=? MAX_PAGE_SIZE)))%Z
        ValueError;
  Ok f.

(** [RequestFilter()]. *)
Definition RequestFilter_default : RequestFilter :=
  MkRequestFilter None None None None None 1 50.

Record RequestPage : Type := MkRequestPage {
  pg_requests : list RequestView;
  pg_total : Z;
  pg_page : Z;
  pg_page_size : Z;
}.

Definition pg_has_more (p : RequestPage) : bool :=
  (pg_page p * pg_page_size p <? pg_total p)%Z.

(** ** Content digests *)

Definition DIGEST_PREFIX : string := "sha256:".
Definition DIGEST_LENGTH : Z := str_len DIGEST_PREFIX + 64.

(** Membership in ["0123456789abcdef"]. *)
Definition is_lower_hex (c : Ascii.ascii) : bool :=
  let n := Ascii.N_of_ascii c in
  ((48 <=? n) && (n <=? 57) || (97 <=? n) && (n <=? 102))%N.

(** [validate_digest]. *)
Definition validate_digest (digest : string) : result exn string :=
  _ ← raise_if (negb (str_len digest =? DIGEST_LENGTH)%Z
                || negb (startswith DIGEST_PREFIX digest))
        (ApprovalError ContentChanged
           ("content digest " +:+ py_repr_str digest +:+ " is not "
            +:+ DIGEST_PREFIX +:+ "<64 hex chars>"));
  let body := str_drop (String.length DIGEST_PREFIX) digest in
  _ ← raise_if (negb (str_all is_lower_hex body))
        (ApprovalError ContentChanged
           ("content digest " +:+ py_repr_str digest +:+ " is not lowercase hex"));
  Ok digest.

(** ** Lemmas *)

(** What [PolicyRevision.__post_init__] and [ApprovalLevel.__post_init__]
    establish. *)
Record level_ok (l : ApprovalLevel) : Prop := {
  lo_sequence : (1 ≤ al_sequence l)%Z;
  lo_quorum : (1 ≤ al_quorum l)%Z;
  lo_approver : str_truthy (strip (al_approver_id l)) = true;
}.

Record policy_ok (p : PolicyRevision) : Prop := {
  pok_code : str_truthy (strip (pr_policy_code p)) = true;
  pok_version : (1 ≤ pr_version p)%Z;
  pok_nonempty : pr_levels p ≠ [];
  pok_dense : al_sequence <$> pr_levels p = range_from_1 (length (pr_levels p));
  pok_levels : Forall level_ok (pr_levels p);
}.

Lemma ApprovalLevel_check_Ok l l' : ApprovalLevel_check l = Ok l' ↔ l = l' ∧ level_ok l.
Proof.
  unfold ApprovalLevel_check. split.
  - intros H. result_inv. split; [done|].
    match goal with H : negb _ = false |- _ => apply negb_false_iff in H end.
    split; [lia..|done].
  - intros [<- [H1 H2 H3]]. rewrite H3.
    rewrite (proj2 (Z.ltb_ge _ _) H1), (proj2 (Z.ltb_ge _ _) H2). done.
Qed.

Lemma PolicyRevision_check_Ok p p' :
  PolicyRevision_check p = Ok p' ↔
  p = p' ∧ str_truthy (strip (pr_policy_code p)) = true ∧ (1 ≤ pr_version p)%Z ∧
  pr_levels p ≠ [] ∧ al_sequence <$> pr_levels p = range_from_1 (length (pr_levels p)).
Proof.
  unfold PolicyRevision_check. split.
  - intros H. result_inv.
    repeat match goal with
    | H : negb _ = false |- _ => apply negb_false_iff in H
    | H : bool_decide _ = false |- _ => apply bool_decide_eq_false in H
    end.
    split_and!; [done..|lia|done|]. by apply dec_stable.
  - intros (<- & -> & H2 & H3 & H4). cbn [negb].
    rewrite (proj2 (Z.ltb_ge _ _) H2), (bool_decide_eq_false_2 _ H3).
    rewrite bool_decide_eq_false_2; [done|]. intros []. done.
Qed.

(** [p.level(k)] is the [k]-th level, for [k] in [1..total]. *)
Lemma pr_level_Ok p k l :
  pr_level p k = Ok l ↔
  (1 ≤ k ≤ pr_total_levels p)%Z ∧ pr_levels p !! Z.to_nat (k - 1) = Some l.
Proof.
  unfold pr_level, pr_total_levels. split.
  - intros H. result_inv. destruct (pr_levels p !! _) eqn:E; [|done].
    injection H as ->. split; [lia|done].
  - intros [Hk Hl]. rewrite Hl.
    destruct (Z.ltb_spec k 1), (Z.ltb_spec (Z.of_nat (length (pr_levels p))) k);
      [lia..|done].
Qed.

Lemma range_from_1_lookup n i : i < n → range_from_1 n !! i = Some (Z.of_nat (S i)).
Proof.
  intros Hi. unfold range_from_1. rewrite list_lookup_fmap.
  rewrite lookup_seq_lt by done. done.
Qed.

(** The level found at position [k] carries the sequence number [k]. *)
Lemma pr_level_sequence p k l :
  policy_ok p → pr_level p k = Ok l → al_sequence l = k.
Proof.
  intros Hp [Hk Hl]%pr_level_Ok.
  pose proof (lookup_lt_Some _ _ _ Hl) as Hlt.
  apply (f_equal (fmap al_sequence)) in Hl.
  rewrite <-list_lookup_fmap, (pok_dense _ Hp), range_from_1_lookup in Hl by done.
  injection Hl as Hl. lia.
Qed.

(** Every level of the revision is found under its own sequence number. *)
Lemma pr_level_own p l :
  policy_ok p → l ∈ pr_levels p → pr_level p (al_sequence l) = Ok l.
Proof.
  intros Hp (i & Hi)%list_elem_of_lookup. pose proof (lookup_lt_Some _ _ _ Hi) as Hlt.
  pose proof (f_equal (fmap al_sequence) Hi) as Hs.
  rewrite <-list_lookup_fmap, (pok_dense _ Hp), range_from_1_lookup in Hs by done.
  injection Hs as Hs. apply pr_level_Ok. rewrite <-Hs. unfold pr_total_levels.
  split; [lia|]. by replace (Z.to_nat _) with i by lia.
Qed.

Lemma pr_level_exists p k :
  (1 ≤ k ≤ pr_total_levels p)%Z → ∃ l, pr_level p k = Ok l.
Proof.
  intros Hk. destruct (lookup_lt_is_Some_2 (pr_levels p) (Z.to_nat (k - 1))) as [l Hl].
  - unfold pr_total_levels in Hk. lia.
  - exists l. by apply pr_level_Ok.
Qed.

Lemma policy_ok_total p : policy_ok p → (1 ≤ pr_total_levels p)%Z.
Proof.
  intros [_ _ H _ _]. unfold pr_total_levels.
  destruct (pr_levels p); [done|simpl; lia].
Qed.

(** *** Documents read back *)

Lemma ApprovalLevel_document `{Runtime} l :
  level_ok l → ApprovalLevel_from_document (ApprovalLevel_as_document l) = Ok l.
Proof.
  intros Hl. destruct l as [q k a n rule mfa del].
  assert (ApprovalLevel_check (MkApprovalLevel q k a n rule mfa del)
          = Ok (MkApprovalLevel q k a n rule mfa del)) as <-
    by by apply ApprovalLevel_check_Ok.
  destruct k, rule as [[]|]; reflexivity.
Qed.

Lemma map_result_documents `{Runtime} ls :
  Forall level_ok ls →
  map_result ApprovalLevel_from_document (ApprovalLevel_as_document <$> ls) = Ok ls.
Proof.
  intros Hls. apply map_result_Ok. induction Hls; constructor; [|done].
  by apply ApprovalLevel_document.
Qed.

Lemma PolicyRevision_document `{Runtime} p :
  policy_ok p → PolicyRevision_from_document (PolicyRevision_as_document p) = Ok p.
Proof.
  intros Hp. destruct p as [code v ls self]. unfold PolicyRevision_as_document.
  cbn [pr_policy_code pr_version pr_allow_self_approval pr_levels].
  unfold PolicyRevision_from_document, doc_item; cbn [assoc_get String.eqb Ascii.eqb Bool.eqb].
  cbn -[map_result PolicyRevision_check ApprovalLevel_as_document].
  rewrite map_result_documents by apply (pok_levels _ Hp).
  apply PolicyRevision_check_Ok. destruct Hp. done.
Qed.
