(* ===== verification/ApprovalPolicy.v ===== *)
(** * The approval decision

    [dotmac_approvals/policy.py]: the pure rules both planes share. Every check
    returns or raises a typed refusal, in the order of the source; [evaluate]
    derives the standing of a request from its policy revision and the recorded
    decisions. *)

From S2P Require Import Prelude PyData PyTime ApprovalContracts.
From stdpp Require Import base gmap strings pretty list.
From Stdlib Require Import ZArith.

(** ** The rules *)

(** [approvals_at]: every APPROVE recorded at one level, in order. *)
Definition approvals_at (decisions : list RecordedDecision) (level : Z)
    : list RecordedDecision :=
  filter (λ d, rd_level d = level ∧ rd_action d = APPROVE) decisions.

(** [distinct_approvers]: a set, because quorum counts people. *)
Definition distinct_approvers (decisions : list RecordedDecision) : gset UUID :=
  list_to_set (rd_actor_id <$> decisions).

(** [level_satisfied]. *)
Definition level_satisfied (level : ApprovalLevel) (decisions : list RecordedDecision)
    : bool :=
  let approved := distinct_approvers (approvals_at decisions (al_sequence level)) in
  (al_quorum level <=? Z.of_nat (size approved))%Z.

(** [check_eligibility]. *)
Definition check_eligibility (level : ApprovalLevel) (actor : Actor) : result exn unit :=
  match al_approver_kind level with
  | USER =>
      raise_if (negb (String.eqb (str_uuid (actor_id actor)) (al_approver_id level)))
        (ApprovalError NotEligible
           ("level " +:+ pretty (al_sequence level) +:+ " names a specific user; "
            +:+ str_uuid (actor_id actor) +:+ " is not it"))
  | ROLE =>
      raise_if (negb (existsb (λ r, String.eqb (str_uuid r) (al_approver_id level))
                        (role_ids actor)))
        (ApprovalError NotEligible
           ("level " +:+ pretty (al_sequence level) +:+ " requires role "
            +:+ al_approver_id level +:+ "; the actor holds none of it"))
  end.

(** [check_sod]. *)
Definition check_sod (level : ApprovalLevel) (actor : Actor) (requested_by : UUID)
    (decisions : list RecordedDecision) : result exn unit :=
  match al_sod_rule level with
  | None => Ok tt
  | Some CANNOT_BE_REQUESTER =>
      raise_if (bool_decide (actor_id actor = requested_by))
        (ApprovalError SoDViolation
           ("level " +:+ pretty (al_sequence level)
            +:+ " forbids the requester from approving"))
  | Some CANNOT_BE_PREVIOUS_APPROVER =>
      let earlier : gset UUID :=
        list_to_set (rd_actor_id <$>
          filter (λ d, rd_level d ≠ al_sequence level) decisions) in
      raise_if (bool_decide (actor_id actor ∈ earlier))
        (ApprovalError SoDViolation
           ("level " +:+ pretty (al_sequence level)
            +:+ " forbids an actor who decided an earlier level from deciding this one"))
  end.

(** [check_self_approval]. *)
Definition check_self_approval (policy : PolicyRevision) (actor : Actor)
    (requested_by : UUID) : result exn unit :=
  raise_if (negb (pr_allow_self_approval policy) &&
            bool_decide (actor_id actor = requested_by))
    (ApprovalError SelfApprovalRefused
       ("policy " +:+ policy_label (pr_policy_code policy) (pr_version policy)
        +:+ " does not permit the requester to approve their own request")).

(** [check_mfa]. *)
Definition check_mfa (level : ApprovalLevel) (actor : Actor) : result exn unit :=
  raise_if (al_requires_mfa level && negb (mfa_verified actor))
    (ApprovalError MFARequired
       ("level " +:+ pretty (al_sequence level)
        +:+ " requires verified MFA for this decision")).

(** [check_not_duplicate]: one actor, one vote per level. *)
Definition check_not_duplicate (level : ApprovalLevel) (actor : Actor)
    (decisions : list RecordedDecision) : result exn unit :=
  raise_if (existsb (λ d, bool_decide (rd_actor_id d = actor_id actor) &&
                          (rd_level d =? al_sequence level)%Z) decisions)
    (ApprovalError DuplicateDecision
       (str_uuid (actor_id actor) +:+ " already decided level "
        +:+ pretty (al_sequence level))).

(** [authorise_approval]: every check an APPROVE must pass, in order. *)
Definition authorise_approval (policy : PolicyRevision) (current_level : Z)
    (actor : Actor) (requested_by : UUID) (decisions : list RecordedDecision)
    : result exn ApprovalLevel :=
  level ← pr_level policy current_level;
  _ ← check_not_duplicate level actor decisions;
  _ ← raise_if (level_satisfied level decisions)
        (ApprovalError DuplicateDecision
           ("level " +:+ pretty (al_sequence level)
            +:+ " is already satisfied; a further approval cannot change its outcome"));
  _ ← check_eligibility level actor;
  _ ← check_self_approval policy actor requested_by;
  _ ← check_sod level actor requested_by decisions;
  _ ← check_mfa level actor;
  Ok level.

(** [_satisfied_count]: the loop breaks at the first unsatisfied level. *)
Fixpoint satisfied_prefix (levels : list ApprovalLevel)
    (decisions : list RecordedDecision) : Z :=
  match levels with
  | [] => 0
  | level :: levels =>
      if level_satisfied level decisions then 1 + satisfied_prefix levels decisions
      else 0
  end.
Definition satisfied_count (policy : PolicyRevision) (decisions : list RecordedDecision)
    : Z :=
  satisfied_prefix (pr_levels policy) decisions.

(** [evaluate]. A stored [APPROVED] is recomputed like [PENDING]; the other
    terminal states are reported as recorded. *)
Definition evaluate (policy : PolicyRevision) (state : ApprovalState)
    (current_level : Z) (decisions : list RecordedDecision) : Evaluation :=
  let as_recorded reason :=
    MkEvaluation state current_level (pr_total_levels policy)
      (satisfied_count policy decisions) reason in
  match state with
  | REJECTED => as_recorded "rejected"
  | CANCELLED => as_recorded "cancelled"
  | WITHDRAWN => as_recorded "withdrawn"
  | PENDING | APPROVED =>
      let satisfied := satisfied_count policy decisions in
      if (pr_total_levels policy <=? satisfied)%Z then
        MkEvaluation APPROVED (pr_total_levels policy) (pr_total_levels policy)
          satisfied "satisfied"
      else
        MkEvaluation PENDING (Z.min (satisfied + 1) (pr_total_levels policy))
          (pr_total_levels policy) satisfied "pending"
  end.

(** ** Specification of quorum *)

(** [k] distinct actors approved at level [n]. *)
Definition approved_by (decisions : list RecordedDecision) (n : Z) (a : UUID) : Prop :=
  MkRecordedDecision n a APPROVE ∈ decisions.

(** A level's quorum is met when some list of at least [quorum] pairwise
    different actors each approved it. *)
Definition quorum_met (level : ApprovalLevel) (decisions : list RecordedDecision) : Prop :=
  ∃ people : list UUID,
    NoDup people ∧ (al_quorum level ≤ Z.of_nat (length people))%Z ∧
    Forall (approved_by decisions (al_sequence level)) people.

(** ** Lemmas *)

Lemma elem_of_distinct_approvers decisions n a :
  a ∈ distinct_approvers (approvals_at decisions n) ↔ approved_by decisions n a.
Proof.
  unfold distinct_approvers, approvals_at, approved_by.
  rewrite elem_of_list_to_set, list_elem_of_fmap. split.
  - intros ([l x act] & -> & [[Hl Ha] Hin]%list_elem_of_filter). simpl in *. by subst.
  - intros Hin. exists (MkRecordedDecision n a APPROVE). split; [done|].
    by apply list_elem_of_filter.
Qed.

Lemma level_satisfied_quorum level decisions :
  level_satisfied level decisions = true ↔ quorum_met level decisions.
Proof.
  unfold level_satisfied, quorum_met. rewrite Z.leb_le.
  set (s := distinct_approvers _). split.
  - intros Hq. exists (elements s). split_and!; [apply NoDup_elements|done|].
    apply Forall_forall. intros a Ha%elem_of_elements.
    by apply elem_of_distinct_approvers.
  - intros (people & Hnd & Hq & Hall).
    assert (length people ≤ size s); [|lia].
    rewrite <-(size_list_to_set (C:=gset UUID) people) by done.
    apply subseteq_size. intros a Ha%elem_of_list_to_set.
    apply elem_of_distinct_approvers. by apply (proj1 (Forall_forall _ _) Hall).
Qed.

(** More decisions never unsatisfy a level. *)
Lemma level_satisfied_mono level ds ds' :
  ds ⊆ ds' → level_satisfied level ds = true → level_satisfied level ds' = true.
Proof.
  rewrite !level_satisfied_quorum. intros Hsub (people & ? & ? & Hall).
  exists people. split_and!; [done..|].
  eapply Forall_impl; [exact Hall|]. intros a. apply Hsub.
Qed.

(** Nobody satisfies no level. *)
Lemma level_satisfied_nil level : level_ok level → level_satisfied level [] = false.
Proof.
  intros Hl. apply not_true_iff_false. rewrite level_satisfied_quorum.
  intros ([|a people] & _ & Hq & Hall).
  - pose proof (lo_quorum _ Hl). simpl in Hq. lia.
  - apply Forall_cons in Hall as [Ha _]. unfold approved_by in Ha. set_solver.
Qed.

Lemma satisfied_count_nil p : policy_ok p → satisfied_count p [] = 0%Z.
Proof.
  intros Hp. pose proof (pok_levels _ Hp) as Hls. unfold satisfied_count.
  destruct (pr_levels p) as [|l ls]; [done|]. apply Forall_cons in Hls as [Hl _].
  cbn [satisfied_prefix]. by rewrite level_satisfied_nil.
Qed.

Lemma satisfied_prefix_bounds levels ds :
  (0 ≤ satisfied_prefix levels ds ≤ Z.of_nat (length levels))%Z.
Proof. induction levels as [|l ls IH]; simpl; [lia|]. case_match; lia. Qed.

Lemma satisfied_count_bounds p ds :
  (0 ≤ satisfied_count p ds ≤ pr_total_levels p)%Z.
Proof. apply satisfied_prefix_bounds. Qed.

(** The count is the length of the longest satisfied prefix: every level before
    it is satisfied, and the next one, if any, is not. *)
Lemma satisfied_prefix_lookup levels ds i l :
  levels !! i = Some l → (Z.of_nat i < satisfied_prefix levels ds)%Z →
  level_satisfied l ds = true.
Proof.
  revert i. induction levels as [|l' ls IH]; intros i Hi Hlt; [done|].
  simpl in Hlt. destruct (level_satisfied l' ds) eqn:E; [|lia].
  destruct i as [|i]; simpl in Hi; [naive_solver|]. eapply IH; [done|lia].
Qed.

Lemma satisfied_prefix_next levels ds l :
  levels !! Z.to_nat (satisfied_prefix levels ds) = Some l →
  level_satisfied l ds = false.
Proof.
  induction levels as [|l' ls IH]; [done|]. simpl.
  pose proof (satisfied_prefix_bounds ls ds) as Hb.
  destruct (level_satisfied l' ds) eqn:E; [|by intros [= ->]].
  rewrite Z2Nat.inj_add by lia. simpl. apply IH.
Qed.

Lemma satisfied_prefix_all levels ds :
  satisfied_prefix levels ds = Z.of_nat (length levels) ↔
  Forall (λ l, level_satisfied l ds = true) levels.
Proof.
  induction levels as [|l ls IH]; simpl; [split; [constructor|done]|].
  pose proof (satisfied_prefix_bounds ls ds) as Hb.
  rewrite Forall_cons, <-IH. destruct (level_satisfied l ds); naive_solver lia.
Qed.

Lemma satisfied_prefix_mono levels ds ds' :
  ds ⊆ ds' → (satisfied_prefix levels ds ≤ satisfied_prefix levels ds')%Z.
Proof.
  intros Hsub. induction levels as [|l ls IH]; simpl; [lia|].
  pose proof (satisfied_prefix_bounds ls ds').
  destruct (level_satisfied l ds) eqn:E.
  - rewrite (level_satisfied_mono l ds ds') by done. lia.
  - case_match; lia.
Qed.

(** A decision at one level does not change another level's standing. *)
Lemma approvals_at_app ds1 ds2 n :
  approvals_at (ds1 ++ ds2) n = approvals_at ds1 n ++ approvals_at ds2 n.
Proof. apply filter_app. Qed.

Lemma check_eligibility_cases level actor :
  check_eligibility level actor = Ok tt ∨
  ∃ msg, check_eligibility level actor = Raise (ApprovalError NotEligible msg).
Proof. unfold check_eligibility, raise_if. repeat case_match; eauto. Qed.

(** ** The rules as propositions *)

(** The level names this actor, or a role the actor holds. *)
Definition eligible (level : ApprovalLevel) (actor : Actor) : Prop :=
  match al_approver_kind level with
  | USER => str_uuid (actor_id actor) = al_approver_id level
  | ROLE => ∃ r, r ∈ role_ids actor ∧ str_uuid r = al_approver_id level
  end.

(** The level's separation-of-duties rule lets this actor approve. *)
Definition separated (level : ApprovalLevel) (actor : Actor) (requested_by : UUID)
    (decisions : list RecordedDecision) : Prop :=
  match al_sod_rule level with
  | None => True
  | Some CANNOT_BE_REQUESTER => actor_id actor ≠ requested_by
  | Some CANNOT_BE_PREVIOUS_APPROVER =>
      ∀ d, d ∈ decisions → rd_level d ≠ al_sequence level → rd_actor_id d ≠ actor_id actor
  end.

(** The actor has no vote at the level. *)
Definition unvoted (level : ApprovalLevel) (actor : Actor)
    (decisions : list RecordedDecision) : Prop :=
  ∀ d, d ∈ decisions → rd_level d = al_sequence level → rd_actor_id d ≠ actor_id actor.

(** A level whose MFA demand the actor meets. *)
Definition mfa_met (level : ApprovalLevel) (actor : Actor) : Prop :=
  al_requires_mfa level = true → mfa_verified actor = true.

Lemma check_eligibility_Ok level actor u :
  check_eligibility level actor = Ok u ↔ eligible level actor.
Proof.
  unfold check_eligibility, eligible. destruct (al_approver_kind level);
    rewrite raise_if_Ok, negb_false_iff; [apply String.eqb_eq|].
  rewrite existsb_true. by setoid_rewrite String.eqb_eq.
Qed.

Lemma check_sod_Ok level actor requested_by ds u :
  check_sod level actor requested_by ds = Ok u ↔ separated level actor requested_by ds.
Proof.
  unfold check_sod, separated. destruct u, (al_sod_rule level) as [[]|]; [..|done];
    rewrite raise_if_Ok, bool_decide_eq_false; [done|].
  rewrite elem_of_list_to_set, list_elem_of_fmap.
  setoid_rewrite list_elem_of_filter. naive_solver.
Qed.

Lemma check_self_approval_Ok p actor requested_by u :
  check_self_approval p actor requested_by = Ok u ↔
  (pr_allow_self_approval p = false → actor_id actor ≠ requested_by).
Proof.
  unfold check_self_approval. rewrite raise_if_Ok.
  destruct (pr_allow_self_approval p); simpl; [naive_solver|].
  rewrite bool_decide_eq_false. naive_solver.
Qed.

Lemma check_mfa_Ok level actor u :
  check_mfa level actor = Ok u ↔ mfa_met level actor.
Proof.
  unfold check_mfa, mfa_met. rewrite raise_if_Ok.
  destruct (al_requires_mfa level), (mfa_verified actor); simpl; naive_solver.
Qed.

Lemma check_not_duplicate_Ok level actor ds u :
  check_not_duplicate level actor ds = Ok u ↔ unvoted level actor ds.
Proof.
  unfold check_not_duplicate, unvoted. rewrite raise_if_Ok, existsb_false.
  split; intros Hv d Hd; specialize (Hv d Hd).
  - intros Hl Ha. by rewrite Hl, Ha, Z.eqb_refl, bool_decide_true in Hv.
  - case_bool_decide; [|done]. apply Z.eqb_neq. intros Hl. by apply Hv.
Qed.

(** Everything an approval must satisfy. *)
Record may_approve (p : PolicyRevision) (k : Z) (actor : Actor) (requested_by : UUID)
    (ds : list RecordedDecision) (l : ApprovalLevel) : Prop := {
  ma_level : pr_level p k = Ok l;
  ma_unvoted : unvoted l actor ds;
  ma_open : level_satisfied l ds = false;
  ma_eligible : eligible l actor;
  ma_self : pr_allow_self_approval p = false → actor_id actor ≠ requested_by;
  ma_separated : separated l actor requested_by ds;
  ma_mfa : mfa_met l actor;
}.

Lemma authorise_approval_Ok p k actor requested_by ds l :
  authorise_approval p k actor requested_by ds = Ok l ↔
  may_approve p k actor requested_by ds l.
Proof.
  unfold authorise_approval. rewrite result_bind_Ok. split.
  - intros (l' & Hl & Hrun). result_inv.
    rewrite ?check_not_duplicate_Ok, ?check_eligibility_Ok, ?check_self_approval_Ok,
      ?check_sod_Ok, ?check_mfa_Ok in *. by split.
  - intros [Hl H1 H2 H3 H4 H5 H6]. exists l. split; [done|].
    rewrite (proj2 (check_not_duplicate_Ok l actor ds tt) H1), H2,
      (proj2 (check_eligibility_Ok l actor tt) H3),
      (proj2 (check_self_approval_Ok p actor requested_by tt) H4),
      (proj2 (check_sod_Ok l actor requested_by ds tt) H5),
      (proj2 (check_mfa_Ok l actor tt) H6). done.
Qed.

(** A rejection asks less: a vote not yet cast, eligibility and MFA. *)
Record may_reject (p : PolicyRevision) (k : Z) (actor : Actor)
    (ds : list RecordedDecision) (l : ApprovalLevel) : Prop := {
  mr_level : pr_level p k = Ok l;
  mr_unvoted : unvoted l actor ds;
  mr_eligible : eligible l actor;
  mr_mfa : mfa_met l actor;
}.
