(* ===== verification/ApprovalStore.v ===== *)
(** * The approval tables and the database session

    [dotmac_approvals/models.py]: the rows of the four tables of a plane, the
    constraints the schema declares on them, and the session the services write
    through. The tenant plane's rows are scoped by a tenant id, the platform
    plane's by nothing: a plane is a scope type ([UUID], [unit]), and one
    definition of each row serves both.

    A [select(Model).where(...)] is the filter of the table in insertion order,
    [order_by] a stable sort, [db.add(row); db.flush()] an append guarded by the
    declared constraints, and assigning attributes of a loaded row followed by
    [db.flush()] the replacement of that row. [datetime.now(UTC)], the server's
    [now()] and [uuid4()] read two streams of the environment. *)

From S2P Require Import Prelude PyData PyTime ApprovalContracts ApprovalPolicy.
From stdpp Require Import base gmap strings pretty list.
From Stdlib Require Import ZArith.

(** ** Planes and the environment *)

(** What the two planes differ in: the scope that rows carry, and the words of
    their messages and table names. *)
Class Plane (S : Type) : Type := {
  plane_eq_dec :: EqDecision S;
  plane_word : string;
  plane_table_prefix : string;
  plane_key_infix : string;
  plane_exists_suffix : string;
}.

#[export] Instance tenant_plane : Plane UUID := {|
  plane_word := "tenant";
  plane_table_prefix := "";
  plane_key_infix := "tenant_";
  plane_exists_suffix :=
    " already exists for this tenant — policy revisions are immutable"
|}.

#[export] Instance platform_plane : Plane unit := {|
  plane_word := "platform";
  plane_table_prefix := "platform_";
  plane_key_infix := "";
  plane_exists_suffix := " already exists — policy revisions are immutable"
|}.

Inductive Dialect := Postgresql | Sqlite.

#[export] Instance Dialect_eq_dec : EqDecision Dialect.
Proof. solve_decision. Defined.

(** The outside world of a session: the instants successive clock reads return
    (in microseconds), the UUIDs successive [uuid4()] calls draw, and the
    database engine behind the session. *)
Class Env : Type := {
  env_runtime :: Runtime;
  clock : nat → Z;
  uuid4 : nat → UUID;
  dialect : Dialect;
}.

(** ** Rows *)

Record PolicyRow (S : Type) : Type := MkPolicyRow {
  po_id : UUID;
  po_scope : S;
  po_policy_code : string;
  po_version : Z;
  po_levels : json;
  po_allow_self_approval : bool;
  po_document_digest : string;
  po_created_at : datetime;
}.

Record RequestRow (S : Type) : Type := MkRequestRow {
  re_id : UUID;
  re_scope : S;
  re_policy_code : string;
  re_policy_version : Z;
  re_subject_type : string;
  re_subject_id : string;
  re_content_digest : string;
  re_requested_by : UUID;
  re_state : string;
  re_current_level : Z;
  re_idempotency_key : string;
  re_completed_at : option datetime;
  re_note : option string;
  re_created_at : datetime;
}.

Record DecisionRow (S : Type) : Type := MkDecisionRow {
  de_id : UUID;
  de_scope : S;
  de_request_id : UUID;
  de_level : Z;
  de_actor_id : UUID;
  de_action : string;
  de_comment : option string;
  de_delegated_from : option UUID;
  de_mfa_verified : bool;
  de_decided_at : datetime;
}.

Record WithdrawalRow (S : Type) : Type := MkWithdrawalRow {
  wi_id : UUID;
  wi_scope : S;
  wi_request_id : UUID;
  wi_actor_id : UUID;
  wi_authority_ref : string;
  wi_reason : string;
  wi_effective_at : datetime;
  wi_external_ref : string;
  wi_approved_at : datetime;
}.

(** A pending row of the kernel's outbox. *)
Record OutboxRow (S : Type) : Type := MkOutboxRow {
  ob_id : UUID;
  ob_scope : S;
  ob_event_type : string;
  ob_payload : json;
  ob_status : string;
  ob_attempts : Z;
  ob_correlation_id : option string;
}.

Arguments MkPolicyRow {S}. Arguments MkRequestRow {S}. Arguments MkDecisionRow {S}.
Arguments MkWithdrawalRow {S}. Arguments MkOutboxRow {S}.
Arguments po_id {S}. Arguments po_scope {S}. Arguments po_policy_code {S}.
Arguments po_version {S}. Arguments po_levels {S}. Arguments po_allow_self_approval {S}.
Arguments po_document_digest {S}. Arguments po_created_at {S}.
Arguments re_id {S}. Arguments re_scope {S}. Arguments re_policy_code {S}.
Arguments re_policy_version {S}. Arguments re_subject_type {S}.
Arguments re_subject_id {S}. Arguments re_content_digest {S}.
Arguments re_requested_by {S}. Arguments re_state {S}. Arguments re_current_level {S}.
Arguments re_idempotency_key {S}. Arguments re_completed_at {S}. Arguments re_note {S}.
Arguments re_created_at {S}.
Arguments de_id {S}. Arguments de_scope {S}. Arguments de_request_id {S}.
Arguments de_level {S}. Arguments de_actor_id {S}. Arguments de_action {S}.
Arguments de_comment {S}. Arguments de_delegated_from {S}. Arguments de_mfa_verified {S}.
Arguments de_decided_at {S}.
Arguments wi_id {S}. Arguments wi_scope {S}. Arguments wi_request_id {S}.
Arguments wi_actor_id {S}. Arguments wi_authority_ref {S}. Arguments wi_reason {S}.
Arguments wi_effective_at {S}. Arguments wi_external_ref {S}. Arguments wi_approved_at {S}.
Arguments ob_id {S}. Arguments ob_scope {S}. Arguments ob_event_type {S}.
Arguments ob_payload {S}. Arguments ob_status {S}. Arguments ob_attempts {S}.
Arguments ob_correlation_id {S}.

Record Tables (S : Type) : Type := MkTables {
  t_policies : list (PolicyRow S);
  t_requests : list (RequestRow S);
  t_decisions : list (DecisionRow S);
  t_withdrawals : list (WithdrawalRow S);
  t_outbox : list (OutboxRow S);
}.
Arguments MkTables {S}. Arguments t_policies {S}. Arguments t_requests {S}.
Arguments t_decisions {S}. Arguments t_withdrawals {S}. Arguments t_outbox {S}.

(** A session's world: the tables, how many clock reads and [uuid4] draws have
    been made, and the tenant the transaction is set to ([app_current_tenant_id],
    which the stored function of the tenant plane checks). *)
Record World (S : Type) : Type := MkWorld {
  w_tables : Tables S;
  w_tick : nat;
  w_drawn : nat;
  w_context : S;
}.
Arguments MkWorld {S}. Arguments w_tables {S}. Arguments w_tick {S}.
Arguments w_drawn {S}. Arguments w_context {S}.

Definition empty_tables {S} : Tables S := MkTables [] [] [] [] [].

(** Functional updates of one table. *)
Definition with_policies {S} (l : list (PolicyRow S)) (t : Tables S) : Tables S :=
  MkTables l (t_requests t) (t_decisions t) (t_withdrawals t) (t_outbox t).
Definition with_requests {S} (l : list (RequestRow S)) (t : Tables S) : Tables S :=
  MkTables (t_policies t) l (t_decisions t) (t_withdrawals t) (t_outbox t).
Definition with_decisions {S} (l : list (DecisionRow S)) (t : Tables S) : Tables S :=
  MkTables (t_policies t) (t_requests t) l (t_withdrawals t) (t_outbox t).
Definition with_withdrawals {S} (l : list (WithdrawalRow S)) (t : Tables S) : Tables S :=
  MkTables (t_policies t) (t_requests t) (t_decisions t) l (t_outbox t).
Definition with_outbox {S} (l : list (OutboxRow S)) (t : Tables S) : Tables S :=
  MkTables (t_policies t) (t_requests t) (t_decisions t) (t_withdrawals t) l.

(** ** The session *)

Section session.
Context {S : Type} `{Plane S} `{Env}.

Definition Session (A : Type) : Type := ST (World S) exn A.

Definition set_tables (t : Tables S) (w : World S) : World S :=
  MkWorld t (w_tick w) (w_drawn w) (w_context w).

(** [datetime.now(UTC)], or the server's [now()]. *)
Definition now_utc : Session datetime := λ w,
  (Ok (utc_of (clock (w_tick w))),
   MkWorld (w_tables w) (1 + w_tick w) (w_drawn w) (w_context w)).

Definition draw_uuid4 : Session UUID := λ w,
  (Ok (uuid4 (w_drawn w)),
   MkWorld (w_tables w) (w_tick w) (1 + w_drawn w) (w_context w)).

Definition tables : Session (Tables S) := gets w_tables.
Definition put_tables (t : Tables S) : Session unit := modify (set_tables t).

(** [result.scalar_one_or_none()] and [result.scalar_one()]. *)
Definition scalar_one_or_none {A} (rows : list A) : result exn (option A) :=
  match rows with
  | [] => Ok None
  | [r] => Ok (Some r)
  | _ => Raise MultipleResultsFound
  end.
Definition scalar_one {A} (rows : list A) : result exn A :=
  match rows with
  | [] => Raise NoResultFound
  | [r] => Ok r
  | _ => Raise MultipleResultsFound
  end.

(** *** Constraint violations

    PostgreSQL names the violated constraint in its diagnostics; SQLite names
    the columns of a unique constraint in the message text. *)
Definition unique_violation (constraint table columns : string) : exn :=
  match dialect with
  | Postgresql =>
      IntegrityError constraint "duplicate key value violates unique constraint"
  | Sqlite =>
      IntegrityError "" ("UNIQUE constraint failed: " +:+ table +:+ "." +:+ columns)
  end.
Definition other_violation (constraint : string) : exn :=
  match dialect with
  | Postgresql => IntegrityError constraint "violates constraint"
  | Sqlite => IntegrityError "" ("constraint failed: " +:+ constraint)
  end.

(** *** Inserts: the declared constraints, then the append *)

(** [ApprovalPolicy] / [PlatformApprovalPolicy]: primary key and
    [(scope, policy_code, version)]. *)
Definition check_policy (t : Tables S) (row : PolicyRow S) : result exn unit :=
  let table := plane_table_prefix +:+ "approval_policies" in
  _ ← raise_if (existsb (λ r, bool_decide (po_id r = po_id row)) (t_policies t))
        (unique_violation (table +:+ "_pkey") table "id");
  raise_if
    (existsb (λ r, bool_decide (po_scope r = po_scope row) &&
                   String.eqb (po_policy_code r) (po_policy_code row) &&
                   (po_version r =? po_version row)%Z) (t_policies t))
    (unique_violation ("uq_" +:+ table +:+ "_" +:+ plane_key_infix +:+ "code_version")
       table "policy_code").

(** [ApprovalRequest] / [PlatformApprovalRequest]: primary key and
    [(scope, idempotency_key)]. *)
Definition check_request (t : Tables S) (row : RequestRow S) : result exn unit :=
  let table := plane_table_prefix +:+ "approval_requests" in
  _ ← raise_if (existsb (λ r, bool_decide (re_id r = re_id row)) (t_requests t))
        (unique_violation (table +:+ "_pkey") table "id");
  raise_if
    (existsb (λ r, bool_decide (re_scope r = re_scope row) &&
                   String.eqb (re_idempotency_key r) (re_idempotency_key row))
       (t_requests t))
    (unique_violation ("uq_" +:+ table +:+ "_" +:+ plane_key_infix +:+ "idempotency")
       table "idempotency_key").

(** [ApprovalDecision] / [PlatformApprovalDecision]: primary key, one vote per
    [(scope, request, level, actor)], and an existing request. *)
Definition check_decision (t : Tables S) (row : DecisionRow S) : result exn unit :=
  let table := plane_table_prefix +:+ "approval_decisions" in
  _ ← raise_if (existsb (λ r, bool_decide (de_id r = de_id row)) (t_decisions t))
        (unique_violation (table +:+ "_pkey") table "id");
  _ ← raise_if
        (existsb (λ r, bool_decide (de_scope r = de_scope row) &&
                       bool_decide (de_request_id r = de_request_id row) &&
                       (de_level r =? de_level row)%Z &&
                       bool_decide (de_actor_id r = de_actor_id row)) (t_decisions t))
        (unique_violation ("uq_" +:+ table +:+ "_one_vote") table "request_id");
  raise_if
    (negb (existsb (λ r, bool_decide (re_id r = de_request_id row)) (t_requests t)))
    (other_violation (table +:+ "_request_id_fkey")).

(** [ApprovalWithdrawal] / [PlatformApprovalWithdrawal]: primary key, one
    withdrawal per request, one use of an external reference, an existing
    request, and [effective_at >= approved_at]. *)
Definition check_withdrawal (t : Tables S) (row : WithdrawalRow S) : result exn unit :=
  let table := plane_table_prefix +:+ "approval_withdrawals" in
  _ ← raise_if (existsb (λ r, bool_decide (wi_id r = wi_id row)) (t_withdrawals t))
        (unique_violation (table +:+ "_pkey") table "id");
  _ ← raise_if
        (existsb (λ r, bool_decide (wi_scope r = wi_scope row) &&
                       bool_decide (wi_request_id r = wi_request_id row))
           (t_withdrawals t))
        (unique_violation ("uq_" +:+ table +:+ "_request") table "request_id");
  _ ← raise_if
        (existsb (λ r, bool_decide (wi_scope r = wi_scope row) &&
                       String.eqb (wi_external_ref r) (wi_external_ref row))
           (t_withdrawals t))
        (unique_violation ("uq_" +:+ table +:+ "_external_ref") table "external_ref");
  _ ← raise_if
        (negb (existsb (λ r, bool_decide (re_scope r = wi_scope row) &&
                             bool_decide (re_id r = wi_request_id row)) (t_requests t)))
        (other_violation ("fk_" +:+ table +:+ "_request"));
  raise_if (instant (wi_effective_at row) <? instant (wi_approved_at row))%Z
    (other_violation ("ck_" +:+ table +:+ "_effective_after_approval")).

(** [OutboxEvent] / [PlatformOutboxEvent]: primary key. *)
Definition check_outbox (t : Tables S) (row : OutboxRow S) : result exn unit :=
  let table := plane_table_prefix +:+ "outbox_events" in
  raise_if (existsb (λ r, bool_decide (ob_id r = ob_id row)) (t_outbox t))
    (unique_violation (table +:+ "_pkey") table "id").

Definition add_policy (row : PolicyRow S) : Session unit :=
  t ← tables; _ ← lift (check_policy t row);
  put_tables (with_policies (t_policies t ++ [row]) t).
Definition add_request (row : RequestRow S) : Session unit :=
  t ← tables; _ ← lift (check_request t row);
  put_tables (with_requests (t_requests t ++ [row]) t).
Definition add_decision (row : DecisionRow S) : Session unit :=
  t ← tables; _ ← lift (check_decision t row);
  put_tables (with_decisions (t_decisions t ++ [row]) t).
Definition add_withdrawal (row : WithdrawalRow S) : Session unit :=
  t ← tables; _ ← lift (check_withdrawal t row);
  put_tables (with_withdrawals (t_withdrawals t ++ [row]) t).
Definition add_outbox (row : OutboxRow S) : Session unit :=
  t ← tables; _ ← lift (check_outbox t row);
  put_tables (with_outbox (t_outbox t ++ [row]) t).

(** *** Updates *)

(** The row with the identity of [row] takes its attributes. *)
Definition replace_request (row : RequestRow S) (rows : list (RequestRow S))
    : list (RequestRow S) :=
  (λ r, if decide (re_id r = re_id row) then row else r) <$> rows.

Definition flush_request (row : RequestRow S) : Session unit :=
  t ← tables; put_tables (with_requests (replace_request row (t_requests t)) t).

(** [with conflict_savepoint(db): body]: an exception rolls the tables back to
    the savepoint and is raised again. *)
Definition conflict_savepoint {A} (body : Session A) : Session A := λ w,
  match body w with
  | (Ok a, w') => (Ok a, w')
  | (Raise e, w') => (Raise e, set_tables (w_tables w) w')
  end.

(** [try: m except ... as e: h e] in a session. *)
Definition catch {A} (m : Session A) (h : exn → option exn) : Session A := λ w,
  match m w with
  | (Ok a, w') => (Ok a, w')
  | (Raise e, w') => (Raise (default e (h e)), w')
  end.
End session.

Arguments Session S A : clear implicits.

(** Running the first call of a session. *)
Lemma session_step {S A B} (m : Session S A) (f : A → Session S B) w a w1 :
  m w = (Ok a, w1) → (m ≫= f) w = f a w1.
Proof. apply ST_step. Qed.

Lemma session_stop {S A B} (m : Session S A) (f : A → Session S B) w e w1 :
  m w = (Raise e, w1) → (m ≫= f) w = (Raise e, w1).
Proof. apply ST_stop. Qed.

Lemma session_lift {S A B} (r : result exn A) (f : A → Session S B) w a :
  r = Ok a → ((lift r : Session S A) ≫= f) w = f a w.
Proof. apply lift_step. Qed.

(** Run the first call of a session whose outcome is the equation [E]. *)
Ltac run_with E :=
  first [ rewrite (session_step _ _ _ _ _ E) | rewrite (ST_step _ _ _ _ _ E)
        | rewrite (session_lift _ _ _ _ E) | rewrite (lift_step _ _ _ _ E) ].

(** Run a leading [lift] whose result is [v], which is left to prove. *)
Ltac run_lift v :=
  first [ rewrite (session_lift _ _ _ v) | rewrite (lift_step _ _ _ v) ].
