(* ===== verification/ApprovalService.v ===== *)
(** * The approval lifecycle

    [dotmac_approvals/service.py], write side: publishing a policy revision,
    opening a request, recording a decision, cancelling, and evaluating. The
    source spells each operation once per plane, with the same rules and the
    plane's row loading; here the operation is written over the plane, and the
    two named surfaces are its instances at [UUID] (tenant) and [unit]
    (platform). *)

From S2P Require Import Prelude PyData PyTime ApprovalContracts ApprovalPolicy.
From S2P Require Import ApprovalStore.
From stdpp Require Import base gmap strings pretty list.
From Stdlib Require Import ZArith.

(** [ApprovalOutcome]. *)
Record ApprovalOutcome : Type := MkApprovalOutcome {
  ao_request_id : UUID;
  ao_evaluation : Evaluation;
  ao_events : list ApprovalEvent;
}.

Definition ao_state (o : ApprovalOutcome) : ApprovalState := ev_state (ao_evaluation o).

(** [policy_document_digest]. *)
Definition policy_document_digest `{Runtime} (revision : PolicyRevision) : string :=
  "sha256:" +:+ sha256_hexdigest (json_dumps (PolicyRevision_as_document revision)).

(** [_revision_of]. *)
Definition revision_of `{Runtime} (levels : json) (code : string) (version : Z)
    (self_approval : bool) : result exn PolicyRevision :=
  PolicyRevision_from_document
    (JObj [ ("policy_code", JStr code); ("version", JInt version);
            ("allow_self_approval", JBool self_approval); ("levels", levels) ]).

(** [_recorded]. *)
Definition recorded {S} (rows : list (DecisionRow S)) : result exn (list RecordedDecision) :=
  map_result (λ d,
    action ← DecisionAction_of (de_action d);
    Ok (MkRecordedDecision (de_level d) (de_actor_id d) action)) rows.

(** [_event]. *)
Definition make_event (state : ApprovalState) (request_id : UUID)
    (subject_type subject_id policy_code : string) (policy_version : Z)
    (content_digest : string) : result exn ApprovalEvent :=
  ApprovalEvent_check
    (MkApprovalEvent (EVENT_FOR_STATE state) subject_type subject_id request_id
       policy_code policy_version content_digest state None).

(** [_state_event]. *)
Definition state_event {S} (request : RequestRow S) : result exn ApprovalEvent :=
  state ← ApprovalState_of (re_state request);
  make_event state (re_id request) (re_subject_type request) (re_subject_id request)
    (re_policy_code request) (re_policy_version request) (re_content_digest request).

(** [order_by(decided_at, id)]: a stable insertion sort of the rows. *)
Definition decided_before {S} (a b : DecisionRow S) : bool :=
  let ta := instant (de_decided_at a) in
  let tb := instant (de_decided_at b) in
  ((ta <? tb) || ((ta =? tb) && uuid_leb (de_id a) (de_id b)))%Z.
Fixpoint insert_decision {S} (d : DecisionRow S) (l : list (DecisionRow S)) :=
  match l with
  | [] => [d]
  | d' :: l' => if decided_before d d' then d :: l else d' :: insert_decision d l'
  end.
Definition order_decisions {S} (l : list (DecisionRow S)) : list (DecisionRow S) :=
  foldr insert_decision [] l.

(** [request.state = ...; request.completed_at = ...; request.note = ...] and
    [request.current_level = ...] on a loaded row. *)
Definition set_standing {S} (r : RequestRow S) (state : ApprovalState)
    (completed_at : option datetime) (note : option string) : RequestRow S :=
  MkRequestRow (re_id r) (re_scope r) (re_policy_code r) (re_policy_version r)
    (re_subject_type r) (re_subject_id r) (re_content_digest r) (re_requested_by r)
    (state_value state) (re_current_level r) (re_idempotency_key r) completed_at note
    (re_created_at r).
Definition set_level {S} (r : RequestRow S) (current_level : Z) : RequestRow S :=
  MkRequestRow (re_id r) (re_scope r) (re_policy_code r) (re_policy_version r)
    (re_subject_type r) (re_subject_id r) (re_content_digest r) (re_requested_by r)
    (re_state r) current_level (re_idempotency_key r) (re_completed_at r) (re_note r)
    (re_created_at r).

Section service.
Context {S : Type} `{Plane S} `{Env}.

(** *** Row loading *)

Definition policies_named (scope : S) (code : string) (version : Z) (t : Tables S)
    : list (PolicyRow S) :=
  filter (λ r, po_scope r = scope ∧ po_policy_code r = code ∧ po_version r = version)
    (t_policies t).

Definition requests_by_id (scope : S) (request_id : UUID) (t : Tables S)
    : list (RequestRow S) :=
  filter (λ r, re_scope r = scope ∧ re_id r = request_id) (t_requests t).

Definition requests_by_key (scope : S) (key : string) (t : Tables S)
    : list (RequestRow S) :=
  filter (λ r, re_scope r = scope ∧ re_idempotency_key r = key) (t_requests t).

(** [_tenant_policy] / [_platform_policy]: fail closed when absent. *)
Definition load_policy (scope : S) (code : string) (version : Z)
    : Session S PolicyRevision :=
  t ← tables;
  row ← lift (scalar_one_or_none (policies_named scope code version t));
  match row with
  | None =>
      raise (ApprovalError PolicyNotFound
        ("no " +:+ plane_word +:+ " policy " +:+ policy_label code version))
  | Some row =>
      lift (revision_of (po_levels row) (po_policy_code row) (po_version row)
              (po_allow_self_approval row))
  end.

(** [_tenant_request] / [_platform_request]. *)
Definition load_request (scope : S) (request_id : UUID) : Session S (RequestRow S) :=
  t ← tables;
  row ← lift (scalar_one_or_none (requests_by_id scope request_id t));
  match row with
  | None =>
      raise (ApprovalError PolicyNotFound
        ("no " +:+ plane_word +:+ " approval request " +:+ str_uuid request_id))
  | Some row => mret row
  end.

(** [_tenant_decisions] / [_platform_decisions]. *)
Definition load_decisions (scope : S) (request_id : UUID)
    : Session S (list (DecisionRow S)) :=
  t ← tables;
  mret (order_decisions
    (filter (λ d, de_scope d = scope ∧ de_request_id d = request_id) (t_decisions t))).

(** [_tenant_outcome] / [_platform_outcome]. *)
Definition make_outcome (scope : S) (request : RequestRow S)
    (revision : PolicyRevision) (events : list ApprovalEvent)
    : Session S ApprovalOutcome :=
  state ← lift (ApprovalState_of (re_state request));
  rows ← load_decisions scope (re_id request);
  decisions ← lift (recorded rows);
  mret (MkApprovalOutcome (re_id request)
          (evaluate revision state (re_current_level request) decisions) events).

(** *** Operations *)

(** [publish_tenant_policy_version] / [publish_platform_policy_version]. *)
Definition publish_policy_version (scope : S) (revision : PolicyRevision)
    : Session S (PolicyRow S) :=
  t ← tables;
  existing ← lift (scalar_one_or_none
    (policies_named scope (pr_policy_code revision) (pr_version revision) t));
  _ ← lift (raise_if (bool_decide (is_Some existing))
        (ApprovalError PolicyVersionExists
           (policy_label (pr_policy_code revision) (pr_version revision)
            +:+ plane_exists_suffix)));
  id ← draw_uuid4;
  created_at ← now_utc;
  let row := MkPolicyRow id scope (pr_policy_code revision) (pr_version revision)
    (JList (ApprovalLevel_as_document <$> pr_levels revision))
    (pr_allow_self_approval revision) (policy_document_digest revision) created_at in
  _ ← add_policy row;
  mret row.

(** [request_tenant_approval] / [request_platform_approval]. *)
Definition request_approval (scope : S) (policy_code : string) (policy_version : Z)
    (subject_type subject_id content_digest : string) (requested_by : UUID)
    (idempotency_key : string) : Session S ApprovalOutcome :=
  _ ← lift (validate_digest content_digest);
  revision ← load_policy scope policy_code policy_version;
  t ← tables;
  existing ← lift (scalar_one_or_none (requests_by_key scope idempotency_key t));
  match existing with
  | Some existing =>
      _ ← lift (raise_if
            (negb (String.eqb (re_content_digest existing) content_digest)
             || negb (String.eqb (re_policy_code existing) policy_code)
             || negb (re_policy_version existing =? policy_version)%Z)
            (ApprovalError ContentChanged
               ("idempotency key " +:+ py_repr_str idempotency_key
                +:+ " was used for different content or a different policy revision")));
      make_outcome scope existing revision []
  | None =>
      id ← draw_uuid4;
      created_at ← now_utc;
      let row := MkRequestRow id scope policy_code policy_version subject_type
        subject_id content_digest requested_by (state_value PENDING) 1
        idempotency_key None None created_at in
      _ ← add_request row;
      event ← lift (make_event PENDING id subject_type subject_id policy_code
                      policy_version content_digest);
      make_outcome scope row revision [event]
  end.

(** The premises every command on an open request checks first. *)
Definition require_pending (request : RequestRow S) : result exn unit :=
  raise_if (negb (String.eqb (re_state request) (state_value PENDING)))
    (ApprovalError RequestNotPending
       ("request " +:+ str_uuid (re_id request) +:+ " is " +:+ re_state request
        +:+ ", not pending")).

Definition require_content (request : RequestRow S) (content_digest : string)
    : result exn unit :=
  raise_if (negb (String.eqb (re_content_digest request) content_digest))
    (ApprovalError ContentChanged
       ("request " +:+ str_uuid (re_id request) +:+ " was opened for "
        +:+ re_content_digest request +:+ ", but the decision presents "
        +:+ content_digest
        +:+ " — the content changed, so the prior approval no longer applies")).

(** The rules a decision passes: an approval the full [authorise_approval], a
    rejection the level's vote, eligibility and MFA checks only. *)
Definition authorise_decision (revision : PolicyRevision) (request : RequestRow S)
    (actor : Actor) (action : DecisionAction) (decisions : list RecordedDecision)
    : result exn unit :=
  match action with
  | APPROVE =>
      _ ← authorise_approval revision (re_current_level request) actor
            (re_requested_by request) decisions;
      Ok tt
  | REJECT =>
      level ← pr_level revision (re_current_level request);
      _ ← check_not_duplicate level actor decisions;
      _ ← check_eligibility level actor;
      check_mfa level actor
  end.

(** The second half of [record_tenant_decision] / [record_platform_decision],
    once the vote is recorded: a rejection ends the request; an approval
    re-evaluates it and may complete it. *)
Definition settle_decision (scope : S) (request : RequestRow S)
    (revision : PolicyRevision) (action : DecisionAction) (comment : option string)
    : Session S ApprovalOutcome :=
  match action with
  | REJECT =>
      completed_at ← now_utc;
      let request := set_standing request REJECTED (Some completed_at) comment in
      _ ← flush_request request;
      event ← lift (state_event request);
      make_outcome scope request revision [event]
  | APPROVE =>
      rows ← load_decisions scope (re_id request);
      updated ← lift (recorded rows);
      let evaluation := evaluate revision PENDING (re_current_level request) updated in
      let request := set_level request (ev_current_level evaluation) in
      if ev_is_approved evaluation then
        completed_at ← now_utc;
        let request := set_standing request APPROVED (Some completed_at)
          (re_note request) in
        _ ← flush_request request;
        event ← lift (state_event request);
        make_outcome scope request revision [event]
      else
        _ ← flush_request request;
        make_outcome scope request revision []
  end.

(** [record_tenant_decision] / [record_platform_decision]. *)
Definition record_decision (scope : S) (request_id : UUID) (actor : Actor)
    (action : DecisionAction) (content_digest : string) (comment : option string)
    (delegated_from : option UUID) : Session S ApprovalOutcome :=
  request ← load_request scope request_id;
  _ ← lift (require_pending request);
  _ ← lift (require_content request content_digest);
  revision ← load_policy scope (re_policy_code request) (re_policy_version request);
  rows ← load_decisions scope request_id;
  decisions ← lift (recorded rows);
  _ ← lift (authorise_decision revision request actor action decisions);
  decided_at ← now_utc;
  id ← draw_uuid4;
  _ ← add_decision (MkDecisionRow id scope request_id (re_current_level request)
        (actor_id actor) (action_value action) comment delegated_from
        (mfa_verified actor) decided_at);
  settle_decision scope request revision action comment.

(** [cancel_tenant_request] / [cancel_platform_request]. *)
Definition cancel_request (scope : S) (request_id cancelled_by : UUID)
    (reason : string) : Session S ApprovalOutcome :=
  request ← load_request scope request_id;
  _ ← lift (require_pending request);
  _ ← lift (raise_if (bool_decide (re_requested_by request ≠ cancelled_by))
        (ApprovalError NotRequester
           "only the original requester may cancel this request"));
  completed_at ← now_utc;
  let request := set_standing request CANCELLED (Some completed_at) (Some reason) in
  _ ← flush_request request;
  revision ← load_policy scope (re_policy_code request) (re_policy_version request);
  event ← lift (state_event request);
  make_outcome scope request revision [event].

(** [evaluate_tenant_approval] / [evaluate_platform_approval]. *)
Definition evaluate_approval (scope : S) (request_id : UUID) : Session S Evaluation :=
  request ← load_request scope request_id;
  revision ← load_policy scope (re_policy_code request) (re_policy_version request);
  state ← lift (ApprovalState_of (re_state request));
  rows ← load_decisions scope request_id;
  decisions ← lift (recorded rows);
  mret (evaluate revision state (re_current_level request) decisions).
End service.

(** ** The two named surfaces *)

Section surfaces.
Context `{Env}.

Definition tenant_policy (tenant_id : UUID) (code : string) (version : Z)
    : Session UUID PolicyRevision := load_policy tenant_id code version.
Definition platform_policy (code : string) (version : Z)
    : Session unit PolicyRevision := load_policy tt code version.
Definition tenant_request (tenant_id request_id : UUID)
    : Session UUID (RequestRow UUID) := load_request tenant_id request_id.
Definition platform_request (request_id : UUID)
    : Session unit (RequestRow unit) := load_request tt request_id.
Definition tenant_decisions (tenant_id request_id : UUID)
    : Session UUID (list (DecisionRow UUID)) := load_decisions tenant_id request_id.
Definition platform_decisions (request_id : UUID)
    : Session unit (list (DecisionRow unit)) := load_decisions tt request_id.
Definition tenant_outcome (tenant_id : UUID) (request : RequestRow UUID)
    (revision : PolicyRevision) (events : list ApprovalEvent)
    : Session UUID ApprovalOutcome := make_outcome tenant_id request revision events.
Definition platform_outcome (request : RequestRow unit) (revision : PolicyRevision)
    (events : list ApprovalEvent) : Session unit ApprovalOutcome :=
  make_outcome tt request revision events.

Definition publish_tenant_policy_version (tenant_id : UUID) (revision : PolicyRevision)
    : Session UUID (PolicyRow UUID) := publish_policy_version tenant_id revision.
Definition publish_platform_policy_version (revision : PolicyRevision)
    : Session unit (PolicyRow unit) := publish_policy_version tt revision.

Definition request_tenant_approval (tenant_id : UUID) (policy_code : string)
    (policy_version : Z) (subject_type subject_id content_digest : string)
    (requested_by : UUID) (idempotency_key : string) : Session UUID ApprovalOutcome :=
  request_approval tenant_id policy_code policy_version subject_type subject_id
    content_digest requested_by idempotency_key.
Definition request_platform_approval (policy_code : string) (policy_version : Z)
    (subject_type subject_id content_digest : string) (requested_by : UUID)
    (idempotency_key : string) : Session unit ApprovalOutcome :=
  request_approval tt policy_code policy_version subject_type subject_id
    content_digest requested_by idempotency_key.

Definition record_tenant_decision (tenant_id request_id : UUID) (actor : Actor)
    (action : DecisionAction) (content_digest : string) (comment : option string)
    (delegated_from : option UUID) : Session UUID ApprovalOutcome :=
  record_decision tenant_id request_id actor action content_digest comment
    delegated_from.
Definition record_platform_decision (request_id : UUID) (actor : Actor)
    (action : DecisionAction) (content_digest : string) (comment : option string)
    (delegated_from : option UUID) : Session unit ApprovalOutcome :=
  record_decision tt request_id actor action content_digest comment delegated_from.

Definition cancel_tenant_request (tenant_id request_id cancelled_by : UUID)
    (reason : string) : Session UUID ApprovalOutcome :=
  cancel_request tenant_id request_id cancelled_by reason.
Definition cancel_platform_request (request_id cancelled_by : UUID) (reason : string)
    : Session unit ApprovalOutcome := cancel_request tt request_id cancelled_by reason.

Definition evaluate_tenant_approval (tenant_id request_id : UUID)
    : Session UUID Evaluation := evaluate_approval tenant_id request_id.
Definition evaluate_platform_approval (request_id : UUID) : Session unit Evaluation :=
  evaluate_approval tt request_id.
End surfaces.
