(* ===== verification/ApprovalWithdrawal.v ===== *)
(** * Withdrawing an approval, and the outbox

    [service.py] ([_withdraw_tenant_approval], [_withdraw_platform_approval] and
    their helpers), [outbox.py] (the public commands and the event emission) and
    the stored function and triggers of [ap_0003_withdrawals.py] that the
    services call on PostgreSQL. On SQLite the same transition is made through
    the ORM and the event enqueued from Python. *)

From S2P Require Import Prelude PyData PyTime ApprovalContracts ApprovalPolicy.
From S2P Require Import ApprovalStore ApprovalService.
From stdpp Require Import base gmap strings pretty list.
From Stdlib Require Import ZArith Ascii.

(** ** Evidence and events *)

(** [_utc]. *)
Definition utc (value : datetime) : datetime :=
  if is_naive value then replace_tz_utc value else astimezone_utc value.

(** [_withdrawal_evidence]. *)
Definition withdrawal_evidence {S} (row : WithdrawalRow S)
    : result exn WithdrawalEvidence :=
  WithdrawalEvidence_check
    (MkWithdrawalEvidence (wi_id row) (utc (wi_approved_at row)) (wi_actor_id row)
       (wi_authority_ref row) (wi_reason row) (utc (wi_effective_at row))
       (wi_external_ref row)).

(** [_withdrawal_event]. *)
Definition withdrawal_event {S} (request : RequestRow S) (row : WithdrawalRow S)
    : result exn ApprovalEvent :=
  evidence ← withdrawal_evidence row;
  ApprovalEvent_check
    (MkApprovalEvent (EVENT_FOR_STATE WITHDRAWN) (re_subject_type request)
       (re_subject_id request) (re_id request) (re_policy_code request)
       (re_policy_version request) (re_content_digest request) WITHDRAWN
       (Some evidence)).

(** [_validate_withdrawal_fields]. *)
Definition validate_withdrawal_fields (authority_ref reason external_ref : string)
    : result exn unit :=
  let require name value :=
    raise_if (negb (str_truthy value) || blank value)
      (ApprovalError WithdrawalRefused (name +:+ " must be non-empty")) in
  _ ← require "authority_ref" authority_ref;
  _ ← require "reason" reason;
  _ ← require "external_ref" external_ref;
  raise_if ((200 <? str_len authority_ref) || (200 <? str_len external_ref))%Z
    (ApprovalError WithdrawalRefused "withdrawal references must fit 200 characters").

(** [_check_withdrawal_replay]. *)
Definition check_withdrawal_replay {S} (request : RequestRow S)
    (row : option (WithdrawalRow S)) (actor : Actor)
    (authority_ref reason external_ref : string) : result exn bool :=
  match row with
  | None => Ok false
  | Some row =>
      _ ← raise_if
            (bool_decide (wi_request_id row ≠ re_id request)
             || negb (String.eqb (wi_external_ref row) external_ref)
             || bool_decide (wi_actor_id row ≠ actor_id actor)
             || negb (String.eqb (wi_authority_ref row) authority_ref)
             || negb (String.eqb (wi_reason row) reason))
            (ApprovalError WithdrawalReferenceConflict
               "withdrawal reference or evidence differs");
      Ok true
  end.

(** [_withdrawal_unique_conflict]: a reference race, not other corruption. *)
Definition withdrawal_unique_conflict (e : exn) : bool :=
  match e with
  | IntegrityError constraint orig =>
      bool_decide (constraint ∈
        ["uq_approval_withdrawals_external_ref"; "uq_approval_withdrawals_request";
         "uq_platform_approval_withdrawals_external_ref";
         "uq_platform_approval_withdrawals_request"])
      || (str_contains "UNIQUE constraint failed" orig
          && str_contains "withdrawals" orig)
  | _ => false
  end.

Section withdrawal.
Context {S : Type} `{Plane S} `{Env}.

Definition withdrawals_by_ref (scope : S) (external_ref : string) (t : Tables S)
    : list (WithdrawalRow S) :=
  filter (λ r, wi_scope r = scope ∧ wi_external_ref r = external_ref)
    (t_withdrawals t).

Definition withdrawals_by_request (scope : S) (request_id : UUID) (t : Tables S)
    : list (WithdrawalRow S) :=
  filter (λ r, wi_scope r = scope ∧ wi_request_id r = request_id) (t_withdrawals t).

(** *** The PostgreSQL write path *)

(** [check_<prefix>_withdrawal_insert]: BEFORE INSERT on the withdrawals. *)
Definition check_withdrawal_insert (t : Tables S) (row : WithdrawalRow S)
    : result exn unit :=
  let original := requests_by_id (wi_scope row) (wi_request_id row) t in
  raise_if
    (negb (match original with
           | r :: _ =>
               String.eqb (re_state r) "approved"
               && match re_completed_at r with
                  | Some c => (instant c =? instant (wi_approved_at row))%Z
                  | None => false
                  end
           | [] => false
           end))
    (DatabaseError
       "withdrawal requires the original completed approval and its exact approved_at").

(** [check_<prefix>_withdrawn_transition]: BEFORE UPDATE OF state,
    completed_at on the requests, run by the owner of the stored function. *)
Definition check_withdrawn_transition (t : Tables S) (old new : RequestRow S)
    : result exn unit :=
  if String.eqb (re_state new) "withdrawn" && negb (String.eqb (re_state old) "withdrawn")
  then
    _ ← raise_if
          (negb (String.eqb (re_state old) "approved")
           || bool_decide (re_completed_at old = None)
           || bool_decide (re_completed_at new ≠ re_completed_at old))
          (DatabaseError
             "only the database withdrawal operation may transition a completed approval");
    let matching := filter (λ r, re_completed_at old = Some (wi_approved_at r))
      (withdrawals_by_request (re_scope old) (re_id old) t) in
    raise_if (negb (Nat.eqb (length matching) 1))
      (DatabaseError "withdrawn standing requires exactly one matching evidence row")
  else
    raise_if (String.eqb (re_state old) "withdrawn" &&
              (negb (String.eqb (re_state new) (re_state old))
               || bool_decide (re_completed_at new ≠ re_completed_at old)))
      (DatabaseError "withdrawn standing is terminal").

(** [to_char(v AT TIME ZONE 'UTC', ...)] as the trigger formats an instant:
    ISO 8601 with the fraction only when it is not zero, and [+00:00]. *)
Definition sql_iso (v : datetime) : string :=
  let us := instant v in
  let '(y, m, d) := civil_of_days (us / us_per_day)%Z in
  zpad 4 y +:+ "-" +:+ zpad 2 m +:+ "-" +:+ zpad 2 d +:+ "T"
  +:+ iso_clock (us mod us_per_day)%Z +:+ "+00:00".

(** [emit_<prefix>_withdrawal]: AFTER UPDATE OF state on the requests; the
    evidence's id is the outbox id. *)
Definition emit_withdrawal (old new : RequestRow S) : Session S unit :=
  if negb (String.eqb (re_state new) "withdrawn") || String.eqb (re_state old) "withdrawn"
  then mret tt
  else
    t ← tables;
    match withdrawals_by_request (re_scope new) (re_id new) t with
    | [] => raise (DatabaseError "withdrawal evidence missing at event emission")
    | evidence :: _ =>
        add_outbox (MkOutboxRow (wi_id evidence) (re_scope new) "approval.withdrawn"
          (JObj [ ("request_id", JStr (str_uuid (re_id new)));
                  ("subject_type", JStr (re_subject_type new));
                  ("subject_id", JStr (re_subject_id new));
                  ("policy_code", JStr (re_policy_code new));
                  ("policy_version", JInt (re_policy_version new));
                  ("content_digest", JStr (re_content_digest new));
                  ("state", JStr "withdrawn");
                  ("withdrawal_id", JStr (str_uuid (wi_id evidence)));
                  ("approved_at", JStr (sql_iso (wi_approved_at evidence)));
                  ("actor_id", JStr (str_uuid (wi_actor_id evidence)));
                  ("authority_ref", JStr (wi_authority_ref evidence));
                  ("reason", JStr (wi_reason evidence));
                  ("effective_at", JStr (sql_iso (wi_effective_at evidence)));
                  ("external_ref", JStr (wi_external_ref evidence)) ])
          "pending" 0 (Some (wi_external_ref evidence)))
    end.

(** [btrim(v) = '']: only spaces. *)
Definition sql_blank (v : string) : bool :=
  str_all (λ c, Ascii.eqb c " ") v.

(** [mod_approvals.record_<prefix>_withdrawal]: the stored function. *)
Definition record_withdrawal_sql (scope : S) (request_id withdrawal_id actor : UUID)
    (authority_ref reason external_ref : string) : Session S unit :=
  context ← gets w_context;
  _ ← lift (raise_if (bool_decide (scope ≠ context))
        (DatabaseError "tenant withdrawal context disagrees"));
  _ ← lift (raise_if
        (sql_blank authority_ref || sql_blank reason || sql_blank external_ref
         || (200 <? str_len authority_ref) || (200 <? str_len external_ref))%Z
        (DatabaseError "withdrawal authority, reason and reference are required"));
  t ← tables;
  let approved := filter (λ r, re_state r = "approved") (requests_by_id scope request_id t) in
  match approved with
  | old :: _ =>
      match re_completed_at old with
      | Some approved_at =>
          effective_at ← now_utc;
          let evidence := MkWithdrawalRow withdrawal_id scope request_id actor
            authority_ref reason effective_at external_ref approved_at in
          _ ← lift (check_withdrawal_insert t evidence);
          _ ← add_withdrawal evidence;
          let new := set_standing old WITHDRAWN (re_completed_at old) (re_note old) in
          t ← tables;
          _ ← lift (check_withdrawn_transition t old new);
          _ ← flush_request new;
          emit_withdrawal old new
      | None => raise (DatabaseError "only a completed approval may be withdrawn")
      end
  | [] => raise (DatabaseError "only a completed approval may be withdrawn")
  end.

(** *** The mutation *)

(** The write inside the savepoint: the stored function on PostgreSQL, the
    ORM unit of work elsewhere. Returns the standing request and its
    evidence row. *)
Definition write_withdrawal (scope : S) (request : RequestRow S)
    (completed_at : datetime) (actor : Actor)
    (authority_ref reason external_ref : string)
    : Session S (RequestRow S * WithdrawalRow S) :=
  match dialect with
  | Postgresql =>
      withdrawal_id ← draw_uuid4;
      _ ← record_withdrawal_sql scope (re_id request) withdrawal_id (actor_id actor)
            authority_ref reason external_ref;
      t ← tables;
      refreshed ← lift (scalar_one (requests_by_id scope (re_id request) t));
      row ← lift (scalar_one (withdrawals_by_request scope (re_id request) t));
      mret (refreshed, row)
  | Sqlite =>
      effective_at ← now_utc;
      id ← draw_uuid4;
      let row := MkWithdrawalRow id scope (re_id request) (actor_id actor)
        authority_ref reason effective_at external_ref completed_at in
      let request := set_standing request WITHDRAWN (re_completed_at request)
        (re_note request) in
      _ ← add_withdrawal row;
      _ ← flush_request request;
      mret (request, row)
  end.

(** [_withdraw_tenant_approval] / [_withdraw_platform_approval]. *)
Definition withdraw_approval_unqueued (scope : S) (request_id : UUID) (actor : Actor)
    (authority_ref reason external_ref : string) : Session S ApprovalOutcome :=
  _ ← lift (validate_withdrawal_fields authority_ref reason external_ref);
  request ← load_request scope request_id;
  t ← tables;
  by_ref ← lift (scalar_one_or_none (withdrawals_by_ref scope external_ref t));
  by_request ← lift (scalar_one_or_none (withdrawals_by_request scope request_id t));
  _ ← lift (raise_if
        (match by_ref with
         | Some row => bool_decide (wi_request_id row ≠ request_id)
         | None => false
         end)
        (ApprovalError WithdrawalReferenceConflict
           "withdrawal reference belongs to another request"));
  let existing := match by_request with Some row => Some row | None => by_ref end in
  replay ← lift (check_withdrawal_replay request existing actor authority_ref
                   reason external_ref);
  if (replay : bool) then
    _ ← lift (raise_if (negb (String.eqb (re_state request) (state_value WITHDRAWN)))
          (ApprovalError WithdrawalRefused
             "withdrawal row and request standing disagree"));
    revision ← load_policy scope (re_policy_code request) (re_policy_version request);
    make_outcome scope request revision []
  else
    match re_completed_at request with
    | Some completed_at =>
        _ ← lift (raise_if
              (negb (String.eqb (re_state request) (state_value APPROVED)))
              (ApprovalError WithdrawalRefused
                 "only a completed approval may be withdrawn"));
        revision ← load_policy scope (re_policy_code request)
                     (re_policy_version request);
        rows ← load_decisions scope request_id;
        decisions ← lift (recorded rows);
        _ ← lift (raise_if
              (negb (ev_is_approved
                       (evaluate revision APPROVED (re_current_level request) decisions)))
              (ApprovalError WithdrawalRefused
                 "request has no complete approval decision"));
        written ← catch
          (conflict_savepoint
             (write_withdrawal scope request completed_at actor authority_ref
                reason external_ref))
          (λ e, if withdrawal_unique_conflict e then
                  Some (ApprovalError WithdrawalReferenceConflict
                    "withdrawal reference or request was concurrently consumed")
                else None);
        event ← lift (withdrawal_event written.1 written.2);
        make_outcome scope written.1 revision [event]
    | None =>
        raise (ApprovalError WithdrawalRefused
          "only a completed approval may be withdrawn")
    end.

(** *** The outbox *)

(** [enqueue_event] / [enqueue_platform_event] of the kernel. *)
Definition enqueue_event (scope : S) (event_type : string) (payload : json)
    (correlation_id : option string) : Session S (OutboxRow S) :=
  id ← draw_uuid4;
  let row := MkOutboxRow id scope event_type payload "pending" 0 correlation_id in
  _ ← add_outbox row;
  mret row.

(** [emit_tenant_events] / [emit_platform_events]: how many were written. *)
Fixpoint emit_events (scope : S) (events : list ApprovalEvent)
    (correlation_id : option string) : Session S Z :=
  match events with
  | [] => mret 0%Z
  | event :: events =>
      _ ← enqueue_event scope (ae_event_type event) (ApprovalEvent_payload event)
            correlation_id;
      written ← emit_events scope events correlation_id;
      mret (1 + written)%Z
  end.

(** [withdraw_tenant_approval] / [withdraw_platform_approval]. *)
Definition withdraw_approval (scope : S) (request_id : UUID) (actor : Actor)
    (authority_ref reason external_ref : string) : Session S ApprovalOutcome :=
  conflict_savepoint (
    outcome ← withdraw_approval_unqueued scope request_id actor authority_ref
                reason external_ref;
    _ ← (if negb (bool_decide (ao_events outcome = [])) && bool_decide (dialect ≠ Postgresql)
         then
           written ← emit_events scope (ao_events outcome) None;
           lift (raise_if (negb (written =? 1)%Z)
             (ApprovalError WithdrawalRefused
                "withdrawal must enqueue exactly one event"))
         else mret tt);
    mret outcome).
End withdrawal.

(** ** The two named surfaces *)

Section surfaces.
Context `{Env}.

Definition emit_tenant_events (tenant_id : UUID) (events : list ApprovalEvent)
    (correlation_id : option string) : Session UUID Z :=
  emit_events tenant_id events correlation_id.
Definition emit_platform_events (events : list ApprovalEvent)
    (correlation_id : option string) : Session unit Z :=
  emit_events tt events correlation_id.

Definition withdraw_tenant_approval_unqueued (tenant_id request_id : UUID)
    (actor : Actor) (authority_ref reason external_ref : string)
    : Session UUID ApprovalOutcome :=
  withdraw_approval_unqueued tenant_id request_id actor authority_ref reason
    external_ref.
Definition withdraw_platform_approval_unqueued (request_id : UUID) (actor : Actor)
    (authority_ref reason external_ref : string) : Session unit ApprovalOutcome :=
  withdraw_approval_unqueued tt request_id actor authority_ref reason external_ref.

Definition withdraw_tenant_approval (tenant_id request_id : UUID) (actor : Actor)
    (authority_ref reason external_ref : string) : Session UUID ApprovalOutcome :=
  withdraw_approval tenant_id request_id actor authority_ref reason external_ref.
Definition withdraw_platform_approval (request_id : UUID) (actor : Actor)
    (authority_ref reason external_ref : string) : Session unit ApprovalOutcome :=
  withdraw_approval tt request_id actor authority_ref reason external_ref.
End surfaces.
