(* ===== verification/ApprovalReads.v ===== *)
(** * The approval read surface and the hold

    [service.py], read side: the queue page, the request detail with what a
    viewer may do, the policy and withdrawal reads, and
    [hold_platform_approval], the barrier a dependent transition takes. *)

From S2P Require Import Prelude PyData PyTime ApprovalContracts ApprovalPolicy.
From S2P Require Import ApprovalStore ApprovalService ApprovalWithdrawal.
From stdpp Require Import base gmap strings pretty list.
From Stdlib Require Import ZArith.

(** ** Views of rows *)

(** [_policy_view]. *)
Definition policy_view {S} `{Runtime} (row : PolicyRow S) : result exn PolicyView :=
  revision ← revision_of (po_levels row) (po_policy_code row) (po_version row)
               (po_allow_self_approval row);
  Ok (MkPolicyView (po_id row) (po_policy_code row) (po_version row)
        (pr_levels revision) (po_allow_self_approval row) (po_document_digest row)
        (po_created_at row)).

(** [_request_view]. *)
Definition request_view {S} (row : RequestRow S) : result exn RequestView :=
  state ← ApprovalState_of (re_state row);
  Ok (MkRequestView (re_id row) (re_policy_code row) (re_policy_version row)
        (re_subject_type row) (re_subject_id row) (re_content_digest row)
        (re_requested_by row) state (re_current_level row) (re_idempotency_key row)
        (re_note row) (re_created_at row) (re_completed_at row)).

(** [_decision_view]. *)
Definition decision_view {S} (row : DecisionRow S) : result exn DecisionView :=
  action ← DecisionAction_of (de_action row);
  Ok (MkDecisionView (de_id row) (de_request_id row) (de_level row) (de_actor_id row)
        action (de_comment row) (de_delegated_from row) (de_mfa_verified row)
        (de_decided_at row)).

(** [_filter_conditions]: the conjunction of the stated criteria. *)
Definition opt_matches {A} (eqb : A → A → bool) (criterion : option A) (value : A) : bool :=
  match criterion with Some c => eqb value c | None => true end.
Definition filter_conditions {S} (criteria : RequestFilter) (row : RequestRow S) : bool :=
  opt_matches String.eqb (state_value <$> rf_state criteria) (re_state row)
  && opt_matches String.eqb (rf_policy_code criteria) (re_policy_code row)
  && opt_matches String.eqb (rf_subject_type criteria) (re_subject_type row)
  && opt_matches String.eqb (rf_subject_id criteria) (re_subject_id row)
  && opt_matches (λ a b, bool_decide (a = b)) (rf_requested_by criteria)
       (re_requested_by row).

(** [order_by(created_at, id)]. *)
Definition opened_before {S} (a b : RequestRow S) : bool :=
  let ta := instant (re_created_at a) in
  let tb := instant (re_created_at b) in
  ((ta <? tb) || ((ta =? tb) && uuid_leb (re_id a) (re_id b)))%Z.
Fixpoint insert_request {S} (r : RequestRow S) (l : list (RequestRow S)) :=
  match l with
  | [] => [r]
  | r' :: l' => if opened_before r r' then r :: l else r' :: insert_request r l'
  end.
Definition order_requests {S} (l : list (RequestRow S)) : list (RequestRow S) :=
  foldr insert_request [] l.

(** [.offset(n).limit(m)]. *)
Definition offset_limit {A} (n m : Z) (l : list A) : list A :=
  take (Z.to_nat m) (drop (Z.to_nat n) l).

(** ** What a viewer may do *)

(** [str(refusal)] and [type(refusal).__name__] of an [ApprovalError]. *)
Definition refusal_code (e : exn) : string :=
  match e with
  | ApprovalError c _ => error_name c
  | ApprovalNotHeld _ _ => "ApprovalNotHeld"
  | _ => ""
  end.
Definition refusal_detail (e : exn) : string :=
  match e with ApprovalError _ m | ApprovalNotHeld _ m => m | _ => "" end.

(** [try: rules() except ApprovalError as refusal: refusals.append(...) else:
    actions.append(action)]; any other exception leaves the function. *)
Definition attempt {A} (action : RequestAction) (rules : result exn A)
    : result exn (list RequestAction * list ActionRefusal) :=
  match rules with
  | Ok _ => Ok ([action], [])
  | Raise e =>
      if is_approval_error e
      then Ok ([], [MkActionRefusal action (refusal_code e) (refusal_detail e)])
      else Raise e
  end.

(** [_permitted]. *)
Definition permitted {S} (revision : PolicyRevision) (request : RequestRow S)
    (decisions : list RecordedDecision) (viewer : Actor)
    : result exn (list RequestAction * list ActionRefusal) :=
  if negb (String.eqb (re_state request) (state_value PENDING)) then Ok ([], [])
  else
    level ← pr_level revision (re_current_level request);
    approve ← attempt ACT_APPROVE
      (authorise_approval revision (re_current_level request) viewer
         (re_requested_by request) decisions);
    reject ← attempt ACT_REJECT
      (_ ← check_not_duplicate level viewer decisions;
       _ ← check_eligibility level viewer;
       check_mfa level viewer);
    let cancel :=
      if bool_decide (re_requested_by request = actor_id viewer) then ([ACT_CANCEL], [])
      else ([], [MkActionRefusal ACT_CANCEL (error_name NotRequester)
                   "only the original requester may cancel this request"]) in
    Ok (approve.1 ++ reject.1 ++ cancel.1, approve.2 ++ reject.2 ++ cancel.2).

Section reads.
Context {S : Type} `{Plane S} `{Env}.

(** The rows [list_tenant_requests] / [list_platform_requests] page over. *)
Definition matching_requests (scope : S) (criteria : RequestFilter) (t : Tables S)
    : list (RequestRow S) :=
  filter (λ r, re_scope r = scope ∧ filter_conditions criteria r = true)
    (t_requests t).

(** [list_tenant_requests] / [list_platform_requests]. *)
Definition list_requests (scope : S) (criteria : option RequestFilter)
    : Session S RequestPage :=
  let criteria := default RequestFilter_default criteria in
  t ← tables;
  let matching := matching_requests scope criteria t in
  let rows := offset_limit ((rf_page criteria - 1) * rf_page_size criteria)
                (rf_page_size criteria) (order_requests matching) in
  views ← lift (map_result request_view rows);
  mret (MkRequestPage views (Z.of_nat (length matching)) (rf_page criteria)
          (rf_page_size criteria)).

(** [tenant_decision_history] / [platform_decision_history]. *)
Definition decision_history (scope : S) (request_id : UUID)
    : Session S (list DecisionView) :=
  rows ← load_decisions scope request_id;
  lift (map_result decision_view rows).

(** [get_tenant_withdrawal] / [get_platform_withdrawal]. *)
Definition get_withdrawal (scope : S) (request_id : UUID)
    : Session S (option WithdrawalEvidence) :=
  t ← tables;
  row ← lift (scalar_one_or_none (withdrawals_by_request scope request_id t));
  match row with
  | None => mret None
  | Some row => lift (Some <$> withdrawal_evidence row)
  end.

(** [get_tenant_request] / [get_platform_request]. *)
Definition get_request (scope : S) (request_id : UUID) (viewer : option Actor)
    : Session S (option RequestDetail) :=
  t ← tables;
  row ← lift (scalar_one_or_none (requests_by_id scope request_id t));
  match row with
  | None => mret None
  | Some row =>
      policy_row ← lift (scalar_one_or_none
        (policies_named scope (re_policy_code row) (re_policy_version row) t));
      match policy_row with
      | None =>
          raise (ApprovalError PolicyNotFound
            ("no " +:+ plane_word +:+ " policy "
             +:+ policy_label (re_policy_code row) (re_policy_version row)))
      | Some policy_row =>
          decision_rows ← load_decisions scope request_id;
          revision ← lift (revision_of (po_levels policy_row)
            (po_policy_code policy_row) (po_version policy_row)
            (po_allow_self_approval policy_row));
          decisions ← lift (recorded decision_rows);
          state ← lift (ApprovalState_of (re_state row));
          let evaluation := evaluate revision state (re_current_level row) decisions in
          able ← lift (match viewer with
                       | Some viewer => permitted revision row decisions viewer
                       | None => Ok ([], [])
                       end);
          request ← lift (request_view row);
          policy ← lift (policy_view policy_row);
          views ← lift (map_result decision_view decision_rows);
          withdrawal ← get_withdrawal scope request_id;
          detail ← lift (RequestDetail_check
            (MkRequestDetail request policy views evaluation able.1 able.2 withdrawal));
          mret (Some detail)
      end
  end.

(** [get_tenant_policy] / [get_platform_policy]. *)
Definition get_policy (scope : S) (policy_code : string) (version : Z)
    : Session S (option PolicyView) :=
  t ← tables;
  row ← lift (scalar_one_or_none (policies_named scope policy_code version t));
  match row with
  | None => mret None
  | Some row => lift (Some <$> policy_view row)
  end.

(** [list_tenant_policy_versions] / [list_platform_policy_versions]. *)
Fixpoint insert_version (r : PolicyRow S) (l : list (PolicyRow S)) :=
  match l with
  | [] => [r]
  | r' :: l' => if (po_version r <=? po_version r')%Z then r :: l
                else r' :: insert_version r l'
  end.
Definition list_policy_versions (scope : S) (policy_code : string)
    : Session S (list PolicyView) :=
  t ← tables;
  let rows := filter (λ r, po_scope r = scope ∧ po_policy_code r = policy_code)
                (t_policies t) in
  lift (map_result policy_view (foldr insert_version [] rows)).
End reads.

(** ** The two named surfaces *)

Section surfaces.
Context `{Env}.

Definition list_tenant_requests (tenant_id : UUID) (criteria : option RequestFilter)
    : Session UUID RequestPage := list_requests tenant_id criteria.
Definition list_platform_requests (criteria : option RequestFilter)
    : Session unit RequestPage := list_requests tt criteria.
Definition tenant_decision_history (tenant_id request_id : UUID)
    : Session UUID (list DecisionView) := decision_history tenant_id request_id.
Definition platform_decision_history (request_id : UUID)
    : Session unit (list DecisionView) := decision_history tt request_id.
Definition get_tenant_withdrawal (tenant_id request_id : UUID)
    : Session UUID (option WithdrawalEvidence) := get_withdrawal tenant_id request_id.
Definition get_platform_withdrawal (request_id : UUID)
    : Session unit (option WithdrawalEvidence) := get_withdrawal tt request_id.
Definition get_tenant_request (tenant_id request_id : UUID) (viewer : option Actor)
    : Session UUID (option RequestDetail) := get_request tenant_id request_id viewer.
Definition get_platform_request (request_id : UUID) (viewer : option Actor)
    : Session unit (option RequestDetail) := get_request tt request_id viewer.
Definition get_tenant_policy (tenant_id : UUID) (policy_code : string) (version : Z)
    : Session UUID (option PolicyView) := get_policy tenant_id policy_code version.
Definition get_platform_policy (policy_code : string) (version : Z)
    : Session unit (option PolicyView) := get_policy tt policy_code version.
Definition list_tenant_policy_versions (tenant_id : UUID) (policy_code : string)
    : Session UUID (list PolicyView) := list_policy_versions tenant_id policy_code.
Definition list_platform_policy_versions (policy_code : string)
    : Session unit (list PolicyView) := list_policy_versions tt policy_code.
End surfaces.

(** ** The hold *)

(** [hold_platform_approval]. The row lock is the caller's transaction: no other
    command on the request runs between this call and the caller's commit. *)
Definition hold_platform_approval `{Env} (request_id : UUID)
    (subject_type subject_id content_digest : string)
    : Session unit HeldPlatformApproval :=
  let refuse code msg := ApprovalNotHeld code msg in
  let named := "platform approval request " +:+ str_uuid request_id in
  _ ← lift (match validate_digest content_digest with
            | Raise (ApprovalError ContentChanged msg) => Raise (refuse MALFORMED_DIGEST msg)
            | r => r
            end);
  t ← tables;
  row ← lift (scalar_one_or_none (requests_by_id tt request_id t));
  match row with
  | None => raise (refuse REQUEST_NOT_FOUND ("no " +:+ named))
  | Some row =>
      _ ← lift (raise_if (negb (String.eqb (re_subject_type row) subject_type)
                          || negb (String.eqb (re_subject_id row) subject_id))
            (refuse SUBJECT_MISMATCH (named +:+ " does not name this subject")));
      _ ← lift (raise_if (negb (String.eqb (re_content_digest row) content_digest))
            (refuse DIGEST_MISMATCH (named +:+ " approved different content")));
      _ ← lift (raise_if (String.eqb (re_state row) (state_value WITHDRAWN))
            (refuse HOLD_WITHDRAWN (named +:+ " was withdrawn")));
      let not_approved :=
        refuse NOT_APPROVED (named +:+ " is " +:+ re_state row +:+ ", not approved") in
      _ ← lift (raise_if (negb (String.eqb (re_state row) (state_value APPROVED)))
            not_approved);
      match re_completed_at row with
      | None => raise not_approved
      | Some decided_at =>
          let approvers := de_actor_id <$> order_decisions
            (filter (λ d, de_request_id d = request_id ∧
                          de_action d = action_value APPROVE) (t_decisions t)) in
          _ ← lift (raise_if (bool_decide (approvers = []))
                (refuse NO_APPROVE_DECISION
                   (named +:+ " is approved without an approve decision")));
          mret (MkHeldPlatformApproval (re_id row) (re_subject_type row)
                  (re_subject_id row) (re_content_digest row) (re_policy_code row)
                  (re_policy_version row) decided_at approvers)
      end
  end.
