(* ===== verification/ApprovalInvariant.v ===== *)
(** * The approval invariant

    What the tables of a plane satisfy at every point a session can leave them:
    the declared keys are unique, every stored policy document reads back as a
    well-formed revision, every request points at one, and the standing of a
    request agrees with the decisions recorded on it. The file states the
    invariant, shows what each read of the service returns under it, and proves
    the table updates of the commands preserve it. *)

From S2P Require Import Prelude PyData PyTime ApprovalContracts ApprovalPolicy.
From S2P Require Import ApprovalStore ApprovalService ApprovalWithdrawal.
From stdpp Require Import base gmap strings pretty list.
From Stdlib Require Import ZArith.

(** ** Rows and the values they stand for *)

Definition action_valid {S} (d : DecisionRow S) : Prop :=
  de_action d = action_value APPROVE ∨ de_action d = action_value REJECT.

Definition rd_of {S} (d : DecisionRow S) : RecordedDecision :=
  MkRecordedDecision (de_level d) (de_actor_id d)
    (if String.eqb (de_action d) (action_value APPROVE) then APPROVE else REJECT).

Definition decisions_of {S} `{Plane S} (t : Tables S) (scope : S) (rid : UUID)
    : list (DecisionRow S) :=
  filter (λ d, de_scope d = scope ∧ de_request_id d = rid) (t_decisions t).

Definition history {S} `{Plane S} (t : Tables S) (r : RequestRow S)
    : list (DecisionRow S) := decisions_of t (re_scope r) (re_id r).

(** The decisions on a request, as the rules see them. *)
Definition votes {S} `{Plane S} (t : Tables S) (r : RequestRow S)
    : list RecordedDecision := rd_of <$> history t r.

(** The row is the stored form of the revision. *)
Record stores {S} (row : PolicyRow S) (p : PolicyRevision) : Prop := {
  st_ok : policy_ok p;
  st_code : po_policy_code row = pr_policy_code p;
  st_version : po_version row = pr_version p;
  st_levels : po_levels row = JList (ApprovalLevel_as_document <$> pr_levels p);
  st_self : po_allow_self_approval row = pr_allow_self_approval p;
}.

(** [p] is the revision request [r] was opened against. *)
Definition governed {S} (t : Tables S) (r : RequestRow S) (p : PolicyRevision) : Prop :=
  ∃ row, row ∈ t_policies t ∧ po_scope row = re_scope r ∧ stores row p ∧
    pr_policy_code p = re_policy_code r ∧ pr_version p = re_policy_version r.

(** The checks a recorded decision passed, as far as the row shows them. *)
Record authorised (p : PolicyRevision) {S} (r : RequestRow S)
    (ds : list (DecisionRow S)) (d : DecisionRow S) (l : ApprovalLevel) : Prop := {
  au_action : action_valid d;
  au_level : pr_level p (de_level d) = Ok l;
  au_reached : (de_level d ≤ re_current_level r)%Z;
  au_user : al_approver_kind l = USER → str_uuid (de_actor_id d) = al_approver_id l;
  au_mfa : al_requires_mfa l = true → de_mfa_verified d = true;
  au_self : de_action d = action_value APPROVE →
    pr_allow_self_approval p = false → de_actor_id d ≠ re_requested_by r;
  au_requester : de_action d = action_value APPROVE →
    al_sod_rule l = Some CANNOT_BE_REQUESTER → de_actor_id d ≠ re_requested_by r;
  au_previous : de_action d = action_value APPROVE →
    al_sod_rule l = Some CANNOT_BE_PREVIOUS_APPROVER →
    ∀ d', d' ∈ ds → (de_level d' < de_level d)%Z → de_actor_id d' ≠ de_actor_id d;
}.

(** No rejection has been recorded. *)
Definition unrejected {S} (ds : list (DecisionRow S)) : Prop :=
  Forall (λ d, de_action d = action_value APPROVE) ds.

(** How a stored state agrees with the decisions. *)
Definition standing {S} `{Plane S} (t : Tables S) (r : RequestRow S)
    (p : PolicyRevision) (st : ApprovalState) : Prop :=
  match st with
  | PENDING =>
      re_completed_at r = None ∧ unrejected (history t r) ∧
      (satisfied_count p (votes t r) < pr_total_levels p)%Z ∧
      re_current_level r = (satisfied_count p (votes t r) + 1)%Z
  | APPROVED =>
      is_Some (re_completed_at r) ∧ unrejected (history t r) ∧
      satisfied_count p (votes t r) = pr_total_levels p ∧
      re_current_level r = pr_total_levels p
  | REJECTED =>
      is_Some (re_completed_at r) ∧ ¬ unrejected (history t r)
  | CANCELLED =>
      is_Some (re_completed_at r) ∧ unrejected (history t r)
  | WITHDRAWN =>
      is_Some (re_completed_at r) ∧ unrejected (history t r) ∧
      satisfied_count p (votes t r) = pr_total_levels p ∧
      re_current_level r = pr_total_levels p ∧
      ∃ w, w ∈ t_withdrawals t ∧ wi_scope w = re_scope r ∧ wi_request_id w = re_id r
  end.

Record request_ok {S} `{Plane S} (t : Tables S) (r : RequestRow S)
    (p : PolicyRevision) (st : ApprovalState) : Prop := {
  ro_governed : governed t r p;
  ro_state : re_state r = state_value st;
  ro_level : (1 ≤ re_current_level r ≤ pr_total_levels p)%Z;
  ro_authorised : ∀ d, d ∈ history t r → ∃ l, authorised p r (history t r) d l;
  ro_standing : standing t r p st;
}.

(** The evidence of a withdrawal: the request it names stands withdrawn, since
    the instant the approval completed, and the fields are well formed. *)
Record withdrawal_ok {S} (t : Tables S) (w : WithdrawalRow S) (r : RequestRow S) : Prop := {
  wo_in : r ∈ t_requests t;
  wo_scope : re_scope r = wi_scope w;
  wo_id : re_id r = wi_request_id w;
  wo_state : re_state r = state_value WITHDRAWN;
  wo_completed : re_completed_at r = Some (wi_approved_at w);
  wo_fields : ∃ e, withdrawal_evidence w = Ok e;
}.

(** Completed instants are clock readings, hence aware. *)
Definition aware_utc (d : datetime) : Prop := dt_offset d = Some 0%Z.

Record Inv {S} `{Plane S} (t : Tables S) : Prop := {
  inv_po_key : NoDup ((λ r, (po_scope r, po_policy_code r, po_version r)) <$> t_policies t);
  inv_re_id : NoDup (re_id <$> t_requests t);
  inv_re_key : NoDup ((λ r, (re_scope r, re_idempotency_key r)) <$> t_requests t);
  inv_de_id : NoDup (de_id <$> t_decisions t);
  inv_de_vote : NoDup ((λ d, (de_scope d, de_request_id d, de_level d, de_actor_id d))
                         <$> t_decisions t);
  inv_wi_request : NoDup ((λ w, (wi_scope w, wi_request_id w)) <$> t_withdrawals t);
  inv_wi_ref : NoDup ((λ w, (wi_scope w, wi_external_ref w)) <$> t_withdrawals t);
  inv_policy : ∀ row, row ∈ t_policies t → ∃ p, stores row p;
  inv_request : ∀ r, r ∈ t_requests t → ∃ p st, request_ok t r p st;
  inv_completed : ∀ r c, r ∈ t_requests t → re_completed_at r = Some c → aware_utc c;
  inv_decision : ∀ d, d ∈ t_decisions t →
    ∃ r, r ∈ t_requests t ∧ re_scope r = de_scope d ∧ re_id r = de_request_id d;
  inv_withdrawal : ∀ w, w ∈ t_withdrawals t → ∃ r, withdrawal_ok t w r;
}.

(** ** Reads under the invariant *)

Section reads.
Context {S : Type} `{Plane S} `{Env}.
Implicit Types (t : Tables S) (w : World S) (r : RequestRow S) (row : PolicyRow S).

Lemma stores_reads row p :
  stores row p →
  revision_of (po_levels row) (po_policy_code row) (po_version row)
    (po_allow_self_approval row) = Ok p.
Proof.
  intros [Hok -> -> -> ->]. unfold revision_of. by apply PolicyRevision_document.
Qed.

Lemma stores_inj row p p' : stores row p → stores row p' → p = p'.
Proof. intros H1%stores_reads H2%stores_reads. congruence. Qed.

(** A request is governed by one revision. *)
Lemma governed_inj t r p p' : Inv t → governed t r p → governed t r p' → p = p'.
Proof.
  intros Ht (row & Hin & Hs & Hst & Hc & Hv) (row' & Hin' & Hs' & Hst' & Hc' & Hv').
  apply (stores_inj row); [done|].
  assert (row = row') as ->; [|done].
  eapply NoDup_key_eq; [apply (inv_po_key _ Ht)|done..|].
  destruct Hst, Hst'. congruence.
Qed.

Lemma policies_named_inv t scope code version :
  Inv t →
  policies_named scope code version t = [] ∨
  ∃ row, policies_named scope code version t = [row] ∧ row ∈ t_policies t ∧
    po_scope row = scope ∧ po_policy_code row = code ∧ po_version row = version.
Proof.
  intros Ht. unfold policies_named.
  destruct (filter_key_unique
    (λ row, po_scope row = scope ∧ po_policy_code row = code ∧ po_version row = version)
    _ (scope, code, version) _ (inv_po_key _ Ht)) as [?|(row & ? & ? & ? & ? & ?)];
    [naive_solver|by left|right; eauto 10].
Qed.

Lemma requests_by_id_inv t scope rid :
  Inv t →
  requests_by_id scope rid t = [] ∨
  ∃ r, requests_by_id scope rid t = [r] ∧ r ∈ t_requests t ∧
    re_scope r = scope ∧ re_id r = rid.
Proof.
  intros Ht. unfold requests_by_id.
  destruct (filter_key_unique (λ r, re_scope r = scope ∧ re_id r = rid)
    _ rid _ (inv_re_id _ Ht)) as [?|(r & ? & ? & ? & ?)];
    [naive_solver|by left|right; eauto 10].
Qed.

Lemma requests_by_id_in t r :
  Inv t → r ∈ t_requests t → requests_by_id (re_scope r) (re_id r) t = [r].
Proof.
  intros Ht Hr. destruct (requests_by_id_inv t (re_scope r) (re_id r) Ht)
    as [E|(r' & E & Hin & _ & Hid)].
  - exfalso. assert (r ∈ requests_by_id (re_scope r) (re_id r) t)
      by by apply list_elem_of_filter.
    rewrite E in *. set_solver.
  - rewrite E. f_equal. by eapply NoDup_key_eq; [apply (inv_re_id _ Ht)|..].
Qed.

Lemma requests_by_key_inv t scope key :
  Inv t →
  requests_by_key scope key t = [] ∨
  ∃ r, requests_by_key scope key t = [r] ∧ r ∈ t_requests t ∧
    re_scope r = scope ∧ re_idempotency_key r = key.
Proof.
  intros Ht. unfold requests_by_key.
  destruct (filter_key_unique (λ r, re_scope r = scope ∧ re_idempotency_key r = key)
    _ (scope, key) _ (inv_re_key _ Ht)) as [?|(r & ? & ? & ? & ?)];
    [naive_solver|by left|right; eauto 10].
Qed.

(** [load_request] reads: it finds the request, or refuses. *)
Lemma load_request_run w scope rid res w' :
  Inv (w_tables w) → load_request scope rid w = (res, w') →
  w' = w ∧
  ((∃ r, res = Ok r ∧ r ∈ t_requests (w_tables w) ∧ re_scope r = scope ∧ re_id r = rid) ∨
   (∃ msg, res = Raise (ApprovalError PolicyNotFound msg) ∧
           requests_by_id scope rid (w_tables w) = [])).
Proof.
  intros Ht Hrun.
  destruct (requests_by_id_inv (w_tables w) scope rid Ht) as [E|(r & E & ? & ? & ?)];
    unfold load_request, mbind, ST_bind, tables, gets, lift in Hrun; rewrite E in Hrun;
    cbn in Hrun; injection Hrun as <- <-; eauto 10.
Qed.

(** [load_policy] of a request's revision finds the revision it is governed
    by. *)
Lemma load_policy_run w r p :
  Inv (w_tables w) → governed (w_tables w) r p →
  load_policy (re_scope r) (re_policy_code r) (re_policy_version r) w = (Ok p, w).
Proof.
  intros Ht (row & Hin & Hs & Hst & Hc & Hv).
  unfold load_policy, mbind, ST_bind, tables, gets, lift.
  destruct (policies_named_inv (w_tables w) (re_scope r) (re_policy_code r)
    (re_policy_version r) Ht) as [E|(row' & E & Hin' & ? & ? & ?)].
  - exfalso. assert (row ∈ policies_named (re_scope r) (re_policy_code r)
      (re_policy_version r) (w_tables w)).
    { apply list_elem_of_filter. destruct Hst. split; [|done]. split_and!; congruence. }
    rewrite E in *. set_solver.
  - rewrite E. cbn -[revision_of]. assert (row' = row) as ->.
    { eapply NoDup_key_eq; [apply (inv_po_key _ Ht)|done..|].
      destruct Hst. congruence. }
    by rewrite (stores_reads _ _ Hst).
Qed.

(** *** Decision histories *)

Lemma insert_decision_perm (d : DecisionRow S) l : insert_decision d l ≡ₚ d :: l.
Proof.
  induction l as [|d' l IH]; simpl; [done|].
  destruct (decided_before d d'); [done|]. rewrite IH. apply Permutation_swap.
Qed.

Lemma order_decisions_perm (l : list (DecisionRow S)) : order_decisions l ≡ₚ l.
Proof.
  induction l as [|d l IH]; simpl; [done|]. by rewrite insert_decision_perm, IH.
Qed.

Lemma recorded_valid (l : list (DecisionRow S)) :
  Forall action_valid l → recorded l = Ok (rd_of <$> l).
Proof.
  intros Hl. apply map_result_Ok. induction Hl as [|d l Hd Hl IH]; constructor; [|done].
  destruct d. unfold action_valid in Hd. simpl in *. unfold rd_of; simpl.
  by destruct Hd as [-> | ->].
Qed.

(** Only the set of recorded decisions matters to the rules. *)
Lemma level_satisfied_perm l ds ds' :
  ds ≡ₚ ds' → level_satisfied l ds = level_satisfied l ds'.
Proof.
  intros Hp. apply eq_true_iff_eq. split; apply level_satisfied_mono;
    intros x; by rewrite Hp.
Qed.

Lemma satisfied_count_perm p ds ds' :
  ds ≡ₚ ds' → satisfied_count p ds = satisfied_count p ds'.
Proof.
  intros Hp. unfold satisfied_count. induction (pr_levels p) as [|l ls IH]; [done|].
  simpl. by rewrite (level_satisfied_perm _ _ _ Hp), IH.
Qed.

Lemma evaluate_perm p st lvl ds ds' :
  ds ≡ₚ ds' → evaluate p st lvl ds = evaluate p st lvl ds'.
Proof. intros Hp. unfold evaluate. by rewrite (satisfied_count_perm _ _ _ Hp). Qed.

Lemma history_valid t r p st :
  request_ok t r p st → Forall action_valid (history t r).
Proof.
  intros Hr. apply Forall_forall. intros d Hd.
  destruct (ro_authorised _ _ _ _ Hr d Hd) as [l Hl]. apply Hl.
Qed.

Lemma load_decisions_run w scope rid :
  load_decisions scope rid w = (Ok (order_decisions (decisions_of (w_tables w) scope rid)), w).
Proof. done. Qed.

(** What loading and recording a history yields: the votes, up to order. *)
Lemma recorded_votes (ds : list (DecisionRow S)) :
  Forall action_valid ds →
  ∃ vs, recorded (order_decisions ds) = Ok vs ∧ vs ≡ₚ rd_of <$> ds.
Proof.
  intros Hv. exists (rd_of <$> order_decisions ds). split.
  - apply recorded_valid. by rewrite order_decisions_perm.
  - by rewrite order_decisions_perm.
Qed.

Lemma make_outcome_run w r p st events :
  request_ok (w_tables w) r p st →
  make_outcome (re_scope r) r p events w =
  (Ok (MkApprovalOutcome (re_id r)
         (evaluate p st (re_current_level r) (votes (w_tables w) r)) events), w).
Proof.
  intros Hr. unfold make_outcome.
  rewrite (ro_state _ _ _ _ Hr), ApprovalState_of_value.
  destruct (recorded_votes (history (w_tables w) r)) as (vs & Hvs & Hperm);
    [by eapply history_valid|].
  unfold mbind, ST_bind, lift. rewrite load_decisions_run. unfold history in Hvs.
  rewrite Hvs. unfold mret, ST_ret. do 3 f_equal.
  by apply evaluate_perm.
Qed.
End reads.

(** ** Table updates that preserve it *)

(** The attributes no command assigns after the insert. *)
Record same_request {S} (r r' : RequestRow S) : Prop := {
  sr_id : re_id r' = re_id r;
  sr_scope : re_scope r' = re_scope r;
  sr_code : re_policy_code r' = re_policy_code r;
  sr_version : re_policy_version r' = re_policy_version r;
  sr_subject_type : re_subject_type r' = re_subject_type r;
  sr_subject_id : re_subject_id r' = re_subject_id r;
  sr_digest : re_content_digest r' = re_content_digest r;
  sr_requester : re_requested_by r' = re_requested_by r;
  sr_key : re_idempotency_key r' = re_idempotency_key r;
  sr_created : re_created_at r' = re_created_at r;
}.

Section updates.
Context {S : Type} `{Plane S} `{Env}.
Implicit Types (t : Tables S) (w : World S) (r : RequestRow S) (row : PolicyRow S).

Lemma governed_frame t t' r r' p :
  t_policies t ⊆ t_policies t' → re_scope r' = re_scope r →
  re_policy_code r' = re_policy_code r → re_policy_version r' = re_policy_version r →
  governed t r p → governed t' r' p.
Proof. intros Hsub Hs Hc Hv (row & Hin & ?). exists row. rewrite Hs, Hc, Hv. eauto. Qed.

Lemma request_ok_frame t t' r p st :
  t_policies t ⊆ t_policies t' → t_withdrawals t ⊆ t_withdrawals t' →
  history t' r = history t r →
  request_ok t r p st → request_ok t' r p st.
Proof.
  intros Hp Hw Hh [Hg Hs Hl Ha Hst].
  split; [by eapply governed_frame|done|done|by rewrite Hh|].
  destruct st; unfold standing, votes in *; rewrite Hh; [done..|].
  destruct Hst as (? & ? & ? & ? & x & Hx & ? & ?). split_and!; eauto.
Qed.

(** Decisions on one request leave another request's history alone. *)
Lemma history_snoc_other t t' r0 rid D :
  t_decisions t' = t_decisions t ++ D →
  Forall (λ d, de_request_id d = rid) D → re_id r0 ≠ rid →
  history t' r0 = history t r0.
Proof.
  intros E HD Hne. unfold history, decisions_of. rewrite E, filter_app.
  replace (filter _ D) with (@nil (DecisionRow S)); [apply app_nil_r|].
  symmetry. apply filter_none. intros d Hd [_ E'].
  apply (proj1 (Forall_forall _ _) HD) in Hd. congruence.
Qed.

Lemma elem_of_replace r' (rows : list (RequestRow S)) x :
  NoDup (re_id <$> rows) →
  x ∈ replace_request r' rows →
  (x = r' ∧ ∃ r, r ∈ rows ∧ re_id r = re_id r') ∨ (x ∈ rows ∧ re_id x ≠ re_id r').
Proof.
  intros _ (y & -> & Hy)%list_elem_of_fmap. case_decide; eauto.
Qed.

Lemma replace_elem_of r' (rows : list (RequestRow S)) r :
  r ∈ rows → re_id r' = re_id r → r' ∈ replace_request r' rows.
Proof.
  intros Hr Hid. apply list_elem_of_fmap. exists r. by rewrite decide_True.
Qed.

Lemma replace_elem_of_other r' (rows : list (RequestRow S)) r :
  r ∈ rows → re_id r ≠ re_id r' → r ∈ replace_request r' rows.
Proof.
  intros Hr Hid. apply list_elem_of_fmap. exists r. by rewrite decide_False.
Qed.

Lemma replace_fmap {K} (key : RequestRow S → K) r' rows :
  (∀ r, r ∈ rows → re_id r = re_id r' → key r = key r') →
  key <$> replace_request r' rows = key <$> rows.
Proof.
  intros Hkey. unfold replace_request. rewrite <-list_fmap_compose.
  apply list_fmap_ext. intros i r Hr%list_elem_of_lookup_2. simpl.
  case_decide as E; [symmetry; by apply Hkey|done].
Qed.

(** The update every command on an existing request makes: the request takes
    new standing, some decisions on it and some evidence for it are
    appended. *)
Lemma Inv_update t t' r r' p st D W :
  Inv t → r ∈ t_requests t → same_request r r' →
  re_state r ≠ state_value WITHDRAWN →
  t_policies t' = t_policies t →
  t_requests t' = replace_request r' (t_requests t) →
  t_decisions t' = t_decisions t ++ D →
  t_withdrawals t' = t_withdrawals t ++ W →
  Forall (λ d, de_scope d = re_scope r ∧ de_request_id d = re_id r) D →
  NoDup (de_id <$> t_decisions t') →
  NoDup ((λ d, (de_scope d, de_request_id d, de_level d, de_actor_id d))
           <$> t_decisions t') →
  NoDup ((λ x, (wi_scope x, wi_request_id x)) <$> t_withdrawals t') →
  NoDup ((λ x, (wi_scope x, wi_external_ref x)) <$> t_withdrawals t') →
  Forall (λ x, withdrawal_ok t' x r') W →
  (∀ c, re_completed_at r' = Some c → aware_utc c) →
  request_ok t' r' p st →
  Inv t'.
Proof.
  intros Ht Hr [Hid Hscope ? ? ? ? ? ? Hkey ?] Hnw Ep Er Ed Ew HD Hnd1 Hnd2 Hnd3 Hnd4
    HW Hc Hok.
  assert (Hsame : ∀ r0, r0 ∈ t_requests t → re_id r0 = re_id r' → r0 = r).
  { intros r0 Hr0 E. rewrite Hid in E. by eapply NoDup_key_eq;
      [apply (inv_re_id _ Ht)|..]. }
  assert (Hother : ∀ x, x ∈ t_requests t' →
    x = r' ∨ (x ∈ t_requests t ∧ re_id x ≠ re_id r)).
  { intros x Hx. rewrite Er in Hx. apply elem_of_replace in Hx as [[-> _]|[? ?]];
      [by left|right; by rewrite Hid in *|apply (inv_re_id _ Ht)]. }
  split.
  - rewrite Ep. apply (inv_po_key _ Ht).
  - rewrite Er, replace_fmap; [apply (inv_re_id _ Ht)|done].
  - rewrite Er, replace_fmap; [apply (inv_re_key _ Ht)|].
    intros r0 Hr0 E. rewrite (Hsame r0) by done. congruence.
  - done.
  - done.
  - done.
  - done.
  - rewrite Ep. apply (inv_policy _ Ht).
  - intros x [->|[Hx Hne]]%Hother; [by eauto|].
    destruct (inv_request _ Ht x Hx) as (px & sx & Hox). exists px, sx.
    apply (request_ok_frame t t'); [by rewrite Ep|rewrite Ew; set_solver| |done].
    eapply history_snoc_other; [done| |done].
    eapply Forall_impl; [exact HD|]. naive_solver.
  - intros x c [->|[Hx Hne]]%Hother; [by apply Hc|by apply (inv_completed _ Ht)].
  - assert (Hex : ∀ d, (∃ r0, r0 ∈ t_requests t ∧ re_scope r0 = de_scope d ∧
        re_id r0 = de_request_id d) →
      ∃ r0, r0 ∈ t_requests t' ∧ re_scope r0 = de_scope d ∧ re_id r0 = de_request_id d).
    { intros d (r0 & Hr0 & ? & ?). rewrite Er.
      destruct (decide (re_id r0 = re_id r')) as [E|E].
      - exists r'. pose proof (Hsame r0 Hr0 E) as ->.
        split_and!; [by eapply replace_elem_of|congruence..].
      - exists r0. split; [by apply replace_elem_of_other|done]. }
    intros d Hd. apply Hex. rewrite Ed in Hd. apply elem_of_app in Hd as [Hd|Hd].
    + by apply (inv_decision _ Ht).
    + apply (proj1 (Forall_forall _ _) HD) in Hd as [? ?]. eauto.
  - intros x Hx. rewrite Ew in Hx. apply elem_of_app in Hx as [Hx|Hx].
    + destruct (inv_withdrawal _ Ht x Hx) as (r0 & [Hr0 ? ? Hst ? ?]).
      exists r0. split; [|done..]. rewrite Er. apply replace_elem_of_other; [done|].
      intros E. by rewrite (Hsame r0) in Hst.
    + exists r'. by apply (proj1 (Forall_forall _ _) HW).
Qed.

(** Publishing appends a policy row that stores a well-formed revision. *)
Lemma Inv_add_policy t row p :
  Inv t → stores row p → check_policy t row = Ok tt →
  Inv (with_policies (t_policies t ++ [row]) t).
Proof.
  intros Ht Hst Hck. unfold check_policy in Hck. result_inv. bool_to_prop.
  assert (Hsub : t_policies t ⊆ t_policies t ++ [row]) by set_solver.
  destruct Ht. split; try done; cbn [with_policies t_policies t_requests].
  - apply NoDup_key_snoc; [done|]. intros y Hy E.
    match goal with H : ∀ x, _ → _ && _ && _ = false |- _ => specialize (H y Hy) end.
    injection E as E1 E2 E3. rewrite E1, E2, E3, bool_decide_true in * by done.
    rewrite String.eqb_refl, Z.eqb_refl in *. done.
  - intros row' [Hrow'| ->%list_elem_of_singleton]%elem_of_app; eauto.
  - intros r Hr. destruct (inv_request0 r Hr) as (q & st & Hok). exists q, st.
    by eapply request_ok_frame in Hok.
  - intros w Hw. destruct (inv_withdrawal0 w Hw) as (r & []). by exists r.
Qed.

(** Opening a request appends a pending row at level 1. *)
Lemma Inv_add_request t r p :
  Inv t → governed t r p → policy_ok p → re_state r = state_value PENDING →
  re_current_level r = 1%Z → re_completed_at r = None →
  check_request t r = Ok tt →
  Inv (with_requests (t_requests t ++ [r]) t) ∧
  history (with_requests (t_requests t ++ [r]) t) r = [] ∧
  request_ok (with_requests (t_requests t ++ [r]) t) r p PENDING.
Proof.
  intros Ht Hg Hp Hst Hlvl Hc Hck. unfold check_request in Hck. result_inv. bool_to_prop.
  set (t' := with_requests _ t).
  assert (Hnew : ∀ y, y ∈ t_requests t → re_id y ≠ re_id r).
  { intros y Hy E. match goal with H : ∀ x, _ → bool_decide _ = false |- _ =>
      specialize (H y Hy) end. by rewrite bool_decide_true in *. }
  assert (Hh : history t' r = []).
  { unfold history, decisions_of. apply filter_none.
    intros d Hd [_ E]. destruct (inv_decision _ Ht d Hd) as (y & Hy & _ & Ey).
    apply (Hnew y Hy). congruence. }
  assert (Hok : request_ok t' r p PENDING).
  { pose proof (policy_ok_total _ Hp) as Htot.
    split; [done|done|lia|rewrite Hh; set_solver|].
    unfold standing, votes. rewrite Hh. cbn [fmap list_fmap].
    rewrite satisfied_count_nil by done. split_and!; [done|constructor|lia..]. }
  split_and!; [|done..].
  assert (Hsub : t_requests t ⊆ t_requests t ++ [r]) by set_solver.
  pose proof Ht as []. split; try done; cbn [t' with_requests t_policies t_requests].
  - by apply NoDup_key_snoc.
  - apply NoDup_key_snoc; [done|]. intros y Hy E. injection E as E1 E2.
    match goal with H : ∀ x, _ → _ && _ = false |- _ => specialize (H y Hy) end.
    rewrite E1, E2, bool_decide_true, String.eqb_refl in * by done. done.
  - intros z [Hx| ->%list_elem_of_singleton]%elem_of_app; [|by eauto].
    destruct (inv_request0 z Hx) as (q & s & Hx'). exists q, s.
    by eapply request_ok_frame in Hx'.
  - intros z c [Hx| ->%list_elem_of_singleton]%elem_of_app; [by apply inv_completed0|].
    congruence.
  - intros d Hd. destruct (inv_decision0 d Hd) as (y & Hy & ?). eauto.
  - intros w Hw. destruct (inv_withdrawal0 w Hw) as (y & [Hy]). exists y. split; auto.
Qed.
End updates.
