(* ===== verification/ApprovalCommands.v ===== *)
(** * What the approval commands do

    Under the invariant of the tables, each command of [service.py] either
    raises and leaves the tables as they were, or makes one transition of one
    request, which this file describes and shows to preserve the invariant. *)

From S2P Require Import Prelude PyData PyTime ApprovalContracts ApprovalPolicy.
From S2P Require Import ApprovalStore ApprovalService ApprovalWithdrawal ApprovalReads.
From S2P Require Import ApprovalInvariant.
From stdpp Require Import base gmap strings pretty list.
From Stdlib Require Import ZArith.

(** Split the run of a bind into the case where the first call returned and the
    case where it raised. *)
Ltac bind_inv H a w1 Hm :=
  let e := fresh "e" in
  apply ST_bind_run in H as [(a & w1 & Hm & H)|(e & Hm & ->)].

(** The same for a run that is known to have returned. *)
Ltac bind_ok H a w1 Hm := apply ST_bind_Ok in H as (a & w1 & Hm & H).

(** The votes on a request in the order the service loads them. *)
Definition ordered_votes {S} `{Plane S} (t : Tables S) (r : RequestRow S)
    : list RecordedDecision := rd_of <$> order_decisions (history t r).

(** The request an approve or a reject leaves behind, given the votes after it. *)
Definition decided {S} (p : PolicyRevision) (r : RequestRow S) (action : DecisionAction)
    (vs : list RecordedDecision) (now : datetime) (comment : option string)
    : RequestRow S :=
  match action with
  | REJECT => set_standing r REJECTED (Some now) comment
  | APPROVE =>
      let e := evaluate p PENDING (re_current_level r) vs in
      let r := set_level r (ev_current_level e) in
      if ev_is_approved e then set_standing r APPROVED (Some now) (re_note r) else r
  end.

Definition decided_state (p : PolicyRevision) (level : Z) (action : DecisionAction)
    (vs : list RecordedDecision) : ApprovalState :=
  match action with
  | REJECT => REJECTED
  | APPROVE => ev_state (evaluate p PENDING level vs)
  end.

Section commands.
Context {S : Type} `{Plane S} `{Env}.
Implicit Types (t : Tables S) (w : World S) (r : RequestRow S) (d : DecisionRow S)
  (actor : Actor) (action : DecisionAction).

(** ** Session primitives *)

Lemma tables_run w res w' :
  tables w = (res, w') ↔ res = Ok (w_tables w) ∧ w' = w.
Proof. unfold tables, gets. naive_solver. Qed.

Lemma now_utc_run w res w' :
  now_utc w = (res, w') → w_tables w' = w_tables w ∧
    ∃ c, res = Ok (utc_of c).
Proof. unfold now_utc. intros [= <- <-]. eauto. Qed.

Lemma draw_uuid4_run w res w' :
  draw_uuid4 w = (res, w') → w_tables w' = w_tables w ∧ ∃ u, res = Ok u.
Proof. unfold draw_uuid4. intros [= <- <-]. eauto. Qed.

(** An insert checks the constraints and appends, or raises and does
    nothing. *)
Lemma insert_run {R} (check : Tables S → R → result exn unit)
    (put : R → Tables S → Tables S) row w res w' :
  (t ← tables; _ ← lift (check t row); put_tables (put row t)) w = (res, w') →
  (check (w_tables w) row = Ok tt ∧ res = Ok tt ∧
    w_tables w' = put row (w_tables w)) ∨
  (∃ e, check (w_tables w) row = Raise e ∧ res = Raise e ∧ w' = w).
Proof.
  unfold mbind, ST_bind, tables, gets, lift, put_tables, modify.
  destruct (check _ row) as [[]|e]; intros [= <- <-]; [by left|right; eauto].
Qed.

Lemma add_policy_run row w res w' :
  add_policy row w = (res, w') →
  (check_policy (w_tables w) row = Ok tt ∧ res = Ok tt ∧
    w_tables w' = with_policies (t_policies (w_tables w) ++ [row]) (w_tables w)) ∨
  (∃ e, check_policy (w_tables w) row = Raise e ∧ res = Raise e ∧ w' = w).
Proof. apply (insert_run check_policy
  (λ row t, with_policies (t_policies t ++ [row]) t)). Qed.
Lemma add_request_run row w res w' :
  add_request row w = (res, w') →
  (check_request (w_tables w) row = Ok tt ∧ res = Ok tt ∧
    w_tables w' = with_requests (t_requests (w_tables w) ++ [row]) (w_tables w)) ∨
  (∃ e, check_request (w_tables w) row = Raise e ∧ res = Raise e ∧ w' = w).
Proof. apply (insert_run check_request
  (λ row t, with_requests (t_requests t ++ [row]) t)). Qed.
Lemma add_decision_run row w res w' :
  add_decision row w = (res, w') →
  (check_decision (w_tables w) row = Ok tt ∧ res = Ok tt ∧
    w_tables w' = with_decisions (t_decisions (w_tables w) ++ [row]) (w_tables w)) ∨
  (∃ e, check_decision (w_tables w) row = Raise e ∧ res = Raise e ∧ w' = w).
Proof. apply (insert_run check_decision
  (λ row t, with_decisions (t_decisions t ++ [row]) t)). Qed.
Lemma add_withdrawal_run row w res w' :
  add_withdrawal row w = (res, w') →
  (check_withdrawal (w_tables w) row = Ok tt ∧ res = Ok tt ∧
    w_tables w' = with_withdrawals (t_withdrawals (w_tables w) ++ [row]) (w_tables w)) ∨
  (∃ e, check_withdrawal (w_tables w) row = Raise e ∧ res = Raise e ∧ w' = w).
Proof. apply (insert_run check_withdrawal
  (λ row t, with_withdrawals (t_withdrawals t ++ [row]) t)). Qed.
Lemma add_outbox_run row w res w' :
  add_outbox row w = (res, w') →
  (check_outbox (w_tables w) row = Ok tt ∧ res = Ok tt ∧
    w_tables w' = with_outbox (t_outbox (w_tables w) ++ [row]) (w_tables w)) ∨
  (∃ e, check_outbox (w_tables w) row = Raise e ∧ res = Raise e ∧ w' = w).
Proof. apply (insert_run check_outbox
  (λ row t, with_outbox (t_outbox t ++ [row]) t)). Qed.

Lemma flush_request_run row w res w' :
  flush_request row w = (res, w') →
  res = Ok tt ∧ w_tables w' = with_requests (replace_request row
    (t_requests (w_tables w))) (w_tables w).
Proof.
  unfold flush_request, mbind, ST_bind, tables, gets, put_tables, modify.
  by intros [= <- <-].
Qed.

(** A request found in state [s] is [request_ok] in that state. *)
Lemma request_standing t r s :
  Inv t → r ∈ t_requests t → re_state r = state_value s →
  ∃ p, request_ok t r p s.
Proof.
  intros Ht Hr Hs. destruct (inv_request _ Ht r Hr) as (p & st & Hok).
  exists p. assert (st = s) as <-; [|done].
  apply (inj state_value). by rewrite <-(ro_state _ _ _ _ Hok).
Qed.

Lemma require_pending_Ok r u :
  require_pending r = Ok u ↔ re_state r = state_value PENDING.
Proof.
  unfold require_pending. rewrite raise_if_Ok. split; intros Hr.
  - by bool_to_prop.
  - by rewrite Hr.
Qed.

Lemma require_content_Ok r digest u :
  require_content r digest = Ok u ↔ re_content_digest r = digest.
Proof.
  unfold require_content. rewrite raise_if_Ok. split; intros Hr.
  - by bool_to_prop.
  - by rewrite Hr, String.eqb_refl.
Qed.

(** ** Recording a decision *)

(** The rules a recorded decision passed, and the level it is at. *)
Definition passed (p : PolicyRevision) r actor action (vs : list RecordedDecision)
    (l : ApprovalLevel) : Prop :=
  match action with
  | APPROVE => may_approve p (re_current_level r) actor (re_requested_by r) vs l
  | REJECT => may_reject p (re_current_level r) actor vs l
  end.

Lemma authorise_decision_Ok p r actor action vs u :
  authorise_decision p r actor action vs = Ok u ↔ ∃ l, passed p r actor action vs l.
Proof.
  unfold authorise_decision, passed. destruct action, u.
  - rewrite result_bind_Ok. setoid_rewrite authorise_approval_Ok. naive_solver.
  - rewrite result_bind_Ok. split.
    + intros (l & Hl & Hrun). result_inv. exists l.
      rewrite check_not_duplicate_Ok, check_eligibility_Ok, check_mfa_Ok in *. by split.
    + intros (l & [Hl H1 H2 H3]). exists l. split; [done|].
      by rewrite (proj2 (check_not_duplicate_Ok l actor vs tt) H1),
        (proj2 (check_eligibility_Ok l actor tt) H2), (proj2 (check_mfa_Ok l actor tt) H3).
Qed.

Lemma elem_of_votes (ds : list (DecisionRow S)) k a :
  (∃ v, v ∈ rd_of <$> order_decisions ds ∧ rd_level v = k ∧ rd_actor_id v = a) ↔
  (∃ d, d ∈ ds ∧ de_level d = k ∧ de_actor_id d = a).
Proof.
  pose proof (order_decisions_perm ds) as Hp. split.
  - intros (v & (d & -> & Hd)%list_elem_of_fmap & <- & <-). rewrite Hp in Hd. by exists d.
  - intros (d & Hd & <- & <-). exists (rd_of d).
    split; [|done]. apply list_elem_of_fmap. exists d. by rewrite Hp.
Qed.

(** The new row carries the authority the rules checked. *)
Lemma passed_authorised p r actor action l (ds : list (DecisionRow S)) d :
  policy_ok p → passed p r actor action (rd_of <$> order_decisions ds) l →
  de_level d = re_current_level r → de_actor_id d = actor_id actor →
  de_action d = action_value action → de_mfa_verified d = mfa_verified actor →
  authorised p r (ds ++ [d]) d l.
Proof.
  intros Hp Hpass Hl Ha Hact Hmfa.
  assert (Hlvl : pr_level p (re_current_level r) = Ok l) by (destruct action; apply Hpass).
  assert (Hel : eligible l actor) by (destruct action; apply Hpass).
  assert (Hm : mfa_met l actor) by (destruct action; apply Hpass).
  pose proof (pr_level_sequence _ _ _ Hp Hlvl) as Hseq.
  assert (Hsep : de_action d = action_value APPROVE → action = APPROVE).
  { rewrite Hact. apply (inj action_value). }
  split; rewrite ?Hl, ?Ha, ?Hmfa; [|done|lia| |done|..].
  - unfold action_valid. destruct action; auto.
  - unfold eligible in Hel. by intros Hk; rewrite Hk in Hel.
  - intros ->%Hsep. apply Hpass.
  - intros ->%Hsep Hrule. pose proof (ma_separated _ _ _ _ _ _ Hpass) as Hs.
    unfold separated in Hs. by rewrite Hrule in Hs.
  - intros ->%Hsep Hrule d' [Hd'|Hd']%elem_of_app Hlt.
    + pose proof (ma_separated _ _ _ _ _ _ Hpass) as Hs.
      unfold separated in Hs. rewrite Hrule in Hs. intros Heq.
      destruct (proj2 (elem_of_votes ds (de_level d') (de_actor_id d'))) as (v & Hv & Hvl & Hva);
        [by exists d'|].
      apply (Hs v Hv); [lia|congruence].
    + apply list_elem_of_singleton in Hd' as ->. lia.
Qed.

(** Decisions recorded before keep theirs. *)
Lemma authorised_snoc p r r' ds d0 d l :
  same_request r r' → (re_current_level r ≤ re_current_level r')%Z →
  de_level d = re_current_level r →
  authorised p r ds d0 l → authorised p r' (ds ++ [d]) d0 l.
Proof.
  intros Hsame Hle Hd [? ? ? ? ? ? ? ?]. pose proof (sr_requester _ _ Hsame) as Hreq.
  split; rewrite ?Hreq; [done..|lia|done|done|done|done|].
  intros Ha Hrule d' [Hd'| ->%list_elem_of_singleton]%elem_of_app Hlt; [eauto|lia].
Qed.

Lemma decided_same p r action vs now comment :
  same_request r (decided p r action vs now comment).
Proof. unfold decided. destruct action; [case_match|]; by split. Qed.

Lemma decided_re_state p r action vs now comment :
  re_state r = state_value PENDING →
  re_state (decided p r action vs now comment)
  = state_value (decided_state p (re_current_level r) action vs).
Proof.
  intros Hs. unfold decided, decided_state, ev_is_approved, evaluate.
  destruct action; [|done]. by destruct (_ <=? _)%Z.
Qed.

(** Where a decision on a pending request leaves the level. *)
Lemma evaluate_pending p k vs :
  policy_ok p →
  let e := evaluate p PENDING k vs in
  (ev_state e = APPROVED ∧ satisfied_count p vs = pr_total_levels p ∧
   ev_current_level e = pr_total_levels p) ∨
  (ev_state e = PENDING ∧ (satisfied_count p vs < pr_total_levels p)%Z ∧
   ev_current_level e = (satisfied_count p vs + 1)%Z).
Proof.
  intros Hp. pose proof (satisfied_count_bounds p vs). unfold evaluate.
  destruct (Z.leb_spec (pr_total_levels p) (satisfied_count p vs)); simpl;
    [left|right]; split_and!; lia || done.
Qed.

Lemma decided_level p r action vs now comment :
  policy_ok p → (re_current_level r ≤ pr_total_levels p)%Z →
  (re_current_level r ≤ satisfied_count p vs + 1)%Z →
  (re_current_level r ≤ re_current_level (decided p r action vs now comment)
    ≤ pr_total_levels p)%Z.
Proof.
  intros Hp Htot Hsat. unfold decided. destruct action; [|simpl; lia].
  destruct (evaluate_pending p (re_current_level r) vs Hp) as [(_ & ? & E)|(_ & ? & E)];
    case_match; cbn -[evaluate]; rewrite E; lia.
Qed.

Lemma history_snoc t t' r d :
  t_decisions t' = t_decisions t ++ [d] →
  de_scope d = re_scope r → de_request_id d = re_id r →
  history t' r = history t r ++ [d].
Proof.
  intros E Hs Hi. unfold history, decisions_of. rewrite E, filter_app.
  by rewrite filter_cons_True.
Qed.

Lemma history_same t r r' : same_request r r' → history t r' = history t r.
Proof. intros [Hid Hs]. unfold history. by rewrite Hid, Hs. Qed.

Lemma decided_standing t p r action d c comment vs :
  policy_ok p → standing t r p PENDING →
  vs ≡ₚ rd_of <$> (history t r ++ [d]) →
  de_action d = action_value action →
  ∀ t', history t' r = history t r ++ [d] →
  standing t' (decided p r action vs (utc_of c) comment) p
    (decided_state p (re_current_level r) action vs).
Proof.
  intros Hp (Hc & Hun & Hlt & Hlvl) Hvs Hact t' Hh.
  set (r' := decided _ _ _ _ _ _).
  assert (Hh' : history t' r' = history t r ++ [d])
    by (rewrite (history_same _ r); [done|apply decided_same]).
  assert (Hv' : satisfied_count p (votes t' r') = satisfied_count p vs)
    by (apply satisfied_count_perm; unfold votes; by rewrite Hh', Hvs).
  unfold standing. rewrite Hh', Hv'. subst r'. unfold decided, decided_state.
  destruct action.
  - assert (unrejected (history t r ++ [d])).
    { apply Forall_app. split; [done|]. by apply Forall_singleton. }
    destruct (evaluate_pending p (re_current_level r) vs Hp) as [(E & ? & El)|(E & ? & El)];
      unfold ev_is_approved; rewrite E; [rewrite bool_decide_true by done
      |rewrite bool_decide_false by done]; simpl; split_and!; eauto; lia.
  - split; [done|]. intros [_ Hd]%Forall_app. rewrite Forall_singleton in Hd.
    by rewrite Hact in Hd.
Qed.

(** The tables after a decision: the row appended, the request replaced. *)
Definition after_decision t d r' : Tables S :=
  with_requests (replace_request r' (t_requests t))
    (with_decisions (t_decisions t ++ [d]) t).

(** A decision the rules admit and the schema accepts keeps the invariant. *)
Lemma decision_transition t p r actor action l d c comment vs :
  Inv t → r ∈ t_requests t → request_ok t r p PENDING →
  passed p r actor action (ordered_votes t r) l →
  de_scope d = re_scope r → de_request_id d = re_id r →
  de_level d = re_current_level r → de_actor_id d = actor_id actor →
  de_action d = action_value action → de_mfa_verified d = mfa_verified actor →
  check_decision t d = Ok tt →
  vs ≡ₚ rd_of <$> (history t r ++ [d]) →
  let r' := decided p r action vs (utc_of c) comment in
  Inv (after_decision t d r') ∧
  request_ok (after_decision t d r') r' p
    (decided_state p (re_current_level r) action vs).
Proof.
  intros Ht Hr Hok Hpass Hs Hi Hl Ha Hact Hmfa Hck Hvs r'.
  destruct (ro_governed _ _ _ _ Hok) as (row & Hrow & Hg).
  assert (Hp : policy_ok p) by apply Hg.
  pose proof (decided_same p r action vs (utc_of c) comment) as Hsame. fold r' in Hsame.
  set (t' := after_decision t d r').
  assert (Hh : history t' r = history t r ++ [d]) by by apply history_snoc.
  destruct (ro_standing _ _ _ _ Hok) as (Hnone & _ & Hlt & Hlvl).
  assert (Hsat : (satisfied_count p (votes t r) ≤ satisfied_count p vs)%Z).
  { apply satisfied_prefix_mono. unfold votes. rewrite Hvs, fmap_app. set_solver. }
  pose proof (ro_level _ _ _ _ Hok) as Hrl.
  destruct (decided_level p r action vs (utc_of c) comment Hp) as [Hle Hge]; [lia..|].
  fold r' in Hle, Hge.
  assert (Hok' : request_ok t' r' p (decided_state p (re_current_level r) action vs)).
  { split.
    - exists row. by rewrite (sr_scope _ _ Hsame), (sr_code _ _ Hsame),
        (sr_version _ _ Hsame).
    - apply decided_re_state, Hok.
    - lia.
    - rewrite (history_same _ r), Hh by done.
      intros d0 [Hd0| ->%list_elem_of_singleton]%elem_of_app.
      + destruct (ro_authorised _ _ _ _ Hok d0 Hd0) as [l0 Hl0]. exists l0.
        by eapply authorised_snoc.
      + exists l. pose proof (passed_authorised p r actor action l (history t r) d Hp
          Hpass Hl Ha Hact Hmfa) as [? ? ? ? ? ? ? ?].
        split; rewrite ?(sr_requester _ _ Hsame); done || lia.
    - by apply (decided_standing t p r action d); try apply Hok. }
  split; [|done].
  unfold check_decision in Hck. result_inv. bool_to_prop.
  eapply (Inv_update t t' r r' p _ [d] []); try done; try (by rewrite app_nil_r);
    try (by destruct Ht).
  - by rewrite (ro_state _ _ _ _ Hok).
  - by apply Forall_singleton.
  - apply NoDup_key_snoc; [apply (inv_de_id _ Ht)|]. intros y Hy E.
    match goal with H : ∀ x, _ → bool_decide _ = false |- _ => specialize (H y Hy) end.
    by rewrite bool_decide_true in *.
  - apply NoDup_key_snoc; [apply (inv_de_vote _ Ht)|]. intros y Hy E. simplify_eq.
    match goal with H : ∀ x, _ → _ && _ && _ && _ = false |- _ => specialize (H y Hy) end.
    repeat match goal with E : _ y = _ d |- _ => rewrite E in *; clear E end.
    rewrite !bool_decide_true, Z.eqb_refl in * by done. done.
  - intros c' Hc'. subst r'. unfold decided in Hc'.
    destruct action; [case_match|]; simpl in Hc'; simplify_eq; done || congruence.
Qed.

(** The event of a state change, evidence aside. *)
Definition event_of r (s : ApprovalState) : ApprovalEvent :=
  MkApprovalEvent (EVENT_FOR_STATE s) (re_subject_type r) (re_subject_id r) (re_id r)
    (re_policy_code r) (re_policy_version r) (re_content_digest r) s None.

Lemma state_event_run r s :
  re_state r = state_value s → s ≠ WITHDRAWN → state_event r = Ok (event_of r s).
Proof.
  intros Hs Hne. unfold state_event. rewrite Hs, ApprovalState_of_value.
  unfold make_event, ApprovalEvent_check, event_of; simpl.
  by rewrite bool_decide_false.
Qed.

(** The outcome a command reports for a request left in state [s]. *)
Definition outcome_of t r (p : PolicyRevision) (s : ApprovalState)
    (events : list ApprovalEvent) : ApprovalOutcome :=
  MkApprovalOutcome (re_id r) (evaluate p s (re_current_level r) (votes t r)) events.

(** Loading a request, its policy and its votes, as the commands begin. *)
Lemma load_context w r p st :
  Inv (w_tables w) → request_ok (w_tables w) r p st →
  load_policy (re_scope r) (re_policy_code r) (re_policy_version r) w = (Ok p, w) ∧
  recorded (order_decisions (history (w_tables w) r)) = Ok (ordered_votes (w_tables w) r).
Proof.
  intros Ht Hok. split; [apply load_policy_run; [done|apply Hok]|].
  apply recorded_valid. rewrite order_decisions_perm. by eapply history_valid.
Qed.

(** What a decision that was recorded did. *)
Record decision_made t (scope : S) (rid : UUID) actor action (digest : string)
    (comment : option string) (delegated : option UUID) (t' : Tables S)
    (o : ApprovalOutcome) r (p : PolicyRevision) d c : Prop := {
  dm_in : r ∈ t_requests t;
  dm_scope : re_scope r = scope;
  dm_id : re_id r = rid;
  dm_ok : request_ok t r p PENDING;
  dm_digest : re_content_digest r = digest;
  dm_passed : ∃ l, passed p r actor action (ordered_votes t r) l;
  dm_row : d = MkDecisionRow (de_id d) scope rid (re_current_level r) (actor_id actor)
    (action_value action) comment delegated (mfa_verified actor) (de_decided_at d);
  dm_checked : check_decision t d = Ok tt;
  dm_tables : t' = after_decision t d (decided p r action
    (rd_of <$> order_decisions (history t r ++ [d])) (utc_of c) comment);
  dm_outcome : let vs := rd_of <$> order_decisions (history t r ++ [d]) in
    let r' := decided p r action vs (utc_of c) comment in
    let s := decided_state p (re_current_level r) action vs in
    o = outcome_of t' r' p s (if decide (s = PENDING) then [] else [event_of r' s]);
}.

(** From a decision made, the invariant and the request's new standing. *)
Lemma decision_made_inv t scope rid actor action digest comment delegated t' o r p d c :
  Inv t →
  decision_made t scope rid actor action digest comment delegated t' o r p d c →
  let vs := rd_of <$> order_decisions (history t r ++ [d]) in
  let r' := decided p r action vs (utc_of c) comment in
  Inv t' ∧ request_ok t' r' p (decided_state p (re_current_level r) action vs).
Proof.
  intros Ht [Hr <- <- Hok _ (l & Hl) Hd Hck -> _].
  apply (decision_transition t p r actor action l d); try done.
  1-6: by rewrite Hd. by rewrite order_decisions_perm.
Qed.

(** A call that refused: it raised and the tables are as before. *)
Definition refused {A} w (res : result exn A) w' : Prop :=
  (∃ e, res = Raise e) ∧ w_tables w' = w_tables w.

Lemma make_outcome_of w r p st events :
  request_ok (w_tables w) r p st →
  make_outcome (re_scope r) r p events w = (Ok (outcome_of (w_tables w) r p st events), w).
Proof. apply make_outcome_run. Qed.

(** Flushing a request and reporting its new state. *)
Lemma finish_run w scope r' p s :
  let t' := with_requests (replace_request r' (t_requests (w_tables w))) (w_tables w) in
  re_scope r' = scope → request_ok t' r' p s → s ≠ WITHDRAWN →
  (_ ← flush_request r'; event ← lift (state_event r');
   make_outcome scope r' p [event]) w
  = (Ok (outcome_of t' r' p s [event_of r' s]), set_tables t' w).
Proof.
  intros t' <- Hok Hs. unfold mbind, ST_bind, lift.
  unfold flush_request, mbind, ST_bind, tables, gets, put_tables, modify.
  rewrite (state_event_run r' s); [|apply Hok|done].
  by apply (make_outcome_of (set_tables t' w)).
Qed.

(** The end of [record_decision], once the row is in. *)
Lemma settle_decision_run w w' t p r action comment d res :
  w_tables w = with_decisions (t_decisions t ++ [d]) t →
  de_scope d = re_scope r → de_request_id d = re_id r →
  Forall action_valid (history t r ++ [d]) → policy_ok p →
  (∀ c, let vs := rd_of <$> order_decisions (history t r ++ [d]) in
    let r' := decided p r action vs (utc_of c) comment in
    request_ok (after_decision t d r') r' p
      (decided_state p (re_current_level r) action vs)) →
  settle_decision (re_scope r) r p action comment w = (res, w') →
  ∃ c, let vs := rd_of <$> order_decisions (history t r ++ [d]) in
    let r' := decided p r action vs (utc_of c) comment in
    let s := decided_state p (re_current_level r) action vs in
    w_tables w' = after_decision t d r' ∧
    res = Ok (outcome_of (w_tables w') r' p s
                (if decide (s = PENDING) then [] else [event_of r' s])).
Proof.
  intros Ew Hds Hdi Hdv Hp Hafter Hrun.
  set (vs := rd_of <$> order_decisions (history t r ++ [d])) in *.
  exists (clock (w_tick w)). specialize (Hafter (clock (w_tick w))). revert Hafter.
  cbv beta zeta. set (now := utc_of _). intros Hafter.
  assert (Hreqs : ∀ w1 r', w_tables w1 = w_tables w →
    with_requests (replace_request r' (t_requests (w_tables w1))) (w_tables w1)
    = after_decision t d r') by (intros w1 r' ->; by rewrite Ew).
  destruct action; unfold settle_decision in Hrun.
  - rewrite (session_step _ _ _ _ _ (load_decisions_run _ _ _)) in Hrun.
    assert (decisions_of (w_tables w) (re_scope r) (re_id r) = history t r ++ [d]) as Eh
      by (rewrite Ew; by apply history_snoc).
    rewrite Eh, (session_lift _ _ _ vs) in Hrun
      by (apply recorded_valid; by rewrite order_decisions_perm).
    unfold decided, decided_state in *. cbv zeta in Hrun, Hafter.
    destruct (evaluate_pending p (re_current_level r) vs Hp) as [(E & _)|(E & _)];
      unfold ev_is_approved in *; rewrite E in *;
      [rewrite bool_decide_true in * by done|rewrite bool_decide_false in * by done].
    + rewrite (session_step now_utc _ w now (snd (now_utc w))) in Hrun by done.
      pose proof (Hreqs (snd (now_utc w))) as Hreq.
      rewrite (finish_run _ _ _ _ APPROVED) in Hrun; try done; rewrite Hreq in *; try done.
      by injection Hrun as <- <-.
    + rewrite (session_step (flush_request _) _ w tt
        (set_tables (after_decision t d (set_level r
          (ev_current_level (evaluate p PENDING (re_current_level r) vs)))) w)) in Hrun
        by (rewrite <-(Hreqs w) by done; done).
      change (re_scope r) with (re_scope (set_level r
        (ev_current_level (evaluate p PENDING (re_current_level r) vs)))) in Hrun.
      erewrite make_outcome_of in Hrun by done.
      by injection Hrun as <- <-.
  - rewrite (session_step now_utc _ w now (snd (now_utc w))) in Hrun by done.
    pose proof (Hreqs (snd (now_utc w))) as Hreq. unfold decided, decided_state in *.
    cbv zeta in Hrun.
    rewrite (finish_run _ _ _ _ REJECTED) in Hrun; try done; rewrite Hreq in *; try done.
    by injection Hrun as <- <-.
Qed.

Lemma refused_lift {A B} (m : result exn A) e w w1 :
  lift m w = (Raise e, w1) → refused (A:=B) w (Raise e) w1.
Proof. intros [= _ <-]. split; eauto. Qed.

(** [record_decision] refuses, or makes the decision. *)
Lemma record_decision_run scope rid actor action digest comment delegated w res w' :
  Inv (w_tables w) →
  record_decision scope rid actor action digest comment delegated w = (res, w') →
  refused w res w' ∨
  ∃ o r p d c, res = Ok o ∧ decision_made (w_tables w) scope rid actor action digest
    comment delegated (w_tables w') o r p d c.
Proof.
  intros Ht Hrun. unfold record_decision in Hrun.
  bind_inv Hrun r w1 Hm; apply load_request_run in Hm as [-> Hld]; [|done|by left; split; eauto|done].
  destruct Hld as [(r' & [= <-] & Hr & <- & <-)|(msg & [=] & _)].
  bind_inv Hrun u w1 Hm; [|by left; eapply refused_lift].
  apply lift_run in Hm as [Hpend%require_pending_Ok <-].
  destruct (request_standing _ _ _ Ht Hr Hpend) as [p Hok].
  destruct (load_context w r p _ Ht Hok) as [Hpol Hrec].
  bind_inv Hrun u1 w1 Hm; [|by left; eapply refused_lift].
  apply lift_run in Hm as [Hdig%require_content_Ok <-].
  rewrite (session_step _ _ _ _ _ Hpol), (session_step _ _ _ _ _ (load_decisions_run _ _ _)),
    (session_lift _ _ _ _ Hrec) in Hrun.
  bind_inv Hrun u2 w1 Hm; [|by left; eapply refused_lift].
  apply lift_run in Hm as [[l Hpass]%authorise_decision_Ok <-].
  rewrite (session_step now_utc _ w (utc_of (clock (w_tick w))) (snd (now_utc w))) in Hrun
    by done.
  rewrite (session_step draw_uuid4 _ _ (uuid4 (w_drawn w))
    (snd (draw_uuid4 (snd (now_utc w))))) in Hrun by done.
  set (d := MkDecisionRow _ _ _ _ _ _ _ _ _ _) in Hrun.
  bind_inv Hrun u3 w1 Hm; apply add_decision_run in Hm as [(Hck & Hu & Ew)|(e' & _ & Hu & Ew)];
    try done; [|left; split; [eauto|by rewrite Ew]].
  cbn [w_tables now_utc draw_uuid4 snd] in Hck, Ew.
  right.
  assert (Hdec : ∀ c vs, vs ≡ₚ rd_of <$> (history (w_tables w) r ++ [d]) →
    let r' := decided p r action vs (utc_of c) comment in
    Inv (after_decision (w_tables w) d r') ∧
    request_ok (after_decision (w_tables w) d r') r' p
      (decided_state p (re_current_level r) action vs)).
  { intros c vs Hvs. by apply (decision_transition _ p r actor action l d). }
  destruct (ro_governed _ _ _ _ Hok) as (row & _ & _ & Hst & _).
  edestruct (settle_decision_run w1 w' (w_tables w) p r action comment d) as (c & Etab & Eres);
    [done|done|done| |by destruct Hst| |done|].
  - apply Forall_app. split; [by eapply history_valid|]. apply Forall_singleton.
    unfold action_valid, d; simpl. destruct action; auto.
  - intros c. apply Hdec. by rewrite order_decisions_perm.
  - eexists _, r, p, d, c. split; [exact Eres|]. split; eauto.
Qed.

(** ** Publishing, opening, cancelling *)

(** The row a published revision is stored as. *)
Definition policy_row (scope : S) (p : PolicyRevision) (id : UUID) (at_ : datetime)
    : PolicyRow S :=
  MkPolicyRow id scope (pr_policy_code p) (pr_version p)
    (JList (ApprovalLevel_as_document <$> pr_levels p)) (pr_allow_self_approval p)
    (policy_document_digest p) at_.

Lemma policy_row_stores scope p id at_ :
  policy_ok p → stores (policy_row scope p id at_) p.
Proof. by split. Qed.

Lemma publish_run scope p w res w' :
  publish_policy_version scope p w = (res, w') →
  refused w res w' ∨
  ∃ id at_, let row := policy_row scope p id at_ in
    res = Ok row ∧ policies_named scope (pr_policy_code p) (pr_version p) (w_tables w) = [] ∧
    check_policy (w_tables w) row = Ok tt ∧
    w_tables w' = with_policies (t_policies (w_tables w) ++ [row]) (w_tables w).
Proof.
  intros Hrun. unfold publish_policy_version in Hrun.
  bind_inv Hrun t w1 Hm; apply tables_run in Hm as [[= ->] ->].
  bind_inv Hrun found w1 Hm; [|by left; eapply refused_lift].
  apply lift_run in Hm as [Hex <-].
  bind_inv Hrun u w1 Hm; [|by left; eapply refused_lift].
  apply lift_run in Hm as [Hnone <-]. result_inv. bool_to_prop.
  bind_inv Hrun newid w1 Hm; apply draw_uuid4_run in Hm as [E1 [? Hm]]; [|done].
  bind_inv Hrun at_ w2 Hm2; apply now_utc_run in Hm2 as [E2 [c Hm2]]; [|done].
  bind_inv Hrun u2 w3 Hm3; apply add_policy_run in Hm3 as [(Hck & Hu & Ew)|(e' & _ & Hu & Ew)];
    try done; rewrite ?E2, ?E1 in *; simplify_eq.
  - injection Hrun as <- <-. right. eexists _, _. split_and!; [done| |done|done].
    destruct (policies_named _ _ _ _) as [|? [|]]; simpl in Hex; simplify_eq; [done|].
    destruct Hnone. eauto.
  - left. split; [eauto|congruence].
Qed.

(** Publishing a well-formed revision keeps the invariant. *)
Lemma publish_inv scope p w res w' :
  Inv (w_tables w) → policy_ok p →
  publish_policy_version scope p w = (res, w') → Inv (w_tables w').
Proof.
  intros Ht Hp [[_ ->]|(id & at_ & _ & _ & Hck & ->)]%publish_run; [done|].
  eapply Inv_add_policy; [done|by apply policy_row_stores|done].
Qed.

(** [load_policy] finds the stored revision, or refuses. *)
Lemma load_policy_found scope code version w res w' :
  Inv (w_tables w) → load_policy scope code version w = (res, w') →
  w' = w ∧
  ((∃ p row, res = Ok p ∧ row ∈ t_policies (w_tables w) ∧ po_scope row = scope ∧
      stores row p ∧ pr_policy_code p = code ∧ pr_version p = version) ∨
   (∃ msg, res = Raise (ApprovalError PolicyNotFound msg) ∧
           policies_named scope code version (w_tables w) = [])).
Proof.
  intros Ht Hrun. unfold load_policy, mbind, ST_bind, tables, gets, lift in Hrun.
  destruct (policies_named_inv (w_tables w) scope code version Ht)
    as [E|(row & E & Hin & Hs & Hc & Hv)]; rewrite E in Hrun.
  - injection Hrun as <- <-. eauto.
  - destruct (inv_policy _ Ht row Hin) as [p Hst]. cbn -[revision_of] in Hrun.
    rewrite (stores_reads row p Hst) in Hrun. injection Hrun as <- <-. split; [done|].
    left. exists p, row. destruct Hst. split_and!; try done; congruence.
Qed.

Definition new_request (scope : S) (code : string) (version : Z)
    (subject_type subject_id digest : string) (requested_by : UUID) (key : string)
    (id : UUID) (at_ : datetime) : RequestRow S :=
  MkRequestRow id scope code version subject_type subject_id digest requested_by
    (state_value PENDING) 1 key None None at_.

(** [request_approval] refuses, answers with the request the key opened before,
    or opens one. *)
Lemma request_approval_run scope code version styp sid digest by_ key w res w' :
  Inv (w_tables w) →
  request_approval scope code version styp sid digest by_ key w = (res, w') →
  refused w res w' ∨
  (∃ r p st, requests_by_key scope key (w_tables w) = [r] ∧ r ∈ t_requests (w_tables w) ∧
    re_content_digest r = digest ∧ re_policy_code r = code ∧
    re_policy_version r = version ∧ request_ok (w_tables w) r p st ∧ w' = w ∧
    res = Ok (outcome_of (w_tables w) r p st [])) ∨
  (∃ id at_ p, let r := new_request scope code version styp sid digest by_ key id at_ in
    let t' := with_requests (t_requests (w_tables w) ++ [r]) (w_tables w) in
    requests_by_key scope key (w_tables w) = [] ∧ policy_ok p ∧
    is_ok (validate_digest digest) = true ∧
    governed (w_tables w) r p ∧ check_request (w_tables w) r = Ok tt ∧
    w_tables w' = t' ∧ Inv t' ∧ request_ok t' r p PENDING ∧
    res = Ok (outcome_of t' r p PENDING [event_of r PENDING])).
Proof.
  intros Ht Hrun. unfold request_approval in Hrun.
  bind_inv Hrun dg w1 Hm; [|by left; eapply refused_lift].
  apply lift_run in Hm as [Hdig <-].
  bind_inv Hrun p w1 Hm; apply load_policy_found in Hm as [-> Hld]; try done;
    [|by left; split; eauto].
  destruct Hld as [(p' & row & [= <-] & Hrow & Hs & Hst & Hc & Hv)|(? & [=] & _)].
  bind_inv Hrun t w1 Hm; apply tables_run in Hm as [[= ->] ->].
  destruct (requests_by_key_inv (w_tables w) scope key Ht) as [E|(r & E & Hr & Hrs & Hrk)];
    rewrite E in Hrun.
  - rewrite (session_lift _ _ _ None) in Hrun by done.
    set (id_ := uuid4 (w_drawn w)). set (w2 := snd (now_utc (snd (draw_uuid4 w)))).
    rewrite (session_step draw_uuid4 _ w id_ (snd (draw_uuid4 w))),
      (session_step now_utc _ _ (utc_of (clock (w_tick w))) w2) in Hrun by done.
    set (r := new_request scope code version styp sid digest by_ key id_
      (utc_of (clock (w_tick w)))).
    change (MkRequestRow _ _ _ _ _ _ _ _ _ _ _ _ _ _) with r in Hrun.
    bind_inv Hrun u w3 Hm; apply add_request_run in Hm as [(Hck & Hu & Ew)|(e' & _ & Hu & Ew)];
      try done; [|left; split; [eauto|by rewrite Ew]].
    cbn [w2 w_tables now_utc draw_uuid4 snd] in Hck, Ew.
    assert (Hg : governed (w_tables w) r p) by (exists row; naive_solver).
    destruct (Inv_add_request (w_tables w) r p) as (Hinv & _ & Hok); try done; [by destruct Hst|].
    rewrite (session_lift _ _ _ (event_of r PENDING)) in Hrun by done.
    rewrite <-Ew in Hok. change scope with (re_scope r) in Hrun.
    erewrite make_outcome_of in Hrun by done. injection Hrun as <- <-.
    right; right. exists id_, (utc_of (clock (w_tick w))), p. cbv zeta. fold r.
    rewrite Hdig, <-Ew in *. split_and!; try done. by destruct Hst.
  - rewrite (session_lift _ _ _ (Some r)) in Hrun by done.
    bind_inv Hrun u w1 Hm; [|by left; eapply refused_lift].
    apply lift_run in Hm as [Hsame <-]. result_inv. bool_to_prop. right; left.
    destruct (inv_request _ Ht r Hr) as (p' & st & Hok).
    assert (p' = p) as ->.
    { eapply (governed_inj (w_tables w) r); [done|apply Hok|].
      exists row. split_and!; done || congruence. }
    rewrite <-Hrs in Hrun. erewrite make_outcome_of in Hrun by done.
    injection Hrun as <- <-. by exists r, p, st.
Qed.

Lemma request_approval_inv scope code version styp sid digest by_ key w res w' :
  Inv (w_tables w) →
  request_approval scope code version styp sid digest by_ key w = (res, w') →
  Inv (w_tables w').
Proof.
  intros Ht Hrun. eapply request_approval_run in Hrun as [[_ ->]|[Hr|Ho]]; [done|..|done].
  - destruct Hr as (? & ? & ? & _ & _ & _ & _ & _ & _ & -> & _). done.
  - destruct Ho as (? & ? & ? & _ & _ & _ & _ & _ & -> & Hinv & _). done.
Qed.

Lemma record_decision_inv scope rid actor action digest comment delegated w res w' :
  Inv (w_tables w) →
  record_decision scope rid actor action digest comment delegated w = (res, w') →
  Inv (w_tables w').
Proof.
  intros Ht Hrun. eapply record_decision_run in Hrun as [[_ ->]|(o & r & p & d & c & _ & Hd)];
    [done|..|done].
  by eapply decision_made_inv in Hd as [Hinv _].
Qed.

(** Ending a pending request without a decision keeps the invariant. *)
Lemma cancel_transition t r p c note :
  Inv t → r ∈ t_requests t → request_ok t r p PENDING →
  let r' := set_standing r CANCELLED (Some (utc_of c)) note in
  let t' := with_requests (replace_request r' (t_requests t)) t in
  Inv t' ∧ request_ok t' r' p CANCELLED.
Proof.
  intros Ht Hr Hok r' t'.
  assert (Hok' : request_ok t' r' p CANCELLED).
  { destruct Hok as [(row & Hg) Hs Hl Ha (Hn & Hu & _)].
    split; [by exists row|done|done| |split; [by eexists|done]].
    intros d Hd. destruct (Ha d Hd) as [l []]. by exists l. }
  split; [|done].
  eapply (Inv_update t t' r r' p _ [] []); try done; try (by rewrite app_nil_r);
    try (by destruct Ht).
  - by rewrite (ro_state _ _ _ _ Hok).
  - simpl. by intros c' [= <-].
Qed.

(** [cancel_request] refuses, or the requester's pending request ends. *)
Lemma cancel_request_run scope rid by_ reason w res w' :
  Inv (w_tables w) →
  cancel_request scope rid by_ reason w = (res, w') →
  refused w res w' ∨
  ∃ r p c, let t := w_tables w in
    let r' := set_standing r CANCELLED (Some (utc_of c)) (Some reason) in
    let t' := with_requests (replace_request r' (t_requests t)) t in
    r ∈ t_requests t ∧ re_scope r = scope ∧ re_id r = rid ∧ re_requested_by r = by_ ∧
    request_ok t r p PENDING ∧ Inv t' ∧ request_ok t' r' p CANCELLED ∧
    w_tables w' = t' ∧ res = Ok (outcome_of t' r' p CANCELLED [event_of r' CANCELLED]).
Proof.
  intros Ht Hrun. unfold cancel_request in Hrun.
  bind_inv Hrun r w1 Hm; apply load_request_run in Hm as [-> Hld]; [|done|by left; split; eauto|done].
  destruct Hld as [(r' & [= <-] & Hr & <- & <-)|(msg & [=] & _)].
  bind_inv Hrun u w1 Hm; [|by left; eapply refused_lift].
  apply lift_run in Hm as [Hpend%require_pending_Ok <-].
  destruct (request_standing _ _ _ Ht Hr Hpend) as [p Hok].
  bind_inv Hrun u1 w1 Hm; [|by left; eapply refused_lift].
  apply lift_run in Hm as [Hby <-]. result_inv. bool_to_prop.
  rewrite (session_step now_utc _ w (utc_of (clock (w_tick w))) (snd (now_utc w))) in Hrun
    by done.
  set (c := clock _) in Hrun. cbv zeta in Hrun.
  set (r' := set_standing r CANCELLED (Some (utc_of c)) (Some reason)) in Hrun.
  destruct (cancel_transition (w_tables w) r p c (Some reason) Ht Hr Hok) as [Hinv Hok'].
  set (t' := with_requests _ _) in Hinv, Hok'.
  rewrite (session_step (flush_request r') _ _ tt (set_tables t' (snd (now_utc w)))) in Hrun
    by done.
  destruct (load_context (set_tables t' (snd (now_utc w))) r' p _ Hinv Hok') as [Hpol _].
  rewrite (session_step _ _ _ _ _ Hpol), (session_lift _ _ _ (event_of r' CANCELLED)) in Hrun
    by done.
  change (re_scope r) with (re_scope r') in Hrun.
  rewrite (make_outcome_of _ r' p CANCELLED) in Hrun by done. injection Hrun as <- <-.
  right. exists r, p, c. by split_and!.
Qed.

Lemma cancel_request_inv scope rid by_ reason w res w' :
  Inv (w_tables w) → cancel_request scope rid by_ reason w = (res, w') →
  Inv (w_tables w').
Proof.
  intros Ht Hrun. eapply cancel_request_run in Hrun as
    [[_ ->]|(r & p & c & _ & _ & _ & _ & _ & Hinv & _ & -> & _)]; done.
Qed.

(** ** When a decision is recorded *)

Lemma load_request_ok w r :
  Inv (w_tables w) → r ∈ t_requests (w_tables w) →
  load_request (re_scope r) (re_id r) w = (Ok r, w).
Proof.
  intros Ht Hr. unfold load_request, mbind, ST_bind, tables, gets, lift.
  by rewrite (requests_by_id_in _ r Ht Hr).
Qed.

(** The schema accepts a vote the rules admit, if its id is fresh. *)
Lemma check_decision_ok t r p actor action l d :
  Inv t → r ∈ t_requests t → policy_ok p → passed p r actor action (ordered_votes t r) l →
  de_scope d = re_scope r → de_request_id d = re_id r →
  de_level d = re_current_level r → de_actor_id d = actor_id actor →
  de_id d ∉ de_id <$> t_decisions t →
  check_decision t d = Ok tt.
Proof.
  intros Ht Hr Hp Hpass Hs Hi Hl Ha Hfresh. unfold check_decision.
  assert (Hun : unvoted l actor (ordered_votes t r)) by (destruct action; apply Hpass).
  assert (Hlv : al_sequence l = re_current_level r).
  { eapply pr_level_sequence; [done|]. destruct action; apply Hpass. }
  rewrite (proj2 (existsb_false (λ y, bool_decide (de_id y = de_id d)) _)).
  2: { intros y Hy. apply bool_decide_eq_false. intros E. apply Hfresh.
       rewrite <-E. by apply list_elem_of_fmap_2. }
  rewrite (proj2 (existsb_false (λ y, bool_decide (de_scope y = de_scope d) &&
    bool_decide (de_request_id y = de_request_id d) && (de_level y =? de_level d)%Z &&
    bool_decide (de_actor_id y = de_actor_id d)) _)).
  2: { intros y Hy. repeat case_bool_decide; try done; rewrite ?andb_false_r; try done.
       destruct (Z.eqb_spec (de_level y) (de_level d)) as [E|]; [|done]. exfalso.
       destruct (proj2 (elem_of_votes (history t r) (de_level y) (de_actor_id y)))
         as (v & Hv & Hvl & Hva).
       - exists y. split; [|done]. apply list_elem_of_filter.
         split; [|done]. split; congruence.
       - apply (Hun v Hv); congruence. }
  rewrite (proj2 (existsb_true (λ x, bool_decide (re_id x = de_request_id d)) _)); [done|].
  exists r. by rewrite bool_decide_true.
Qed.

Lemma record_decision_ok w r p actor action l comment delegated :
  Inv (w_tables w) → r ∈ t_requests (w_tables w) → request_ok (w_tables w) r p PENDING →
  passed p r actor action (ordered_votes (w_tables w) r) l →
  uuid4 (w_drawn w) ∉ de_id <$> t_decisions (w_tables w) →
  ∃ o w', record_decision (re_scope r) (re_id r) actor action (re_content_digest r) comment
    delegated w = (Ok o, w').
Proof.
  intros Ht Hr Hok Hpass Hfresh. unfold record_decision.
  destruct (load_context w r p _ Ht Hok) as [Hpol Hrec].
  rewrite (session_step _ _ _ _ _ (load_request_ok w r Ht Hr)).
  rewrite (session_lift _ _ _ tt), (session_lift _ _ _ tt)
    by (by apply require_pending_Ok, Hok || by apply require_content_Ok).
  rewrite (session_step _ _ _ _ _ Hpol), (session_step _ _ _ _ _ (load_decisions_run _ _ _)),
    (session_lift _ _ _ _ Hrec), (session_lift _ _ _ tt)
    by (apply authorise_decision_Ok; eauto).
  rewrite (session_step now_utc _ w (utc_of (clock (w_tick w))) (snd (now_utc w))) by done.
  rewrite (session_step draw_uuid4 _ _ (uuid4 (w_drawn w))
    (snd (draw_uuid4 (snd (now_utc w))))) by done.
  set (d := MkDecisionRow _ _ _ _ _ _ _ _ _ _). set (w1 := snd (draw_uuid4 _)).
  destruct (ro_governed _ _ _ _ Hok) as (row & _ & _ & [Hp] & _).
  assert (Hck : check_decision (w_tables w) d = Ok tt) by by eapply check_decision_ok.
  rewrite (session_step (add_decision d) _ w1 tt
    (set_tables (with_decisions (t_decisions (w_tables w) ++ [d]) (w_tables w)) w1)).
  - destruct (settle_decision _ _ _ _ _ _) as [res w'] eqn:Hrun.
    apply (settle_decision_run _ _ (w_tables w) p r action comment d) in Hrun as (c & _ & ->);
      try done; [eauto|..].
    + apply Forall_app. split; [by eapply history_valid|]. apply Forall_singleton.
      unfold action_valid, d; simpl. destruct action; auto.
    + intros c. eapply (decision_transition _ p r actor action l d); try done.
      by rewrite order_decisions_perm.
  - unfold add_decision. rewrite (session_step tables _ w1 (w_tables w) w1) by done.
    by rewrite (session_lift _ _ _ tt).
Qed.
End commands.
