(* ===== verification/ApprovalWithdrawals.v ===== *)
(** * What withdrawing an approval does

    Under the invariant, [withdraw_approval] either raises and leaves every
    table as it was, answers a replay from the stored evidence, or takes one
    approved request to withdrawn: it appends the evidence row, changes the
    request's state, and enqueues exactly one outbox event. Both write paths,
    the stored function of PostgreSQL and the unit of work of the other engines,
    are described by the same transition. *)

From S2P Require Import Prelude PyData PyTime ApprovalContracts ApprovalPolicy.
From S2P Require Import ApprovalStore ApprovalService ApprovalWithdrawal ApprovalReads.
From S2P Require Import ApprovalInvariant ApprovalCommands.
From stdpp Require Import base gmap strings pretty list.
From Stdlib Require Import ZArith.

(** The standing a withdrawal gives a request: everything else is kept. *)
Definition withdrawn_request {S} (r : RequestRow S) : RequestRow S :=
  set_standing r WITHDRAWN (re_completed_at r) (re_note r).

(** The tables after it, the outbox aside. *)
Definition after_withdrawal {S} (t : Tables S) (r : RequestRow S) (x : WithdrawalRow S)
    : Tables S :=
  with_requests (replace_request (withdrawn_request r) (t_requests t))
    (with_withdrawals (t_withdrawals t ++ [x]) t).

(** The outbox row the database trigger writes. *)
Definition trigger_outbox {S} (r : RequestRow S) (x : WithdrawalRow S) : OutboxRow S :=
  MkOutboxRow (wi_id x) (re_scope r) "approval.withdrawn"
    (JObj [ ("request_id", JStr (str_uuid (re_id r)));
            ("subject_type", JStr (re_subject_type r));
            ("subject_id", JStr (re_subject_id r));
            ("policy_code", JStr (re_policy_code r));
            ("policy_version", JInt (re_policy_version r));
            ("content_digest", JStr (re_content_digest r));
            ("state", JStr "withdrawn");
            ("withdrawal_id", JStr (str_uuid (wi_id x)));
            ("approved_at", JStr (sql_iso (wi_approved_at x)));
            ("actor_id", JStr (str_uuid (wi_actor_id x)));
            ("authority_ref", JStr (wi_authority_ref x));
            ("reason", JStr (wi_reason x));
            ("effective_at", JStr (sql_iso (wi_effective_at x)));
            ("external_ref", JStr (wi_external_ref x)) ])
    "pending" 0 (Some (wi_external_ref x)).

Section withdrawals.
Context {S : Type} `{Plane S} `{Env}.
Implicit Types (t : Tables S) (w : World S) (r : RequestRow S) (x : WithdrawalRow S)
  (actor : Actor).

(** ** Frame lemmas *)

Lemma request_ok_outbox t l r p st :
  request_ok t r p st → request_ok (with_outbox l t) r p st.
Proof. by apply request_ok_frame. Qed.

(** The outbox is outside the invariant. *)
Lemma Inv_outbox t l : Inv t → Inv (with_outbox l t).
Proof.
  intros []. split; try done.
  - intros r Hr. destruct (inv_request r Hr) as (p & st & Hok). exists p, st.
    by apply request_ok_outbox.
  - intros x Hx. destruct (inv_withdrawal x Hx) as (r & []). by exists r.
Qed.

(** The transition: an approved request becomes withdrawn, with evidence. *)
Lemma withdraw_transition t r p x c e :
  Inv t → r ∈ t_requests t → request_ok t r p APPROVED →
  re_completed_at r = Some c →
  wi_scope x = re_scope r → wi_request_id x = re_id r → wi_approved_at x = c →
  check_withdrawal t x = Ok tt → withdrawal_evidence x = Ok e →
  let t' := after_withdrawal t r x in
  Inv t' ∧ request_ok t' (withdrawn_request r) p WITHDRAWN.
Proof.
  intros Ht Hr Hok Hc Hs Hi Hat Hck He t'.
  assert (Hin : withdrawn_request r ∈ t_requests t') by by apply (replace_elem_of _ _ r).
  assert (Hok' : request_ok t' (withdrawn_request r) p WITHDRAWN).
  { destruct Hok as [(row & Hg) Hst Hl Ha (_ & Hu & Hsat & Hlv)].
    split; [by exists row|done|done| |].
    - intros d Hd. destruct (Ha d Hd) as [l []]. by exists l.
    - split_and!; try done.
      exists x. split; [|done].
      cbn [t' after_withdrawal with_requests with_withdrawals t_withdrawals]. set_solver. }
  split; [|done].
  unfold check_withdrawal in Hck. result_inv. bool_to_prop.
  eapply (Inv_update t t' r (withdrawn_request r) p _ [] [x]); try done; try (by rewrite app_nil_r);
    try (by destruct Ht).
  - by rewrite (ro_state _ _ _ _ Hok).
  - apply NoDup_key_snoc; [apply (inv_wi_request _ Ht)|]. intros y Hy E. simplify_eq.
    match goal with Hn : ∀ z : WithdrawalRow S, _ → _ && bool_decide _ = false |- _ =>
      specialize (Hn y Hy) end.
    by rewrite !bool_decide_true in * by congruence.
  - apply NoDup_key_snoc; [apply (inv_wi_ref _ Ht)|]. intros y Hy E. simplify_eq.
    match goal with Hn : ∀ z : WithdrawalRow S, _ → _ && String.eqb _ _ = false |- _ =>
      specialize (Hn y Hy) end.
    repeat match goal with E : _ y = _ x |- _ => rewrite E in * end.
    by rewrite bool_decide_true, String.eqb_refl in * by done.
  - apply Forall_singleton. split; eauto; simpl; congruence.
  - intros c' Hc'. by apply (inv_completed _ Ht r c').
Qed.

(** ** The two write paths *)

Lemma scalar_one_Ok {A} (l : list A) v : scalar_one l = Ok v ↔ l = [v].
Proof. destruct l as [|? []]; simpl; naive_solver. Qed.

Lemma scalar_one_or_none_Ok {A} (l : list A) o :
  scalar_one_or_none l = Ok o ↔
  (l = [] ∧ o = None) ∨ ∃ v, l = [v] ∧ o = Some v.
Proof. destruct l as [|? []]; simpl; naive_solver. Qed.

(** After the transition, the request and its evidence are found alone. *)
Lemma requests_after t r x r2 :
  Inv t → r ∈ t_requests t →
  r2 ∈ requests_by_id (re_scope r) (re_id r) (after_withdrawal t r x) →
  r2 = withdrawn_request r.
Proof.
  intros Ht Hr [[Hs Hi] Hin]%list_elem_of_filter. simpl in Hin.
  apply elem_of_replace in Hin as [[-> _]|[_ Hne]];
    [done|by destruct Hne|apply (inv_re_id _ Ht)].
Qed.

Lemma withdrawals_after t r x x2 :
  check_withdrawal t x = Ok tt → wi_scope x = re_scope r → wi_request_id x = re_id r →
  x2 ∈ withdrawals_by_request (re_scope r) (re_id r) (after_withdrawal t r x) → x2 = x.
Proof.
  intros Hck Hs Hi [[Hs2 Hi2] Hin]%list_elem_of_filter. simpl in Hin.
  apply elem_of_app in Hin as [Hin|Hin]; [|by apply list_elem_of_singleton in Hin].
  unfold check_withdrawal in Hck. result_inv. bool_to_prop.
  match goal with Hn : ∀ z : WithdrawalRow S, _ → _ && bool_decide _ = false |- _ =>
    specialize (Hn x2 Hin) end.
  by rewrite !bool_decide_true in * by congruence.
Qed.

(** The stored function of PostgreSQL, when it returns. *)
Lemma record_withdrawal_sql_run scope r wid aid authority_ref reason external_ref w u w' :
  Inv (w_tables w) → r ∈ t_requests (w_tables w) → re_scope r = scope →
  record_withdrawal_sql scope (re_id r) wid aid authority_ref reason external_ref w
    = (Ok u, w') →
  ∃ c x, re_completed_at r = Some c ∧
    x = MkWithdrawalRow wid scope (re_id r) aid authority_ref reason
          (utc_of (clock (w_tick w))) external_ref c ∧
    check_withdrawal (w_tables w) x = Ok tt ∧
    check_outbox (w_tables w) (trigger_outbox r x) = Ok tt ∧
    w_tables w' = with_outbox (t_outbox (w_tables w) ++ [trigger_outbox r x])
                    (after_withdrawal (w_tables w) r x).
Proof.
  intros Ht Hr <- Hrun. unfold record_withdrawal_sql in Hrun.
  bind_ok Hrun ctx w1 Hm. apply gets_run in Hm as [_ <-].
  bind_ok Hrun u1 w1 Hm. apply lift_run in Hm as [_ <-].
  bind_ok Hrun u2 w1 Hm. apply lift_run in Hm as [_ <-].
  bind_ok Hrun t w1 Hm. apply tables_run in Hm as [[= ->] ->].
  rewrite (requests_by_id_in _ r Ht Hr) in Hrun. simpl in Hrun.
  destruct (decide (re_state r = "approved")) as [Hst|Hst];
    [rewrite filter_cons_True in Hrun by done|by rewrite filter_cons_False in Hrun].
  destruct (re_completed_at r) as [c|] eqn:Hc; [|done].
  rewrite (session_step now_utc _ w (utc_of (clock (w_tick w))) (snd (now_utc w))) in Hrun
    by done.
  set (x := MkWithdrawalRow _ _ _ _ _ _ _ _ _) in Hrun. exists c, x.
  bind_ok Hrun u3 w1 Hm. apply lift_run in Hm as [_ <-].
  bind_ok Hrun u4 w1 Hm.
  apply add_withdrawal_run in Hm as [(Hck & _ & Ew)|(e & _ & [=] & _)].
  cbn [w_tables now_utc snd] in Hck, Ew.
  bind_ok Hrun t w2 Hm. apply tables_run in Hm as [[= ->] ->].
  bind_ok Hrun u5 w2 Hm. apply lift_run in Hm as [_ <-].
  bind_ok Hrun u6 w2 Hm. apply flush_request_run in Hm as [_ Ew2].
  replace (set_standing r WITHDRAWN _ _) with (withdrawn_request r) in Hrun, Ew2
    by (unfold withdrawn_request; by rewrite Hc).
  rewrite Ew in Ew2. change (with_requests _ _) with (after_withdrawal (w_tables w) r x) in Ew2.
  unfold emit_withdrawal in Hrun. rewrite Hst in Hrun. simpl in Hrun.
  bind_ok Hrun t w3 Hm. apply tables_run in Hm as [[= ->] ->].
  destruct (withdrawals_by_request _ _ _) as [|x2 rest] eqn:Ex2; [done|].
  assert (x2 = x) as ->.
  { assert (Hx2 : x2 ∈ withdrawals_by_request (re_scope r) (re_id r) (w_tables w2)) by (rewrite Ex2; set_solver).
    rewrite Ew2 in Hx2. by apply (withdrawals_after (w_tables w) r) in Hx2. }
  apply add_outbox_run in Hrun as [(Hob & _ & Ew3)|(e & _ & [=] & _)].
  rewrite Ew2 in Hob, Ew3. by split_and!.
Qed.

(** The tables after the write inside the savepoint. *)
Definition written t r x : Tables S :=
  match dialect with
  | Postgresql =>
      with_outbox (t_outbox t ++ [trigger_outbox r x]) (after_withdrawal t r x)
  | Sqlite => after_withdrawal t r x
  end.

Lemma written_inv t r x p st :
  Inv (after_withdrawal t r x) →
  request_ok (after_withdrawal t r x) (withdrawn_request r) p st →
  Inv (written t r x) ∧ request_ok (written t r x) (withdrawn_request r) p st.
Proof.
  unfold written. destruct dialect; [|done].
  intros Hi Ho. split; [by apply Inv_outbox|by apply request_ok_outbox].
Qed.

(** Either write path, when it returns, made the transition. *)
Lemma write_withdrawal_run scope r c actor authority_ref reason external_ref w r2 x w' :
  Inv (w_tables w) → r ∈ t_requests (w_tables w) → re_scope r = scope →
  re_completed_at r = Some c →
  write_withdrawal scope r c actor authority_ref reason external_ref w = (Ok (r2, x), w') →
  r2 = withdrawn_request r ∧
  x = MkWithdrawalRow (wi_id x) scope (re_id r) (actor_id actor) authority_ref reason
        (utc_of (clock (w_tick w))) external_ref c ∧
  check_withdrawal (w_tables w) x = Ok tt ∧
  w_tables w' = written (w_tables w) r x.
Proof.
  intros Ht Hr <- Hc Hrun. unfold write_withdrawal, written in *. destruct dialect.
  - set (wid := uuid4 (w_drawn w)) in Hrun.
    rewrite (session_step draw_uuid4 _ w wid (snd (draw_uuid4 w))) in Hrun by done.
    bind_ok Hrun u w1 Hm. apply record_withdrawal_sql_run in Hm as
      (c' & y & Hc' & Ey & Hck & _ & Ew); try done. simplify_eq.
    set (y := MkWithdrawalRow _ _ _ _ _ _ _ _ _) in Hck, Ew.
    cbn [w_tables draw_uuid4 snd] in Hck, Ew.
    bind_ok Hrun t w2 Hm. apply tables_run in Hm as [[= ->] ->]. rewrite Ew in Hrun.
    bind_ok Hrun r3 w2 Hm. apply lift_run in Hm as [Hr3%scalar_one_Ok <-].
    bind_ok Hrun y3 w2 Hm. apply lift_run in Hm as [Hy3%scalar_one_Ok <-].
    injection Hrun as -> -> <-. rewrite Ew.
    assert (x = y) as ->.
    { apply (withdrawals_after (w_tables w) r); try done.
      unfold withdrawals_by_request in *. simpl in Hy3 |- *. rewrite Hy3. set_solver. }
    split_and!; try done. apply (requests_after (w_tables w) r y); try done.
    unfold requests_by_id in *. simpl in Hr3 |- *. rewrite Hr3. set_solver.
  - set (at_ := utc_of (clock (w_tick w))).
    rewrite (session_step now_utc _ w at_ (snd (now_utc w))),
      (session_step draw_uuid4 _ _ (uuid4 (w_drawn w)) (snd (draw_uuid4 (snd (now_utc w)))))
      in Hrun by done.
    bind_ok Hrun u4 w1 Hm.
    apply add_withdrawal_run in Hm as [(Hck & _ & Ew)|(e & _ & [=] & _)].
    cbn [w_tables now_utc draw_uuid4 snd] in Hck, Ew.
    bind_ok Hrun u6 w2 Hm. apply flush_request_run in Hm as [_ Ew2].
    injection Hrun as <- <- <-. rewrite Ew in Ew2. by split_and!.
Qed.

(** ** The command *)

(** The evidence a replay must repeat. *)
Definition same_evidence scope (rid : UUID) actor (authority_ref reason external_ref : string)
    x : Prop :=
  wi_scope x = scope ∧ wi_request_id x = rid ∧ wi_external_ref x = external_ref ∧
  wi_actor_id x = actor_id actor ∧ wi_authority_ref x = authority_ref ∧
  wi_reason x = reason.

(** A withdrawal answered from the stored evidence. *)
Definition replayed t (scope : S) (rid : UUID) actor authority_ref reason external_ref
    (o : ApprovalOutcome) : Prop :=
  ∃ r p x, r ∈ t_requests t ∧ re_scope r = scope ∧ re_id r = rid ∧
    request_ok t r p WITHDRAWN ∧ x ∈ t_withdrawals t ∧
    same_evidence scope rid actor authority_ref reason external_ref x ∧
    o = outcome_of t r p WITHDRAWN [].

(** The event of a withdrawal. *)
Definition withdrawn_event r (e : WithdrawalEvidence) : ApprovalEvent :=
  MkApprovalEvent "approval.withdrawn" (re_subject_type r) (re_subject_id r) (re_id r)
    (re_policy_code r) (re_policy_version r) (re_content_digest r) WITHDRAWN (Some e).

(** A withdrawal made. *)
Record withdrawal_made t (scope : S) (rid : UUID) actor
    (authority_ref reason external_ref : string) (t' : Tables S) (o : ApprovalOutcome)
    r (p : PolicyRevision) x c e : Prop := {
  wm_fields : validate_withdrawal_fields authority_ref reason external_ref = Ok tt;
  wm_in : r ∈ t_requests t;
  wm_scope : re_scope r = scope;
  wm_id : re_id r = rid;
  wm_ok : request_ok t r p APPROVED;
  wm_completed : re_completed_at r = Some c;
  wm_ref : withdrawals_by_ref scope external_ref t = [];
  wm_request : withdrawals_by_request scope rid t = [];
  wm_row : x = MkWithdrawalRow (wi_id x) scope rid (actor_id actor) authority_ref reason
    (wi_effective_at x) external_ref c;
  wm_effective : aware_utc (wi_effective_at x);
  wm_evidence : withdrawal_evidence x = Ok e;
  wm_checked : check_withdrawal t x = Ok tt;
  wm_tables : t' = written t r x;
  wm_inv : Inv t';
  wm_after : request_ok t' (withdrawn_request r) p WITHDRAWN;
  wm_outcome : o = outcome_of t' (withdrawn_request r) p WITHDRAWN
    [withdrawn_event r e];
}.

Lemma check_withdrawal_replay_Ok r found actor authority_ref reason external_ref b :
  check_withdrawal_replay r found actor authority_ref reason external_ref = Ok b →
  match found with
  | None => b = false
  | Some x => b = true ∧ wi_request_id x = re_id r ∧ wi_external_ref x = external_ref ∧
      wi_actor_id x = actor_id actor ∧ wi_authority_ref x = authority_ref ∧
      wi_reason x = reason
  end.
Proof.
  unfold check_withdrawal_replay. destruct found as [x|]; [|by intros [= <-]].
  intros Hrun. result_inv. bool_to_prop. done.
Qed.

Lemma withdrawal_event_Ok r x ev :
  withdrawal_event r x = Ok ev →
  ∃ e, withdrawal_evidence x = Ok e ∧ ev = withdrawn_event r e.
Proof.
  unfold withdrawal_event. rewrite result_bind_Ok. intros (e & He & Hev).
  exists e. split; [done|]. by injection Hev as <-.
Qed.

(** The evidence object of a row is the row, its instants in UTC. *)
Lemma withdrawal_evidence_Ok x e :
  withdrawal_evidence x = Ok e →
  e = MkWithdrawalEvidence (wi_id x) (utc (wi_approved_at x)) (wi_actor_id x)
        (wi_authority_ref x) (wi_reason x) (utc (wi_effective_at x)) (wi_external_ref x).
Proof.
  unfold withdrawal_evidence, WithdrawalEvidence_check. intros Hrun. result_inv.
  case_match; [case_match|]; by simplify_eq.
Qed.

(** The fresh branch of the command. *)
Lemma withdraw_fresh_run r p c actor authority_ref reason external_ref w o w' :
  Inv (w_tables w) → r ∈ t_requests (w_tables w) →
  request_ok (w_tables w) r p APPROVED → re_completed_at r = Some c →
  validate_withdrawal_fields authority_ref reason external_ref = Ok tt →
  withdrawals_by_ref (re_scope r) external_ref (w_tables w) = [] →
  withdrawals_by_request (re_scope r) (re_id r) (w_tables w) = [] →
  (written ← catch
     (conflict_savepoint
        (write_withdrawal (re_scope r) r c actor authority_ref reason external_ref))
     (λ e, if withdrawal_unique_conflict e then
             Some (ApprovalError WithdrawalReferenceConflict
               "withdrawal reference or request was concurrently consumed")
           else None);
   event ← lift (withdrawal_event written.1 written.2);
   make_outcome (re_scope r) written.1 p [event]) w = (Ok o, w') →
  ∃ x e, withdrawal_made (w_tables w) (re_scope r) (re_id r) actor authority_ref reason
    external_ref (w_tables w') o r p x c e.
Proof.
  intros Ht Hr Hok Hc Hval Href Hreq Hrun.
  bind_ok Hrun rx w1 Hm.
  assert (write_withdrawal (re_scope r) r c actor authority_ref reason external_ref w
          = (Ok rx, w1)) as Hw.
  { unfold catch, conflict_savepoint in Hm.
    destruct (write_withdrawal _ _ _ _ _ _ _ _) as [[?|?] ?]; by simplify_eq. }
  destruct rx as [r2 x]. apply write_withdrawal_run in Hw as (-> & Ex & Hck & Ew); try done.
  bind_ok Hrun ev w2 Hm2. apply lift_run in Hm2 as [(e & He & ->)%withdrawal_event_Ok <-].
  destruct (withdraw_transition (w_tables w) r p x c e) as [Hinv Hok']; try done;
    [by rewrite Ex..|].
  destruct (written_inv _ _ _ _ _ Hinv Hok') as [Hinv2 Hok2].
  rewrite <-Ew in Hinv2, Hok2. simpl in Hrun.
  change (re_scope r) with (re_scope (withdrawn_request r)) in Hrun.
  rewrite (make_outcome_of w1 _ p WITHDRAWN) in Hrun by done. injection Hrun as <- <-.
  exists x, e. split; try done; by rewrite Ex.
Qed.

(** The mutation, when it returns. *)
Lemma withdraw_unqueued_run scope rid actor authority_ref reason external_ref w o w' :
  Inv (w_tables w) →
  withdraw_approval_unqueued scope rid actor authority_ref reason external_ref w
    = (Ok o, w') →
  (w_tables w' = w_tables w ∧
   replayed (w_tables w) scope rid actor authority_ref reason external_ref o) ∨
  ∃ r p x c e, withdrawal_made (w_tables w) scope rid actor authority_ref reason
    external_ref (w_tables w') o r p x c e.
Proof.
  intros Ht Hrun. unfold withdraw_approval_unqueued in Hrun.
  bind_ok Hrun u w1 Hm. apply lift_run in Hm as [Hval <-]. destruct u.
  bind_ok Hrun r w1 Hm. apply load_request_run in Hm as [-> Hld]; [|done].
  destruct Hld as [(r' & [= <-] & Hr & <- & <-)|(msg & [=] & _)].
  bind_ok Hrun t w1 Hm. apply tables_run in Hm as [[= ->] ->].
  bind_ok Hrun by_ref w1 Hm. apply lift_run in Hm as [Hbr%scalar_one_or_none_Ok <-].
  bind_ok Hrun by_req w1 Hm. apply lift_run in Hm as [Hbq%scalar_one_or_none_Ok <-].
  bind_ok Hrun u1 w1 Hm. apply lift_run in Hm as [Hother <-].
  bind_ok Hrun replay w1 Hm. apply lift_run in Hm as [Hrep%check_withdrawal_replay_Ok <-].
  destruct replay.
  - left. bind_ok Hrun u2 w1 Hm. apply lift_run in Hm as [Hst <-]. result_inv. bool_to_prop.
    destruct (request_standing _ _ WITHDRAWN Ht Hr) as [p Hok]; [done|].
    destruct (load_context w r p _ Ht Hok) as [Hpol _].
    rewrite (session_step _ _ _ _ _ Hpol), (make_outcome_of w r p WITHDRAWN) in Hrun by done.
    injection Hrun as <- <-. split; [done|].
    destruct (match by_req with Some row => Some row | None => by_ref end) as [x|] eqn:Ex;
      [|done].
    assert (Hx : x ∈ t_withdrawals (w_tables w) ∧ wi_scope x = re_scope r).
    { destruct Hbq as [[_ ->]|(y & Hy & ->)]; [destruct Hbr as [[_ ->]|(y & Hy & ->)]|];
        simplify_eq; assert (x ∈ [x]) as Hin by set_solver; rewrite <-Hy in Hin;
        by apply list_elem_of_filter in Hin as [[? ?] ?]. }
    exists r, p, x. unfold same_evidence. naive_solver.
  - right. destruct by_req as [x|]; [by destruct Hrep|]. destruct by_ref as [x|]; [by destruct Hrep|].
    destruct Hbq as [[Hbq _]|(? & _ & [=])]. destruct Hbr as [[Hbr _]|(? & _ & [=])].
    destruct (re_completed_at r) as [c|] eqn:Hc; [|done].
    bind_ok Hrun u2 w1 Hm. apply lift_run in Hm as [Hst <-]. result_inv. bool_to_prop.
    destruct (request_standing _ _ APPROVED Ht Hr) as [p Hok]; [done|].
    destruct (load_context w r p _ Ht Hok) as [Hpol Hrec].
    rewrite (session_step _ _ _ _ _ Hpol), (session_step _ _ _ _ _ (load_decisions_run _ _ _)),
      (session_lift _ _ _ _ Hrec) in Hrun.
    bind_ok Hrun u3 w1 Hm. apply lift_run in Hm as [_ <-].
    destruct (withdraw_fresh_run r p c actor authority_ref reason external_ref w o w')
      as (x & e & Hmade); try done. by exists r, p, x, c, e.
Qed.

(** *** The event each path enqueues *)

Lemma isoformat_utc d : aware_utc d → sql_iso d = isoformat (utc d).
Proof.
  intros Ha. destruct d as [wall off]. unfold aware_utc in Ha. simpl in Ha. subst off.
  unfold sql_iso, isoformat, utc, astimezone_utc, instant.
  cbn [is_naive dt_offset dt_wall default]. rewrite Z.sub_0_r.
  destruct (civil_of_days _) as [[y m] d]. done.
Qed.

(** The trigger writes the payload the Python event would have had. *)
Lemma trigger_payload r x e :
  withdrawal_evidence x = Ok e → aware_utc (wi_approved_at x) →
  aware_utc (wi_effective_at x) →
  ob_payload (trigger_outbox r x) = ApprovalEvent_payload (withdrawn_event r e).
Proof.
  intros ->%withdrawal_evidence_Ok Ha He. unfold trigger_outbox, ApprovalEvent_payload.
  simpl. by rewrite !isoformat_utc.
Qed.

(** The outbox row of a withdrawal, whichever path wrote it. *)
Definition withdrawal_queued (scope : S) (ev : ApprovalEvent) (ob : OutboxRow S) : Prop :=
  ob_scope ob = scope ∧ ob_event_type ob = "approval.withdrawn" ∧
  ob_payload ob = ApprovalEvent_payload ev ∧ ob_status ob = "pending" ∧
  ob_attempts ob = 0%Z.

(** A completed withdrawal: one transition and one outbox row. *)
Definition withdrawal_done t (scope : S) (rid : UUID) actor
    (authority_ref reason external_ref : string) (t' : Tables S) (o : ApprovalOutcome)
    : Prop :=
  ∃ r p x c e t1 ob,
    withdrawal_made t scope rid actor authority_ref reason external_ref t1 o r p x c e ∧
    t' = with_outbox (t_outbox t ++ [ob]) (after_withdrawal t r x) ∧
    withdrawal_queued scope (withdrawn_event r e) ob.

Lemma emit_one_run scope ev w n w' :
  emit_events scope [ev] None w = (Ok n, w') →
  ∃ ob, ob_scope ob = scope ∧ ob_event_type ob = ae_event_type ev ∧
    ob_payload ob = ApprovalEvent_payload ev ∧ ob_status ob = "pending" ∧
    ob_attempts ob = 0%Z ∧
    w_tables w' = with_outbox (t_outbox (w_tables w) ++ [ob]) (w_tables w).
Proof.
  intros Hrun. cbn [emit_events] in Hrun. bind_ok Hrun row w1 Hm. unfold enqueue_event in Hm.
  bind_ok Hm wid w2 Hm2. apply draw_uuid4_run in Hm2 as [E2 _].
  bind_ok Hm u w3 Hm3. apply add_outbox_run in Hm3 as [(_ & _ & E3)|(e & _ & [=] & _)].
  injection Hm as <- <-. injection Hrun as _ <-. rewrite E2 in E3.
  eexists. split_and!; [..|exact E3]; done.
Qed.

Lemma savepoint_Ok {A} (m : Session S A) w a w' :
  conflict_savepoint m w = (Ok a, w') ↔ m w = (Ok a, w').
Proof. unfold conflict_savepoint. destruct (m w) as [[b|e] w1]; naive_solver. Qed.

Lemma savepoint_Raise {A} (m : Session S A) w e w' :
  conflict_savepoint m w = (Raise e, w') → w_tables w' = w_tables w.
Proof.
  unfold conflict_savepoint. destruct (m w) as [[b|e'] w1]; [done|]. by intros [= _ <-].
Qed.

(** [withdraw_approval] refuses, replays, or withdraws. *)
Lemma withdraw_approval_run scope rid actor authority_ref reason external_ref w res w' :
  Inv (w_tables w) →
  withdraw_approval scope rid actor authority_ref reason external_ref w = (res, w') →
  refused w res w' ∨
  (∃ o, res = Ok o ∧ w_tables w' = w_tables w ∧
    replayed (w_tables w) scope rid actor authority_ref reason external_ref o) ∨
  (∃ o, res = Ok o ∧ withdrawal_done (w_tables w) scope rid actor authority_ref reason
    external_ref (w_tables w') o).
Proof.
  intros Ht Hrun. unfold withdraw_approval in Hrun.
  destruct res as [o|e]; [|left; split; [eauto|by eapply savepoint_Raise]].
  right. rewrite savepoint_Ok in Hrun. bind_ok Hrun o' w1 Hm.
  bind_ok Hrun u w2 Hm2. injection Hrun as -> <-.
  apply withdraw_unqueued_run in Hm as [[Et Hrep]|(r & p & x & c & e & Hmade)]; [..|done].
  - left. exists o. destruct Hrep as (r & p & x & ? & ? & ? & ? & ? & ? & Ho).
    rewrite Ho in Hm2. simpl in Hm2. injection Hm2 as _ <-.
    split_and!; [done|done|]. by exists r, p, x.
  - right. exists o. split; [done|]. pose proof Hmade as [].
    assert (Hc : aware_utc (wi_approved_at x)).
    { rewrite wm_row0. by apply (inv_completed _ Ht r). }
    rewrite wm_outcome0 in Hm2. simpl in Hm2. unfold written in wm_tables0.
    destruct dialect; simpl in Hm2.
    + injection Hm2 as _ <-. exists r, p, x, c, e, (w_tables w1), (trigger_outbox r x).
      split_and!; [done..|]. split_and!; try done. by apply trigger_payload.
    + bind_ok Hm2 n w3 Hm3. apply lift_run in Hm2 as [_ <-].
      apply (emit_one_run scope (withdrawn_event r e)) in Hm3 as (ob & ? & ? & ? & ? & ? & Etab).
      exists r, p, x, c, e, (w_tables w1), ob. split_and!; [done| |by split_and!].
      by rewrite Etab, wm_tables0.
Qed.

Lemma withdraw_approval_inv scope rid actor authority_ref reason external_ref w res w' :
  Inv (w_tables w) →
  withdraw_approval scope rid actor authority_ref reason external_ref w = (res, w') →
  Inv (w_tables w').
Proof.
  intros Ht Hrun. eapply withdraw_approval_run in Hrun as
    [[_ ->]|[(o & _ & -> & _)|(o & _ & r & p & x & c & e & t1 & ob & Hmade & -> & _)]];
    [done..| |done].
  destruct Hmade. apply Inv_outbox.
  by eapply withdraw_transition; [..|exact wm_evidence0]; try done; rewrite wm_row0.
Qed.
End withdrawals.
