(* ===== verification/ApprovalReading.v ===== *)
(** * What the approval reads return

    Under the invariant the read surface does not raise, leaves the tables alone
    and reports what is stored: the evaluation agrees with the stored standing,
    the detail carries withdrawal evidence exactly for withdrawn requests, and
    the actions offered to a viewer are the ones the rules admit. *)

From S2P Require Import Prelude PyData PyTime ApprovalContracts ApprovalPolicy.
From S2P Require Import ApprovalStore ApprovalService ApprovalWithdrawal ApprovalReads.
From S2P Require Import ApprovalInvariant ApprovalCommands ApprovalWithdrawals.
From stdpp Require Import base gmap strings pretty list.
From Stdlib Require Import ZArith.

Section reading.
Context {S : Type} `{Plane S} `{Env}.
Implicit Types (t : Tables S) (w : World S) (r : RequestRow S) (x : WithdrawalRow S)
  (actor viewer : Actor).

(** ** Evaluation *)

(** Recomputing the standing from the votes gives the stored one. *)
Lemma evaluate_stored t r p st :
  request_ok t r p st →
  let e := evaluate p st (re_current_level r) (votes t r) in
  ev_state e = st ∧ ev_current_level e = re_current_level r ∧
  ev_total_levels e = pr_total_levels p ∧
  ev_satisfied_levels e = satisfied_count p (votes t r).
Proof.
  intros Hok. pose proof (ro_standing _ _ _ _ Hok) as Hs.
  pose proof (ro_level _ _ _ _ Hok) as Hl.
  destruct st; simpl in Hs |- *; try done.
  - destruct Hs as (_ & _ & Hlt & E).
    destruct (Z.leb_spec (pr_total_levels p) (satisfied_count p (votes t r))); [lia|].
    simpl. split_and!; try done. lia.
  - destruct Hs as (_ & _ & E & E').
    destruct (Z.leb_spec (pr_total_levels p) (satisfied_count p (votes t r))); [|lia].
    simpl. split_and!; congruence.
Qed.

Lemma evaluate_approval_run w r p st :
  Inv (w_tables w) → r ∈ t_requests (w_tables w) → request_ok (w_tables w) r p st →
  evaluate_approval (re_scope r) (re_id r) w =
  (Ok (evaluate p st (re_current_level r) (votes (w_tables w) r)), w).
Proof.
  intros Ht Hr Hok. unfold evaluate_approval.
  destruct (load_context w r p _ Ht Hok) as [Hpol Hrec].
  rewrite (session_step _ _ _ _ _ (load_request_ok w r Ht Hr)),
    (session_step _ _ _ _ _ Hpol), (lift_step _ _ _ st)
    by (rewrite (ro_state _ _ _ _ Hok); apply ApprovalState_of_value).
  rewrite (ST_step _ _ _ _ _ (load_decisions_run _ _ _)), (lift_step _ _ _ _ Hrec).
  unfold mret, ST_ret. do 2 f_equal. apply evaluate_perm. unfold ordered_votes, votes.
  by rewrite order_decisions_perm.
Qed.

(** ** Permitted actions *)

Lemma attempt_Ok {A} action (m : result exn A) a rs :
  attempt action m = Ok (a, rs) →
  a = (if is_ok m then [action] else []).
Proof. unfold attempt. destruct m; [|case_match]; by intros [= <- <-]. Qed.

Lemma attempt_total {A} action (m : result exn A) :
  (∀ e, m = Raise e → is_approval_error e = true) → is_ok (attempt action m) = true.
Proof. unfold attempt. destruct m as [|e]; [done|]. intros He. by rewrite He. Qed.

(** The rules raise only refusals of the module, once the level exists. *)
Lemma check_refusals level actor requested_by ds p e :
  check_not_duplicate level actor ds = Raise e ∨ check_eligibility level actor = Raise e ∨
  check_self_approval p actor requested_by = Raise e ∨
  check_sod level actor requested_by ds = Raise e ∨ check_mfa level actor = Raise e →
  is_approval_error e = true.
Proof.
  unfold check_not_duplicate, check_eligibility, check_self_approval, check_sod, check_mfa.
  destruct (al_approver_kind level), (al_sod_rule level) as [[]|];
    rewrite ?raise_if_Raise; intros Hx; destruct_or! Hx;
    first [discriminate Hx | destruct Hx as [_ <-]; reflexivity].
Qed.

Lemma authorise_refusals p k actor requested_by ds e :
  (1 ≤ k ≤ pr_total_levels p)%Z →
  authorise_approval p k actor requested_by ds = Raise e → is_approval_error e = true.
Proof.
  intros [l Hl]%pr_level_exists. unfold authorise_approval. rewrite Hl.
  intros Hrun. cbn in Hrun.
  repeat (rewrite result_bind_Raise in Hrun; destruct Hrun as [Hrun|(? & _ & Hrun)]);
    try (by eapply (check_refusals l actor requested_by ds p); eauto 10).
  apply raise_if_Raise in Hrun as [_ <-]. done.
Qed.

Lemma reject_refusals level actor ds e :
  (_ ← check_not_duplicate level actor ds; _ ← check_eligibility level actor;
   check_mfa level actor) = Raise e → is_approval_error e = true.
Proof.
  intros Hrun.
  repeat (rewrite result_bind_Raise in Hrun; destruct Hrun as [Hrun|(? & _ & Hrun)]);
    eapply (check_refusals level actor (actor_id actor) ds
      (MkPolicyRevision "" 0 [] false)); eauto.
Qed.

(** The actions offered on a pending request, by the rules. *)
Lemma permitted_run t r p vs viewer :
  request_ok t r p PENDING →
  ∃ actions refusals, permitted p r vs viewer = Ok (actions, refusals) ∧
    (ACT_APPROVE ∈ actions ↔ ∃ l, may_approve p (re_current_level r) viewer
       (re_requested_by r) vs l) ∧
    (ACT_REJECT ∈ actions ↔ ∃ l, may_reject p (re_current_level r) viewer vs l) ∧
    (ACT_CANCEL ∈ actions ↔ re_requested_by r = actor_id viewer) ∧
    (length actions + length refusals = 3).
Proof.
  intros Hok. pose proof (ro_level _ _ _ _ Hok) as Hl. unfold permitted.
  rewrite (ro_state _ _ _ _ Hok), String.eqb_refl. cbn [negb].
  destruct (pr_level_exists p _ Hl) as [l Hlv]. rewrite Hlv. cbn [mbind result_bind].
  set (A := authorise_approval _ _ _ _ _).
  set (R := (_ ← check_not_duplicate l viewer vs; _ ← check_eligibility l viewer;
             check_mfa l viewer)).
  destruct (attempt ACT_APPROVE A) as [[a1 f1]|e] eqn:Ea.
  2: { exfalso. pose proof (attempt_total ACT_APPROVE A) as Hx. rewrite Ea in Hx.
       apply diff_false_true, Hx. intros e'. by apply authorise_refusals. }
  destruct (attempt ACT_REJECT R) as [[a2 f2]|e] eqn:Er.
  2: { exfalso. pose proof (attempt_total ACT_REJECT R) as Hx. rewrite Er in Hx.
       apply diff_false_true, Hx. intros e'. by apply reject_refusals. }
  assert (Hlen : length a1 + length f1 = 1 ∧ length a2 + length f2 = 1).
  { unfold attempt in Ea, Er. destruct A, R; repeat case_match; simplify_eq; done. }
  apply attempt_Ok in Ea as ->. apply attempt_Ok in Er as ->.
  eexists _, _. split; [done|]. cbn [fst snd].
  assert (HA : is_ok A = true ↔ ∃ l, may_approve p (re_current_level r) viewer
    (re_requested_by r) vs l).
  { rewrite is_ok_true. subst A. by setoid_rewrite authorise_approval_Ok. }
  assert (HR : is_ok R = true ↔ ∃ l, may_reject p (re_current_level r) viewer vs l).
  { pose proof (authorise_decision_Ok p r viewer REJECT vs tt) as Hx. simpl in Hx.
    rewrite <-Hx, Hlv, is_ok_true. cbn [mbind result_bind]. fold R.
    split; [intros [[] ?]|]; eauto. }
  rewrite <-HA, <-HR.
  destruct (is_ok A), (is_ok R); simpl in Hlen |- *; case_bool_decide; simpl;
    rewrite ?length_app; simpl; split_and!; try lia; set_solver.
Qed.

(** ** The request detail *)

Lemma policies_named_governed t r p :
  Inv t → governed t r p →
  ∃ row, policies_named (re_scope r) (re_policy_code r) (re_policy_version r) t = [row] ∧
    stores row p.
Proof.
  intros Ht (row & Hin & Hs & Hst & Hc & Hv). exists row. split; [|done].
  assert (Hrow : row ∈ policies_named (re_scope r) (re_policy_code r) (re_policy_version r) t).
  { apply list_elem_of_filter. destruct Hst. split; [|done]. split_and!; congruence. }
  destruct (policies_named_inv t (re_scope r) (re_policy_code r) (re_policy_version r) Ht)
    as [E|(row' & E & _)]; rewrite E in *; [set_solver|].
  by apply list_elem_of_singleton in Hrow as ->.
Qed.

Lemma decision_views (ds : list (DecisionRow S)) :
  Forall action_valid ds → ∃ views, map_result decision_view ds = Ok views.
Proof.
  induction 1 as [|d ds Hd Hds [views IH]]; [by eexists|].
  assert (∃ v, decision_view d = Ok v) as [v Hv].
  { unfold decision_view. destruct Hd as [-> | ->]; by eexists. }
  cbn [map_result]. rewrite Hv. cbn. rewrite IH. by eexists.
Qed.

(** The withdrawal read finds evidence exactly for a withdrawn request. *)
Lemma get_withdrawal_run w r p st :
  Inv (w_tables w) → r ∈ t_requests (w_tables w) → request_ok (w_tables w) r p st →
  ∃ o, get_withdrawal (re_scope r) (re_id r) w = (Ok o, w) ∧ (is_Some o ↔ st = WITHDRAWN).
Proof.
  intros Ht Hr Hok. unfold get_withdrawal, mbind, ST_bind, tables, gets, lift.
  destruct (filter_key_unique
    (λ x, wi_scope x = re_scope r ∧ wi_request_id x = re_id r)
    _ (re_scope r, re_id r) _ (inv_wi_request _ Ht)) as [E|(x & E & Hx & Hs & Hi)];
    [by intros x [-> ->]| |]; unfold withdrawals_by_request; rewrite E; simpl.
  - exists None. split; [done|]. split; [by intros []|]. intros ->.
    destruct (ro_standing _ _ _ _ Hok) as (_ & _ & _ & _ & x & Hx & Hs & Hi).
    assert (x ∈ filter (λ x, wi_scope x = re_scope r ∧ wi_request_id x = re_id r)
      (t_withdrawals (w_tables w))) as Hin by by apply list_elem_of_filter.
    rewrite E in Hin. set_solver.
  - destruct (inv_withdrawal _ Ht x Hx) as (r' & [Hr' Hs' Hi' Hst _ [e He]]).
    rewrite He. exists (Some e). split; [done|]. split; [|by eexists]. intros _.
    assert (r' = r) as ->.
    { eapply NoDup_key_eq; [apply (inv_re_id _ Ht)|done..|congruence]. }
    apply (inj state_value). by rewrite <-Hst, (ro_state _ _ _ _ Hok).
Qed.

Lemma request_view_run r st :
  ApprovalState_of (re_state r) = Ok st →
  ∃ v, request_view r = Ok v ∧ rv_id v = re_id r ∧
    rv_content_digest v = re_content_digest r ∧ rv_state v = st.
Proof. intros E. unfold request_view. rewrite E. by eexists. Qed.

(** What the detail of a stored request reports. *)
Record detail_of t r (p : PolicyRevision) (st : ApprovalState) viewer (d : RequestDetail)
    : Prop := {
  do_id : rv_id (rq_request d) = re_id r;
  do_digest : rv_content_digest (rq_request d) = re_content_digest r;
  do_state : rv_state (rq_request d) = st;
  do_evaluation : rq_evaluation d = evaluate p st (re_current_level r) (votes t r);
  do_actions : if decide (st = PENDING)
    then permitted p r (ordered_votes t r) viewer
         = Ok (rq_permitted_actions d, rq_refusals d)
    else rq_permitted_actions d = [] ∧ rq_refusals d = [];
  do_withdrawal : is_Some (rq_withdrawal d) ↔ st = WITHDRAWN;
}.

Lemma permitted_total t r p st vs viewer :
  request_ok t r p st →
  ∃ able, permitted p r vs viewer = Ok able ∧ (st ≠ PENDING → able = ([], [])).
Proof.
  intros Hok. destruct (decide (st = PENDING)) as [->|Hst].
  - destruct (permitted_run t r p vs viewer Hok) as (a & f & E & _).
    by exists (a, f).
  - exists ([], []). split; [|done]. unfold permitted.
    rewrite (proj2 (String.eqb_neq _ _)); [done|].
    intros E. rewrite (ro_state _ _ _ _ Hok) in E. by apply (inj state_value) in E.
Qed.

Lemma get_request_run w r p st viewer :
  Inv (w_tables w) → r ∈ t_requests (w_tables w) → request_ok (w_tables w) r p st →
  ∃ d, get_request (re_scope r) (re_id r) (Some viewer) w = (Ok (Some d), w) ∧
    detail_of (w_tables w) r p st viewer d.
Proof.
  intros Ht Hr Hok. unfold get_request.
  rewrite (session_step tables _ w (w_tables w) w) by done.
  rewrite (requests_by_id_in _ r Ht Hr), (lift_step _ _ _ (Some r)) by done.
  destruct (policies_named_governed _ r p Ht) as (row & E & Hst); [apply Hok|].
  rewrite E, (lift_step _ _ _ (Some row)) by done.
  run_with (load_decisions_run w (re_scope r) (re_id r)).
  pose proof (stores_reads row p Hst) as Hrev.
  destruct (load_context w r p st Ht Hok) as [_ Hrec].
  run_with Hrev. run_with Hrec.
  assert (Est : ApprovalState_of (re_state r) = Ok st)
    by (rewrite (ro_state _ _ _ _ Hok); apply ApprovalState_of_value).
  run_with Est.
  destruct (permitted_total _ r p st (ordered_votes (w_tables w) r) viewer Hok)
    as (able & Eable & Hable).
  run_with Eable.
  destruct (request_view_run r st Est) as (rv & Erv & Hid & Hdig & Hst').
  assert (∃ pv, policy_view row = Ok pv) as [pv Epv]
    by (unfold policy_view; rewrite Hrev; by eexists).
  run_with Erv. run_with Epv.
  destruct (decision_views (order_decisions (decisions_of (w_tables w) (re_scope r) (re_id r))))
    as [views Hviews].
  { rewrite order_decisions_perm. by apply (history_valid _ r p st). }
  run_with Hviews.
  destruct (get_withdrawal_run w r p st Ht Hr Hok) as (o & Ho & Hsome).
  run_with Ho.
  assert (Hev : evaluate p st (re_current_level r) (ordered_votes (w_tables w) r)
    = evaluate p st (re_current_level r) (votes (w_tables w) r))
    by (apply evaluate_perm; unfold ordered_votes, votes; by rewrite order_decisions_perm).
  destruct (evaluate_stored _ _ _ _ Hok) as [Hevs _].
  rewrite Hev. unfold RequestDetail_check. cbn [rq_evaluation rq_withdrawal]. rewrite Hevs.
  rewrite (bool_decide_ext (is_Some o) (st = WITHDRAWN)) by done.
  rewrite eqb_reflx. cbn. eexists. split; [done|]. split; try done. cbn.
  case_decide as Hp; [by destruct able|]. by rewrite (Hable Hp).
Qed.

(** ** Cancelling *)

Lemma cancel_request_ok w r p by_ reason :
  Inv (w_tables w) → r ∈ t_requests (w_tables w) → request_ok (w_tables w) r p PENDING →
  re_requested_by r = by_ →
  ∃ o w', cancel_request (re_scope r) (re_id r) by_ reason w = (Ok o, w').
Proof.
  intros Ht Hr Hok <-. unfold cancel_request.
  rewrite (session_step _ _ _ _ _ (load_request_ok w r Ht Hr)).
  rewrite (session_lift _ _ _ tt) by (apply require_pending_Ok, Hok).
  rewrite (session_lift _ _ _ tt) by (rewrite bool_decide_false; [done|by intros []]).
  rewrite (session_step now_utc _ w (utc_of (clock (w_tick w))) (snd (now_utc w))) by done.
  set (r' := set_standing r CANCELLED _ _). cbv zeta.
  destruct (cancel_transition (w_tables w) r p (clock (w_tick w)) (Some reason) Ht Hr Hok)
    as [Hinv Hok']. fold r' in Hinv, Hok'. set (t' := with_requests _ _) in Hinv, Hok'.
  rewrite (session_step (flush_request r') _ _ tt (set_tables t' (snd (now_utc w)))) by done.
  destruct (load_context (set_tables t' (snd (now_utc w))) r' p _ Hinv Hok') as [Hpol _].
  rewrite (session_step _ _ _ _ _ Hpol), (session_lift _ _ _ (event_of r' CANCELLED)) by done.
  change (re_scope r) with (re_scope r').
  rewrite (make_outcome_of _ r' p CANCELLED) by done. eauto.
Qed.
End reading.
