(* ===== verification/ApprovalReach.v ===== *)
(** * Runs of the approval commands

    A run is any sequence of the five commands of a plane, with any arguments a
    caller can construct and whether or not they succeed, from empty tables.
    Every table a run can reach satisfies the invariant, and each step only
    appends rows and advances requests. *)

From S2P Require Import Prelude PyData PyTime ApprovalContracts ApprovalPolicy.
From S2P Require Import ApprovalStore ApprovalService ApprovalWithdrawal ApprovalReads.
From S2P Require Import ApprovalInvariant ApprovalCommands ApprovalWithdrawals.
From stdpp Require Import base gmap strings pretty list relations.
From Stdlib Require Import ZArith.

(** ** Commands *)

Inductive Command (S : Type) : Type :=
  | Publish (scope : S) (revision : PolicyRevision)
  | Open (scope : S) (policy_code : string) (policy_version : Z)
      (subject_type subject_id content_digest : string) (requested_by : UUID)
      (idempotency_key : string)
  | Decide (scope : S) (request_id : UUID) (actor : Actor) (action : DecisionAction)
      (content_digest : string) (comment : option string) (delegated_from : option UUID)
  | Cancel (scope : S) (request_id cancelled_by : UUID) (reason : string)
  | Withdraw (scope : S) (request_id : UUID) (actor : Actor)
      (authority_ref reason external_ref : string).
Arguments Publish {S}. Arguments Open {S}. Arguments Decide {S}. Arguments Cancel {S}.
Arguments Withdraw {S}.

Definition command_scope {S} (c : Command S) : S :=
  match c with
  | Publish s _ | Open s _ _ _ _ _ _ _ | Decide s _ _ _ _ _ _ | Cancel s _ _ _
  | Withdraw s _ _ _ _ _ => s
  end.

(** A caller holds a [PolicyRevision] only if its constructor, and those of its
    levels, accepted it. *)
Definition constructed (p : PolicyRevision) : Prop :=
  PolicyRevision_check p = Ok p ∧ Forall (λ l, ApprovalLevel_check l = Ok l) (pr_levels p).

Definition command_valid {S} (c : Command S) : Prop :=
  match c with Publish _ p => constructed p | _ => True end.

Lemma constructed_ok p : constructed p ↔ policy_ok p.
Proof.
  unfold constructed. rewrite PolicyRevision_check_Ok. split.
  - intros [(_ & ? & ? & ? & ?) Hls]. split; try done.
    eapply Forall_impl; [exact Hls|]. by intros l [_ ?]%ApprovalLevel_check_Ok.
  - intros [? ? ? ? Hls]. split; [done|].
    eapply Forall_impl; [exact Hls|]. intros l Hl. by apply ApprovalLevel_check_Ok.
Qed.

Section runs.
Context {S : Type} `{Plane S} `{Env}.
Implicit Types (t : Tables S) (w : World S) (r : RequestRow S) (c : Command S).

(** Run a command and keep only whether it raised. *)
Definition run_command c w : result exn unit * World S :=
  let forget {A} (m : Session S A) := (_ ← m; mret tt) w in
  match c with
  | Publish scope p => forget (publish_policy_version scope p)
  | Open scope code version styp sid digest by_ key =>
      forget (request_approval scope code version styp sid digest by_ key)
  | Decide scope rid actor action digest comment delegated =>
      forget (record_decision scope rid actor action digest comment delegated)
  | Cancel scope rid by_ reason => forget (cancel_request scope rid by_ reason)
  | Withdraw scope rid actor authority_ref reason external_ref =>
      forget (withdraw_approval scope rid actor authority_ref reason external_ref)
  end.

(** One step of the plane: a command, or the session turning to another
    tenant. *)
Inductive step : World S → World S → Prop :=
  | step_command c w : command_valid c → step w (run_command c w).2
  | step_context s w :
      step w (MkWorld (w_tables w) (w_tick w) (w_drawn w) s).

Definition initial w : Prop := w_tables w = empty_tables.

Definition reachable w : Prop := ∃ w0, initial w0 ∧ rtc step w0 w.

(** A run of the commands of a list. *)
Definition run_commands (cs : list (Command S)) w : World S :=
  foldl (λ w c, (run_command c w).2) w cs.

Lemma run_commands_reachable cs w :
  Forall command_valid cs → initial w → reachable (run_commands cs w).
Proof.
  intros Hcs Hw. exists w. split; [done|]. clear Hw. revert w.
  induction Hcs as [|c cs Hc Hcs IH]; intros w; simpl; [done|].
  eapply rtc_l; [by apply step_command|]. apply IH.
Qed.

Lemma forget_run {A} (m : Session S A) w res w' :
  (_ ← m; mret tt) w = (res, w') →
  ∃ res', m w = (res', w') ∧ is_ok res' = is_ok res.
Proof.
  intros [(a & w1 & Hm & [= <- <-])|(e & Hm & ->)]%ST_bind_run; eauto.
Qed.

(** ** The invariant along runs *)

Lemma run_command_inv c w res w' :
  Inv (w_tables w) → command_valid c → run_command c w = (res, w') → Inv (w_tables w').
Proof.
  intros Ht Hc Hrun.
  destruct c; apply forget_run in Hrun as (res' & Hrun & _).
  - eapply publish_inv; [done|by apply constructed_ok|done].
  - by eapply request_approval_inv.
  - by eapply record_decision_inv.
  - by eapply cancel_request_inv.
  - by eapply withdraw_approval_inv.
Qed.

Lemma Inv_empty : Inv (@empty_tables S).
Proof. split; simpl; try constructor; intros; set_solver. Qed.

Lemma step_inv w w' : step w w' → Inv (w_tables w) → Inv (w_tables w').
Proof.
  intros [c w1 Hc|s w1] Ht; [|done].
  destruct (run_command c w1) as [res w'1] eqn:E. by eapply run_command_inv.
Qed.

Lemma steps_inv w w' : rtc step w w' → Inv (w_tables w) → Inv (w_tables w').
Proof. induction 1; eauto using step_inv. Qed.

Lemma reachable_inv w : reachable w → Inv (w_tables w).
Proof.
  intros (w0 & Hw0 & Hsteps). eapply steps_inv; [done|].
  rewrite Hw0. apply Inv_empty.
Qed.

(** ** What a step may change *)

(** How one request advances: not at all, up a level while pending, to an end
    from pending, or from approved to withdrawn. *)
Inductive advances r r' : Prop :=
  | advances_not : r' = r → advances r r'
  | advances_level :
      re_state r = state_value PENDING → re_state r' = state_value PENDING →
      (re_current_level r ≤ re_current_level r')%Z →
      re_completed_at r' = re_completed_at r → re_note r' = re_note r → advances r r'
  | advances_end s :
      s ∈ [APPROVED; REJECTED; CANCELLED] →
      re_state r = state_value PENDING → re_state r' = state_value s →
      (re_current_level r ≤ re_current_level r')%Z →
      re_completed_at r = None → is_Some (re_completed_at r') → advances r r'
  | advances_withdrawn :
      re_state r = state_value APPROVED → re_state r' = state_value WITHDRAWN →
      re_current_level r' = re_current_level r →
      re_completed_at r' = re_completed_at r → re_note r' = re_note r → advances r r'.

Record evolves t t' : Prop := {
  evo_policies : t_policies t `prefix_of` t_policies t';
  evo_decisions : t_decisions t `prefix_of` t_decisions t';
  evo_withdrawals : t_withdrawals t `prefix_of` t_withdrawals t';
  evo_outbox : t_outbox t `prefix_of` t_outbox t';
  evo_requests : ∀ r, r ∈ t_requests t →
    ∃ r', r' ∈ t_requests t' ∧ same_request r r' ∧ advances r r';
}.

Lemma same_request_refl r : same_request r r.
Proof. by split. Qed.

Lemma evolves_refl t : evolves t t.
Proof.
  split; [done..|]. intros r Hr. exists r.
  split_and!; [done|apply same_request_refl|by apply advances_not].
Qed.

(** Replacing one request by one it advances to. *)
Lemma evolves_replace t t' r r' :
  Inv t → r ∈ t_requests t → same_request r r' → advances r r' →
  t_policies t `prefix_of` t_policies t' → t_decisions t `prefix_of` t_decisions t' →
  t_withdrawals t `prefix_of` t_withdrawals t' → t_outbox t `prefix_of` t_outbox t' →
  t_requests t' = replace_request r' (t_requests t) →
  evolves t t'.
Proof.
  intros Ht Hr Hsame Hadv ? ? ? ? E. split; [done..|]. intros x Hx. rewrite E.
  destruct (decide (re_id x = re_id r')) as [Ei|Ei].
  - assert (x = r) as ->.
    { eapply NoDup_key_eq; [apply (inv_re_id _ Ht)|done..|].
      by rewrite Ei, (sr_id _ _ Hsame). }
    exists r'. split_and!; [by apply (replace_elem_of _ _ r)|done..].
  - exists x. split_and!; [by apply replace_elem_of_other|apply same_request_refl|
      by apply advances_not].
Qed.

Lemma decided_advances t r p action vs n comment :
  request_ok t r p PENDING → policy_ok p →
  (re_current_level r ≤ satisfied_count p vs + 1)%Z →
  advances r (decided p r action vs (utc_of n) comment).
Proof.
  intros Hok Hp Hsat. pose proof (ro_state _ _ _ _ Hok) as Hst.
  destruct (ro_standing _ _ _ _ Hok) as (Hnone & _).
  destruct (decided_level p r action vs (utc_of n) comment Hp) as [Hle _];
    [apply (ro_level _ _ _ _ Hok)|done|].
  unfold decided in *. destruct action.
  - destruct (ev_is_approved _).
    + apply (advances_end _ _ APPROVED); try done. set_solver.
    + by apply advances_level.
  - apply (advances_end _ _ REJECTED); try done. set_solver.
Qed.

Lemma decision_evolves t scope rid actor action digest comment delegated t' o r p d n :
  Inv t →
  decision_made t scope rid actor action digest comment delegated t' o r p d n →
  evolves t t'.
Proof.
  intros Ht [Hr _ _ Hok _ _ _ _ -> _].
  destruct (ro_governed _ _ _ _ Hok) as (row & _ & _ & [Hp] & _).
  eapply (evolves_replace t _ r); [done|done|apply decided_same|..]; try done.
  - eapply decided_advances; [done..|].
    destruct (ro_standing _ _ _ _ Hok) as (_ & _ & _ & ->).
    assert (satisfied_count p (votes t r) ≤ satisfied_count p
      (rd_of <$> order_decisions (history t r ++ [d])))%Z; [|lia].
    apply satisfied_prefix_mono. unfold votes. rewrite order_decisions_perm, fmap_app.
    set_solver.
  - by apply prefix_app_r.
Qed.

Lemma cancel_evolves t r p n note :
  Inv t → r ∈ t_requests t → request_ok t r p PENDING →
  evolves t (with_requests (replace_request
    (set_standing r CANCELLED (Some (utc_of n)) note) (t_requests t)) t).
Proof.
  intros Ht Hr Hok.
  apply (evolves_replace t _ r (set_standing r CANCELLED (Some (utc_of n)) note)); try done.
  apply (advances_end _ _ CANCELLED); try done; [set_solver|apply Hok|].
  by destruct (ro_standing _ _ _ _ Hok).
Qed.

Lemma withdraw_evolves t r p x l :
  Inv t → r ∈ t_requests t → request_ok t r p APPROVED → t_outbox t `prefix_of` l →
  evolves t (with_outbox l (after_withdrawal t r x)).
Proof.
  intros Ht Hr Hok Hl. apply (evolves_replace t _ r (withdrawn_request r)); try done.
  - by apply advances_withdrawn; [apply Hok|..].
  - by apply prefix_app_r.
Qed.

Lemma step_evolves w w' :
  Inv (w_tables w) → step w w' → evolves (w_tables w) (w_tables w').
Proof.
  intros Ht Hstep. revert Ht. destruct Hstep as [c w Hc|s w]; intros Ht;
    [|apply evolves_refl].
  destruct (run_command c w) as [res w'] eqn:Hrun. simpl.
  assert (Heq : ∀ t', t' = w_tables w → evolves (w_tables w) t').
  { intros t' ->. apply evolves_refl. }
  destruct c; apply forget_run in Hrun as (res' & Hrun & _).
  - apply publish_run in Hrun as [[_ ?]|(? & ? & _ & _ & _ & ->)]; [by apply Heq|].
    split; try done; [by apply prefix_app_r|]. intros r Hr. exists r.
    split_and!; [done|apply same_request_refl|by apply advances_not].
  - apply request_approval_run in Hrun as [[_ ?]|[Hr|Ho]]; [by apply Heq| | |done].
    + destruct Hr as (? & ? & ? & _ & _ & _ & _ & _ & _ & -> & _). by apply Heq.
    + destruct Ho as (? & ? & ? & _ & _ & _ & _ & _ & -> & _).
      split; try done. intros r Hr. exists r.
      split_and!; [simpl; set_solver|apply same_request_refl|by apply advances_not].
  - apply record_decision_run in Hrun as [[_ ?]|(? & ? & ? & ? & ? & _ & Hd)];
      [by apply Heq| |done]. by eapply decision_evolves.
  - apply cancel_request_run in Hrun as
      [[_ ?]|(r & p & n & Hr & _ & _ & _ & Hok & _ & _ & -> & _)]; [by apply Heq| |done].
    by eapply cancel_evolves.
  - apply withdraw_approval_run in Hrun as
      [[_ ?]|[(? & _ & ? & _)|(o & _ & Hd)]]; [by apply Heq..| |done].
    destruct Hd as (r & p & x & n & e & t1 & ob & [] & -> & _).
    eapply withdraw_evolves; [done..|]. by apply prefix_app_r.
Qed.

(** ** What runs may change *)

Lemma advances_terminal r r' s :
  s ∈ [REJECTED; CANCELLED; WITHDRAWN] → re_state r = state_value s → advances r r' →
  r' = r.
Proof.
  intros Hs E [->|E'|? ? E'|E']; [done|..]; rewrite E in E'; set_solver.
Qed.
(** The votes on a request that is no longer pending are closed. *)
Lemma step_history w w' r :
  Inv (w_tables w) → step w w' → r ∈ t_requests (w_tables w) →
  re_state r ≠ state_value PENDING →
  history (w_tables w') r = history (w_tables w) r.
Proof.
  intros Ht Hstep. revert Ht. destruct Hstep as [c w Hc|s w]; intros Ht Hr Hst; [|done].
  destruct (run_command c w) as [res w'] eqn:Hrun. simpl.
  assert (Heq : ∀ t', t_decisions t' = t_decisions (w_tables w) →
    history t' r = history (w_tables w) r).
  { intros t' E. unfold history, decisions_of. by rewrite E. }
  destruct c; apply forget_run in Hrun as (res' & Hrun & _).
  - apply publish_run in Hrun as [[_ E]|(? & ? & _ & _ & _ & E)]; apply Heq; by rewrite E.
  - apply request_approval_run in Hrun as [[_ E]|[Hx|Hx]]; [| | |done].
    + apply Heq. by rewrite E.
    + by destruct Hx as (? & ? & ? & _ & _ & _ & _ & _ & _ & -> & _).
    + destruct Hx as (? & ? & ? & _ & _ & _ & _ & _ & E & _). apply Heq. by rewrite E.
  - apply record_decision_run in Hrun as [[_ E]|(o & r0 & p & d & n & _ & Hd)];
      [apply Heq; by rewrite E| |done].
    destruct Hd as [Hr0 _ Hid Hok _ _ Hd _ -> _].
    apply (history_snoc_other _ _ r (de_request_id d) [d]); [done|by apply Forall_singleton|].
    rewrite Hd. simpl. rewrite <-Hid. intros E.
    assert (r = r0) as -> by (by eapply NoDup_key_eq; [apply (inv_re_id _ Ht)|..]).
    apply Hst, Hok.
  - apply cancel_request_run in Hrun as
      [[_ E]|(? & ? & ? & _ & _ & _ & _ & _ & _ & _ & E & _)]; [..|done];
      apply Heq; by rewrite E.
  - apply withdraw_approval_run in Hrun as
      [[_ E]|[(? & _ & E & _)|(? & _ & (? & ? & ? & ? & ? & ? & ? & _ & E & _))]]; [..|done];
      apply Heq; by rewrite E.
Qed.

(** A request in a final state survives any run, with its votes. *)
Lemma steps_final w w' r s :
  Inv (w_tables w) → rtc step w w' → r ∈ t_requests (w_tables w) →
  s ∈ [REJECTED; CANCELLED; WITHDRAWN] → re_state r = state_value s →
  r ∈ t_requests (w_tables w') ∧ history (w_tables w') r = history (w_tables w) r.
Proof.
  intros Ht Hsteps Hr Hs Hst. induction Hsteps as [w|w w1 w' Hstep Hsteps IH]; [done|].
  assert (Hnp : re_state r ≠ state_value PENDING).
  { rewrite Hst. intros E%(inj state_value). subst s. set_solver. }
  destruct (evo_requests _ _ (step_evolves _ _ Ht Hstep) r Hr) as (r' & Hr' & _ & Hadv).
  rewrite (advances_terminal _ _ _ Hs Hst Hadv) in Hr'.
  destruct IH as [Hin Hh]; [by eapply step_inv|done|]. split; [done|].
  rewrite Hh. by apply step_history.
Qed.

(** Rows once appended stay. *)
Lemma steps_policies w w' row :
  Inv (w_tables w) → rtc step w w' → row ∈ t_policies (w_tables w) →
  row ∈ t_policies (w_tables w').
Proof.
  intros Ht Hsteps Hrow. induction Hsteps as [w|w w1 w' Hstep Hsteps IH]; [done|].
  apply IH; [by eapply step_inv|].
  destruct (evo_policies _ _ (step_evolves _ _ Ht Hstep)) as [k ->]. set_solver.
Qed.

(** ** Scopes *)

(** The rows of one tenant. *)
Definition rows_of (s : S) t : Tables S :=
  MkTables (filter (λ x, po_scope x = s) (t_policies t))
    (filter (λ x, re_scope x = s) (t_requests t))
    (filter (λ x, de_scope x = s) (t_decisions t))
    (filter (λ x, wi_scope x = s) (t_withdrawals t))
    (filter (λ x, ob_scope x = s) (t_outbox t)).

Lemma filter_snoc_out {A} (P : A → Prop) `{∀ x, Decision (P x)} l x :
  ¬ P x → filter P (l ++ [x]) = filter P l.
Proof. intros Hx. rewrite filter_app, filter_cons_False by done. apply app_nil_r. Qed.

Lemma filter_replace_out s r r' (rows : list (RequestRow S)) :
  NoDup (re_id <$> rows) → r ∈ rows → same_request r r' → re_scope r ≠ s →
  filter (λ x, re_scope x = s) (replace_request r' rows) = filter (λ x, re_scope x = s) rows.
Proof.
  intros Hnd Hr Hsame Hs. unfold replace_request.
  assert (Hid : ∀ y, y ∈ rows → re_id y = re_id r' → y = r).
  { intros y Hy E. eapply NoDup_key_eq; [done..|]. by rewrite E, (sr_id _ _ Hsame). }
  clear Hnd Hr. induction rows as [|y rows IH]; [done|]. simpl.
  assert (IH' := IH (λ z Hz, Hid z (list_elem_of_further _ _ _ Hz))). clear IH.
  case_decide as E.
  - assert (y = r) as -> by (apply Hid; set_solver).
    rewrite !filter_cons_False; [done|done|]. by rewrite (sr_scope _ _ Hsame).
  - destruct (decide (re_scope y = s)) as [Ey|Ey].
    + rewrite !filter_cons_True by done. by f_equal.
    + by rewrite !filter_cons_False by done.
Qed.

(** A command leaves the rows of every other tenant alone. *)
Lemma run_command_scope c w res w' s :
  Inv (w_tables w) → run_command c w = (res, w') → command_scope c ≠ s →
  rows_of s (w_tables w') = rows_of s (w_tables w).
Proof.
  intros Ht Hrun Hs. unfold rows_of.
  destruct c; apply forget_run in Hrun as (res' & Hrun & _); simpl in Hs.
  - apply publish_run in Hrun as [[_ ->]|(? & ? & _ & _ & _ & ->)]; [done|].
    f_equal. by apply filter_snoc_out.
  - apply request_approval_run in Hrun as [[_ ->]|[Hx|Hx]]; [done| | |done].
    + by destruct Hx as (? & ? & ? & _ & _ & _ & _ & _ & _ & -> & _).
    + destruct Hx as (? & ? & ? & _ & _ & _ & _ & _ & -> & _).
      f_equal. by apply filter_snoc_out.
  - apply record_decision_run in Hrun as [[_ ->]|(o & r & p & d & n & _ & Hd)]; [done| |done].
    destruct Hd as [Hr Hsc _ _ _ _ Hd _ -> _]. f_equal; cbn -[decided].
    + eapply filter_replace_out; [apply Ht|done|apply decided_same|congruence].
    + apply filter_snoc_out. rewrite Hd. simpl. congruence.
  - apply cancel_request_run in Hrun as
      [[_ ->]|(r & p & n & Hr & Hsc & _ & _ & _ & _ & _ & -> & _)]; [done| |done].
    f_equal. simpl. eapply (filter_replace_out _ r); [apply Ht|done|by split|congruence].
  - apply withdraw_approval_run in Hrun as
      [[_ ->]|[(? & _ & -> & _)|(? & _ & (r & p & x & n & e & t1 & ob & Hm & -> & Hq & _))]];
      [done..| |done].
    destruct Hm. f_equal; simpl.
    + eapply (filter_replace_out _ r); [apply Ht|done|by split|congruence].
    + apply filter_snoc_out. rewrite wm_row. simpl. congruence.
    + apply filter_snoc_out. congruence.
Qed.

(** A command that raised changed no row. *)
Lemma run_command_refused c w e w' :
  Inv (w_tables w) → run_command c w = (Raise e, w') → w_tables w' = w_tables w.
Proof.
  intros Ht Hrun. destruct c; apply forget_run in Hrun as (res' & Hrun & Hres).
  - by apply publish_run in Hrun as [[_ ->]|(? & ? & -> & _)].
  - apply request_approval_run in Hrun as [[_ ->]|[Hx|Hx]]; [done| | |done].
    + by destruct Hx as (? & ? & ? & _ & _ & _ & _ & _ & _ & -> & _).
    + by destruct Hx as (? & ? & ? & _ & _ & _ & _ & _ & _ & _ & _ & ->).
  - by apply record_decision_run in Hrun as [[_ ->]|(o & r & p & d & n & -> & Hd)].
  - by apply cancel_request_run in Hrun as
      [[_ ->]|(r & p & n & _ & _ & _ & _ & _ & _ & _ & _ & ->)].
  - by apply withdraw_approval_run in Hrun as
      [[_ ->]|[(? & -> & _)|(? & -> & _)]].
Qed.
End runs.
