(* ===== verification/ApprovalExample.v ===== *)
(** * A platform plane with one approval run to its end

    A concrete environment and a short history of commands: a two-level policy is
    published, a request opened, approved by two holders of a role and then by a
    named user with MFA, and withdrawn. The theorems about runs are applied to
    its worlds. *)

From S2P Require Import Prelude PyData PyTime ApprovalContracts ApprovalPolicy.
From S2P Require Import ApprovalStore ApprovalService ApprovalWithdrawal ApprovalReads.
From S2P Require Import ApprovalInvariant ApprovalCommands ApprovalWithdrawals.
From S2P Require Import ApprovalReach.
From stdpp Require Import base gmap strings pretty list relations.
From Stdlib Require Import ZArith.

(** UUIDs are drawn from 1000 upwards, the clock ticks in seconds. *)
Definition example_uuid (n : N) : UUID := default (MkUUID 0 eq_refl) (uuid_of_N n).

Definition example_env (d : Dialect) : Env := {|
  env_runtime := toy_runtime;
  clock n := (1000000 * Z.of_nat n)%Z;
  uuid4 n := example_uuid (1000 + N.of_nat n);
  dialect := d
|}.

Definition requester : UUID := MkUUID 1 eq_refl.
Definition reviewer_role : UUID := MkUUID 7 eq_refl.
Definition reviewer (n : N) : Actor := MkActor (example_uuid n) [reviewer_role] false.
Definition director : Actor := MkActor (MkUUID 9 eq_refl) [] true.

Definition example_policy : PolicyRevision :=
  MkPolicyRevision "release" 1
    [ MkApprovalLevel 1 ROLE (str_uuid reviewer_role) 2 (Some CANNOT_BE_REQUESTER) false true;
      MkApprovalLevel 2 USER (str_uuid (actor_id director)) 1
        (Some CANNOT_BE_PREVIOUS_APPROVER) true true ]
    false.

Definition example_digest : string :=
  "sha256:00112233445566778899aabbccddeeff00112233445566778899aabbccddeeff".

Definition start : World unit := MkWorld empty_tables 0 0 tt.

Section example.
Context (d : Dialect).
#[local] Existing Instance example_env.

(** The request id the second draw gives. *)
Definition example_request : UUID := example_uuid 1001.

Definition opening : list (Command unit) :=
  [ Publish tt example_policy;
    Open tt "release" 1 "build" "b-1" example_digest requester "key-1" ].
Definition first_votes : list (Command unit) :=
  [ Decide tt example_request (reviewer 2) APPROVE example_digest None None;
    Decide tt example_request (reviewer 3) APPROVE example_digest None None ].
Definition last_vote : list (Command unit) :=
  [ Decide tt example_request director APPROVE example_digest None None ].
Definition withdrawal : list (Command unit) :=
  [ Withdraw tt example_request director "CAB-7" "superseded" "ext-1" ].

Definition opened_world : World unit :=
  run_commands (H0 := example_env d) opening start.
Definition approved_world : World unit :=
  run_commands (H0 := example_env d) (opening ++ first_votes ++ last_vote) start.
Definition withdrawn_world : World unit :=
  run_commands (H0 := example_env d) (opening ++ first_votes ++ last_vote ++ withdrawal) start.

(** The one request of a world. *)
Definition the_request (w : World unit) : RequestRow unit :=
  default (MkRequestRow requester tt "" 0 "" "" "" requester "" 0 "" None None (utc_of 0))
    (head (t_requests (w_tables w))).
End example.

Lemma example_policy_constructed : constructed example_policy.
Proof. split; [reflexivity|]. repeat constructor. Qed.

Example opened_pending d : re_state (the_request (opened_world d)) = "pending".
Proof. destruct d; vm_compute; reflexivity. Qed.
Example approved_approved d : re_state (the_request (approved_world d)) = "approved".
Proof. destruct d; vm_compute; reflexivity. Qed.
Example withdrawn_withdrawn d : re_state (the_request (withdrawn_world d)) = "withdrawn".
Proof. destruct d; vm_compute; reflexivity. Qed.

Definition publishes_example (c : Command unit) : bool :=
  match c with Publish _ p => bool_decide (p = example_policy) | _ => true end.

Lemma example_reachable d cs :
  forallb publishes_example cs = true →
  reachable (H0 := example_env d) (run_commands (H0 := example_env d) cs start).
Proof.
  intros Hcs. apply run_commands_reachable; [|done].
  apply Forall_forall. intros c Hc.
  rewrite forallb_forall in Hcs. specialize (Hcs c (proj1 (list_elem_of_In _ _) Hc)).
  destruct c; try done. simpl in Hcs. apply bool_decide_eq_true in Hcs as ->.
  apply example_policy_constructed.
Qed.

Lemma opened_reachable d : reachable (H0 := example_env d) (opened_world d).
Proof. by apply (example_reachable d opening). Qed.
Lemma approved_reachable d : reachable (H0 := example_env d) (approved_world d).
Proof. by apply (example_reachable d (opening ++ first_votes ++ last_vote)). Qed.
Lemma withdrawn_reachable d : reachable (H0 := example_env d) (withdrawn_world d).
Proof. by apply (example_reachable d (opening ++ first_votes ++ last_vote ++ withdrawal)). Qed.

Lemma opened_in d : the_request (opened_world d) ∈ t_requests (w_tables (opened_world d)).
Proof. destruct d; vm_compute; left. Qed.
Lemma approved_in d : the_request (approved_world d) ∈ t_requests (w_tables (approved_world d)).
Proof. destruct d; vm_compute; left. Qed.
Lemma withdrawn_in d : the_request (withdrawn_world d) ∈ t_requests (w_tables (withdrawn_world d)).
Proof. destruct d; vm_compute; left. Qed.
