(* ===== verification/ApprovalValues.v ===== *)
(** * The values the approvals module exchanges

    Properties of the pure parts: what an evaluation counts, which policy
    documents are read back, which digests are accepted, and what the pages of
    the queue hold. *)

From S2P Require Import Prelude PyData PyTime ApprovalContracts ApprovalPolicy.
From S2P Require Import ApprovalStore ApprovalService ApprovalWithdrawal ApprovalReads.
From S2P Require Import ApprovalInvariant ApprovalCommands ApprovalReading ApprovalReach.
From S2P Require Import ApprovalExample.
From stdpp Require Import base gmap strings pretty list sorting.
From Stdlib Require Import ZArith.

(** An evaluation counts people, level by level: it is approved exactly when
    every level has its quorum of different approvers; the levels it reports
    satisfied are a prefix of the policy, the next one lacks its quorum; and more
    decisions never lower the count. *)
Theorem evaluation_counts_people (p : PolicyRevision) (k k' : Z)
    (ds ds' : list RecordedDecision) :
  let e := evaluate p PENDING k ds in
  (ev_state e = APPROVED ↔ Forall (λ l, quorum_met l ds) (pr_levels p)) ∧
  (∀ i l, pr_levels p !! i = Some l → (Z.of_nat i < ev_satisfied_levels e)%Z →
     quorum_met l ds) ∧
  (∀ l, pr_levels p !! Z.to_nat (ev_satisfied_levels e) = Some l → ¬ quorum_met l ds) ∧
  (ds ⊆ ds' →
     (ev_satisfied_levels e ≤ ev_satisfied_levels (evaluate p PENDING k' ds'))%Z).
Proof.
  intros e.
  assert (Hsat : ∀ j vs, ev_satisfied_levels (evaluate p PENDING j vs) = satisfied_count p vs).
  { intros j vs. unfold evaluate. by case_match. }
  subst e. rewrite !Hsat. split_and!.
  - pose proof (satisfied_count_bounds p ds) as Hb.
    trans (satisfied_count p ds = pr_total_levels p).
    + unfold evaluate. destruct (Z.leb_spec (pr_total_levels p) (satisfied_count p ds));
        simpl; naive_solver lia.
    + unfold satisfied_count, pr_total_levels. rewrite satisfied_prefix_all.
      apply Forall_iff. intros l. apply level_satisfied_quorum.
  - intros i l Hl Hi. apply level_satisfied_quorum. by eapply satisfied_prefix_lookup.
  - intros l Hl Hq%level_satisfied_quorum. apply satisfied_prefix_next in Hl. congruence.
  - apply satisfied_prefix_mono.
Qed.

(** ** Documents *)

Lemma from_document_ok `{Runtime} doc l :
  ApprovalLevel_from_document doc = Ok l → ApprovalLevel_check l = Ok l.
Proof.
  unfold ApprovalLevel_from_document. destruct doc; try done. intros Hrun. result_inv.
  apply ApprovalLevel_check_Ok in Hrun as [<- Hl]. by apply ApprovalLevel_check_Ok.
Qed.

Lemma revision_from_document_ok `{Runtime} doc p :
  PolicyRevision_from_document doc = Ok p → constructed p.
Proof.
  unfold PolicyRevision_from_document. destruct doc; try done. intros Hrun.
  apply result_bind_Ok in Hrun as (lv & _ & Hrun). destruct lv; try done.
  apply result_bind_Ok in Hrun as (code & _ & Hrun).
  apply result_bind_Ok in Hrun as (version & _ & Hrun).
  apply result_bind_Ok in Hrun as (ls & Hls & Hrun).
  pose proof Hrun as Hck. apply PolicyRevision_check_Ok in Hck as [<- Hck].
  split; [done|]. simpl. apply map_result_Ok in Hls.
  clear -Hls. induction Hls; constructor; [by eapply from_document_ok|done].
Qed.

(** The stored form of a policy is faithful and safe to read: a revision
    read back from its own document is that revision, and whatever document is
    read, a revision that comes out satisfies every check of the constructors. *)
Theorem policy_document_roundtrip `{Runtime} (p : PolicyRevision) :
  constructed p →
  PolicyRevision_from_document (PolicyRevision_as_document p) = Ok p ∧
  ∀ doc q, PolicyRevision_from_document doc = Ok q → constructed q.
Proof.
  intros Hp%constructed_ok. split; [by apply PolicyRevision_document|].
  intros doc q. apply revision_from_document_ok.
Qed.

Lemma policy_document_roundtrip_witness :
  PolicyRevision_from_document (H := toy_runtime) (PolicyRevision_as_document example_policy)
    = Ok example_policy ∧
  ∀ doc q, PolicyRevision_from_document (H := toy_runtime) doc = Ok q → constructed q.
Proof.
  apply (policy_document_roundtrip (H := toy_runtime)). apply example_policy_constructed.
Defined.

(** ** Digests *)

Lemma str_drop_app p s : str_drop (String.length p) (p +:+ s) = s.
Proof. induction p as [|c p IH]; [done|]. by rewrite string_app_cons. Qed.

(** [validate_digest] accepts exactly the strings [sha256:] followed by 64
    lowercase hexadecimal digits, and returns them unchanged. *)
Theorem validate_digest_exact (digest d : string) :
  validate_digest digest = Ok d ↔
  d = digest ∧ ∃ hex, digest = "sha256:" +:+ hex ∧ str_len hex = 64%Z ∧
    str_all is_lower_hex hex = true.
Proof.
  assert (Hlen : ∀ hex, str_len ("sha256:" +:+ hex) = (7 + str_len hex)%Z).
  { intros hex. unfold str_len. rewrite string_app_length. simpl String.length. lia. }
  unfold validate_digest. split.
  - intros Hrun. result_inv. bool_to_prop. split; [done|].
    match goal with Hs : startswith _ _ = true |- _ =>
      apply startswith_spec in Hs as [hex ->] end.
    exists hex. rewrite str_drop_app in *. unfold DIGEST_PREFIX in *.
    rewrite Hlen in *. change DIGEST_LENGTH with 71%Z in *. split_and!; [done|lia|done].
  - intros (-> & hex & -> & Hhex & Hall). rewrite Hlen, Hhex.
    rewrite (proj2 (startswith_spec DIGEST_PREFIX _)) by by exists hex.
    cbn [negb orb Z.eqb]. rewrite str_drop_app, Hall. done.
Qed.

(** ** Pages of the queue *)

Section pages.
Context {S : Type} `{Plane S} `{Env}.
Implicit Types (t : Tables S) (w : World S) (r : RequestRow S).

(** [created_at], then id. *)
Definition opened_order (a b : RequestRow S) : Prop := opened_before a b = true.

#[export] Instance opened_order_total : Total opened_order.
Proof.
  intros a b. unfold opened_order, opened_before, uuid_leb.
  destruct (Z.ltb_spec (instant (re_created_at a)) (instant (re_created_at b))); [by left|].
  destruct (Z.ltb_spec (instant (re_created_at b)) (instant (re_created_at a))); [by right|].
  rewrite !(proj2 (Z.eqb_eq _ _)) by lia. simpl.
  destruct (N.leb_spec (uuid_int (re_id a)) (uuid_int (re_id b))); [by left|right].
  apply N.leb_le. lia.
Qed.

Lemma insert_request_perm r (l : list (RequestRow S)) : insert_request r l ≡ₚ r :: l.
Proof.
  induction l as [|r' l IH]; simpl; [done|].
  destruct (opened_before r r'); [done|]. rewrite IH. apply Permutation_swap.
Qed.

Lemma order_requests_perm (l : list (RequestRow S)) : order_requests l ≡ₚ l.
Proof.
  induction l as [|r l IH]; simpl; [done|]. by rewrite insert_request_perm, IH.
Qed.

Lemma insert_request_sorted r (l : list (RequestRow S)) :
  Sorted opened_order l → Sorted opened_order (insert_request r l).
Proof.
  induction 1 as [|r' l Hl IH Hhd]; simpl; [by repeat constructor|].
  destruct (opened_before r r') eqn:E; [by repeat constructor|].
  constructor; [done|].
  assert (opened_order r' r) as Hr'.
  { destruct (opened_order_total r r') as [Hx|Hx]; [|done]. unfold opened_order in Hx.
    congruence. }
  destruct l as [|r'' l]; simpl; [by constructor|].
  destruct (opened_before r r''); [by constructor|]. by inversion Hhd; constructor.
Qed.

Lemma order_requests_sorted (l : list (RequestRow S)) :
  Sorted opened_order (order_requests l).
Proof. induction l; simpl; [constructor|by apply insert_request_sorted]. Qed.

Lemma request_views (l : list (RequestRow S)) :
  (∀ r, r ∈ l → ∃ st, re_state r = state_value st) →
  ∃ views, map_result request_view l = Ok views ∧ rv_id <$> views = re_id <$> l.
Proof.
  induction l as [|r l IH]; intros Hl; [by exists []|].
  destruct (Hl r) as [st Hst]; [set_solver|].
  destruct (request_view_run r st) as (v & Hv & Hid & _);
    [by rewrite Hst; apply ApprovalState_of_value|].
  destruct IH as (views & Hviews & Hids); [intros x Hx; apply Hl; set_solver|].
  exists (v :: views). cbn [map_result]. rewrite Hv. cbn. rewrite Hviews. cbn.
  split; [done|]. cbn. by f_equal.
Qed.

Lemma map_result_offset {A B} (f : A → result exn B) l vs n m :
  map_result f l = Ok vs → map_result f (offset_limit n m l) = Ok (offset_limit n m vs).
Proof.
  rewrite !map_result_Ok. intros Hf. unfold offset_limit.
  by apply Forall2_take, Forall2_drop.
Qed.

(** A page of the queue, in a reachable state. *)
Lemma list_requests_run w scope f :
  Inv (w_tables w) →
  ∃ views, map_result request_view (order_requests (matching_requests scope f (w_tables w)))
      = Ok views ∧
    rv_id <$> views = re_id <$> order_requests (matching_requests scope f (w_tables w)) ∧
    list_requests scope (Some f) w =
      (Ok (MkRequestPage
         (offset_limit ((rf_page f - 1) * rf_page_size f) (rf_page_size f) views)
         (Z.of_nat (length views)) (rf_page f) (rf_page_size f)), w).
Proof.
  intros Ht.
  destruct (request_views (order_requests (matching_requests scope f (w_tables w))))
    as (views & Hv & Hids).
  { intros r Hr. rewrite order_requests_perm in Hr.
    apply list_elem_of_filter in Hr as [_ Hr].
    destruct (inv_request _ Ht r Hr) as (p & st & Hok). exists st. apply Hok. }
  exists views. split_and!; [done..|]. unfold list_requests. simpl.
  rewrite (session_step tables _ w (w_tables w) w) by done.
  run_lift (offset_limit ((rf_page f - 1) * rf_page_size f) (rf_page_size f) views);
    [|by apply map_result_offset].
  unfold mret, ST_ret. do 3 f_equal. f_equal.
  apply (f_equal length) in Hids. rewrite !length_fmap in Hids. rewrite Hids.
  by rewrite order_requests_perm.
Qed.

(** Consecutive pages of [n] tile a list. *)
Lemma pages_tile {A} (l : list A) (n : Z) (k : nat) :
  (0 ≤ n)%Z →
  concat ((λ i, offset_limit (Z.of_nat i * n) n l) <$> seq 0 k)
  = take (k * Z.to_nat n) l.
Proof.
  intros Hn. induction k as [|k IH]; [done|].
  rewrite seq_S, fmap_app, concat_app, IH. simpl. rewrite app_nil_r.
  unfold offset_limit. rewrite Z2Nat.inj_mul by lia. rewrite Nat2Z.id.
  rewrite take_take_drop. f_equal. lia.
Qed.
End pages.

Definition set_page (f : RequestFilter) (page : Z) : RequestFilter :=
  MkRequestFilter (rf_state f) (rf_policy_code f) (rf_subject_type f) (rf_subject_id f)
    (rf_requested_by f) page (rf_page_size f).

(** The pages of a filter tile its matching requests. In a reachable state
    every page of an accepted filter is returned without changing anything; its
    total is the number of matching requests of the tenant; the first [k] pages
    together are exactly the first [k * page_size] of them in the order they were
    opened, so that no request is skipped or repeated; and a page says there is
    more exactly when some request lies beyond it. *)
Theorem pages_tile_the_queue {S} `{Plane S} `{Env} (w : World S) scope (f : RequestFilter)
    (k : nat) :
  reachable w → RequestFilter_check f = Ok f →
  ∃ views pages,
    Sorted opened_order (order_requests (matching_requests scope f (w_tables w))) ∧
    order_requests (matching_requests scope f (w_tables w))
      ≡ₚ matching_requests scope f (w_tables w) ∧
    rv_id <$> views = re_id <$> order_requests (matching_requests scope f (w_tables w)) ∧
    (∀ i, list_requests scope (Some (set_page f (Z.of_nat i + 1))) w = (Ok (pages i), w)) ∧
    (∀ i, pg_total (pages i) = Z.of_nat (length views) ∧
       pg_has_more (pages i)
       = bool_decide (is_Some (views !! Z.to_nat (Z.of_nat (i + 1) * rf_page_size f)))) ∧
    concat ((λ i, pg_requests (pages i)) <$> seq 0 k)
      = take (k * Z.to_nat (rf_page_size f)) views.
Proof.
  intros Ht%reachable_inv Hf.
  assert (Hn : (1 ≤ rf_page_size f)%Z).
  { unfold RequestFilter_check in Hf. result_inv. bool_to_prop. lia. }
  destruct (list_requests_run w scope f Ht) as (views & Hv & Hids & _).
  exists views, (λ i, MkRequestPage (offset_limit (Z.of_nat i * rf_page_size f)
    (rf_page_size f) views) (Z.of_nat (length views)) (Z.of_nat i + 1) (rf_page_size f)).
  split_and!; [apply order_requests_sorted|apply order_requests_perm|done|..].
  - intros i. destruct (list_requests_run w scope (set_page f (Z.of_nat i + 1)) Ht)
      as (views' & Hv' & _ & E).
    assert (views' = views) as -> by (change (map_result request_view
      (order_requests (matching_requests scope f (w_tables w))) = Ok views') in Hv'; congruence).
    rewrite E. cbn [set_page rf_page rf_page_size]. do 4 f_equal. lia.
  - intros i. split; [done|]. unfold pg_has_more. simpl.
    apply eq_true_iff_eq. rewrite Z.ltb_lt, bool_decide_eq_true, lookup_lt_is_Some. lia.
  - simpl. by apply pages_tile; lia.
Qed.

Lemma pages_tile_the_queue_witness :
  ∃ views pages,
    rv_id <$> views = re_id <$> order_requests
      (matching_requests tt RequestFilter_default (w_tables (opened_world Sqlite))) ∧
    (∀ i, list_requests tt
       (Some (set_page RequestFilter_default (Z.of_nat i + 1))) (opened_world Sqlite)
       = (Ok (pages i), opened_world Sqlite)) ∧
    concat ((λ i, pg_requests (pages i)) <$> seq 0 1) = take (1 * 50) views.
Proof.
  destruct (pages_tile_the_queue (H0 := example_env Sqlite) (opened_world Sqlite) tt
    RequestFilter_default 1 (opened_reachable Sqlite) eq_refl)
    as (views & pages & _ & _ & H1 & H2 & _ & H3).
  exists views, pages. split; [exact H1|]. split; [exact H2|exact H3].
Defined.
