(* ===== verification/ApprovalTheorems.v ===== *)
(** * What the approvals module guarantees

    The properties of the module over its runs and its commands, each with an
    instance on the example plane. *)

From S2P Require Import Prelude PyData PyTime ApprovalContracts ApprovalPolicy.
From S2P Require Import ApprovalStore ApprovalService ApprovalWithdrawal ApprovalReads.
From S2P Require Import ApprovalInvariant ApprovalCommands ApprovalWithdrawals ApprovalReading.
From S2P Require Import ApprovalReach ApprovalExample.
From stdpp Require Import base gmap strings pretty list relations.
From Stdlib Require Import ZArith.

(** ** An approval has its quorum *)

(** The row [d] is an approval of request [r] at level [l] by actor [a], whom the
    level's rules let approve. *)
Record vote_for {S} (t : Tables S) (r : RequestRow S) (p : PolicyRevision)
    (l : ApprovalLevel) (a : UUID) (d : DecisionRow S) : Prop := {
  vf_stored : d ∈ t_decisions t;
  vf_scope : de_scope d = re_scope r;
  vf_request : de_request_id d = re_id r;
  vf_level : de_level d = al_sequence l;
  vf_actor : de_actor_id d = a;
  vf_action : de_action d = "approve";
  vf_user : al_approver_kind l = USER → str_uuid a = al_approver_id l;
  vf_mfa : al_requires_mfa l = true → de_mfa_verified d = true;
  vf_self : pr_allow_self_approval p = false → a ≠ re_requested_by r;
  vf_requester : al_sod_rule l = Some CANNOT_BE_REQUESTER → a ≠ re_requested_by r;
  vf_previous : al_sod_rule l = Some CANNOT_BE_PREVIOUS_APPROVER →
    ∀ d', d' ∈ t_decisions t → de_scope d' = re_scope r → de_request_id d' = re_id r →
      (de_level d' < al_sequence l)%Z → de_actor_id d' ≠ a;
}.

(** At least the level's quorum of different people voted for it. *)
Definition level_carried {S} (t : Tables S) (r : RequestRow S) (p : PolicyRevision)
    (l : ApprovalLevel) : Prop :=
  ∃ people : list UUID, NoDup people ∧ (al_quorum l ≤ Z.of_nat (length people))%Z ∧
    ∀ a, a ∈ people → ∃ d, vote_for t r p l a d.

Section quorum.
Context {S : Type} `{Plane S} `{Env}.
Implicit Types (t : Tables S) (r : RequestRow S).

Lemma level_carried_of t r p st l :
  request_ok t r p st → l ∈ pr_levels p → level_satisfied l (votes t r) = true →
  level_carried t r p l.
Proof.
  intros Hok Hl (people & Hnd & Hq & Hall)%level_satisfied_quorum.
  destruct (ro_governed _ _ _ _ Hok) as (row & _ & _ & [Hp] & _).
  exists people. split_and!; [done..|]. intros a Ha.
  apply (proj1 (Forall_forall _ _) Hall) in Ha. unfold approved_by, votes in Ha.
  apply list_elem_of_fmap in Ha as (d & Ed & Hd). unfold rd_of in Ed.
  injection Ed as El Ea Eact.
  destruct (ro_authorised _ _ _ _ Hok d Hd) as (l' & Hau).
  assert (l' = l) as ->.
  { pose proof (au_level _ _ _ _ _ Hau) as E. rewrite <-El, pr_level_own in E by done.
    by injection E. }
  assert (Happ : de_action d = "approve").
  { destruct (String.eqb_spec (de_action d) (action_value APPROVE)); [done|].
    by rewrite (proj2 (String.eqb_neq _ _)) in Eact. }
  apply list_elem_of_filter in Hd as [[Hs Hi] Hin]. exists d.
  destruct Hau. split; try done; try (by subst a; auto).
  intros Hrule d' Hd' Hs' Hi' Hlt. subst a. apply au_previous; [done|done| |congruence].
  by apply list_elem_of_filter.
Qed.

Lemma approved_levels t r p st :
  st = APPROVED ∨ st = WITHDRAWN → request_ok t r p st →
  ∀ l, l ∈ pr_levels p → level_carried t r p l.
Proof.
  intros Hst Hok l Hl. eapply level_carried_of; [done|done|].
  assert (satisfied_count p (votes t r) = pr_total_levels p) as E.
  { pose proof (ro_standing _ _ _ _ Hok) as Hs. destruct Hst as [-> | ->]; apply Hs. }
  apply satisfied_prefix_all in E. by eapply Forall_forall in E.
Qed.
End quorum.

(** C1. In every reachable state, a request that stands approved or withdrawn is
    governed by one published revision, and at each of its levels at least the
    quorum of different people approved it, each of them the user the level names
    if it names one, with MFA where the level requires it, and none of them
    barred by the self-approval rule or by the level's separation of duties. *)
Theorem approved_has_quorum {S} `{Plane S} `{Env} (w : World S) (r : RequestRow S) :
  reachable w → r ∈ t_requests (w_tables w) →
  re_state r = "approved" ∨ re_state r = "withdrawn" →
  ∃ p, governed (w_tables w) r p ∧
    ∀ l, l ∈ pr_levels p → level_carried (w_tables w) r p l.
Proof.
  intros Ht%reachable_inv Hr Hst.
  assert (∃ st, (st = APPROVED ∨ st = WITHDRAWN) ∧ re_state r = state_value st)
    as (st & Hcase & E) by (destruct Hst; eauto).
  destruct (request_standing _ _ st Ht Hr E) as [p Hok]. exists p.
  split; [apply Hok|]. by eapply approved_levels.
Qed.

Lemma approved_has_quorum_witness :
  ∃ p, governed (w_tables (withdrawn_world Sqlite)) (the_request (withdrawn_world Sqlite)) p ∧
    ∀ l, l ∈ pr_levels p →
      level_carried (w_tables (withdrawn_world Sqlite)) (the_request (withdrawn_world Sqlite)) p l.
Proof.
  apply (approved_has_quorum (H0 := example_env Sqlite)).
  - apply withdrawn_reachable.
  - exact (withdrawn_in Sqlite).
  - right. exact (withdrawn_withdrawn Sqlite).
Defined.

(** ** Runs *)

(** C2. One step of a reachable plane, whatever the command and whether it
    raised, only appends policies, decisions, withdrawals and outbox rows, keeps
    every request with its identity, subject, content, requester and key, and
    advances its standing only along the lifecycle: up a level while pending,
    from pending to approved, rejected or cancelled, from approved to withdrawn. *)
Theorem step_only_advances {S} `{Plane S} `{Env} (w w' : World S) :
  reachable w → step w w' → evolves (w_tables w) (w_tables w').
Proof. intros Hw. apply step_evolves. by apply reachable_inv. Qed.

Definition example_withdraw : Command unit :=
  Withdraw tt example_request director "CAB-7" "superseded" "ext-1".

Lemma step_only_advances_witness :
  evolves (w_tables (approved_world Postgresql))
    (w_tables (run_command (H0 := example_env Postgresql) example_withdraw
       (approved_world Postgresql)).2).
Proof.
  apply (step_only_advances (H0 := example_env Postgresql)).
  - apply approved_reachable.
  - apply step_command. exact I.
Defined.

(** A rejected, cancelled or withdrawn request is final: any further run
    leaves its row and its votes exactly as they are. *)
Theorem final_request_stays {S} `{Plane S} `{Env} (w w' : World S) (r : RequestRow S)
    (s : ApprovalState) :
  reachable w → rtc step w w' → r ∈ t_requests (w_tables w) →
  s ∈ [REJECTED; CANCELLED; WITHDRAWN] → re_state r = state_value s →
  r ∈ t_requests (w_tables w') ∧ history (w_tables w') r = history (w_tables w) r.
Proof. intros Hw. apply steps_final. by apply reachable_inv. Qed.

Lemma final_request_stays_witness :
  let w' := (run_command (H0 := example_env Sqlite) example_withdraw
    (withdrawn_world Sqlite)).2 in
  the_request (withdrawn_world Sqlite) ∈ t_requests (w_tables w') ∧
  history (w_tables w') (the_request (withdrawn_world Sqlite))
  = history (w_tables (withdrawn_world Sqlite)) (the_request (withdrawn_world Sqlite)).
Proof.
  apply (final_request_stays (H0 := example_env Sqlite) _ _ _ WITHDRAWN).
  - apply withdrawn_reachable.
  - apply rtc_once, step_command. exact I.
  - exact (withdrawn_in Sqlite).
  - set_solver.
  - exact (withdrawn_withdrawn Sqlite).
Defined.

(** C3. A command that raised changed no table. *)
Theorem refusal_changes_nothing {S} `{Plane S} `{Env} (w w' : World S) (c : Command S)
    (e : exn) :
  reachable w → run_command c w = (Raise e, w') → w_tables w' = w_tables w.
Proof. intros Hw. apply run_command_refused. by apply reachable_inv. Qed.

Lemma refusal_changes_nothing_witness :
  ∃ e w', run_command (H0 := example_env Sqlite)
      (Decide tt example_request (reviewer 4) APPROVE example_digest None None)
      (approved_world Sqlite) = (Raise e, w') ∧
    w_tables w' = w_tables (approved_world Sqlite).
Proof.
  eexists _, _. split; [vm_compute; reflexivity|].
  eapply (refusal_changes_nothing (H0 := example_env Sqlite)).
  - apply approved_reachable.
  - instantiate (2 := Decide tt example_request (reviewer 4) APPROVE example_digest None None).
    vm_compute. reflexivity.
Defined.

(** C4. A command for one tenant leaves every other tenant's rows exactly as
    they were, in all five tables. *)
Theorem other_tenants_untouched {S} `{Plane S} `{Env} (w w' : World S) (c : Command S)
    (res : result exn unit) (s : S) :
  reachable w → run_command c w = (res, w') → command_scope c ≠ s →
  rows_of s (w_tables w') = rows_of s (w_tables w).
Proof. intros Hw. apply run_command_scope. by apply reachable_inv. Qed.

Definition tenant_start : World UUID :=
  MkWorld empty_tables 0 0 (example_uuid 50).
Definition tenant_world : World UUID :=
  run_commands (H0 := example_env Sqlite)
    [Publish (example_uuid 50) example_policy; Publish (example_uuid 51) example_policy]
    tenant_start.

Lemma other_tenants_untouched_witness :
  ∃ w', run_command (H0 := example_env Sqlite)
      (Open (example_uuid 50) "release" 1 "build" "b-1" example_digest requester "key-1")
      tenant_world = (Ok tt, w') ∧
    rows_of (example_uuid 51) (w_tables w') = rows_of (example_uuid 51) (w_tables tenant_world).
Proof.
  destruct (run_command (H0 := example_env Sqlite)
      (Open (example_uuid 50) "release" 1 "build" "b-1" example_digest requester "key-1")
      tenant_world) as [res w'] eqn:E.
  exists w'. assert (res = Ok tt) as ->.
  { change (fst (res, w') = Ok tt). rewrite <-E. vm_compute. reflexivity. }
  split; [reflexivity|].
  eapply (other_tenants_untouched (H0 := example_env Sqlite)); [|exact E|].
  - apply run_commands_reachable; [|reflexivity].
    apply Forall_cons; split; [apply example_policy_constructed|].
    apply Forall_cons; split; [apply example_policy_constructed|]. constructor.
  - vm_compute. discriminate.
Defined.

(** ** Decisions *)

(** C5. With a fresh id, a decision is recorded exactly when the tenant has the
    request, it is pending, the content presented is the content it was opened
    for, and the actor passes the rules of the current level of the revision that
    governs it: for an approval every rule, for a rejection the vote, eligibility
    and MFA rules. *)
Theorem decision_recorded_iff {S} `{Plane S} `{Env} (w : World S) scope rid actor action
    digest comment delegated :
  reachable w → uuid4 (w_drawn w) ∉ de_id <$> t_decisions (w_tables w) →
  is_ok (record_decision scope rid actor action digest comment delegated w).1 = true ↔
  ∃ r p l, r ∈ t_requests (w_tables w) ∧ re_scope r = scope ∧ re_id r = rid ∧
    re_state r = "pending" ∧ re_content_digest r = digest ∧ governed (w_tables w) r p ∧
    passed p r actor action (ordered_votes (w_tables w) r) l.
Proof.
  intros Ht%reachable_inv Hfresh. split.
  - destruct (record_decision _ _ _ _ _ _ _ w) as [res w'] eqn:Hrun. intros Hok.
    apply record_decision_run in Hrun as [[[e ->] _]|(o & r & p & d & c & _ & Hd)];
      [done| |done].
    destruct Hd as [Hr Hs Hi Hrok Hdig [l Hl] _ _ _ _]. exists r, p, l.
    split_and!; try done; apply Hrok.
  - intros (r & p & l & Hr & <- & <- & Hst & <- & Hg & Hpass).
    destruct (request_standing _ r PENDING Ht Hr Hst) as [p' Hok].
    assert (p' = p) as -> by (eapply governed_inj; [done|apply Hok|done]).
    destruct (record_decision_ok w r p actor action l comment delegated) as (o & w' & ->);
      done.
Qed.

Lemma decision_recorded_iff_witness :
  is_ok (record_decision (H0 := example_env Sqlite) tt example_request (reviewer 2) APPROVE
    example_digest None None (opened_world Sqlite)).1 = true ↔
  ∃ r p l, r ∈ t_requests (w_tables (opened_world Sqlite)) ∧ re_scope r = tt ∧
    re_id r = example_request ∧ re_state r = "pending" ∧
    re_content_digest r = example_digest ∧ governed (w_tables (opened_world Sqlite)) r p ∧
    passed p r (reviewer 2) APPROVE (ordered_votes (w_tables (opened_world Sqlite)) r) l.
Proof.
  apply (decision_recorded_iff (H0 := example_env Sqlite)).
  - apply opened_reachable.
  - vm_compute. inversion 1.
Defined.

(** C6. A decision that was recorded appends exactly its one row, changes exactly
    its request, and reports what it stored: a rejection ends the request; an
    approval completes it exactly when every level of the revision has its
    quorum among the votes including the new one, and otherwise leaves it
    pending with no event. *)
Theorem decision_effect {S} `{Plane S} `{Env} (w w' : World S) scope rid actor action
    digest comment delegated o :
  reachable w →
  record_decision scope rid actor action digest comment delegated w = (Ok o, w') →
  ∃ r p d c,
    decision_made (w_tables w) scope rid actor action digest comment delegated
      (w_tables w') o r p d c ∧
    (ao_state o = REJECTED ↔ action = REJECT) ∧
    (ao_state o = APPROVED ↔ action = APPROVE ∧
       Forall (λ l, quorum_met l (rd_of <$> (history (w_tables w) r ++ [d]))) (pr_levels p)) ∧
    (ao_state o = PENDING ↔ ao_events o = []).
Proof.
  intros Ht%reachable_inv Hrun.
  apply record_decision_run in Hrun as [[[e [=]] _]|(o' & r & p & d & c & [= <-] & Hd)]; [|done].
  exists r, p, d, c. split; [done|].
  destruct (decision_made_inv _ _ _ _ _ _ _ _ _ _ _ _ _ _ Ht Hd) as [_ Hok'].
  pose proof (dm_ok _ _ _ _ _ _ _ _ _ _ _ _ _ _ Hd) as Hok.
  destruct (ro_governed _ _ _ _ Hok) as (row & _ & _ & [Hp] & _).
  pose proof (dm_outcome _ _ _ _ _ _ _ _ _ _ _ _ _ _ Hd) as Ho. cbv zeta in Ho, Hok'.
  destruct (evaluate_stored _ _ _ _ Hok') as [Hst _].
  assert (Est : ao_state o = decided_state p (re_current_level r) action
    (rd_of <$> order_decisions (history (w_tables w) r ++ [d]))) by by rewrite Ho.
  assert (Hev : ao_events o = [] ↔ ao_state o = PENDING).
  { rewrite Est, Ho. simpl. by case_decide. }
  rewrite Hev, Est. unfold decided_state. destruct action; [|naive_solver].
  assert (Hall : satisfied_count p (rd_of <$> order_decisions (history (w_tables w) r ++ [d]))
      = pr_total_levels p ↔
    Forall (λ l, quorum_met l (rd_of <$> (history (w_tables w) r ++ [d]))) (pr_levels p)).
  { rewrite (satisfied_count_perm _ _ (rd_of <$> (history (w_tables w) r ++ [d])))
      by by rewrite order_decisions_perm.
    unfold satisfied_count, pr_total_levels. rewrite satisfied_prefix_all.
    apply Forall_iff. intros l. apply level_satisfied_quorum. }
  rewrite <-Hall.
  destruct (evaluate_pending p (re_current_level r)
    (rd_of <$> order_decisions (history (w_tables w) r ++ [d])) Hp)
    as [(E & ? & _)|(E & ? & _)]; rewrite E; split_and!; naive_solver lia.
Qed.

Lemma decision_effect_witness :
  ∃ w' o r p d c,
    decision_made (H0 := example_env Sqlite) (w_tables (opened_world Sqlite)) tt
      example_request (reviewer 2) APPROVE example_digest None None (w_tables w') o r p d c ∧
    (ao_state o = REJECTED ↔ APPROVE = REJECT) ∧
    (ao_state o = APPROVED ↔ APPROVE = APPROVE ∧
       Forall (λ l, quorum_met l (rd_of <$> (history (w_tables (opened_world Sqlite)) r ++ [d])))
         (pr_levels p)) ∧
    (ao_state o = PENDING ↔ ao_events o = []).
Proof.
  destruct (record_decision (H0 := example_env Sqlite) tt example_request (reviewer 2) APPROVE
    example_digest None None (opened_world Sqlite)) as [[o|e] w'] eqn:E.
  - exists w', o. eapply (decision_effect (H0 := example_env Sqlite)); [|exact E].
    apply opened_reachable.
  - exfalso. apply (f_equal (λ x, is_ok (fst x))) in E. vm_compute in E. discriminate E.
Defined.

(** C7. The detail of a pending request offers a viewer exactly the actions the
    write path would accept from them at that moment: approve, reject or cancel
    is offered if and only if the call with the request's own content returns. *)
Theorem offered_actions_accepted {S} `{Plane S} `{Env} (w : World S) (r : RequestRow S)
    (viewer : Actor) (reason : string) :
  reachable w → uuid4 (w_drawn w) ∉ de_id <$> t_decisions (w_tables w) →
  r ∈ t_requests (w_tables w) → re_state r = "pending" →
  ∃ d, get_request (re_scope r) (re_id r) (Some viewer) w = (Ok (Some d), w) ∧
    let decide_as a := record_decision (re_scope r) (re_id r) viewer a
      (rv_content_digest (rq_request d)) None None w in
    (ACT_APPROVE ∈ rq_permitted_actions d ↔ is_ok (decide_as APPROVE).1 = true) ∧
    (ACT_REJECT ∈ rq_permitted_actions d ↔ is_ok (decide_as REJECT).1 = true) ∧
    (ACT_CANCEL ∈ rq_permitted_actions d ↔
       is_ok (cancel_request (re_scope r) (re_id r) (actor_id viewer) reason w).1 = true).
Proof.
  intros Ht%reachable_inv Hfresh Hr Hst.
  destruct (request_standing _ r PENDING Ht Hr Hst) as [p Hok].
  destruct (get_request_run w r p PENDING viewer Ht Hr Hok) as (d & Hd & Hdo).
  exists d. split; [done|]. destruct Hdo as [_ Hdig _ _ Hact _].
  cbv zeta. rewrite Hdig. rewrite decide_True in Hact by done.
  destruct (permitted_run _ r p (ordered_votes (w_tables w) r) viewer Hok)
    as (a & f & E & Ha & Hrj & Hc & _).
  rewrite E in Hact. injection Hact as <- _. rewrite Ha, Hrj, Hc.
  assert (Hdec : ∀ action, (∃ l, passed p r viewer action (ordered_votes (w_tables w) r) l) ↔
    is_ok (record_decision (re_scope r) (re_id r) viewer action (re_content_digest r)
      None None w).1 = true).
  { intros action. split.
    - intros [l Hl]. by destruct (record_decision_ok w r p viewer action l None None)
        as (o & w' & ->).
    - destruct (record_decision _ _ _ _ _ _ _ w) as [res w'] eqn:Hrun. intros Hres.
      apply record_decision_run in Hrun as [[[e ->] _]|(o & r' & p' & d' & c & _ & Hm)];
        [done| |done].
      destruct Hm as [Hr' _ Hid Hok' _ [l Hl] _ _ _ _]. exists l.
      assert (r' = r) as -> by (by eapply NoDup_key_eq; [apply (inv_re_id _ Ht)|..]).
      assert (p' = p) as -> by (eapply governed_inj; [done|apply Hok'|apply Hok]). done. }
  split_and!; [apply (Hdec APPROVE)|apply (Hdec REJECT)|]. split.
  - intros Hby. by destruct (cancel_request_ok w r p (actor_id viewer) reason)
      as (o & w' & ->).
  - destruct (cancel_request _ _ _ _ w) as [res w'] eqn:Hrun. intros Hres.
    apply cancel_request_run in Hrun as
      [[[e ->] _]|(r' & p' & c & Hr' & _ & Hid & Hby & _)]; [done| |done].
    assert (r' = r) as -> by (by eapply NoDup_key_eq; [apply (inv_re_id _ Ht)|..]). done.
Qed.

Lemma offered_actions_accepted_witness :
  let r := the_request (opened_world Sqlite) in let w := opened_world Sqlite in
  ∃ d, get_request (H0 := example_env Sqlite) (re_scope r) (re_id r) (Some (reviewer 2)) w
       = (Ok (Some d), w) ∧
    let decide_as a := record_decision (H0 := example_env Sqlite) (re_scope r) (re_id r)
      (reviewer 2) a (rv_content_digest (rq_request d)) None None w in
    (ACT_APPROVE ∈ rq_permitted_actions d ↔ is_ok (decide_as APPROVE).1 = true) ∧
    (ACT_REJECT ∈ rq_permitted_actions d ↔ is_ok (decide_as REJECT).1 = true) ∧
    (ACT_CANCEL ∈ rq_permitted_actions d ↔ is_ok (cancel_request (H0 := example_env Sqlite)
       (re_scope r) (re_id r) (actor_id (reviewer 2)) "" w).1 = true).
Proof.
  apply (offered_actions_accepted (H0 := example_env Sqlite)).
  - apply opened_reachable.
  - vm_compute. inversion 1.
  - exact (opened_in Sqlite).
  - exact (opened_pending Sqlite).
Defined.

(** C8. In every reachable state the standing derived from the votes is the
    stored one: evaluating a request returns its stored state and level, and the
    number of levels whose quorum is met, without changing anything; and its
    detail is readable and carries withdrawal evidence exactly when it was
    withdrawn. *)
Theorem stored_standing_is_derived {S} `{Plane S} `{Env} (w : World S) (r : RequestRow S)
    (viewer : Actor) :
  reachable w → r ∈ t_requests (w_tables w) →
  ∃ st p e d, re_state r = state_value st ∧ governed (w_tables w) r p ∧
    evaluate_approval (re_scope r) (re_id r) w = (Ok e, w) ∧
    ev_state e = st ∧ ev_current_level e = re_current_level r ∧
    ev_total_levels e = pr_total_levels p ∧
    ev_satisfied_levels e = satisfied_count p (votes (w_tables w) r) ∧
    get_request (re_scope r) (re_id r) (Some viewer) w = (Ok (Some d), w) ∧
    rq_evaluation d = e ∧ (is_Some (rq_withdrawal d) ↔ st = WITHDRAWN).
Proof.
  intros Ht%reachable_inv Hr. destruct (inv_request _ Ht r Hr) as (p & st & Hok).
  destruct (get_request_run w r p st viewer Ht Hr Hok) as (d & Hd & [? ? ? Hev ? Hw]).
  exists st, p, (evaluate p st (re_current_level r) (votes (w_tables w) r)), d.
  destruct (evaluate_stored _ _ _ _ Hok) as (? & ? & ? & ?).
  split_and!; try done; try apply Hok. by apply evaluate_approval_run.
Qed.

Lemma stored_standing_is_derived_witness :
  let r := the_request (withdrawn_world Sqlite) in let w := withdrawn_world Sqlite in
  ∃ st p e d, re_state r = state_value st ∧ governed (w_tables w) r p ∧
    evaluate_approval (H0 := example_env Sqlite) (re_scope r) (re_id r) w = (Ok e, w) ∧
    ev_state e = st ∧ ev_current_level e = re_current_level r ∧
    ev_total_levels e = pr_total_levels p ∧
    ev_satisfied_levels e = satisfied_count p (votes (w_tables w) r) ∧
    get_request (H0 := example_env Sqlite) (re_scope r) (re_id r) (Some director) w
      = (Ok (Some d), w) ∧
    rq_evaluation d = e ∧ (is_Some (rq_withdrawal d) ↔ st = WITHDRAWN).
Proof.
  apply (stored_standing_is_derived (H0 := example_env Sqlite)).
  - apply withdrawn_reachable.
  - exact (withdrawn_in Sqlite).
Defined.

(** ** Opening and publishing *)

Lemma replay_ok {S} `{Plane S} `{Env} (w : World S) (r : RequestRow S) styp sid by_ :
  Inv (w_tables w) → r ∈ t_requests (w_tables w) →
  is_ok (validate_digest (re_content_digest r)) = true →
  is_ok (request_approval (re_scope r) (re_policy_code r) (re_policy_version r) styp sid
    (re_content_digest r) by_ (re_idempotency_key r) w).1 = true.
Proof.
  intros Ht Hr [dg Hdg]%is_ok_true. destruct (inv_request _ Ht r Hr) as (p & st & Hok).
  unfold request_approval. run_with Hdg.
  run_with (load_policy_run w r p Ht (ro_governed _ _ _ _ Hok)).
  rewrite (session_step tables _ w (w_tables w) w) by done.
  destruct (requests_by_key_inv (w_tables w) (re_scope r) (re_idempotency_key r) Ht)
    as [E|(r' & E & Hr' & Hs & Hk)]; rewrite E.
  - assert (r ∈ requests_by_key (re_scope r) (re_idempotency_key r) (w_tables w)) as Hin
      by by apply list_elem_of_filter.
    rewrite E in Hin. set_solver.
  - assert (r' = r) as ->.
    { eapply NoDup_key_eq; [apply (inv_re_key _ Ht)|done..|congruence]. }
    rewrite (session_lift _ _ _ (Some r)) by done.
    rewrite !String.eqb_refl, Z.eqb_refl. rewrite (session_lift _ _ _ tt) by done.
    by rewrite (make_outcome_of w r p st).
Qed.

(** An idempotency key opens at most one request. Once a request has a key,
    any later call with it changes no table; it returns exactly when the digest
    is well formed and the digest, policy code and version are the ones the
    request was opened with, and then names that request and reports no event. *)
Theorem replay_opens_nothing {S} `{Plane S} `{Env} (w w' : World S) (r : RequestRow S)
    code version styp sid digest by_ res :
  reachable w → r ∈ t_requests (w_tables w) →
  request_approval (re_scope r) code version styp sid digest by_ (re_idempotency_key r) w
    = (res, w') →
  w_tables w' = w_tables w ∧
  (is_ok res = true ↔ is_ok (validate_digest digest) = true ∧ digest = re_content_digest r ∧
    code = re_policy_code r ∧ version = re_policy_version r) ∧
  (∀ o, res = Ok o → ao_request_id o = re_id r ∧ ao_events o = []).
Proof.
  intros Ht%reachable_inv Hr Hrun.
  assert (Hvalid : is_ok res = true → is_ok (validate_digest digest) = true).
  { destruct (validate_digest digest) as [dg|e] eqn:E; [done|]. intros Hok.
    unfold request_approval in Hrun. rewrite E in Hrun.
    rewrite (session_stop _ _ w e w) in Hrun by done. by injection Hrun as <- <-. }
  pose proof Hrun as Hrun'.
  apply request_approval_run in Hrun as [[[e ->] Ew]|[Hx|Hx]]; [..|done].
  - split; [done|]. split; [|done]. split; [done|]. intros (Hdig & -> & -> & ->).
    pose proof (replay_ok w r styp sid by_ Ht Hr Hdig) as Hok. by rewrite Hrun' in Hok.
  - destruct Hx as (r' & p & st & Hkey & Hr' & Hd & Hc & Hv & Hok & -> & ->).
    assert (r' ∈ requests_by_key (re_scope r) (re_idempotency_key r) (w_tables w)) as Hin
      by (rewrite Hkey; set_solver).
    apply list_elem_of_filter in Hin as [[Hs Hk] _].
    assert (r' = r) as -> by (eapply NoDup_key_eq;
      [apply (inv_re_key _ Ht)|done..|congruence]).
    split; [done|]. split; [|by intros o [= <-]]. split; [|done].
    intros Hres. split_and!; auto.
  - destruct Hx as (? & ? & ? & Hkey & _).
    assert (r ∈ requests_by_key (re_scope r) (re_idempotency_key r) (w_tables w)) as Hin
      by by apply list_elem_of_filter.
    rewrite Hkey in Hin. set_solver.
Qed.

Lemma replay_opens_nothing_witness :
  ∃ res w', request_approval (H0 := example_env Sqlite)
      (re_scope (the_request (approved_world Sqlite))) "release" 1 "build" "b-2" example_digest
      requester (re_idempotency_key (the_request (approved_world Sqlite)))
      (approved_world Sqlite) = (res, w') ∧
    w_tables w' = w_tables (approved_world Sqlite) ∧
    (is_ok res = true ↔ is_ok (validate_digest example_digest) = true ∧
      example_digest = re_content_digest (the_request (approved_world Sqlite)) ∧
      "release" = re_policy_code (the_request (approved_world Sqlite)) ∧
      1%Z = re_policy_version (the_request (approved_world Sqlite))) ∧
    (∀ o, res = Ok o →
      ao_request_id o = re_id (the_request (approved_world Sqlite)) ∧ ao_events o = []).
Proof.
  eexists _, _. split; [apply surjective_pairing|].
  eapply (replay_opens_nothing (H0 := example_env Sqlite)); [..|apply surjective_pairing].
  - apply approved_reachable.
  - exact (approved_in Sqlite).
Defined.

(** C9. A published revision is immutable: after any further run, loading its
    code and version returns exactly the revision that was published, and no
    revision can be published under the same code and version again. *)
Theorem published_revision_is_fixed {S} `{Plane S} `{Env} (w w1 w2 : World S) scope p row :
  reachable w → constructed p →
  publish_policy_version scope p w = (Ok row, w1) → rtc step w1 w2 →
  load_policy scope (pr_policy_code p) (pr_version p) w2 = (Ok p, w2) ∧
  ∀ q, pr_policy_code q = pr_policy_code p → pr_version q = pr_version p →
    ∃ msg, publish_policy_version scope q w2
           = (Raise (ApprovalError PolicyVersionExists msg), w2).
Proof.
  intros Ht%reachable_inv Hp%constructed_ok Hpub Hsteps.
  assert (Ht1 : Inv (w_tables w1)) by by eapply publish_inv.
  assert (Ht2 : Inv (w_tables w2)) by by eapply steps_inv.
  apply publish_run in Hpub as [[[e [=]] _]|(u & at_ & [= ->] & _ & _ & E)].
  set (row0 := policy_row scope p u at_) in E.
  assert (Hrow : row0 ∈ t_policies (w_tables w2)).
  { eapply steps_policies; [exact Ht1|done|]. rewrite E. simpl. set_solver. }
  destruct (policies_named_inv (w_tables w2) scope (pr_policy_code p) (pr_version p) Ht2)
    as [En|(row' & En & Hin & Hs & Hc & Hv)].
  { assert (row0 ∈ policies_named scope (pr_policy_code p) (pr_version p) (w_tables w2)) as Hx
      by by apply list_elem_of_filter. rewrite En in Hx. set_solver. }
  assert (row' = row0) as ->.
  { eapply NoDup_key_eq; [apply (inv_po_key _ Ht2)|done..|]. simpl. congruence. }
  split.
  - unfold load_policy. rewrite (session_step tables _ w2 (w_tables w2) w2) by done.
    rewrite En. run_lift (Some row0); [|done]. unfold lift.
    by rewrite (stores_reads row0 p) by by apply policy_row_stores.
  - intros q Eq1 Eq2. eexists. unfold publish_policy_version. rewrite Eq1, Eq2.
    rewrite (session_step tables _ w2 (w_tables w2) w2) by done.
    rewrite En. run_lift (Some row0); [|done].
    by rewrite bool_decide_true by by eexists.
Qed.

Lemma published_revision_is_fixed_witness :
  ∃ w1 row, publish_policy_version (H0 := example_env Sqlite) tt example_policy start
      = (Ok row, w1) ∧
    load_policy tt (pr_policy_code example_policy) (pr_version example_policy)
      (H0 := example_env Sqlite) w1 = (Ok example_policy, w1) ∧
    ∀ q, pr_policy_code q = pr_policy_code example_policy →
      pr_version q = pr_version example_policy →
      ∃ msg, publish_policy_version (H0 := example_env Sqlite) tt q w1
             = (Raise (ApprovalError PolicyVersionExists msg), w1).
Proof.
  destruct (publish_policy_version (H0 := example_env Sqlite) tt example_policy start)
    as [[row|e] w1] eqn:E.
  - exists w1, row. split; [reflexivity|].
    eapply (published_revision_is_fixed (H0 := example_env Sqlite)); [| |exact E|].
    + apply (example_reachable Sqlite []). reflexivity.
    + apply example_policy_constructed.
    + apply rtc_refl.
  - exfalso. apply (f_equal (λ x, is_ok (fst x))) in E. vm_compute in E. discriminate E.
Defined.

(** ** Withdrawal *)

(** C10. A withdrawal that returns either answers a replay, from stored evidence
    that repeats every argument, changing no table and reporting no event; or it
    takes one approved request with a complete quorum to withdrawn: on PostgreSQL
    and on the other engines alike exactly that request changes, one evidence row
    with the caller's arguments, effective no earlier than the approval, is
    appended, and exactly one pending outbox row carries the event reported. *)
Theorem withdrawal_effect {S} `{Plane S} `{Env} (w w' : World S) scope rid actor
    authority_ref reason external_ref o :
  reachable w →
  withdraw_approval scope rid actor authority_ref reason external_ref w = (Ok o, w') →
  (w_tables w' = w_tables w ∧ ao_events o = [] ∧
   ∃ r x, r ∈ t_requests (w_tables w) ∧ re_id r = rid ∧ re_state r = "withdrawn" ∧
     x ∈ t_withdrawals (w_tables w) ∧
     same_evidence scope rid actor authority_ref reason external_ref x) ∨
  (∃ r p x e ob, r ∈ t_requests (w_tables w) ∧ re_scope r = scope ∧ re_id r = rid ∧
     re_state r = "approved" ∧ governed (w_tables w) r p ∧
     Forall (λ l, quorum_met l (votes (w_tables w) r)) (pr_levels p) ∧
     same_evidence scope rid actor authority_ref reason external_ref x ∧
     re_completed_at r = Some (wi_approved_at x) ∧
     (instant (wi_approved_at x) ≤ instant (wi_effective_at x))%Z ∧
     withdrawal_evidence x = Ok e ∧ ao_events o = [withdrawn_event r e] ∧
     withdrawal_queued scope (withdrawn_event r e) ob ∧
     w_tables w' = with_outbox (t_outbox (w_tables w) ++ [ob])
       (after_withdrawal (w_tables w) r x)).
Proof.
  intros Ht%reachable_inv Hrun.
  apply withdraw_approval_run in Hrun as [[[e [=]] _]|[Hx|Hx]]; [..|done].
  - left. destruct Hx as (o' & [= <-] & Et & r & p & x & Hr & _ & Hid & Hok & Hxin & Hev & ->).
    split; [done|]. split; [done|]. exists r, x. split_and!; try done. apply Hok.
  - right. destruct Hx as (o' & [= <-] & r & p & x & c & e & t1 & ob & Hm & Et & Hq).
    destruct Hm. exists r, p, x, e, ob.
    assert (Hck : (instant (wi_approved_at x) ≤ instant (wi_effective_at x))%Z).
    { unfold check_withdrawal in wm_checked. result_inv. by bool_to_prop. }
    assert (Hlv : Forall (λ l, quorum_met l (votes (w_tables w) r)) (pr_levels p)).
    { destruct (ro_standing _ _ _ _ wm_ok) as (_ & _ & E & _).
      apply satisfied_prefix_all in E. eapply Forall_impl; [exact E|].
      intros l. apply level_satisfied_quorum. }
    split_and!; try done; try apply wm_ok.
    + unfold same_evidence. by rewrite wm_row.
    + rewrite wm_completed. by rewrite wm_row.
    + by rewrite wm_outcome.
Qed.

Lemma withdrawal_effect_witness :
  ∃ w' o, withdraw_approval (H0 := example_env Postgresql) tt example_request director
      "CAB-7" "superseded" "ext-1" (approved_world Postgresql) = (Ok o, w') ∧
    ao_events o ≠ [] ∧
    ∃ r x ob, w_tables w' = with_outbox (t_outbox (w_tables (approved_world Postgresql)) ++ [ob])
       (after_withdrawal (w_tables (approved_world Postgresql)) r x).
Proof.
  destruct (withdraw_approval (H0 := example_env Postgresql) tt example_request director
      "CAB-7" "superseded" "ext-1" (approved_world Postgresql)) as [[o|e] w'] eqn:E.
  - assert (Hne : negb (bool_decide (length (ao_events o) = 0)) = true).
    { change (match fst (Ok (E := exn) o, w') with
        | Ok o => negb (bool_decide (length (ao_events o) = 0)) | Raise _ => false end = true).
      rewrite <-E. vm_compute. reflexivity. }
    exists w', o. split; [reflexivity|].
    destruct (withdrawal_effect (H0 := example_env Postgresql) (approved_world Postgresql) w'
      tt example_request director "CAB-7" "superseded" "ext-1" o
      (approved_reachable Postgresql) E) as [(_ & Hev & _)|Hx].
    + rewrite Hev in Hne. discriminate Hne.
    + destruct Hx as (r & p & x & ev & ob & _ & _ & _ & _ & _ & _ & _ & _ & _ & _ & Hev & _ & Et).
      rewrite Hev. split; [discriminate|]. exists r, x, ob. exact Et.
  - exfalso. apply (f_equal (λ x, is_ok (fst x))) in E. vm_compute in E. discriminate E.
Defined.

(** A withdrawn request is withdrawn once: no later withdrawal call changes
    any table, whatever its evidence, and one that returns repeats the stored
    evidence, of which there is one row. *)
Theorem withdrawn_once {S} `{Plane S} `{Env} (w w' : World S) (r : RequestRow S) actor
    authority_ref reason external_ref res :
  reachable w → r ∈ t_requests (w_tables w) → re_state r = "withdrawn" →
  withdraw_approval (re_scope r) (re_id r) actor authority_ref reason external_ref w
    = (res, w') →
  w_tables w' = w_tables w ∧
  ∃ x, withdrawals_by_request (re_scope r) (re_id r) (w_tables w) = [x] ∧
    (is_ok res = true →
     same_evidence (re_scope r) (re_id r) actor authority_ref reason external_ref x).
Proof.
  intros Ht%reachable_inv Hr Hst Hrun.
  destruct (request_standing _ r WITHDRAWN Ht Hr Hst) as [p Hok].
  destruct (ro_standing _ _ _ _ Hok) as (_ & _ & _ & _ & x & Hx & Hxs & Hxi).
  assert (Hone : withdrawals_by_request (re_scope r) (re_id r) (w_tables w) = [x]).
  { unfold withdrawals_by_request. destruct (filter_key_unique
      (λ y, wi_scope y = re_scope r ∧ wi_request_id y = re_id r)
      _ (re_scope r, re_id r) _ (inv_wi_request _ Ht)) as [E|(y & E & _)];
      [by intros y [-> ->]| |];
      assert (x ∈ filter (λ y, wi_scope y = re_scope r ∧ wi_request_id y = re_id r)
        (t_withdrawals (w_tables w))) as Hin by (by apply list_elem_of_filter);
      rewrite E in *; [set_solver|]. by apply list_elem_of_singleton in Hin as ->. }
  apply withdraw_approval_run in Hrun as [[[e ->] Et]|[Hp|Hm]]; [..|done].
  - split; [done|]. by exists x.
  - destruct Hp as (o & -> & Et & r' & p' & y & _ & _ & _ & _ & Hy & Hev & _).
    split; [done|]. exists x. split; [done|]. intros _.
    assert (y ∈ withdrawals_by_request (re_scope r) (re_id r) (w_tables w)) as Hin.
    { apply list_elem_of_filter. split; [|done]. by destruct Hev as (? & ? & _). }
    rewrite Hone in Hin. by apply list_elem_of_singleton in Hin as ->.
  - exfalso. destruct Hm as (o & _ & r' & p' & y & c & e & t1 & ob & [] & _).
    assert (r' = r) as -> by (by eapply NoDup_key_eq; [apply (inv_re_id _ Ht)|..]).
    pose proof (ro_state _ _ _ _ wm_ok) as E. by rewrite Hst in E.
Qed.

Lemma withdrawn_once_witness :
  ∃ w', withdraw_approval (H0 := example_env Sqlite) tt example_request director
      "CAB-8" "again" "ext-2" (withdrawn_world Sqlite)
      = (Raise (ApprovalError WithdrawalReferenceConflict
                  "withdrawal reference or evidence differs"), w') ∧
    w_tables w' = w_tables (withdrawn_world Sqlite).
Proof.
  eexists. split; [vm_compute; reflexivity|].
  eapply (proj1 (withdrawn_once (H0 := example_env Sqlite) (withdrawn_world Sqlite) _
    (the_request (withdrawn_world Sqlite)) director "CAB-8" "again" "ext-2" _
    (withdrawn_reachable Sqlite) (withdrawn_in Sqlite) (withdrawn_withdrawn Sqlite) _)).
  Unshelve. 2: { vm_compute. reflexivity. }
Defined.

(** The database trigger and the Python adapter agree on the event: when the
    trigger runs on a request turning withdrawn, it inserts one outbox row under
    the evidence's id, and its payload is the payload of the event the service
    builds from the same request and evidence. *)
Theorem trigger_writes_the_event {S} `{Plane S} `{Env} (w w' : World S)
    (old new : RequestRow S) u :
  reachable w → re_state old ≠ "withdrawn" → re_state new = "withdrawn" →
  emit_withdrawal old new w = (Ok u, w') →
  ∃ x ob, withdrawals_by_request (re_scope new) (re_id new) (w_tables w) = [x] ∧
    w_tables w' = with_outbox (t_outbox (w_tables w) ++ [ob]) (w_tables w) ∧
    ob_id ob = wi_id x ∧
    (aware_utc (wi_approved_at x) → aware_utc (wi_effective_at x) →
     ∀ ev, withdrawal_event new x = Ok ev → ob_event_type ob = ae_event_type ev ∧
       ob_payload ob = ApprovalEvent_payload ev).
Proof.
  intros Ht%reachable_inv Hold Hnew Hrun. unfold emit_withdrawal in Hrun.
  rewrite Hnew, (proj2 (String.eqb_neq _ _) Hold) in Hrun. cbn [negb orb String.eqb] in Hrun.
  change (negb ("withdrawn" =? "withdrawn")%string || false) with false in Hrun. cbv iota in Hrun.
  bind_ok Hrun t w1 Hm. apply tables_run in Hm as [[= ->] ->].
  destruct (filter_key_unique
    (λ y, wi_scope y = re_scope new ∧ wi_request_id y = re_id new)
    _ (re_scope new, re_id new) _ (inv_wi_request _ Ht)) as [E|(x & E & _)];
    [by intros y [-> ->]| |];
    change (withdrawals_by_request (re_scope new) (re_id new) (w_tables w))
      with (filter (λ y, wi_scope y = re_scope new ∧ wi_request_id y = re_id new)
              (t_withdrawals (w_tables w))) in *; rewrite E in Hrun |- *; [done|].
  apply add_outbox_run in Hrun as [(_ & _ & Et)|(e & _ & [=] & _)].
  exists x, (trigger_outbox new x). split_and!; [done|done|done|].
  intros Ha He ev (e & Hev & ->)%withdrawal_event_Ok. split; [done|].
  by apply trigger_payload.
Qed.

Lemma trigger_writes_the_event_witness :
  let w := withdrawn_world Sqlite in let r := the_request w in
  ∃ u w' x (ob : OutboxRow unit), emit_withdrawal (H0 := example_env Sqlite)
      (set_standing r APPROVED (re_completed_at r) None) r w = (Ok u, w') ∧
    withdrawals_by_request (re_scope r) (re_id r) (w_tables w) = [x] ∧ ob_id ob = wi_id x.
Proof.
  cbv zeta.
  destruct (emit_withdrawal (H0 := example_env Sqlite)
    (set_standing (the_request (withdrawn_world Sqlite)) APPROVED
       (re_completed_at (the_request (withdrawn_world Sqlite))) None)
    (the_request (withdrawn_world Sqlite)) (withdrawn_world Sqlite)) as [[u|e] w'] eqn:E.
  - exists u, w'.
    destruct (trigger_writes_the_event (H0 := example_env Sqlite) (withdrawn_world Sqlite) w'
      (set_standing (the_request (withdrawn_world Sqlite)) APPROVED
         (re_completed_at (the_request (withdrawn_world Sqlite))) None)
      (the_request (withdrawn_world Sqlite)) u (withdrawn_reachable Sqlite)
      ltac:(discriminate) (withdrawn_withdrawn Sqlite) E) as (x & ob & Hx & _ & Hid & _).
    exists x, ob. split; [reflexivity|]. split; [exact Hx|exact Hid].
  - exfalso. apply (f_equal (λ x, is_ok (fst x))) in E. vm_compute in E. discriminate E.
Defined.

(** ** The hold *)

Section hold.
Context `{Env}.
Implicit Types (w : World unit) (r : RequestRow unit).

(** An approved request has an approve decision. *)
Lemma approved_has_approver t (r : RequestRow unit) p st :
  st = APPROVED ∨ st = WITHDRAWN → request_ok t r p st →
  ∃ d, d ∈ t_decisions t ∧ de_request_id d = re_id r ∧ de_action d = "approve".
Proof.
  intros Hst Hok. destruct (ro_governed _ _ _ _ Hok) as (row & _ & _ & [Hp] & _).
  pose proof (approved_levels t r p st Hst Hok) as Hall.
  pose proof (pok_nonempty _ Hp) as Hne. pose proof (pok_levels _ Hp) as Hls.
  destruct (pr_levels p) as [|l ls]; [done|].
  apply Forall_cons in Hls as [Hl _]. pose proof (lo_quorum _ Hl).
  destruct (Hall l) as ([|a people] & _ & Hq & Hvotes); [set_solver|simpl in Hq; lia|].
  destruct (Hvotes a) as (d & []); [set_solver|]. eauto.
Qed.

Lemma validate_digest_raises digest e :
  validate_digest digest = Raise e → ∃ msg, e = ApprovalError ContentChanged msg.
Proof.
  unfold validate_digest. intros Hrun.
  repeat (rewrite result_bind_Raise in Hrun; destruct Hrun as [Hrun|(? & _ & Hrun)]);
    rewrite ?raise_if_Raise in Hrun; first [discriminate Hrun|destruct Hrun as [_ <-]; by eexists].
Qed.

(** What each refusal of the hold says. *)
Definition refusal_holds (t : Tables unit) (rid : UUID) (styp sid digest : string)
    (code : ApprovalHoldRefusal) : Prop :=
  match code with
  | MALFORMED_DIGEST => is_ok (validate_digest digest) = false
  | REQUEST_NOT_FOUND => requests_by_id tt rid t = []
  | SUBJECT_MISMATCH => ∃ r, r ∈ t_requests t ∧ re_id r = rid ∧
      (re_subject_type r ≠ styp ∨ re_subject_id r ≠ sid)
  | DIGEST_MISMATCH => ∃ r, r ∈ t_requests t ∧ re_id r = rid ∧ re_content_digest r ≠ digest
  | HOLD_WITHDRAWN => ∃ r, r ∈ t_requests t ∧ re_id r = rid ∧ re_state r = "withdrawn"
  | NOT_APPROVED => ∃ r, r ∈ t_requests t ∧ re_id r = rid ∧ re_state r ≠ "approved" ∧
      re_state r ≠ "withdrawn"
  | NO_APPROVE_DECISION => False
  end.

(** What a hold that returned says. *)
Definition held (t : Tables unit) (rid : UUID) (styp sid digest : string)
    (h : HeldPlatformApproval) : Prop :=
  ∃ r p, r ∈ t_requests t ∧ re_id r = rid ∧ re_subject_type r = styp ∧
    re_subject_id r = sid ∧ re_content_digest r = digest ∧ re_state r = "approved" ∧
    governed t r p ∧ (∀ l, l ∈ pr_levels p → level_carried t r p l) ∧
    h = MkHeldPlatformApproval rid styp sid digest (re_policy_code r)
          (re_policy_version r) (hp_decided_at h) (hp_approver_ids h) ∧
    re_completed_at r = Some (hp_decided_at h) ∧
    (∀ a, a ∈ hp_approver_ids h ↔ ∃ d, d ∈ t_decisions t ∧ de_request_id d = rid ∧
       de_action d = "approve" ∧ de_actor_id d = a).

(** A session that ended where it began. *)
Definition hold_result w rid styp sid digest (res : result exn HeldPlatformApproval) w'
    : Prop :=
  w' = w ∧ match res with
    | Ok h => held (w_tables w) rid styp sid digest h
    | Raise e => ∃ code msg, e = ApprovalNotHeld code msg ∧
        refusal_holds (w_tables w) rid styp sid digest code
    end.

Lemma hold_refused w rid styp sid digest {A} (m : result exn A) code msg e w1 :
  (m = Raise e → e = ApprovalNotHeld code msg ∧
     refusal_holds (w_tables w) rid styp sid digest code) →
  lift m w = (Raise e, w1) → hold_result w rid styp sid digest (Raise e) w1.
Proof. intros Hm [= Hr <-]. split; [done|]. exists code, msg. auto. Qed.

(** The last step of the hold: an approved row and its approvers. *)
Lemma held_of w r p h :
  Inv (w_tables w) → r ∈ t_requests (w_tables w) → request_ok (w_tables w) r p APPROVED →
  re_completed_at r = Some (hp_decided_at h) →
  h = MkHeldPlatformApproval (re_id r) (re_subject_type r) (re_subject_id r)
        (re_content_digest r) (re_policy_code r) (re_policy_version r) (hp_decided_at h)
        (de_actor_id <$> order_decisions (filter (λ d, de_request_id d = re_id r ∧
           de_action d = action_value APPROVE) (t_decisions (w_tables w)))) →
  held (w_tables w) (re_id r) (re_subject_type r) (re_subject_id r) (re_content_digest r) h.
Proof.
  intros Ht Hr Hok Hc Hh. exists r, p. split_and!; try done; try apply Hok.
  - apply (approved_levels _ r p APPROVED); [by left|done].
  - by rewrite Hh.
  - intros a. rewrite Hh. simpl. rewrite list_elem_of_fmap. split.
    + intros (d & -> & Hd). rewrite order_decisions_perm in Hd.
      apply list_elem_of_filter in Hd as [[? ?] ?]. eauto.
    + intros (d & Hd & ? & ? & <-). exists d. split; [done|].
      rewrite order_decisions_perm. by apply list_elem_of_filter.
Qed.

Lemma hold_run w rid styp sid digest res w' :
  Inv (w_tables w) → hold_platform_approval rid styp sid digest w = (res, w') →
  hold_result w rid styp sid digest res w'.
Proof.
  intros Ht Hrun. unfold hold_platform_approval in Hrun.
  bind_inv Hrun dg w1 Hm.
  2: { injection Hm as Hm <-. split; [done|].
       destruct (validate_digest digest) as [dg|e'] eqn:E; [done|].
       destruct (validate_digest_raises _ _ E) as [msg ->]. injection Hm as <-.
       eexists _, _. split; [done|]. simpl. by rewrite E. }
  apply lift_run in Hm as [_ <-].
  bind_inv Hrun t w1 Hm; apply tables_run in Hm as [[= ->] ->].
  destruct (requests_by_id_inv (w_tables w) tt rid Ht) as [E|(r & E & Hr & _ & <-)];
    rewrite E in Hrun; (bind_inv Hrun row w1 Hm; [|done]);
    apply lift_run in Hm as [[= <-] <-].
  { injection Hrun as <- <-. split; [done|]. eexists _, _. by split. }
  bind_inv Hrun u1 w1 Hm.
  2: { eapply hold_refused; [|exact Hm]. intros [Hx <-]%raise_if_Raise. split; [done|].
       exists r. split_and!; [done..|]. apply orb_true_iff in Hx as [Hx|Hx]; bool_to_prop; auto. }
  apply lift_run in Hm as [Hsub <-]. result_inv. bool_to_prop.
  bind_inv Hrun u2 w1 Hm.
  2: { eapply hold_refused; [|exact Hm]. intros [Hx <-]%raise_if_Raise. split; [done|].
       exists r. by bool_to_prop. }
  apply lift_run in Hm as [Hdig <-]. result_inv. bool_to_prop. subst.
  bind_inv Hrun u3 w1 Hm.
  2: { eapply hold_refused; [|exact Hm]. intros [Hx <-]%raise_if_Raise. split; [done|].
       exists r. by bool_to_prop. }
  apply lift_run in Hm as [Hnw <-]. result_inv. bool_to_prop.
  bind_inv Hrun u4 w1 Hm.
  2: { eapply hold_refused; [|exact Hm]. intros [Hx <-]%raise_if_Raise. split; [done|].
       exists r. by bool_to_prop. }
  apply lift_run in Hm as [Hst <-]. result_inv. bool_to_prop.
  destruct (request_standing _ r APPROVED Ht Hr Hst) as [p Hok].
  destruct (re_completed_at r) as [c|] eqn:Hc;
    [|by destruct (ro_standing _ _ _ _ Hok) as [[? ?] _]; congruence].
  bind_inv Hrun u5 w1 Hm.
  - apply lift_run in Hm as [_ <-]. injection Hrun as <- <-. split; [done|].
    by apply (held_of w r p).
  - exfalso. apply lift_run in Hm as [[Hnil _]%raise_if_Raise _]. bool_to_prop.
    destruct (approved_has_approver (w_tables w) r p APPROVED) as (d & Hd & Hid & Hact); [by left|done|].
    apply fmap_nil_inv in Hnil.
    assert (Hin : d ∈ order_decisions (filter (λ d, de_request_id d = re_id r ∧
      de_action d = action_value APPROVE) (t_decisions (w_tables w)))).
    { rewrite order_decisions_perm. by apply list_elem_of_filter. }
    rewrite Hnil in Hin. set_solver.
Qed.
End hold.

(** [hold_platform_approval] changes nothing and has two outcomes only. It
    returns for a request with the caller's id, subject and content that stands
    approved, complete at every level of its revision, and names its completion
    time and exactly its approvers; otherwise it raises the coded refusal whose
    reason holds. The refusal for an approval without an approve decision never
    occurs. *)
Theorem hold_outcomes `{Env} (w w' : World unit) rid styp sid digest res :
  reachable w → hold_platform_approval rid styp sid digest w = (res, w') →
  hold_result w rid styp sid digest res w'.
Proof. intros Ht%reachable_inv. by apply hold_run. Qed.

Lemma hold_outcomes_witness :
  ∃ h, hold_platform_approval (H := example_env Sqlite) example_request "build" "b-1"
      example_digest (approved_world Sqlite) = (Ok h, approved_world Sqlite) ∧
    held (w_tables (approved_world Sqlite)) example_request "build" "b-1" example_digest h.
Proof.
  destruct (hold_platform_approval (H := example_env Sqlite) example_request "build" "b-1"
      example_digest (approved_world Sqlite)) as [[h|e] w'] eqn:E.
  - exists h. destruct (hold_outcomes (H := example_env Sqlite) (approved_world Sqlite) w'
      example_request "build" "b-1" example_digest (Ok h) (approved_reachable Sqlite) E)
      as [-> Hh]. split; [reflexivity|exact Hh].
  - exfalso. apply (f_equal (λ x, is_ok (fst x))) in E. vm_compute in E. discriminate E.
Defined.
