(* ===== verification/DeliveryRetry.v ===== *)
(** * Delivery policy, outcome classification and backoff

    [dotmac_integration/policy.py] and [dotmac_integration/retry.py]: the
    validated execution policy of a deployment, what a connector reports about an
    attempt, and the pure decisions the dispatcher takes from it: the state of
    the delivery, the delay before the next attempt, the pause of a throttled
    installation, and the reading of a [Retry-After] header. The HTTP-date form
    of the header is read by [email.utils.parsedate_to_datetime], a parameter
    here; everything else is computed. *)

From S2P Require Import Prelude PyData PyTime ApprovalContracts.
From stdpp Require Import base gmap strings pretty list.
From Stdlib Require Import ZArith Ascii SpecFloat.

(** ** The execution policy *)

Definition MIN_ATTEMPTS : Z := 1.
Definition MAX_ATTEMPTS : Z := 20.
Definition MIN_HTTP_STATUS : Z := 100.
Definition MAX_HTTP_STATUS : Z := 599.

Record ExecutionPolicy : Type := MkExecutionPolicy {
  max_attempts : Z;
  base_delay_seconds : Z;
  max_backoff_seconds : Z;
  lease_seconds : Z;
  stale_checkpoint_after_seconds : Z;
  dispatch_enabled : bool;
  max_in_flight_per_installation : option Z;
  retryable_provider_status_codes : list Z;
  throttling_provider_status_codes : list Z;
  default_throttle_cooldown_seconds : Z;
  apply_provider_backpressure : bool;
  metrics_window_seconds : Z;
  metrics_sample_limit : Z;
}.

(** [not isinstance(s, int) or isinstance(s, bool) or not 100 <= s <= 599]
    refuses; what passes is an integer. *)
Definition http_status (v : json) : result exn Z :=
  match v with
  | JInt s =>
      _ ← raise_if (negb ((MIN_HTTP_STATUS <=? s) && (s <=? MAX_HTTP_STATUS)))%Z ValueError;
      Ok s
  | _ => Raise ValueError
  end.

(** One of the two status tuples: every entry a status, none twice. *)
Definition status_codes (entries : list json) : result exn (list Z) :=
  statuses ← map_result http_status entries;
  _ ← raise_if (negb (bool_decide (NoDup statuses))) ValueError;
  Ok statuses.

(** [ExecutionPolicy.__post_init__], on the arguments of the constructor: the two
    tuples arrive as arbitrary values and are integers in the policy built. *)
Definition ExecutionPolicy_new (max_attempts base_delay max_backoff lease stale : Z)
    (enabled : bool) (limit : option Z) (retryable throttling : list json)
    (cooldown : Z) (backpressure : bool) (window sample : Z)
    : result exn ExecutionPolicy :=
  _ ← raise_if (negb ((MIN_ATTEMPTS <=? max_attempts)
                      && (max_attempts <=? MAX_ATTEMPTS)))%Z ValueError;
  _ ← raise_if (base_delay <? 1)%Z ValueError;
  _ ← raise_if (max_backoff <? base_delay)%Z ValueError;
  _ ← raise_if (lease <? 1)%Z ValueError;
  _ ← raise_if (stale <? 0)%Z ValueError;
  _ ← raise_if (match limit with Some n => n <? 1 | None => false end)%Z ValueError;
  retryable ← status_codes retryable;
  throttling ← status_codes throttling;
  _ ← raise_if (negb (forallb (λ s, bool_decide (s ∈ retryable)) throttling)) ValueError;
  _ ← raise_if (negb ((1 <=? cooldown) && (cooldown <=? max_backoff)))%Z ValueError;
  _ ← raise_if (window <? 1)%Z ValueError;
  _ ← raise_if (sample <? 1)%Z ValueError;
  Ok (MkExecutionPolicy max_attempts base_delay max_backoff lease stale enabled limit
        retryable throttling cooldown backpressure window sample).

(** [DEFAULT_POLICY]. *)
Definition DEFAULT_POLICY : ExecutionPolicy :=
  MkExecutionPolicy 10 60 (8 * 60 * 60) 300 (24 * 60 * 60) true None
    [408; 425; 429; 500; 502; 503; 504]%Z [429; 503]%Z 60 true (60 * 60) 5000.

Example DEFAULT_POLICY_built :
  ExecutionPolicy_new 10 60 28800 300 86400 true None
    (JInt <$> [408; 425; 429; 500; 502; 503; 504]%Z) (JInt <$> [429; 503]%Z)
    60 true 3600 5000 = Ok DEFAULT_POLICY.
Proof. reflexivity. Qed.

(** ** Outcomes *)

Inductive OutcomeStatus := SUCCEEDED | RETRYABLE | RECONCILIATION_REQUIRED | TERMINAL.

#[export] Instance OutcomeStatus_eq_dec : EqDecision OutcomeStatus.
Proof. solve_decision. Defined.

Record Outcome : Type := MkOutcome {
  oc_status : OutcomeStatus;
  oc_error_code : option string;
  oc_error_detail : option string;
  oc_retry_after_seconds : option Z;
  oc_provider_reference : option string;
  oc_provider_status_code : option Z;
  oc_result : option json;
}.

(** [Outcome.__post_init__]: the reference is stripped and bounded, the status
    code is an HTTP status. *)
Definition Outcome_new (status : OutcomeStatus) (error_code error_detail : option string)
    (retry_after : option Z) (reference : option string) (status_code : option json)
    (body : option json) : result exn Outcome :=
  reference ← match reference with
    | None => Ok None
    | Some reference =>
        let normalized := strip reference in
        _ ← raise_if (negb (str_truthy normalized) || (500 <? str_len normalized))%Z
              ValueError;
        Ok (Some normalized)
    end;
  status_code ← match status_code with
    | None => Ok None
    | Some v => Some <$> http_status v
    end;
  Ok (MkOutcome status error_code error_detail retry_after reference status_code body).

(** [Outcome.is_final]. *)
Definition is_final (outcome : Outcome) : bool :=
  negb (bool_decide (oc_status outcome = RETRYABLE)).

(** [replace(outcome, status=...)]. *)
Definition with_status (outcome : Outcome) (status : OutcomeStatus) : Outcome :=
  MkOutcome status (oc_error_code outcome) (oc_error_detail outcome)
    (oc_retry_after_seconds outcome) (oc_provider_reference outcome)
    (oc_provider_status_code outcome) (oc_result outcome).

(** ** The decisions *)

(** [classify]. *)
Definition classify (policy : ExecutionPolicy) (outcome : Outcome) : Outcome :=
  if bool_decide (oc_status outcome ≠ TERMINAL) then outcome
  else match oc_provider_status_code outcome with
       | None => outcome
       | Some status =>
           if bool_decide (status ∉ retryable_provider_status_codes policy) then outcome
           else with_status outcome RETRYABLE
       end.

(** [throttle_cooldown_seconds]. *)
Definition throttle_cooldown_seconds (policy : ExecutionPolicy) (outcome : Outcome)
    : option Z :=
  match oc_provider_status_code outcome with
  | None => None
  | Some status =>
      if bool_decide (status ∉ throttling_provider_status_codes policy) then None
      else
        let seconds := default (default_throttle_cooldown_seconds policy)
                         (oc_retry_after_seconds outcome) in
        Some (Z.max 0 (Z.min seconds (max_backoff_seconds policy)))
  end.

(** The curve alone: [base * 2 ** exponent], capped; past exponent 32 the cap. *)
Definition backoff_curve (policy : ExecutionPolicy) (attempt_count : Z) : Z :=
  let exponent := Z.max (attempt_count - 1) 0 in
  if (32 <? exponent)%Z then max_backoff_seconds policy
  else Z.min (max_backoff_seconds policy) (base_delay_seconds policy * 2 ^ exponent).

(** [retry_delay_seconds]. *)
Definition retry_delay_seconds (policy : ExecutionPolicy) (attempt_count : Z)
    (outcome : option Outcome) : Z :=
  match outcome ≫= oc_retry_after_seconds with
  | Some named => Z.max 0 (Z.min named (max_backoff_seconds policy))
  | None =>
      let delay := backoff_curve policy attempt_count in
      match outcome ≫= throttle_cooldown_seconds policy with
      | Some cooldown => Z.max delay cooldown
      | None => delay
      end
  end.

(** [next_state]. *)
Definition next_state (policy : ExecutionPolicy) (outcome : Outcome) (attempt_count : Z)
    : string :=
  let outcome := classify policy outcome in
  match oc_status outcome with
  | SUCCEEDED => "delivered"
  | RECONCILIATION_REQUIRED => "reconciliation_required"
  | TERMINAL => "dead_letter"
  | RETRYABLE =>
      if (max_attempts policy <=? attempt_count)%Z then "dead_letter" else "retryable"
  end.

(** ** The [Retry-After] header *)

(** The declared types of the argument: [str | int | None], and the [bool] that
    is an [int]. *)
Inductive HeaderValue := HNone | HBool (b : bool) | HInt (z : Z) | HStr (s : string).

(** [int(text)]: beyond 4,300 digits the interpreter refuses with the same
    [ValueError] as on text that is no number. *)
Fixpoint digit_count (s : string) : Z :=
  match s with
  | EmptyString => 0
  | String c s =>
      let n := N_of_ascii c in
      (if (48 <=? n)%N && (n <=? 57)%N then 1 else 0) + digit_count s
  end.
Definition int_of_text (s : string) : option Z :=
  if (4300 <? digit_count s)%Z then None else int_of_str s.

(** [int(delta.total_seconds())] of a difference in microseconds: the true
    division by 10**6 rounded to binary64, then truncated. *)
Definition whole_seconds (us : Z) : Z :=
  let num := match us with
             | Z0 => S754_zero false
             | Zpos p => S754_finite false p 0
             | Zneg p => S754_finite true p 0
             end in
  match py_int (JFloat (SFdiv 53 1024 num (S754_finite false 1000000 0))) with
  | Ok z => z
  | Raise _ => 0
  end.

Section header.
(** [email.utils.parsedate_to_datetime]: [None] where it raises. *)
Context (parsedate_to_datetime : string → option datetime).

(** [parse_retry_after]; [now] is the argument, or the clock where it is absent. *)
Definition parse_retry_after (value : HeaderValue) (now : datetime) : option Z :=
  match value with
  | HNone => None
  | HBool _ => None
  | HInt z => Some (Z.max 0 z)
  | HStr value =>
      let text := strip value in
      if negb (str_truthy text) then None
      else match int_of_text text with
           | Some z => Some (Z.max 0 z)
           | None =>
               match parsedate_to_datetime text with
               | None => None
               | Some when =>
                   let when := if is_naive when then replace_tz_utc when else when in
                   let moment := if is_naive now then replace_tz_utc now else now in
                   Some (Z.max 0 (whole_seconds (instant when - instant moment)))
               end
           end
  end.
End header.

Example whole_seconds_1 : whole_seconds 1999999 = 1%Z.
Proof. vm_compute. reflexivity. Qed.
Example whole_seconds_2 : whole_seconds (-1500000) = (-1)%Z.
Proof. vm_compute. reflexivity. Qed.
Example parse_retry_after_1 :
  parse_retry_after (λ _, None) (HStr " 120 ") (utc_of 0) = Some 120%Z.
Proof. reflexivity. Qed.
