(* ===== verification/DeliveryTheorems.v ===== *)
(** * What the delivery policy guarantees

    Properties of the decisions of [dotmac_integration/retry.py] under a policy
    its constructor accepted. *)

From S2P Require Import Prelude PyData PyTime ApprovalContracts DeliveryRetry.
From stdpp Require Import base gmap strings pretty list.
From Stdlib Require Import ZArith SpecFloat.

(** What [ExecutionPolicy.__post_init__] establishes. *)
Record policy_wf (p : ExecutionPolicy) : Prop := {
  pw_attempts : (1 ≤ max_attempts p ≤ 20)%Z;
  pw_base : (1 ≤ base_delay_seconds p)%Z;
  pw_backoff : (base_delay_seconds p ≤ max_backoff_seconds p)%Z;
  pw_lease : (1 ≤ lease_seconds p)%Z;
  pw_stale : (0 ≤ stale_checkpoint_after_seconds p)%Z;
  pw_limit : ∀ n, max_in_flight_per_installation p = Some n → (1 ≤ n)%Z;
  pw_retryable : Forall (λ s, (100 ≤ s ≤ 599)%Z) (retryable_provider_status_codes p);
  pw_retryable_set : NoDup (retryable_provider_status_codes p);
  pw_throttling_set : NoDup (throttling_provider_status_codes p);
  pw_throttling : throttling_provider_status_codes p ⊆ retryable_provider_status_codes p;
  pw_cooldown : (1 ≤ default_throttle_cooldown_seconds p ≤ max_backoff_seconds p)%Z;
  pw_window : (1 ≤ metrics_window_seconds p)%Z;
  pw_sample : (1 ≤ metrics_sample_limit p)%Z;
}.

Lemma status_codes_Ok entries l :
  status_codes entries = Ok l → Forall (λ s, (100 ≤ s ≤ 599)%Z) l ∧ NoDup l.
Proof.
  unfold status_codes. intros Hrun. apply result_bind_Ok in Hrun as (l' & Hl & Hrun).
  result_inv. bool_to_prop. split; [|done]. apply map_result_Ok in Hl.
  clear -Hl. induction Hl as [|v s vs ss Hv _ IH]; constructor; [|done].
  unfold http_status in Hv. destruct v; try done. result_inv. bool_to_prop.
  unfold MIN_HTTP_STATUS, MAX_HTTP_STATUS in *. lia.
Qed.

Lemma ExecutionPolicy_new_wf a b c d e f g h i j k l m p :
  ExecutionPolicy_new a b c d e f g h i j k l m = Ok p → policy_wf p.
Proof.
  unfold ExecutionPolicy_new. intros Hrun. result_inv.
  repeat match goal with Hs : status_codes _ = Ok _ |- _ =>
    apply status_codes_Ok in Hs as [? ?] end.
  bool_to_prop. unfold MIN_ATTEMPTS, MAX_ATTEMPTS in *.
  split; simpl; try lia; try done.
  - intros n ->. bool_to_prop. lia.
  - match goal with Hf : forallb _ _ = true |- _ => rewrite forallb_forall in Hf;
      intros s Hs%list_elem_of_In; specialize (Hf s Hs) end. by bool_to_prop.
Qed.

(** The status code rescues a terminal outcome. *)
Definition rescued (p : ExecutionPolicy) (o : Outcome) : Prop :=
  ∃ s, oc_provider_status_code o = Some s ∧ s ∈ retryable_provider_status_codes p.

(** The provider is throttling the account. *)
Definition throttled (p : ExecutionPolicy) (o : Outcome) : Prop :=
  ∃ s, oc_provider_status_code o = Some s ∧ s ∈ throttling_provider_status_codes p.

(** The outcome leaves work to do. *)
Definition outstanding (p : ExecutionPolicy) (o : Outcome) : Prop :=
  oc_status o = RETRYABLE ∨ (oc_status o = TERMINAL ∧ rescued p o).

#[export] Instance rescued_dec p o : Decision (rescued p o).
Proof.
  refine (match oc_provider_status_code o as c
    return oc_provider_status_code o = c → Decision (rescued p o) with
    | Some s => λ E, cast_if (decide (s ∈ retryable_provider_status_codes p))
    | None => λ E, right _
    end eq_refl); unfold rescued; rewrite E; naive_solver.
Defined.

Lemma classify_rescued p o :
  oc_status o = TERMINAL → rescued p o → classify p o = with_status o RETRYABLE.
Proof.
  intros Hs (s & Hc & Hin). unfold classify. rewrite Hs, Hc.
  by rewrite bool_decide_false, bool_decide_false by naive_solver.
Qed.

Lemma classify_other p o :
  (oc_status o = TERMINAL → ¬ rescued p o) → classify p o = o.
Proof.
  intros Hn. unfold classify. case_bool_decide as Hs; [done|].
  destruct (oc_provider_status_code o) as [s|] eqn:Hc; [|done].
  case_bool_decide as Hin; [done|]. exfalso.
  apply Hn; [by destruct (decide (oc_status o = TERMINAL))|].
  exists s. split; [done|]. by destruct (decide (s ∈ retryable_provider_status_codes p)).
Qed.

Lemma next_state_outstanding p o n :
  outstanding p o →
  next_state p o n = if (max_attempts p <=? n)%Z then "dead_letter" else "retryable".
Proof.
  unfold next_state. intros [Hs|[Hs Hr]].
  - rewrite classify_other by (by rewrite Hs). by rewrite Hs.
  - by rewrite classify_rescued.
Qed.

Lemma next_state_settled p o n :
  ¬ outstanding p o →
  next_state p o n = match oc_status o with
    | SUCCEEDED => "delivered"
    | RECONCILIATION_REQUIRED => "reconciliation_required"
    | _ => "dead_letter"
    end.
Proof.
  intros Hn. unfold next_state.
  rewrite classify_other by (intros Hs Hr; apply Hn; by right).
  destruct (oc_status o) eqn:E; try done. exfalso. apply Hn. by left.
Qed.

Lemma throttled_cooldown p o :
  policy_wf p →
  (throttled p o →
     ∃ c, throttle_cooldown_seconds p o = Some c ∧ (0 ≤ c ≤ max_backoff_seconds p)%Z) ∧
  (¬ throttled p o → throttle_cooldown_seconds p o = None).
Proof.
  intros Hp. pose proof (pw_backoff _ Hp). pose proof (pw_base _ Hp).
  unfold throttle_cooldown_seconds, throttled. split.
  - intros (s & -> & Hin). rewrite bool_decide_false by naive_solver. eexists.
    split; [done|lia].
  - intros Hn. destruct (oc_provider_status_code o) as [s|]; [|done].
    case_bool_decide as Hin; [done|]. exfalso. apply Hn. exists s. split; [done|].
    by destruct (decide (s ∈ throttling_provider_status_codes p)).
Qed.

Lemma backoff_curve_bounds p n :
  policy_wf p → (1 ≤ backoff_curve p n ≤ max_backoff_seconds p)%Z.
Proof.
  intros Hp. pose proof (pw_backoff _ Hp). pose proof (pw_base _ Hp).
  unfold backoff_curve. destruct (Z.ltb_spec 32 (Z.max (n - 1) 0)); [lia|].
  pose proof (Z.pow_pos_nonneg 2 (Z.max (n - 1) 0)). nia.
Qed.

Lemma backoff_curve_mono p n m :
  policy_wf p → (n ≤ m)%Z → (backoff_curve p n ≤ backoff_curve p m)%Z.
Proof.
  intros Hp Hle. pose proof (backoff_curve_bounds p n Hp). unfold backoff_curve in *.
  pose proof (pw_base _ Hp).
  destruct (Z.ltb_spec 32 (Z.max (m - 1) 0)).
  - destruct (Z.ltb_spec 32 (Z.max (n - 1) 0)); lia.
  - destruct (Z.ltb_spec 32 (Z.max (n - 1) 0)); [lia|].
    pose proof (Z.pow_le_mono_r 2 (Z.max (n - 1) 0) (Z.max (m - 1) 0)). nia.
Qed.

(** A policy the constructor accepts is well formed: every bound holds, the
    status sets are HTTP statuses without repetition, and every throttling status
    is retryable. The default policy is such a policy. *)
Theorem policy_construction_sound a b c d e f g h i j k l m p :
  ExecutionPolicy_new a b c d e f g h i j k l m = Ok p → policy_wf p.
Proof. apply ExecutionPolicy_new_wf. Qed.

Lemma policy_construction_sound_witness : policy_wf DEFAULT_POLICY.
Proof.
  eapply policy_construction_sound. exact DEFAULT_POLICY_built.
Defined.

(** C19. The state of a delivery after an attempt, exactly. Success and required
    reconciliation are final as reported, whatever the status code and the
    attempt; an outcome that is retryable, or terminal with a retryable status
    code, is retried until the attempt cap and dead-lettered at it; any other
    terminal outcome is dead-lettered. *)
Theorem next_state_exact p o n :
  (next_state p o n = "delivered" ↔ oc_status o = SUCCEEDED) ∧
  (next_state p o n = "reconciliation_required" ↔ oc_status o = RECONCILIATION_REQUIRED) ∧
  (next_state p o n = "retryable" ↔ outstanding p o ∧ (n < max_attempts p)%Z) ∧
  (next_state p o n = "dead_letter" ↔
     (outstanding p o ∧ (max_attempts p ≤ n)%Z) ∨
     (oc_status o = TERMINAL ∧ ¬ rescued p o)).
Proof.
  assert (Hcase : outstanding p o ∨ ¬ outstanding p o).
  { unfold outstanding. destruct (oc_status o), (decide (rescued p o)); naive_solver. }
  destruct Hcase as [Ho|Ho].
  - rewrite next_state_outstanding by done.
    assert (oc_status o ≠ SUCCEEDED ∧ oc_status o ≠ RECONCILIATION_REQUIRED)
      by (destruct Ho as [?|[? ?]]; split; congruence).
    unfold outstanding in *.
    destruct (Z.leb_spec (max_attempts p) n); intuition (discriminate || congruence || lia).
  - rewrite next_state_settled by done. unfold outstanding in *.
    destruct (oc_status o), (decide (rescued p o));
      intuition (discriminate || congruence || lia).
Qed.

(** A rate limit never dead-letters a delivery before its attempts are used
    up: under an accepted policy, a throttled outcome reported terminal or
    retryable is retried while attempts remain, and the installation's cooldown
    applies, bounded by the ceiling, with the delivery itself waiting at least as
    long. *)
Theorem throttle_is_not_terminal p o n :
  policy_wf p → throttled p o → oc_status o = TERMINAL ∨ oc_status o = RETRYABLE →
  (n < max_attempts p)%Z →
  next_state p o n = "retryable" ∧
  ∃ c, throttle_cooldown_seconds p o = Some c ∧ (0 ≤ c ≤ max_backoff_seconds p)%Z ∧
    (c ≤ retry_delay_seconds p n (Some o))%Z.
Proof.
  intros Hp Ht Hs Hn.
  assert (Hr : rescued p o).
  { destruct Ht as (s & Hc & Hin). exists s. split; [done|]. by apply (pw_throttling _ Hp). }
  split.
  - rewrite next_state_outstanding by (destruct Hs; [by right|by left]).
    by rewrite (proj2 (Z.leb_gt _ _)).
  - destruct (proj1 (throttled_cooldown p o Hp) Ht) as (c & Hc & Hb).
    exists c. split_and!; try done; try lia. unfold retry_delay_seconds. simpl.
    destruct (oc_retry_after_seconds o) as [named|] eqn:Ho.
    + unfold throttle_cooldown_seconds in Hc. rewrite Ho in Hc. repeat case_match; simplify_eq.
      simpl. lia.
    + rewrite Hc. lia.
Qed.

Definition rate_limited : Outcome :=
  MkOutcome TERMINAL (Some "rate_limited") None None None (Some 429%Z) None.

Lemma throttle_is_not_terminal_witness :
  next_state DEFAULT_POLICY rate_limited 3 = "retryable" ∧
  ∃ c, throttle_cooldown_seconds DEFAULT_POLICY rate_limited = Some c ∧
    (0 ≤ c ≤ max_backoff_seconds DEFAULT_POLICY)%Z ∧
    (c ≤ retry_delay_seconds DEFAULT_POLICY 3 (Some rate_limited))%Z.
Proof.
  apply throttle_is_not_terminal.
  - eapply ExecutionPolicy_new_wf. exact DEFAULT_POLICY_built.
  - exists 429%Z. split; [reflexivity|]. simpl. set_solver.
  - left. reflexivity.
  - reflexivity.
Defined.

(** Under an accepted policy every delay is between zero and the ceiling,
    and at least a second when the provider named none; waiting grows with the
    attempts; and without a provider's instruction or throttle the delay is
    [base * 2 ** (n - 1)] capped, for every attempt, as long as the ceiling is at
    most [base * 2 ** 33] seconds: guarding the shift changes no delay. *)
Theorem retry_delay_exact p o n m :
  policy_wf p →
  (0 ≤ retry_delay_seconds p n o ≤ max_backoff_seconds p)%Z ∧
  (o ≫= oc_retry_after_seconds = None → (1 ≤ retry_delay_seconds p n o)%Z) ∧
  ((n ≤ m)%Z → (retry_delay_seconds p n o ≤ retry_delay_seconds p m o)%Z) ∧
  (o ≫= oc_retry_after_seconds = None → (∀ x, o = Some x → ¬ throttled p x) →
     (1 ≤ n)%Z → (max_backoff_seconds p ≤ base_delay_seconds p * 2 ^ 33)%Z →
     retry_delay_seconds p n o
     = Z.min (max_backoff_seconds p) (base_delay_seconds p * 2 ^ (n - 1))).
Proof.
  intros Hp. pose proof (backoff_curve_bounds p) as Hb.
  pose proof (pw_backoff _ Hp). pose proof (pw_base _ Hp).
  assert (Hc : ∀ c, o ≫= throttle_cooldown_seconds p = Some c →
    (0 ≤ c ≤ max_backoff_seconds p)%Z).
  { intros c Hc. destruct o as [x|]; [|done]. simpl in Hc.
    unfold throttle_cooldown_seconds in Hc. repeat case_match; simplify_eq. lia. }
  unfold retry_delay_seconds.
  destruct (o ≫= oc_retry_after_seconds) as [named|]; [split_and!; (done || lia)|].
  pose proof (Hb n Hp) as Hn. pose proof (Hb m Hp) as Hm.
  pose proof (backoff_curve_mono p n m Hp) as Hmono.
  destruct (o ≫= throttle_cooldown_seconds p) as [c|] eqn:Ec.
  - specialize (Hc c eq_refl). split_and!; try lia. intros _ Hnt.
    destruct o as [x|]; [|done]. simpl in Ec.
    rewrite (proj2 (throttled_cooldown p x Hp)) in Ec by by apply Hnt. done.
  - split_and!; try lia. intros _ _ Hn1 Hceil. unfold backoff_curve.
    rewrite Z.max_l by lia. destruct (Z.ltb_spec 32 (n - 1)); [|done].
    pose proof (Z.pow_le_mono_r 2 33 (n - 1)). nia.
Qed.

Lemma default_policy_wf : policy_wf DEFAULT_POLICY.
Proof. eapply ExecutionPolicy_new_wf. exact DEFAULT_POLICY_built. Qed.

Lemma retry_delay_exact_witness :
  (0 ≤ retry_delay_seconds DEFAULT_POLICY 4 None ≤ max_backoff_seconds DEFAULT_POLICY)%Z ∧
  retry_delay_seconds DEFAULT_POLICY 4 None = 480%Z.
Proof.
  destruct (retry_delay_exact DEFAULT_POLICY None 4 5 default_policy_wf)
    as (H1 & _ & _ & H4).
  split; [exact H1|]. etrans; [apply H4|].
  - reflexivity.
  - intros x Hx. discriminate Hx.
  - discriminate.
  - discriminate.
  - reflexivity.
Defined.

(** The classification correction is as narrow as stated: it keeps every
    field but the status, is idempotent, never touches an outcome that is not
    terminal, never makes one terminal, and turns a terminal one retryable exactly
    when its status code is a retryable one. *)
Theorem classify_only_rescues p o :
  let o' := classify p o in
  o' = with_status o (oc_status o') ∧ classify p o' = o' ∧
  (oc_status o ≠ TERMINAL → o' = o) ∧
  (oc_status o' = TERMINAL → oc_status o = TERMINAL) ∧
  (oc_status o = TERMINAL → (oc_status o' = RETRYABLE ↔ rescued p o)).
Proof.
  intros o'. destruct (decide (oc_status o = TERMINAL ∧ rescued p o)) as [[Hs Hr]|Hn].
  - subst o'. rewrite classify_rescued by done. split_and!; try done.
  - assert (o' = o) as ->.
    { subst o'. apply classify_other. naive_solver. }
    split_and!; try done; [by destruct o| |].
    + apply classify_other. naive_solver.
    + intros Hs. split; [congruence|]. intros Hr. destruct Hn. by split.
Qed.

(** C20. Deliveries end. Under an accepted policy, whatever the connector reports
    on each attempt, some attempt no later than the cap leaves the delivery in a
    final state, every earlier attempt left it retryable, and the delays waited
    before it add up to at most the cap less one times the ceiling. *)
Theorem deliveries_end p (report : nat → Outcome) :
  policy_wf p →
  ∃ n, (1 ≤ Z.of_nat n ≤ max_attempts p)%Z ∧
    next_state p (report n) (Z.of_nat n) ≠ "retryable" ∧
    (∀ k, 1 ≤ k < n → next_state p (report k) (Z.of_nat k) = "retryable") ∧
    (foldr Z.add 0 ((λ k, retry_delay_seconds p (Z.of_nat k) (Some (report k)))
                      <$> seq 1 (n - 1))
     ≤ (max_attempts p - 1) * max_backoff_seconds p)%Z.
Proof.
  intros Hp. pose proof (pw_attempts _ Hp) as Hmax.
  pose proof (pw_backoff _ Hp). pose proof (pw_base _ Hp).
  assert (Hfind : ∀ j, (1 ≤ Z.of_nat j)%Z →
    (∃ n, 1 ≤ n ≤ j ∧ next_state p (report n) (Z.of_nat n) ≠ "retryable" ∧
       ∀ k, 1 ≤ k < n → next_state p (report k) (Z.of_nat k) = "retryable") ∨
    (∀ k, 1 ≤ k ≤ j → next_state p (report k) (Z.of_nat k) = "retryable")).
  { induction j as [|j IH]; intros Hj; [lia|].
    assert (Hall : (∃ n, 1 ≤ n ≤ j ∧ next_state p (report n) (Z.of_nat n) ≠ "retryable" ∧
       ∀ k, 1 ≤ k < n → next_state p (report k) (Z.of_nat k) = "retryable") ∨
      (∀ k, 1 ≤ k ≤ j → next_state p (report k) (Z.of_nat k) = "retryable")).
    { destruct j; [right; intros; lia|apply IH; lia]. }
    destruct Hall as [(n & ? & ? & ?)|Hall]; [left; exists n; split_and!; (done || lia)|].
    destruct (decide (next_state p (report (S j)) (Z.of_nat (S j)) = "retryable")) as [E|E].
    - right. intros k Hk. destruct (decide (k = S j)) as [->|]; [done|]. apply Hall. lia.
    - left. exists (S j). split_and!; try lia; [done|]. intros k Hk. apply Hall. lia. }
  assert (Hsum : ∀ l, (foldr Z.add 0 ((λ k, retry_delay_seconds p (Z.of_nat k)
      (Some (report k))) <$> l) ≤ Z.of_nat (length l) * max_backoff_seconds p)%Z).
  { induction l as [|k l IH]; [simpl; lia|].
    assert (retry_delay_seconds p (Z.of_nat k) (Some (report k)) ≤ max_backoff_seconds p)%Z.
    { unfold retry_delay_seconds, mbind, option_bind. pose proof (backoff_curve_bounds p (Z.of_nat k) Hp).
      destruct (oc_retry_after_seconds _); [lia|].
      destruct (throttle_cooldown_seconds _ _) eqn:Ec; [|lia].
      unfold throttle_cooldown_seconds in Ec. repeat case_match; simplify_eq; lia. }
    cbn [fmap list_fmap foldr length]. lia. }
  destruct (Hfind (Z.to_nat (max_attempts p))) as [(n & Hn & Hst & Hbefore)|Hall]; [lia| |].
  - exists n. split_and!; try lia; [done|done|].
    etrans; [apply Hsum|]. rewrite length_seq. nia.
  - exfalso. specialize (Hall (Z.to_nat (max_attempts p))).
    rewrite Z2Nat.id in Hall by lia. specialize (Hall ltac:(lia)). revert Hall.
    unfold next_state. rewrite Z.leb_refl. by destruct (oc_status _).
Qed.

Lemma deliveries_end_witness :
  ∃ n, (1 ≤ Z.of_nat n ≤ max_attempts DEFAULT_POLICY)%Z ∧
    next_state DEFAULT_POLICY rate_limited (Z.of_nat n) ≠ "retryable" ∧
    (∀ k, 1 ≤ k < n → next_state DEFAULT_POLICY rate_limited (Z.of_nat k) = "retryable") ∧
    (foldr Z.add 0 ((λ k, retry_delay_seconds DEFAULT_POLICY (Z.of_nat k) (Some rate_limited))
                      <$> seq 1 (n - 1))
     ≤ (max_attempts DEFAULT_POLICY - 1) * max_backoff_seconds DEFAULT_POLICY)%Z.
Proof. exact (deliveries_end DEFAULT_POLICY (λ _, rate_limited) default_policy_wf). Defined.

(** ** The header *)

(** Binary division keeps the sign of the dividend. *)
Lemma binary_round_aux_sign prec emax s m e l :
  match binary_round_aux prec emax s m e l with
  | S754_finite s' _ _ | S754_zero s' | S754_infinity s' => s' = s
  | S754_nan => True
  end.
Proof.
  unfold binary_round_aux. destruct (shr_fexp prec emax m e l) as [[m1 r1 s1] e1].
  simpl. destruct (shr_fexp _ _ _ _ _) as [[m2 r2 s2] e2]. simpl.
  destruct m2; try done. by destruct (_ <=? _)%Z.
Qed.

Lemma whole_seconds_nonpos us : (us ≤ 0)%Z → (whole_seconds us ≤ 0)%Z.
Proof.
  intros Hus. unfold whole_seconds. destruct us as [|q|q]; [done|lia|].
  unfold SFdiv. cbn [xorb].
  destruct (SFdiv_core_binary _ _ _ _ _ _) as [[m e] l].
  pose proof (binary_round_aux_sign 53 1024 true m e l) as Hs.
  destruct (binary_round_aux _ _ _ _ _ _) as [s|s| |s m' e']; simpl; try done; try lia.
  subst s. case_match; [|pose proof (Z.div_pos (Z.pos m') (2 ^ (- e')));
    pose proof (Z.pow_pos_nonneg 2 (- e')); lia].
  pose proof (Z.pow_nonneg 2 e'). nia.
Qed.

(** Reading [Retry-After] never raises and never yields a negative delay,
    whatever the date parser does: integers and decimal text count seconds and
    clamp at zero; a boolean, a blank or an unreadable header falls back to the
    curve; a date not after the moment means now; and a date or a moment without
    a zone is read as UTC, so a header means the same on every host. *)
Theorem parse_retry_after_total (parsedate : string → option datetime) value now :
  (∀ s, parse_retry_after parsedate value now = Some s → (0 ≤ s)%Z) ∧
  (∀ b, value = HBool b → parse_retry_after parsedate value now = None) ∧
  (∀ t, value = HStr t → str_truthy (strip t) = false →
     parse_retry_after parsedate value now = None) ∧
  (∀ t z, value = HStr t → str_truthy (strip t) = true → int_of_text (strip t) = Some z →
     parse_retry_after parsedate value now = Some (Z.max 0 z)) ∧
  (∀ t d, value = HStr t → str_truthy (strip t) = true → int_of_text (strip t) = None →
     parsedate (strip t) = Some d →
     (instant d ≤ instant now)%Z → parse_retry_after parsedate value now = Some 0%Z) ∧
  (is_naive now = true →
     parse_retry_after parsedate value now = parse_retry_after parsedate value (replace_tz_utc now)).
Proof.
  assert (Hi : ∀ d : datetime, instant (if is_naive d then replace_tz_utc d else d) = instant d).
  { intros [wall [off|]]; done. }
  split_and!.
  - intros s. destruct value as [|b|z|t]; simpl; intros E; simplify_eq; try lia.
    repeat case_match; simplify_eq; lia.
  - by intros b ->.
  - intros t -> E. simpl. by rewrite E.
  - intros t z -> E1 E2. simpl. by rewrite E1, E2.
  - intros t d -> E1 E2 E3 Hle. simpl. rewrite E1, E2, E3, !Hi. cbn [negb].
    f_equal. pose proof (whole_seconds_nonpos (instant d - instant now)). lia.
  - intros Hn. destruct value; try done. simpl. rewrite Hn. done.
Qed.

Lemma parse_retry_after_total_witness :
  parse_retry_after (λ _, Some (utc_of 5)) (HStr "Thu, 01 Jan 1970 00:00:00 GMT") (utc_of 9)
  = Some 0%Z.
Proof.
  apply (proj1 (proj2 (proj2 (proj2 (proj2 (parse_retry_after_total (λ _, Some (utc_of 5))
    (HStr "Thu, 01 Jan 1970 00:00:00 GMT") (utc_of 9)))))) "Thu, 01 Jan 1970 00:00:00 GMT"
    (utc_of 5)).
  - reflexivity.
  - reflexivity.
  - reflexivity.
  - reflexivity.
  - discriminate.
Defined.
