(* ===== verification/DeviceLimiter.v ===== *)
(** * The session limiter

    [packages/dotmac-device-cli/src/dotmac_device_cli/core/limiter.py], with
    [Limits] of [profile.py]: a slot of a device is a lock in a store that the
    host supplies, and a caller takes one slot or is refused. *)

From S2P Require Import Prelude PyData.
From stdpp Require Import base strings pretty list.
From Stdlib Require Import ZArith NArith Ascii SpecFloat.

Local Open Scope Z_scope.

(** ** Floats *)

(** [float(n)]. *)
Definition float_of_int (n : Z) : option spec_float :=
  match binary_normalize 53 1024 n 0 false with S754_infinity _ => None | f => Some f end.
Definition float_add (a b : spec_float) : spec_float := SFadd 53 1024 a b.
Definition float_sub (a b : spec_float) : spec_float := SFsub 53 1024 a b.

(** [max(a, b)] and [min(a, b)] keep [a] unless [b] is beyond it. *)
Definition py_max (a b : spec_float) : spec_float := if SFltb a b then b else a.
Definition py_min (a b : spec_float) : spec_float := if SFltb b a then b else a.

Definition float_zero : spec_float := S754_zero false.
Definition float_half : spec_float := S754_finite false 1 (-1).
Definition float_three_halves : spec_float := S754_finite false 3 (-1).

(** ** Vocabulary *)

Definition BUSY_PREFIX : string := "olt_busy:".
Definition LOGIN_FAILED_PREFIX : string := "olt_login_failed:".
Definition _SLOT_NAMESPACE : string := "olt-ssh-slot".
Definition _INTENT_NAMESPACE : string := "olt-ssh-intent".
Definition _MAX_SLOTS : Z := 8.

Inductive Priority : Type := WRITE | INTERACTIVE | BACKGROUND.

#[export] Instance Priority_eq_dec : EqDecision Priority.
Proof. solve_decision. Defined.

(** What a call raises; [Other] is an exception of the store or of the clock. *)
Inductive limiter_exn : Type :=
  | DeviceBusy (message : string)
  | TypeError (message : string)
  | OverflowError
  | Other (name : string).

(** ** The store of locks *)

(** A store is a session of its owner in state shared by all of them. *)
Class LockStore (St : Type) : Type := {
  try_lock : N → Z → ST St string bool;
  unlock : N → Z → ST St string unit;
  try_lock_shared : N → Z → ST St string bool;
  unlock_shared : N → Z → ST St string unit;
  close : N → ST St string unit;
}.

(** ** Keys *)

(** [hashlib.blake2b(text, digest_size=8)]. *)
Class Blake2b : Type := blake2b_8 : string → list Z.

(** [int.from_bytes(digest, "big", signed=True)]. *)
Definition int_from_bytes (digest : list Z) : Z :=
  let n := fold_left (λ acc byte, 256 * acc + byte) digest 0 in
  match digest with
  | first :: _ => if 128 <=? first then n - 256 ^ Z.of_nat (length digest) else n
  | [] => n
  end.

Definition _signed_key `{Blake2b} (namespace device_key : string) (index : option Z) : Z :=
  let label := namespace +:+ ":" +:+ device_key
    +:+ match index with Some index => ":" +:+ pretty index | None => "" end in
  int_from_bytes (blake2b_8 label).

Definition slot_key `{Blake2b} (device_key : string) (index : Z) : Z :=
  _signed_key _SLOT_NAMESPACE device_key (Some index).
Definition intent_key `{Blake2b} (device_key : string) : Z := _signed_key _INTENT_NAMESPACE device_key None.

(** ** Messages *)

Definition busy_message (detail : string) : string := BUSY_PREFIX +:+ " " +:+ detail.
Definition is_busy_message (text : string) : bool := str_contains BUSY_PREFIX text.
Definition login_failed_message (detail : string) : string := LOGIN_FAILED_PREFIX +:+ " " +:+ detail.
Definition is_login_failed_message (text : string) : bool := str_contains LOGIN_FAILED_PREFIX text.

Definition search_ignoring_case (pattern text : string) : bool := str_contains (str_lower pattern) (str_lower text).

(** [\w], of ASCII. *)
Definition is_word (c : ascii) : bool :=
  let n := N_of_ascii c in
  ((48 <=? n) && (n <=? 57) || (65 <=? n) && (n <=? 90) || (97 <=? n) && (n <=? 122) || (n =? 95))%N.

(** Is the next character of a text one of a word? *)
Definition word_ahead (text : string) : bool := match text with String c _ => is_word c | EmptyString => false end.

(** [re.search(r"\bWORD\b", text)], [before] being whether a character of a word
    comes before the text. *)
Fixpoint search_word (word : string) (before : bool) (text : string) : bool :=
  (startswith word text && negb before && negb (word_ahead (str_drop (String.length word) text)))
  || match text with EmptyString => false | String c rest => search_word word (is_word c) rest end.

Definition is_login_refusal_message (text : string) : bool :=
  search_ignoring_case "transport shut down or saw EOF" text
  || search_ignoring_case "Error reading SSH protocol banner" text
  || (search_ignoring_case "Errno 104" text || search_ignoring_case "Connection reset by peer" text)
  || search_ignoring_case "No existing session" text
  || search_ignoring_case "Authentication timeout" text
  || search_word "EOFError" false text.

Definition is_auth_rejected_message (text : string) : bool :=
  str_contains "authentication failed" (str_lower text) || str_contains "auth_rejected" (str_lower text).

(** ** Limits *)

Record Limits : Type := MkLimits {
  session_slots : Z;
  reserved_priority_slots : Z;
  release_grace_seconds : spec_float;
  relogin_grace_seconds : spec_float;
  max_reopens_per_scope : Z;
  write_max_logins : Z;
}.

Record LimiterConfig : Type := MkLimiterConfig {
  wait_write_seconds : Z;
  wait_interactive_seconds : Z;
  work_reserve_seconds : spec_float;
}.

Definition limit_for (limits : Limits) (host_max : option Z) : Z :=
  let value := session_slots limits in
  let value := match host_max with Some host_max => Z.min value host_max | None => value end in
  Z.max 1 (Z.min value _MAX_SLOTS).

Definition reserved_for (limits : Limits) (limit : Z) : Z :=
  Z.max 0 (Z.min (reserved_priority_slots limits) (limit - 1)).

(** [range(n)]. *)
Definition range (n : Z) : list Z := seqZ 0 n.

Definition slot_order (priority : Priority) (limit reserved : Z) : list Z :=
  match priority with
  | BACKGROUND => range (Z.max 1 (limit - reserved))
  | WRITE => reverse (range limit)
  | INTERACTIVE => range limit
  end.

Definition wait_budget (config : LimiterConfig) (priority : Priority) (now : spec_float)
    (deadline : option spec_float) (nested : bool) : result limiter_exn spec_float :=
  if nested || bool_decide (priority = BACKGROUND) then Ok float_zero
  else
    match float_of_int (match priority with
                        | WRITE => wait_write_seconds config
                        | _ => wait_interactive_seconds config
                        end) with
    | None => Raise OverflowError
    | Some budget =>
        Ok (match deadline with
            | Some deadline =>
                py_min budget (py_max float_zero (float_sub (float_sub deadline now) (work_reserve_seconds config)))
            | None => budget
            end)
    end.

(** ** Acquisition *)

Record SlotLease : Type := MkSlotLease {
  _store : option N;
  _key : Z;
  lease_device : string;
  slot_index : Z;
  wait_seconds : spec_float;
}.

(** A call of [acquire_slot] as it runs: the shared locks, how often it read the
    clock and left the others time to act, and how long it slept. *)
Record Calling (St : Type) : Type := MkCalling {
  locks : St;
  readings : nat;
  moves : nat;
  slept : list spec_float;
}.
Arguments MkCalling {St} locks readings moves slept.
Arguments locks {St} c.
Arguments readings {St} c.
Arguments moves {St} c.
Arguments slept {St} c.

(** What surrounds a call: what the other owners do to the locks before its
    [n]-th use of the store or during its [n]-th move asleep, the [n]-th reading
    of [clock.monotonic()], what [jitter] draws, and what [clock.sleep] raises. *)
Class Surroundings (St : Type) : Type := {
  interference : nat → St → St;
  monotonic : nat → spec_float;
  jitter : nat → spec_float → spec_float → spec_float;
  sleep_raises : nat → option string;
}.

Section acquire.
Context {St : Type} `{LockStore St} `{Surroundings St} `{Blake2b}.

Definition others_move (c : Calling St) : Calling St :=
  MkCalling (interference (moves c) (locks c)) (readings c) (S (moves c)) (slept c).

(** A call of the store. *)
Definition store_call {A} (f : ST St string A) : ST (Calling St) limiter_exn A := λ c,
  let c := others_move c in
  let '(r, st) := f (locks c) in
  (match r with Ok a => Ok a | Raise name => Raise (Other name) end,
   MkCalling st (readings c) (moves c) (slept c)).

Definition clock_monotonic : ST (Calling St) limiter_exn spec_float := λ c,
  (Ok (monotonic (readings c)), MkCalling (locks c) (S (readings c)) (moves c) (slept c)).

Definition clock_sleep (seconds : spec_float) : ST (Calling St) limiter_exn unit := λ c,
  let n := length (slept c) in
  let c := others_move c in
  (match sleep_raises n with Some name => Raise (Other name) | None => Ok tt end,
   MkCalling (locks c) (readings c) (moves c) (slept c ++ [seconds])).

Definition draw_jitter (low high : spec_float) : ST (Calling St) limiter_exn spec_float :=
  gets (λ c, jitter (length (slept c)) low high).

(** The first slot of an order whose lock is free. *)
Fixpoint scan (owner : N) (device_key : string) (order : list Z) : ST (Calling St) limiter_exn (option Z) :=
  match order with
  | [] => mret None
  | index :: order =>
      locked ← store_call (try_lock owner (slot_key device_key index));
      if (locked : bool) then mret (Some index) else scan owner device_key order
  end.

(** [while True], to a number of rounds; [None] when they are over. *)
Fixpoint acquire_loop (rounds : nat) (owner : N) (device_key : string) (limit : Z) (priority : Priority)
    (order : list Z) (started deadline : spec_float) (intent_held : bool)
    : ST (Calling St) limiter_exn (option SlotLease) :=
  match rounds with
  | O => mret None
  | S rounds =>
      let intent := intent_key device_key in
      found ← scan owner device_key order;
      match found with
      | Some index =>
          _ ← (if intent_held then store_call (unlock_shared owner intent) else mret tt);
          now ← clock_monotonic;
          mret (Some (MkSlotLease (Some owner) (slot_key device_key index) device_key index (float_sub now started)))
      | None =>
          now ← clock_monotonic;
          let remaining := float_sub deadline now in
          if SFleb remaining float_zero then
            raise (DeviceBusy (busy_message ("all " +:+ pretty limit
              +:+ " session slot(s) for this device are in use")))
          else
            intent_held ← (if negb (bool_decide (priority = BACKGROUND)) && negb intent_held
                           then store_call (try_lock_shared owner intent) else mret intent_held);
            drawn ← draw_jitter float_half float_three_halves;
            _ ← clock_sleep (py_min drawn remaining);
            acquire_loop rounds owner device_key limit priority order started deadline intent_held
      end
  end.

(** The check that nobody of a higher priority is waiting. *)
Definition yield_to_waiters (owner : N) (device_key : string) : ST (Calling St) limiter_exn unit :=
  let intent := intent_key device_key in
  free ← store_call (try_lock owner intent);
  if negb free then raise (DeviceBusy (busy_message "a higher-priority request is waiting for a slot"))
  else store_call (unlock owner intent).

Definition acquire_from (rounds : nat) (owner : N) (device_key : string) (limit reserved : Z)
    (priority : Priority) (wait_seconds started : spec_float) : ST (Calling St) limiter_exn (option SlotLease) :=
  _ ← (if bool_decide (priority = BACKGROUND) then yield_to_waiters owner device_key else mret tt);
  let wait_seconds := if bool_decide (priority = BACKGROUND) then float_zero else wait_seconds in
  let deadline := float_add started (py_max float_zero wait_seconds) in
  acquire_loop rounds owner device_key limit priority (slot_order priority limit reserved) started deadline false.

(** [try: ... except BaseException: close; raise]. *)
Definition closing_on_failure {A} (owner : N) (body : ST (Calling St) limiter_exn A)
    : ST (Calling St) limiter_exn A := λ c,
  match body c with
  | (Ok a, c) => (Ok a, c)
  | (Raise e, c) => (Raise e, (store_call (close owner) c).2)
  end.

(** [store_factory()], and the refusal when it fails. *)
Definition open_store (store_factory : ST St string N) : ST (Calling St) limiter_exn N := λ c,
  match store_call store_factory c with
  | (Ok owner, c) => (Ok owner, c)
  | (Raise _, c) => (Raise (DeviceBusy (busy_message "session limiter store unavailable")), c)
  end.

Definition acquire_slot (rounds : nat) (store_factory : option (ST St string N)) (device_key : string)
    (limit reserved : Z) (priority : Priority) (wait_seconds : spec_float)
    : ST (Calling St) limiter_exn (option SlotLease) :=
  match store_factory with
  | None => raise (TypeError "a store factory is required; the limiter never no-ops silently")
  | Some store_factory =>
      started ← clock_monotonic;
      owner ← open_store store_factory;
      closing_on_failure owner
        (acquire_from rounds owner device_key limit reserved priority wait_seconds started)
  end.

(** [SlotLease.release]: the lease forgets its store first, and whatever the
    store raises is dropped. *)
Definition release (lease : SlotLease) : ST (Calling St) limiter_exn SlotLease := λ c,
  let released := MkSlotLease None (_key lease) (lease_device lease) (slot_index lease) (wait_seconds lease) in
  match _store lease with
  | None => (Ok released, c)
  | Some owner =>
      let c := (store_call (unlock owner (_key lease)) c).2 in
      (Ok released, (store_call (close owner) c).2)
  end.
Definition released (lease : SlotLease) : bool := match _store lease with None => true | Some _ => false end.
End acquire.
