(* ===== verification/DeviceLocks.v ===== *)
(** * Advisory locks

    What the limiter relies on in a store of locks ([LockLaws]), and the store in
    memory of [packages/dotmac-device-cli/src/dotmac_device_cli/testing.py], which
    keeps it. *)

From S2P Require Import Prelude PyData DeviceLimiter.
From stdpp Require Import base gmap strings list.
From Stdlib Require Import ZArith NArith Lia.

Inductive Mode : Type := Exclusive | Shared.

#[export] Instance Mode_eq_dec : EqDecision Mode.
Proof. solve_decision. Defined.

(** ** The contract of a store *)

(** What an owner can ask of a store. *)
Inductive operation : Type :=
  | OpTryLock (k : Z) | OpUnlock (k : Z) | OpTryLockShared (k : Z) | OpUnlockShared (k : Z) | OpClose.

(** The state that an operation leaves, whatever it answers. *)
Definition perform {St} `{LockStore St} (o : N) (op : operation) (st : St) : St :=
  match op with
  | OpTryLock k => (try_lock o k st).2
  | OpUnlock k => (unlock o k st).2
  | OpTryLockShared k => (try_lock_shared o k st).2
  | OpUnlockShared k => (unlock_shared o k st).2
  | OpClose => (close o st).2
  end.

Section contract.
Context {St : Type} `{LockStore St}.
Variable holds : St → Mode → N → Z → Prop.
Variable valid : St → Prop.
Variable known : St → N → Prop.

(** The locks of the others are as they were, and the owner gained none. *)
Definition only_loses (o : N) (st st' : St) : Prop :=
  (∀ m o' k, o' ≠ o → holds st' m o' k ↔ holds st m o' k) ∧ (∀ m k, holds st' m o k → holds st m o k).

Definition same_locks (st st' : St) : Prop := ∀ m o k, holds st' m o k ↔ holds st m o k.

Definition gains (m : Mode) (o : N) (k : Z) (st st' : St) : Prop :=
  ∀ m' o' k', holds st' m' o' k' ↔ holds st m' o' k' ∨ (m' = m ∧ o' = o ∧ k' = k).

Definition drops (m : Mode) (o : N) (k : Z) (st st' : St) : Prop :=
  ∀ m' o' k', holds st' m' o' k' ↔ holds st m' o' k' ∧ ¬ (m' = m ∧ o' = o ∧ k' = k).

(** Nobody else holds the key: at all, or exclusively. *)
Definition free_for (o : N) (k : Z) (st : St) : Prop := ∀ m o', holds st m o' k → o' = o.
Definition sharable_for (o : N) (k : Z) (st : St) : Prop := ∀ o', holds st Exclusive o' k → o' = o.

(** An owner of a valid state that was given a store. *)
Definition ready (o : N) (st : St) : Prop := valid st ∧ known st o.

(** In a valid state an exclusive lock is one owner's. A lock is given when
    nobody else stands in the way, and only then; an exception gives none; and
    closing a store gives up what it holds. *)
Record lock_laws : Prop := {
  valid_excludes st m o o' k : valid st → holds st Exclusive o k → holds st m o' k → o = o';
  perform_ready o o' op st : ready o st → ready o' st → ready o' (perform o op st);
  try_lock_given o k st st' :
    ready o st → try_lock o k st = (Ok true, st') → free_for o k st ∧ gains Exclusive o k st st';
  try_lock_refused o k st st' :
    ready o st → try_lock o k st = (Ok false, st') → ¬ free_for o k st ∧ same_locks st st';
  try_lock_raises o k st e st' : ready o st → try_lock o k st = (Raise e, st') → only_loses o st st';
  try_shared_given o k st st' :
    ready o st → try_lock_shared o k st = (Ok true, st') → sharable_for o k st ∧ gains Shared o k st st';
  try_shared_refused o k st st' :
    ready o st → try_lock_shared o k st = (Ok false, st') → ¬ sharable_for o k st ∧ same_locks st st';
  try_shared_raises o k st e st' : ready o st → try_lock_shared o k st = (Raise e, st') → only_loses o st st';
  unlock_drops o k st st' : ready o st → unlock o k st = (Ok tt, st') → drops Exclusive o k st st';
  unlock_raises o k st e st' : ready o st → unlock o k st = (Raise e, st') → only_loses o st st';
  unlock_shared_drops o k st st' : ready o st → unlock_shared o k st = (Ok tt, st') → drops Shared o k st st';
  unlock_shared_raises o k st e st' : ready o st → unlock_shared o k st = (Raise e, st') → only_loses o st st';
  close_only_loses o st r st' : ready o st → close o st = (r, st') → only_loses o st st';
  close_frees o st st' : ready o st → close o st = (Ok tt, st') → ∀ m k, ¬ holds st' m o k;
}.

(** A factory opens a store that holds nothing yet, and changes no lock. *)
Definition opens (factory : ST St string N) : Prop :=
  ∀ st r st', valid st → factory st = (r, st') →
    same_locks st st' ∧ match r with Ok o => ready o st' ∧ ∀ m k, ¬ holds st' m o k | Raise _ => valid st' end.
End contract.

(** [LockLaws]: a store with its holders, the states it can be in and the owners
    it was opened for. *)
Class LockLaws (St : Type) `{LockStore St} : Type := {
  holds : St → Mode → N → Z → Prop;
  valid : St → Prop;
  known : St → N → Prop;
  laws : lock_laws holds valid known;
}.

(** ** The store in memory *)

Record InMemoryLockBackend : Type := MkBackend {
  _exclusive : gmap Z N;
  _shared : gmap Z (gset N);
  _next_owner : N;
}.

Definition empty_backend : InMemoryLockBackend := MkBackend ∅ ∅ 0.

(** [InMemoryLockBackend.store]. *)
Definition backend_store : ST InMemoryLockBackend string N := λ b,
  let owner := (_next_owner b + 1)%N in (Ok owner, MkBackend (_exclusive b) (_shared b) owner).

Definition shared_owners (b : InMemoryLockBackend) (key : Z) : gset N := default ∅ (_shared b !! key).

Definition held_exclusive (b : InMemoryLockBackend) : gset Z := dom (_exclusive b).

(** [holder is not None and holder != self._owner]. *)
Definition held_by_other (b : InMemoryLockBackend) (owner : N) (key : Z) : bool :=
  match _exclusive b !! key with Some holder => negb (bool_decide (holder = owner)) | None => false end.

Definition backend_try_lock (owner : N) (key : Z) : ST InMemoryLockBackend string bool := λ b,
  if held_by_other b owner key || negb (bool_decide (shared_owners b key ∖ {[owner]} = ∅)) then (Ok false, b)
  else (Ok true, MkBackend (<[key := owner]> (_exclusive b)) (_shared b) (_next_owner b)).

Definition backend_unlock (owner : N) (key : Z) : ST InMemoryLockBackend string unit := λ b,
  if bool_decide (_exclusive b !! key = Some owner)
  then (Ok tt, MkBackend (delete key (_exclusive b)) (_shared b) (_next_owner b))
  else (Ok tt, b).

Definition backend_try_lock_shared (owner : N) (key : Z) : ST InMemoryLockBackend string bool := λ b,
  if held_by_other b owner key then (Ok false, b)
  else (Ok true, MkBackend (_exclusive b) (<[key := shared_owners b key ∪ {[owner]}]> (_shared b)) (_next_owner b)).

Definition backend_unlock_shared (owner : N) (key : Z) : ST InMemoryLockBackend string unit := λ b,
  (Ok tt, MkBackend (_exclusive b) (alter (λ owners, owners ∖ {[owner]}) key (_shared b)) (_next_owner b)).

Definition backend_close (owner : N) : ST InMemoryLockBackend string unit := λ b,
  (Ok tt, MkBackend (filter (λ kv, kv.2 ≠ owner) (_exclusive b)) ((λ owners, owners ∖ {[owner]}) <$> _shared b)
            (_next_owner b)).
#[export] Instance InMemoryLockStore : LockStore InMemoryLockBackend := {|
  try_lock := backend_try_lock;
  unlock := backend_unlock;
  try_lock_shared := backend_try_lock_shared;
  unlock_shared := backend_unlock_shared;
  close := backend_close;
|}.

Definition backend_holds (b : InMemoryLockBackend) (m : Mode) (o : N) (k : Z) : Prop :=
  match m with Exclusive => _exclusive b !! k = Some o | Shared => o ∈ shared_owners b k end.

(** Owners are numbered as they come, and a key held exclusively is shared by
    nobody else. *)
Definition backend_valid (b : InMemoryLockBackend) : Prop :=
  (∀ m o k, backend_holds b m o k → (o <= _next_owner b)%N) ∧
  (∀ o o' k, backend_holds b Exclusive o k → backend_holds b Shared o' k → o = o').

Lemma held_by_other_false b o k : held_by_other b o k = false ↔ ∀ o', _exclusive b !! k = Some o' → o' = o.
Proof.
  unfold held_by_other. destruct (_exclusive b !! k) as [h|]; [|naive_solver].
  rewrite negb_false_iff, bool_decide_eq_true. naive_solver.
Qed.

Lemma shared_owners_insert b o k k' :
  shared_owners (MkBackend (_exclusive b) (<[k := shared_owners b k ∪ {[o]}]> (_shared b)) (_next_owner b)) k' =
    if decide (k' = k) then shared_owners b k ∪ {[o]} else shared_owners b k'.
Proof.
  unfold shared_owners at 1. cbn [_shared]. destruct (decide (k' = k)) as [->|Hne].
  - by rewrite lookup_insert_eq.
  - by rewrite lookup_insert_ne.
Qed.

Lemma backend_gains_exclusive b o k : held_by_other b o k = false →
  gains backend_holds Exclusive o k b (MkBackend (<[k := o]> (_exclusive b)) (_shared b) (_next_owner b)).
Proof.
  rewrite held_by_other_false. intros Hk [] o' k'; cbn [backend_holds _exclusive]; [|naive_solver].
  destruct (decide (k' = k)) as [->|Hne].
  - rewrite lookup_insert_eq. naive_solver.
  - rewrite lookup_insert_ne by done. naive_solver.
Qed.

Lemma backend_gains_shared b o k :
  gains backend_holds Shared o k b
    (MkBackend (_exclusive b) (<[k := shared_owners b k ∪ {[o]}]> (_shared b)) (_next_owner b)).
Proof.
  intros [] o' k'; cbn [backend_holds]; [naive_solver|]. rewrite shared_owners_insert. case_decide; set_solver.
Qed.

Lemma backend_drops_exclusive b o k r b' : backend_unlock o k b = (r, b') → drops backend_holds Exclusive o k b b'.
Proof.
  unfold backend_unlock. case_bool_decide as E; intros [= _ <-] [] o' k'; cbn [backend_holds _exclusive]; try naive_solver.
  destruct (decide (k' = k)) as [->|Hne]; [rewrite lookup_delete_eq|rewrite lookup_delete_ne by done]; naive_solver.
Qed.

Lemma backend_drops_shared b o k :
  drops backend_holds Shared o k b (backend_unlock_shared o k b).2.
Proof.
  intros [] o' k'; cbn; [naive_solver|]. unfold shared_owners. cbn [_shared].
  destruct (decide (k' = k)) as [->|Hne].
  - rewrite lookup_alter_eq. destruct (_shared b !! k); cbn; set_solver.
  - rewrite lookup_alter_ne by done. naive_solver.
Qed.

Lemma backend_close_holds b o m o' k :
  backend_holds (backend_close o b).2 m o' k ↔ backend_holds b m o' k ∧ o' ≠ o.
Proof.
  destruct m; cbn.
  - rewrite map_lookup_filter_Some. naive_solver.
  - unfold shared_owners. cbn [_shared]. rewrite lookup_fmap. destruct (_shared b !! k); cbn; set_solver.
Qed.

Definition backend_known (b : InMemoryLockBackend) (o : N) : Prop := (o <= _next_owner b)%N.

Abbreviation backend_ready := (ready backend_valid backend_known).

(** Losing locks leaves a backend valid. *)
Lemma backend_valid_less b b' : backend_valid b → _next_owner b' = _next_owner b →
  (∀ m o k, backend_holds b' m o k → backend_holds b m o k) → backend_valid b'.
Proof. intros [H1 H2] Hn Hless. split; [rewrite Hn|]; eauto. Qed.

Lemma backend_valid_gain b b' m o k : backend_ready o b → _next_owner b' = _next_owner b →
  gains backend_holds m o k b b' →
  match m with Exclusive => free_for backend_holds o k b | Shared => sharable_for backend_holds o k b end →
  backend_valid b'.
Proof.
  intros [[H1 H2] Ho] Hn Hg Hf. unfold backend_known in Ho. split.
  - intros m' o' k' [Hh|(-> & -> & ->)]%Hg; rewrite Hn; [by eapply H1|done].
  - intros o1 o2 k' [He|(<- & -> & ->)]%Hg [Hs|(Hm & -> & Hk)]%Hg; [by eapply H2| | |done].
    + rewrite Hk in He. rewrite <-Hm in Hf. by apply Hf.
    + symmetry. by apply (Hf Shared).
Qed.

Lemma backend_try_lock_spec b o k r b' : backend_try_lock o k b = (r, b') →
  _next_owner b' = _next_owner b ∧
  ((r = Ok true ∧ free_for backend_holds o k b ∧ gains backend_holds Exclusive o k b b') ∨
   (r = Ok false ∧ ¬ free_for backend_holds o k b ∧ b' = b)).
Proof.
  unfold backend_try_lock. destruct (_ || _) eqn:E; intros [= <- <-]; (split; [done|]); [right|left]; (split; [done|]).
  - split; [|done]. intros Hf. apply orb_true_iff in E as [E|E].
    + apply not_false_iff_true in E. apply E, held_by_other_false. intros o'. apply (Hf Exclusive).
    + apply negb_true_iff, bool_decide_eq_false in E. apply E. apply elem_of_equiv_empty_L. intros o' [Ho' Hne]%elem_of_difference.
      apply Hne, elem_of_singleton, (Hf Shared), Ho'.
  - apply orb_false_iff in E as [E1 E2]. split; [|by apply backend_gains_exclusive].
    intros [] o' Hh; [by eapply held_by_other_false|].
    apply negb_false_iff, bool_decide_eq_true in E2. cbn in Hh. destruct (decide (o' = o)); [done|set_solver].
Qed.

Lemma backend_try_shared_spec b o k r b' : backend_try_lock_shared o k b = (r, b') →
  _next_owner b' = _next_owner b ∧
  ((r = Ok true ∧ sharable_for backend_holds o k b ∧ gains backend_holds Shared o k b b') ∨
   (r = Ok false ∧ ¬ sharable_for backend_holds o k b ∧ b' = b)).
Proof.
  unfold backend_try_lock_shared. destruct (held_by_other b o k) eqn:E; intros [= <- <-]; (split; [done|]); [right|left]; (split; [done|]).
  - split; [|done]. intros Hf. apply not_false_iff_true in E. by apply E, held_by_other_false.
  - split; [exact (proj1 (held_by_other_false b o k) E)|apply backend_gains_shared].
Qed.

Lemma backend_perform b o op :
  _next_owner (perform o op b) = _next_owner b ∧ (backend_ready o b → backend_valid (perform o op b)).
Proof.
  assert (Hless : ∀ b', _next_owner b' = _next_owner b → (∀ m o k, backend_holds b' m o k → backend_holds b m o k) →
    _next_owner b' = _next_owner b ∧ (backend_ready o b → backend_valid b')).
  { intros b' Hn Hh. split; [done|]. intros [Hv _]. by eapply backend_valid_less. }
  destruct op as [k|k|k|k|]; cbn [perform try_lock unlock try_lock_shared unlock_shared close InMemoryLockStore].
  - destruct (backend_try_lock o k b) as [r b'] eqn:E. cbn [snd].
    destruct (backend_try_lock_spec _ _ _ _ _ E) as [Hn [(_ & Hf & Hg)|(_ & _ & ->)]]; (split; [done|]).
    + intros Hr. by apply (backend_valid_gain b b' Exclusive o k).
    + by intros [Hv _].
  - apply Hless; [unfold backend_unlock; by case_bool_decide|]. intros m' o' k' Hh.
    destruct (backend_unlock o k b) as [r b'] eqn:E. by apply (backend_drops_exclusive _ _ _ _ _ E) in Hh as [Hh _].
  - destruct (backend_try_lock_shared o k b) as [r b'] eqn:E. cbn [snd].
    destruct (backend_try_shared_spec _ _ _ _ _ E) as [Hn [(_ & Hf & Hg)|(_ & _ & ->)]]; (split; [done|]).
    + intros Hr. by apply (backend_valid_gain b b' Shared o k).
    + by intros [Hv _].
  - apply Hless; [done|]. intros m' o' k' Hh. by apply backend_drops_shared in Hh as [Hh _].
  - apply Hless; [done|]. intros m' o' k' Hh. by apply backend_close_holds in Hh as [Hh _].
Qed.

(** The store in memory keeps the contract. *)
Lemma backend_laws : lock_laws backend_holds backend_valid backend_known.
Proof.
  split.
  - intros b [] o o' k [H1 H2] He Hh; [cbn in *; congruence|by eapply H2].
  - intros o o' op b Hr [Hv Hk]. destruct (backend_perform b o op) as [Hn Hp].
    split; [by apply Hp|]. unfold backend_known in *. by rewrite Hn.
  - intros o k b b' _ [_ [(_ & Hf & Hg)|(? & _)]]%backend_try_lock_spec; done.
  - intros o k b b' _ [_ [(? & _)|(_ & Hf & ->)]]%backend_try_lock_spec; [done|]. by split.
  - intros o k b e b' _ [_ [(? & _)|(? & _)]]%backend_try_lock_spec; done.
  - intros o k b b' _ [_ [(_ & Hf & Hg)|(? & _)]]%backend_try_shared_spec; done.
  - intros o k b b' _ [_ [(? & _)|(_ & Hf & ->)]]%backend_try_shared_spec; [done|]. by split.
  - intros o k b e b' _ [_ [(? & _)|(? & _)]]%backend_try_shared_spec; done.
  - intros o k b b' _. apply backend_drops_exclusive.
  - intros o k b e b' _. cbn. unfold backend_unlock. by case_bool_decide.
  - intros o k b b' _ [= <-]. apply backend_drops_shared.
  - done.
  - intros o b r b' _ [= _ <-]. split; intros *; [intros Hne|]; rewrite (backend_close_holds b o); naive_solver.
  - intros o b b' _ [= <-] m k. rewrite (backend_close_holds b o). naive_solver.
Qed.

#[export] Instance InMemoryLockLaws : LockLaws InMemoryLockBackend :=
  {| holds := backend_holds; valid := backend_valid; known := backend_known; laws := backend_laws |}.

Lemma backend_opens : opens holds valid known backend_store.
Proof.
  intros b r b' [H1 H2] [= <- <-]. split; [done|]. split; [split; [split|]|].
  - intros m o k Hh. specialize (H1 m o k Hh). cbn. lia.
  - exact H2.
  - unfold known, InMemoryLockLaws, backend_known. cbn. lia.
  - intros m k Hh. specialize (H1 m _ k Hh). lia.
Qed.

Lemma empty_backend_valid : valid empty_backend.
Proof. split; [intros [] o k|intros o o' k]; cbn; rewrite ?lookup_empty; set_solver. Qed.
