(* ===== verification/DeviceAcquire.v ===== *)
(** * What an acquisition holds

    The calls of [acquire_slot] against the contract of a store, whatever the
    other owners do between them. *)

From S2P Require Import Prelude PyData DeviceLimiter DeviceLocks.
From stdpp Require Import base strings pretty list relations.
From Stdlib Require Import ZArith NArith SpecFloat Lia.

Section acquire.
Context {St : Type} `{LockStore St} {L : LockLaws St} `{Surroundings St} `{Blake2b}.
Implicit Types c : Calling St.

Abbreviation ready := (ready valid known).

(** The others leave an owner's locks alone. *)
Definition leaves_alone (o : N) (f : St → St) : Prop :=
  ∀ st, ready o st → ready o (f st) ∧ ∀ m k, holds (f st) m o k ↔ holds st m o k.

Definition polite (o : N) : Prop := ∀ n, leaves_alone o (interference n).

(** What the other owners ask of the store leaves an owner's locks alone. *)
Lemma perform_leaves_alone o o' op st : o' ≠ o → ready o' st → ready o st →
  ready o (perform o' op st) ∧ ∀ m k, holds (perform o' op st) m o k ↔ holds st m o k.
Proof.
  intros Hne Ho' Ho. split; [by apply (perform_ready _ _ _ laws)|]. intros m k.
  destruct op as [x|x|x|x|]; cbn [perform].
  - destruct (try_lock o' x st) as [[[]|e] st'] eqn:E; cbn.
    + apply (try_lock_given _ _ _ laws) in E as [_ E]; [|done]. rewrite (E m o k). naive_solver.
    + apply (try_lock_refused _ _ _ laws) in E as [_ E]; [|done]. apply E.
    + apply (try_lock_raises _ _ _ laws) in E as [E _]; [|done]. by apply E.
  - destruct (unlock o' x st) as [[[]|e] st'] eqn:E; cbn.
    + apply (unlock_drops _ _ _ laws) in E; [|done]. rewrite (E m o k). naive_solver.
    + apply (unlock_raises _ _ _ laws) in E as [E _]; [|done]. by apply E.
  - destruct (try_lock_shared o' x st) as [[[]|e] st'] eqn:E; cbn.
    + apply (try_shared_given _ _ _ laws) in E as [_ E]; [|done]. rewrite (E m o k). naive_solver.
    + apply (try_shared_refused _ _ _ laws) in E as [_ E]; [|done]. apply E.
    + apply (try_shared_raises _ _ _ laws) in E as [E _]; [|done]. by apply E.
  - destruct (unlock_shared o' x st) as [[[]|e] st'] eqn:E; cbn.
    + apply (unlock_shared_drops _ _ _ laws) in E; [|done]. rewrite (E m o k). naive_solver.
    + apply (unlock_shared_raises _ _ _ laws) in E as [E _]; [|done]. by apply E.
  - destruct (close o' st) as [r st'] eqn:E. apply (close_only_loses _ _ _ laws) in E as [E _]; [|done]. by apply E.
Qed.

(** ** The locks of a call *)

Definition no_locks : Mode → Z → Prop := λ _ _, False.
Definition and_lock (mine : Mode → Z → Prop) (m : Mode) (k : Z) : Mode → Z → Prop :=
  λ m' k', mine m' k' ∨ (m' = m ∧ k' = k).
Definition one_lock (m : Mode) (k : Z) : Mode → Z → Prop := and_lock no_locks m k.

(** The owner holds these locks and no others. *)
Definition owns (o : N) (mine : Mode → Z → Prop) c : Prop :=
  ready o (locks c) ∧ ∀ m k, holds (locks c) m o k ↔ mine m k.

Section owner.
Variable o : N.
Hypothesis Hpolite : polite o.

Lemma owns_ext mine mine' c : (∀ m k, mine m k ↔ mine' m k) → owns o mine c → owns o mine' c.
Proof. intros E [Hr Hh]. split; [done|]. intros m k. by rewrite Hh. Qed.

Lemma others_move_owns mine c : owns o mine c → owns o mine (others_move c).
Proof.
  intros [Hr Hh]. destruct (Hpolite (moves c) (locks c) Hr) as [Hr' Hh']. split; [done|].
  intros m k. cbn. by rewrite Hh'.
Qed.

Lemma others_move_ready c : ready o (locks c) → ready o (locks (others_move c)).
Proof. intros Hr. by destruct (Hpolite (moves c) (locks c) Hr). Qed.

(** An operation of the owner, after the others have moved. *)
Lemma store_call_run {A} op (f : ST St string A) c r c' :
  (∀ st, perform o op st = (f st).2) → ready o (locks c) → store_call f c = (r, c') →
  ∃ r', f (locks (others_move c)) = (r', locks c') ∧ ready o (locks (others_move c)) ∧ ready o (locks c') ∧
    r = match r' with Ok a => Ok a | Raise name => Raise (Other name) end.
Proof.
  intros Hop Hr. unfold store_call. destruct (f _) as [r' st'] eqn:E. intros [= <- <-]. exists r'.
  pose proof (others_move_ready c Hr) as Hm. pose proof (perform_ready _ _ _ laws o o op _ Hm Hm) as Hp.
  rewrite Hop, E in Hp. by split_and!.
Qed.

Lemma try_lock_owns mine k c r c' : owns o mine c → store_call (try_lock o k) c = (r, c') →
  match r with
  | Ok true => owns o (and_lock mine Exclusive k) c'
  | Ok false => owns o mine c'
  | Raise _ => ready o (locks c')
  end.
Proof.
  intros Hown (r' & E & Hr & Hr' & ->)%(store_call_run (OpTryLock k)); [|done|by destruct Hown].
  apply others_move_owns in Hown as [_ Hh]. destruct r' as [[]|e]; [| |done]; (split; [done|]); intros m k'.
  - apply (try_lock_given _ _ _ laws) in E as [_ E]; [|done]. rewrite (E m o k'), Hh. unfold and_lock. naive_solver.
  - apply (try_lock_refused _ _ _ laws) in E as [_ E]; [|done]. by rewrite (E m o k').
Qed.

Lemma try_shared_owns mine k c r c' : owns o mine c → store_call (try_lock_shared o k) c = (r, c') →
  match r with
  | Ok true => owns o (and_lock mine Shared k) c'
  | Ok false => owns o mine c'
  | Raise _ => ready o (locks c')
  end.
Proof.
  intros Hown (r' & E & Hr & Hr' & ->)%(store_call_run (OpTryLockShared k)); [|done|by destruct Hown].
  apply others_move_owns in Hown as [_ Hh]. destruct r' as [[]|e]; [| |done]; (split; [done|]); intros m k'.
  - apply (try_shared_given _ _ _ laws) in E as [_ E]; [|done]. rewrite (E m o k'), Hh. unfold and_lock. naive_solver.
  - apply (try_shared_refused _ _ _ laws) in E as [_ E]; [|done]. by rewrite (E m o k').
Qed.

Lemma unlock_owns mine k c r c' : owns o mine c → store_call (unlock o k) c = (r, c') →
  match r with
  | Ok _ => owns o (λ m k', mine m k' ∧ ¬ (m = Exclusive ∧ k' = k)) c'
  | Raise _ => ready o (locks c')
  end.
Proof.
  intros Hown (r' & E & Hr & Hr' & ->)%(store_call_run (OpUnlock k)); [|done|by destruct Hown].
  apply others_move_owns in Hown as [_ Hh]. destruct r' as [[]|e]; [|done]. split; [done|]. intros m k'.
  apply (unlock_drops _ _ _ laws) in E; [|done]. rewrite (E m o k'), Hh. naive_solver.
Qed.

Lemma unlock_shared_owns mine k c r c' : owns o mine c → store_call (unlock_shared o k) c = (r, c') →
  match r with
  | Ok _ => owns o (λ m k', mine m k' ∧ ¬ (m = Shared ∧ k' = k)) c'
  | Raise _ => ready o (locks c')
  end.
Proof.
  intros Hown (r' & E & Hr & Hr' & ->)%(store_call_run (OpUnlockShared k)); [|done|by destruct Hown].
  apply others_move_owns in Hown as [_ Hh]. destruct r' as [[]|e]; [|done]. split; [done|]. intros m k'.
  apply (unlock_shared_drops _ _ _ laws) in E; [|done]. rewrite (E m o k'), Hh. naive_solver.
Qed.

Lemma close_owns c r c' : ready o (locks c) → store_call (close o) c = (r, c') →
  ready o (locks c') ∧ (r = Ok tt → owns o no_locks c').
Proof.
  intros Hc (r' & E & Hr & Hr' & ->)%(store_call_run OpClose); [|done..]. split; [done|].
  destruct r' as [[]|e]; [|done]. intros _. split; [done|]. intros m k.
  pose proof (close_frees _ _ _ laws _ _ _ Hr E m k). unfold no_locks. tauto.
Qed.

(** ** The rounds *)

Lemma scan_owns mine device_key order : ∀ c r c', owns o mine c → scan o device_key order c = (r, c') →
  match r with
  | Ok (Some index) => index ∈ order ∧ owns o (and_lock mine Exclusive (slot_key device_key index)) c'
  | Ok None => owns o mine c'
  | Raise _ => ready o (locks c')
  end.
Proof.
  induction order as [|i order IH]; intros c r c' Hown; cbn [scan]; [by intros [= <- <-]|].
  intros [(b & c1 & Ht & Hr)|(e & Ht & ->)]%ST_bind_run; [|exact (try_lock_owns _ _ _ _ _ Hown Ht)].
  apply (try_lock_owns _ _ _ _ _ Hown) in Ht. destruct b.
  - injection Hr as <- <-. split; [by left|done].
  - apply (IH c1 r c' Ht) in Hr. destruct r as [[index|]|e]; [|done..]. destruct Hr. split; [by right|done].
Qed.

(** What a call holds besides a slot. *)
Definition waiting (device_key : string) (intent_held : bool) : Mode → Z → Prop :=
  if intent_held then one_lock Shared (intent_key device_key) else no_locks.

(** The lease of a slot, its only lock. *)
Definition leased (device_key : string) (order : list Z) (lease : SlotLease) c : Prop :=
  _store lease = Some o ∧ lease_device lease = device_key ∧ slot_index lease ∈ order ∧
  _key lease = slot_key device_key (slot_index lease) ∧ owns o (one_lock Exclusive (_key lease)) c.

Lemma sleep_owns mine seconds c r c' : owns o mine c → clock_sleep seconds c = (r, c') → owns o mine c'.
Proof. intros Hown%others_move_owns [= _ <-]. exact Hown. Qed.

Lemma give_up_intent device_key index intent_held c r c' :
  owns o (and_lock (waiting device_key intent_held) Exclusive (slot_key device_key index)) c →
  (if intent_held then store_call (unlock_shared o (intent_key device_key)) else mret tt) c = (r, c') →
  match r with
  | Ok _ => owns o (one_lock Exclusive (slot_key device_key index)) c'
  | Raise _ => ready o (locks c')
  end.
Proof.
  intros Hown Hu. destruct intent_held; [|by injection Hu as <- <-].
  apply (unlock_shared_owns _ _ _ _ _ Hown) in Hu. destruct r as [u|e]; [|done].
  revert Hu. apply owns_ext. unfold one_lock, and_lock, waiting, no_locks. cbn. unfold one_lock, and_lock, no_locks. naive_solver.
Qed.

Lemma take_intent device_key priority intent_held c r c' : owns o (waiting device_key intent_held) c →
  (if negb (bool_decide (priority = BACKGROUND)) && negb intent_held
   then store_call (try_lock_shared o (intent_key device_key)) else mret intent_held) c = (r, c') →
  match r with Ok held => owns o (waiting device_key held) c' | Raise _ => ready o (locks c') end.
Proof.
  intros Hown Ht. destruct (negb (bool_decide _)); cbn [andb] in Ht; [|by injection Ht as <- <-].
  destruct intent_held; cbn [negb] in Ht; [by injection Ht as <- <-|].
  apply (try_shared_owns _ _ _ _ _ Hown) in Ht. by destruct r as [[]|e].
Qed.

Lemma loop_owns rounds device_key limit priority order started deadline : ∀ intent_held c r c',
  owns o (waiting device_key intent_held) c →
  acquire_loop rounds o device_key limit priority order started deadline intent_held c = (r, c') →
  ready o (locks c') ∧ ∀ lease, r = Ok (Some lease) → leased device_key order lease c'.
Proof.
  induction rounds as [|rounds IH]; intros held c r c' Hown; cbn [acquire_loop].
  { intros [= <- <-]. by destruct Hown. }
  intros [(found & c1 & Hs & Hr)|(e & Hs & ->)]%ST_bind_run; [|by apply (scan_owns _ _ _ _ _ _ Hown) in Hs].
  apply (scan_owns _ _ _ _ _ _ Hown) in Hs. destruct found as [index|].
  - destruct Hs as [Hi Hs].
    apply ST_bind_run in Hr as [(u & c2 & Hu & Hr)|(e & Hu & ->)]; [|by apply (give_up_intent _ _ _ _ _ _ Hs) in Hu].
    apply (give_up_intent _ _ _ _ _ _ Hs) in Hu. apply ST_bind_run in Hr as [(now & c3 & Hc & Hr)|(e & Hc & ->)]; [|done].
    injection Hc as <- <-. injection Hr as <- <-. split; [by destruct Hu|]. by intros lease [= <-].
  - apply ST_bind_run in Hr as [(now & c2 & Hc & Hr)|(e & Hc & ->)]; [|done]. injection Hc as <- <-.
    destruct (SFleb _ _); [injection Hr as <- <-; by destruct Hs|].
    apply ST_bind_run in Hr as [(held' & c3 & Ht & Hr)|(e & Ht & ->)]; [|split; [|done]].
    2: { by apply (take_intent _ _ _ (MkCalling _ _ _ _) _ _ Hs) in Ht. }
    apply (take_intent _ _ _ (MkCalling _ _ _ _) _ _ Hs) in Ht.
    apply ST_bind_run in Hr as [(drawn & c4 & Hj & Hr)|(e & Hj & ->)]; [|done]. injection Hj as <- <-.
    apply ST_bind_run in Hr as [(u & c5 & Hz & Hr)|(e & Hz & ->)]; apply (sleep_owns _ _ _ _ _ Ht) in Hz.
    + by apply IH in Hr.
    + split; [by destruct Hz|done].
Qed.

Lemma yield_owns device_key c u c' : owns o no_locks c → yield_to_waiters o device_key c = (Ok u, c') →
  owns o no_locks c'.
Proof.
  intros Hown (free & c1 & Ht & Hy)%ST_bind_Ok. apply (try_lock_owns _ _ _ _ _ Hown) in Ht. destruct free; [|done].
  apply (unlock_owns _ _ _ _ _ Ht) in Hy. revert Hy. apply owns_ext. unfold and_lock, no_locks. naive_solver.
Qed.

Lemma yield_ready device_key c e c' : owns o no_locks c → yield_to_waiters o device_key c = (Raise e, c') →
  ready o (locks c').
Proof.
  intros Hown [Ht|(free & c1 & Ht & Hy)]%ST_bind_Raise; [by apply (try_lock_owns _ _ _ _ _ Hown) in Ht|].
  apply (try_lock_owns _ _ _ _ _ Hown) in Ht. destruct free.
  - by apply (unlock_owns _ _ _ _ _ Ht) in Hy.
  - injection Hy as _ <-. by destruct Ht.
Qed.

Lemma from_owns rounds device_key limit reserved priority wait started c r c' :
  owns o no_locks c → acquire_from rounds o device_key limit reserved priority wait started c = (r, c') →
  ready o (locks c') ∧ ∀ lease, r = Ok (Some lease) → leased device_key (slot_order priority limit reserved) lease c'.
Proof.
  intros Hown. unfold acquire_from. intros [(u & c1 & Hy & Hr)|(e & Hy & ->)]%ST_bind_run.
  - apply (loop_owns _ _ _ _ _ _ _ false c1) in Hr; [done|]. case_bool_decide; [|by injection Hy as _ <-].
    by eapply yield_owns.
  - split; [|done]. case_bool_decide; [|done]. by eapply yield_ready.
Qed.

(** ** Rounds that find nothing *)

Lemma store_call_counts {A} (f : ST St string A) c r c' : store_call f c = (r, c') →
  readings c' = readings c ∧ moves c' = S (moves c).
Proof. unfold store_call. destruct (f _) as [r' st']. by intros [= <- <-]. Qed.

Lemma scan_counts device_key order : ∀ c r c', scan o device_key order c = (r, c') →
  readings c' = readings c ∧ (moves c ≤ moves c')%nat.
Proof.
  induction order as [|i order IH]; intros c r c'; cbn [scan]; [by intros [= _ <-]|].
  intros [(b & c1 & Ht%store_call_counts & Hr)|(e & Ht%store_call_counts & ->)]%ST_bind_run; [|lia].
  destruct b; [injection Hr as _ <-; lia|]. apply IH in Hr. lia.
Qed.

Lemma store_call_raises {A} (f : ST St string A) c e c' : store_call f c = (Raise e, c') → ∃ name, e = Other name.
Proof. unfold store_call. destruct (f _) as [[a|name] st']; intros [= <- _]. by exists name. Qed.

Lemma scan_raises device_key order : ∀ c e c', scan o device_key order c = (Raise e, c') → ∃ name, e = Other name.
Proof.
  induction order as [|i order IH]; intros c e c'; cbn [scan]; [done|].
  intros [Ht|(b & c1 & _ & Hr)]%ST_bind_Raise; [by apply store_call_raises in Ht|]. destruct b; [done|by apply IH in Hr].
Qed.

(** A scan of the call in which another owner was in the way of every slot, each
    when it was tried. *)
Fixpoint taken_in_turn (device_key : string) (order : list Z) c c' : Prop :=
  match order with
  | [] => c' = c
  | i :: order =>
      ¬ free_for holds o (slot_key device_key i) (locks (others_move c)) ∧
      ∃ c1, store_call (try_lock o (slot_key device_key i)) c = (Ok false, c1) ∧ taken_in_turn device_key order c1 c'
  end.

Lemma scan_none mine device_key order : ∀ c c', owns o mine c → scan o device_key order c = (Ok None, c') →
  taken_in_turn device_key order c c'.
Proof.
  induction order as [|i order IH]; intros c c' Hown; cbn [scan taken_in_turn]; [by intros [= ->]|].
  intros (b & c1 & Ht & Hr)%ST_bind_Ok. destruct b; [done|]. split.
  - destruct (store_call_run (OpTryLock (slot_key device_key i)) _ _ _ _ (λ _, eq_refl) (proj1 Hown) Ht) as (r' & E & Hr' & _ & Heq).
    destruct r'; [|done]. injection Heq as <-. by apply (try_lock_refused _ _ _ laws) in E as [E _].
  - exists c1. split; [done|]. apply (try_lock_owns _ _ _ _ _ Hown) in Ht. by eapply IH.
Qed.

(** The refusal of a full device. *)
Definition all_in_use (limit : Z) : limiter_exn :=
  DeviceBusy (busy_message ("all " +:+ pretty limit +:+ " session slot(s) for this device are in use")).

Definition deadline_passed (deadline : spec_float) (n : nat) : Prop :=
  SFleb (float_sub deadline (monotonic n)) float_zero = true.

(** A round of the call after which it waits: every slot was taken, the deadline
    had not passed, and it takes its intent and sleeps. *)
Definition waits_on (device_key : string) (priority : Priority) (order : list Z) (deadline : spec_float)
    (x y : bool * Calling St) : Prop :=
  ∃ c1 c2, taken_in_turn device_key order x.2 c1 ∧ ¬ deadline_passed deadline (readings c1) ∧
    (if negb (bool_decide (priority = BACKGROUND)) && negb x.1
     then store_call (try_lock_shared o (intent_key device_key)) else mret x.1) (clock_monotonic c1).2 = (Ok y.1, c2) ∧
    clock_sleep (py_min (jitter (length (slept c2)) float_half float_three_halves)
                   (float_sub deadline (monotonic (readings c1)))) c2 = (Ok tt, y.2).

(** The rounds of a call that gives up: it waits after each until, after one in
    which every slot was taken, the deadline has passed. *)
Definition gives_up (device_key : string) (priority : Priority) (order : list Z) (deadline : spec_float)
    (x : bool * Calling St) c' : Prop :=
  ∃ y c1, rtc (waits_on device_key priority order deadline) x y ∧ taken_in_turn device_key order y.2 c1 ∧
    deadline_passed deadline (readings c1) ∧ c' = (clock_monotonic c1).2.

(** When the clock passes the deadline, the loop ends within as many rounds as it
    reads the clock before. *)
Lemma loop_ends device_key limit priority order started deadline last :
  (∀ n, (last ≤ n)%nat → deadline_passed deadline n) → ∀ rounds intent_held c r c',
  owns o (waiting device_key intent_held) c → (last < rounds + readings c)%nat →  (0 < rounds)%nat →
  acquire_loop rounds o device_key limit priority order started deadline intent_held c = (r, c') →
  r ≠ Ok None ∧ (r = Raise (all_in_use limit) → gives_up device_key priority order deadline (intent_held, c) c').
Proof.
  intros Hlast. induction rounds as [|rounds IH]; intros held c r c' Hown Hrounds Hpos; [lia|]. cbn [acquire_loop].
  intros [(found & c1 & Hs & Hr)|(e & Hs & ->)]%ST_bind_run.
  2: { apply scan_raises in Hs as [name ->]. done. }
  pose proof (scan_counts _ _ _ _ _ Hs) as [Hn _]. destruct found as [index|].
  - apply ST_bind_run in Hr as [(u & c2 & _ & Hr)|(e & Hu & ->)].
    + apply ST_bind_run in Hr as [(now & c3 & _ & Hr)|(e & Hc & ->)]; [|done]. by injection Hr as <- _.
    + destruct held; [|done]. apply store_call_raises in Hu as [name ->]. done.
  - pose proof (scan_none _ _ _ _ _ Hown Hs) as Htaken. apply (scan_owns _ _ _ _ _ _ Hown) in Hs as Hown1.
    apply ST_bind_run in Hr as [(now & c2 & Hc & Hr)|(e & Hc & ->)]; [|done]. injection Hc as <- <-.
    destruct (SFleb _ _) eqn:Hpassed.
    { injection Hr as <- <-. split; [done|]. intros _. exists (held, c), c1. by split_and!. }
    assert (readings c < last)%nat as Hlt.
    { apply Nat.nle_gt. intros Hle. apply Hlast in Hle. unfold deadline_passed in Hle. congruence. }
    apply ST_bind_run in Hr as [(held' & c3 & Ht & Hr)|(e & Ht & ->)].
    2: { destruct (_ && _); [|done]. apply store_call_raises in Ht as [name ->]. done. }
    assert (readings c3 = S (readings c)) as Hn3.
    { destruct (_ && _); [apply store_call_counts in Ht as [-> _]|injection Ht as _ <-]; cbn; by rewrite Hn. }
    pose proof Ht as Hi. apply (take_intent _ _ _ (MkCalling _ _ _ _) _ _ Hown1) in Ht.
    apply ST_bind_run in Hr as [(drawn & c4 & Hj & Hr)|(e & Hj & ->)]; [|done]. injection Hj as <- <-.
    apply ST_bind_run in Hr as [([] & c5 & Hz & Hr)|(e & Hz & ->)].
    + assert (readings c5 = readings c3) as Hn5 by (by injection Hz as _ <-).
      pose proof (sleep_owns _ _ _ _ _ Ht Hz) as Hown5.
      destruct (IH _ _ _ _ Hown5 ltac:(lia) ltac:(lia) Hr) as [Hend Hup]. split; [done|].
      intros (y & c6 & Hrtc & Hlast')%Hup. exists y, c6. split; [|done]. eapply rtc_l; [|exact Hrtc].
      exists c1, c3. split_and!; [done| |done|done]. unfold deadline_passed. congruence.
    + injection Hz as Hz _. split; [done|]. intros [= ->]. by destruct (sleep_raises _).
Qed.
End owner.
End acquire.
