(* ===== verification/DeviceExample.v ===== *)
(** * Callers of one device, computed

    A writer that waits while another owner holds both slots of a device, on the
    store in memory: the owners of a script act on it between the calls. *)

From S2P Require Import Prelude PyData DeviceLimiter DeviceLocks DeviceAcquire.
From stdpp Require Import base gmap strings list.
From Stdlib Require Import ZArith NArith Ascii SpecFloat Lia.

(** A digest of two bytes of a running sum. *)
Fixpoint toy_sum (acc : N) (s : string) : N :=
  match s with EmptyString => acc | String c s => toy_sum ((31 * acc + N_of_ascii c) mod 65536) s end.

Definition toy_digest : Blake2b := λ s,
  let h := Z.of_N (toy_sum 7 s) in [0; 0; 0; 0; 0; 0; (h / 256) mod 256; h mod 256]%Z.
#[local] Existing Instance toy_digest.

Lemma byte_range z : (0 ≤ z mod 256 < 256)%Z.
Proof. by apply Z.mod_pos_bound. Qed.

Lemma toy_digest_bytes text : length (blake2b_8 text) = 8%nat ∧ Forall (λ b, 0 ≤ b < 256)%Z (blake2b_8 text).
Proof. split; [done|]. repeat constructor; first [done|apply byte_range]. Qed.

(** ** Scripts of the other owners *)

Implicit Types st : InMemoryLockBackend.

(** An owner acts once its store was opened. *)
Definition act st (step : N * operation) : InMemoryLockBackend :=
  if (step.1 <=? _next_owner st)%N then perform step.1 step.2 st else st.

Definition seconds (n : nat) : spec_float := binary_normalize 53 1024 (1000 + Z.of_nat (n `min` 50)) 0 false.

(** A clock that shows a second more each of the first fifty times it is read. *)
Definition scripted (script : nat → list (N * operation)) : Surroundings InMemoryLockBackend := {|
  interference n st := fold_left act (script n) st;
  monotonic := seconds;
  jitter _ low _ := low;
  sleep_raises _ := None;
|}.

Lemma act_valid steps : ∀ st, valid st → valid (fold_left act steps st).
Proof.
  induction steps as [|[o op] steps IH]; intros st Hv; [done|]. apply IH. unfold act. cbn [fst snd].
  destruct (N.leb_spec o (_next_owner st)) as [Ho|_]; [|done].
  exact (proj1 (perform_ready _ _ _ laws o o op st (conj Hv Ho) (conj Hv Ho))).
Qed.

Lemma act_leaves_alone o steps : Forall (λ step, step.1 ≠ o) steps →
  leaves_alone o (λ st, fold_left act steps st).
Proof.
  induction steps as [|[o' op] steps IH]; intros Hf st Hr; [done|]. apply Forall_cons in Hf as [Hne Hf]. cbn [fold_left].
  assert (ready valid known o (act st (o', op)) ∧ ∀ m k, holds (act st (o', op)) m o k ↔ holds st m o k) as [Hr1 Hh1].
  { unfold act. cbn [fst snd]. destruct (N.leb_spec o' (_next_owner st)) as [Ho|_]; [|done].
    apply perform_leaves_alone; [done| |done]. split; [by destruct Hr|exact Ho]. }
  destruct (IH Hf _ Hr1) as [Hr2 Hh2]. split; [done|]. intros m k. by rewrite Hh2.
Qed.

(** ** A writer that waits *)

(** The first owner lets go of a slot before the eighth call of the writer. *)
Definition lets_go (n : nat) : list (N * operation) :=
  if (n =? 7)%nat then [(1%N, OpUnlock (slot_key "lab-olt" 0))] else [].
Definition never (n : nat) : list (N * operation) := [].

(** The first owner holds both slots. *)
Definition two_sessions : InMemoryLockBackend :=
  fold_left act [(1%N, OpTryLock (slot_key "lab-olt" 0)); (1%N, OpTryLock (slot_key "lab-olt" 1))]
    (backend_store empty_backend).2.

Definition calling (st : InMemoryLockBackend) : Calling InMemoryLockBackend := MkCalling st 0 0 [].

Lemma two_sessions_valid : valid two_sessions.
Proof. apply act_valid. by destruct (backend_opens empty_backend _ _ empty_backend_valid eq_refl) as (_ & [Hv _] & _). Qed.

Definition writer (script : nat → list (N * operation)) (priority : Priority) (wait : Z)
    : result limiter_exn (option SlotLease) * Calling InMemoryLockBackend :=
  @acquire_slot _ _ (scripted script) _ 100 (Some backend_store) "lab-olt" 2 1 priority
    (binary_normalize 53 1024 wait 0 false) (calling two_sessions).

Example waiting_writer :
  (match (writer lets_go WRITE 45).1 with Ok (Some l) => Some (_store l, slot_index l) | _ => None end)
  = Some (Some 2%N, 0%Z).
Proof. vm_compute. reflexivity. Qed.

(** Its intent is gone once it has the slot. *)
Example intent_given_up :
  backend_try_lock 3 (intent_key "lab-olt") (locks (writer lets_go WRITE 45).2)
  = (Ok true, (backend_try_lock 3 (intent_key "lab-olt") (locks (writer lets_go WRITE 45).2)).2).
Proof. vm_compute. reflexivity. Qed.

Example refused_writer : (writer never WRITE 4).1 = Raise (all_in_use 2).
Proof. vm_compute. reflexivity. Qed.

(** Half a second at a time, and never beyond the deadline. *)
Example refused_after : length (slept (writer never WRITE 4).2) = 3%nat.
Proof. vm_compute. reflexivity. Qed.

(** A background caller does not wait, and a waiting owner turns it away. *)
Example background_refused : (writer never BACKGROUND 45).1 = Raise (all_in_use 2).
Proof. vm_compute. reflexivity. Qed.
Example background_yields :
  (writer (λ n, if (n =? 0)%nat then [(1%N, OpTryLockShared (intent_key "lab-olt"))] else []) BACKGROUND 45).1
  = Raise (DeviceBusy (busy_message "a higher-priority request is waiting for a slot")).
Proof. vm_compute. reflexivity. Qed.

Example messages :
  is_login_refusal_message "ssh: EOFError" = true ∧ is_login_refusal_message "myEOFErrors" = false ∧
  is_login_refusal_message "ERRNO 104" = true ∧ is_busy_message (busy_message "full") = true.
Proof. vm_compute. by split_and!. Qed.

(** The lease of the writer, and what its call left. *)
Definition writer_lease : SlotLease := Eval vm_compute in
  match (writer lets_go WRITE 45).1 with
  | Ok (Some lease) => lease
  | _ => MkSlotLease None 0 "" 0 float_zero
  end.
Definition writer_after : Calling InMemoryLockBackend := (writer lets_go WRITE 45).2.

Lemma writer_run : writer lets_go WRITE 45 = (Ok (Some writer_lease), writer_after).
Proof. vm_compute. reflexivity. Qed.

Lemma refused_run : writer never WRITE 4 = (Raise (all_in_use 2), (writer never WRITE 4).2).
Proof. vm_compute. reflexivity. Qed.

Definition passed (n : nat) : bool :=
  SFleb (float_sub (float_add (seconds 0) (binary_normalize 53 1024 4 0 false)) (seconds n)) float_zero.

Lemma passed_computed : forallb passed (seq 4 47) = true.
Proof. vm_compute. reflexivity. Qed.

Lemma four_seconds_passed n : (4 ≤ n)%nat →
  @deadline_passed _ (scripted never) (float_add (seconds 0) (binary_normalize 53 1024 4 0 false)) n.
Proof.
  intros Hn. change (passed n = true). pose proof (proj1 (forallb_forall _ _) passed_computed) as Hall.
  assert (passed n = passed (n `min` 50)) as ->.
  { unfold passed. f_equal. f_equal. unfold seconds. do 2 f_equal. lia. }
  apply Hall, in_seq. lia.
Qed.

(** A script of the first owner leaves the others alone. *)
Lemma scripted_polite script o : (∀ n, Forall (λ step, step.1 = 1%N) (script n)) → o ≠ 1%N →
  @polite _ _ _ (scripted script) o.
Proof.
  intros Hs Ho n. apply act_leaves_alone. eapply Forall_impl; [apply Hs|]. by intros step ->.
Qed.

Lemma lets_go_first n : Forall (λ step, step.1 = 1%N) (lets_go n).
Proof. unfold lets_go. destruct (n =? 7)%nat; by repeat constructor. Qed.
Lemma never_first n : Forall (λ step, step.1 = 1%N) (never n).
Proof. constructor. Qed.

(** One session, its lease, and the state it holds it in. *)
Definition one_session : InMemoryLockBackend :=
  fold_left act [(1%N, OpTryLock (slot_key "lab-olt" 1))] (backend_store empty_backend).2.
Definition one_lease : SlotLease := MkSlotLease (Some 1%N) (slot_key "lab-olt" 1) "lab-olt" 1 float_zero.

Lemma one_session_valid : valid one_session.
Proof. apply act_valid. by destruct (backend_opens empty_backend _ _ empty_backend_valid eq_refl) as (_ & [Hv _] & _). Qed.
