(* ===== verification/DeviceTheorems.v ===== *)
(** * What the session limiter guarantees

    Properties of [dotmac_device_cli/core/limiter.py]: a lease is an exclusive
    lock of a slot, a device never has more sessions than slots, a refused caller
    holds nothing, and every call ends. *)

From S2P Require Import Prelude PyData DeviceLimiter DeviceLocks DeviceAcquire DeviceExample.
From stdpp Require Import base gmap strings list sorting.
From Stdlib Require Import ZArith NArith SpecFloat Lia.

(** ** Settings *)

(** The digest is eight bytes. *)
Class Blake2bLaws `{Blake2b} : Prop :=
  blake2b_bytes text : length (blake2b_8 text) = 8%nat ∧ Forall (λ b, 0 ≤ b < 256)%Z (blake2b_8 text).

Lemma bytes_value digest : ∀ acc, Forall (λ b, 0 ≤ b < 256)%Z digest → (0 ≤ acc)%Z →
  (acc * 256 ^ Z.of_nat (length digest) ≤ fold_left (λ acc byte, 256 * acc + byte) digest acc
    < (acc + 1) * 256 ^ Z.of_nat (length digest))%Z.
Proof.
  induction digest as [|b digest IH]; intros acc Hf Hacc; cbn [fold_left length]; [rewrite Z.pow_0_r; lia|].
  apply Forall_cons in Hf as [Hb Hf]. destruct (IH (256 * acc + b)%Z Hf ltac:(lia)) as [H1 H2].
  rewrite Nat2Z.inj_succ, Z.pow_succ_r by lia. pose proof (Z.pow_pos_nonneg 256 (Z.of_nat (length digest))). nia.
Qed.

Lemma int_from_bytes_range digest : length digest = 8%nat → Forall (λ b, 0 ≤ b < 256)%Z digest →
  (- 2 ^ 63 ≤ int_from_bytes digest < 2 ^ 63)%Z.
Proof.
  destruct digest as [|b rest]; [done|]. intros Hl Hf. pose proof Hf as [Hb Hr]%Forall_cons.
  unfold int_from_bytes. rewrite Hl. cbn [fold_left]. injection Hl as Hl.
  destruct (bytes_value rest (256 * 0 + b)%Z Hr ltac:(lia)) as [H1 H2]. rewrite Hl in H1, H2.
  change (256 ^ Z.of_nat 8)%Z with (2 ^ 64)%Z. change (256 ^ Z.of_nat 7)%Z with (2 ^ 56)%Z in *.
  destruct (Z.leb_spec 128 b); lia.
Qed.

Lemma elem_of_range n i : i ∈ range n ↔ (0 ≤ i < n)%Z.
Proof. unfold range. rewrite elem_of_seqZ. lia. Qed.

Lemma range_length n : length (range n) = Z.to_nat n.
Proof. apply length_seqZ. Qed.

Lemma slot_order_length priority limit reserved : length (slot_order priority limit reserved) =
  Z.to_nat (if bool_decide (priority = BACKGROUND) then Z.max 1 (limit - reserved) else limit).
Proof. destruct priority; cbn; rewrite ?length_reverse; apply range_length. Qed.

Lemma elem_of_slot_order priority limit reserved i : i ∈ slot_order priority limit reserved ↔
  (0 ≤ i < if bool_decide (priority = BACKGROUND) then Z.max 1 (limit - reserved) else limit)%Z.
Proof. destruct priority; cbn; rewrite ?elem_of_reverse; apply elem_of_range. Qed.

(** C25. The settings of a device are well formed: between one and eight slots, no
    more than its profile or the host allows, of which at least one is left to
    background callers; an order visits each of its slots once, a writer's and an
    interactive caller's all of them, a background caller's all but the reserved
    ones; and a lock key fits a signed integer of sixty-four bits. *)
Theorem settings_well_formed `{Blake2b} {digest : Blake2bLaws} limits host_max device_key priority :
  let limit := limit_for limits host_max in
  let reserved := reserved_for limits limit in
  let order := slot_order priority limit reserved in
  (1 ≤ limit ≤ 8)%Z ∧ (limit ≤ Z.max 1 (session_slots limits))%Z ∧
  (∀ h, host_max = Some h → limit ≤ Z.max 1 h)%Z ∧ (0 ≤ reserved < limit)%Z ∧
  NoDup order ∧
  (∀ i, i ∈ order ↔ 0 ≤ i < if bool_decide (priority = BACKGROUND) then limit - reserved else limit)%Z ∧
  (∀ i, - 2 ^ 63 ≤ slot_key device_key i < 2 ^ 63)%Z ∧ (- 2 ^ 63 ≤ intent_key device_key < 2 ^ 63)%Z.
Proof.
  intros limit reserved order.
  assert (1 ≤ limit ≤ 8 ∧ limit ≤ Z.max 1 (session_slots limits) ∧ (∀ h, host_max = Some h → limit ≤ Z.max 1 h))%Z
    as (H1 & H2 & H3).
  { subst limit. unfold limit_for, _MAX_SLOTS. destruct host_max as [h|]; (split; [lia|]); (split; [lia|]).
    - intros ? [= <-]. lia.
    - done. }
  assert (0 ≤ reserved < limit)%Z as Hr by (subst reserved; unfold reserved_for; lia).
  assert (∀ ns i, - 2 ^ 63 ≤ _signed_key ns device_key i < 2 ^ 63)%Z as Hk.
  { intros ns i. unfold _signed_key. apply int_from_bytes_range; apply blake2b_bytes. }
  split; [exact H1|]. split; [exact H2|]. split; [exact H3|]. split; [exact Hr|]. split; [|split; [|split]].
  - subst order. destruct priority; cbn; [rewrite reverse_Permutation|..]; apply NoDup_seqZ.
  - intros i. subst order. rewrite elem_of_slot_order. case_bool_decide; lia.
  - intros i. apply Hk.
  - apply Hk.
Qed.

Section limiter.
Context {St : Type} `{LockStore St} {L : LockLaws St} `{Surroundings St} `{Blake2b}.
Implicit Types (c : Calling St) (lease : SlotLease).

(** The others keep the store in a valid state. *)
Definition decent : Prop := ∀ n st, valid st → valid (interference n st).

(** The factory gives an owner that the others leave alone. *)
Definition own_store (factory : ST St string N) c : Prop :=
  ∀ o c', open_store factory c = (Ok o, c') → polite o.

Lemma open_store_spec factory c r c' : opens holds valid known factory → decent → valid (locks c) →
  open_store factory c = (r, c') →
  same_locks holds (interference (moves c) (locks c)) (locks c') ∧
  match r with
  | Ok o => owns o no_locks c'
  | Raise e => e = DeviceBusy (busy_message "session limiter store unavailable") ∧ valid (locks c')
  end.
Proof.
  intros Ho Hd Hv. unfold open_store, store_call. specialize (Ho (locks (others_move c))).
  destruct (factory _) as [r' st'] eqn:E. destruct (Ho r' st') as [Hs Hr]; [by apply Hd|done|].
  destruct r' as [o|e]; intros [= <- <-]; (split; [exact Hs|]).
  - destruct Hr as [Hr Hh]. split; [exact Hr|]. intros m k. pose proof (Hh m k). unfold no_locks. cbn. tauto.
  - done.
Qed.

Lemma clock_run c r c' : clock_monotonic c = (r, c') →
  r = Ok (monotonic (readings c)) ∧ locks c' = locks c ∧ moves c' = moves c ∧ readings c' = S (readings c) ∧
  slept c' = slept c.
Proof. by intros [= <- <-]. Qed.

Lemma closing_run {A} o (body : ST (Calling St) limiter_exn A) c r c' : closing_on_failure o body c = (r, c') →
  (∃ a, r = Ok a ∧ body c = (Ok a, c')) ∨
  (∃ e c1, r = Raise e ∧ body c = (Raise e, c1) ∧ c' = (store_call (close o) c1).2).
Proof.
  unfold closing_on_failure. destruct (body c) as [[a|e] c1] eqn:E; intros [= <- <-]; [left|right]; eauto.
Qed.

(** The owner that a call of [acquire_slot] opened the store for. *)
Definition opened factory c (o : N) c' : Prop := open_store factory (clock_monotonic c).2 = (Ok o, c').

Lemma acquire_slot_run rounds factory device_key limit reserved priority wait c r c' :
  acquire_slot rounds (Some factory) device_key limit reserved priority wait c = (r, c') →
  (∃ e, r = Raise e ∧ open_store factory (clock_monotonic c).2 = (Raise e, c')) ∨
  (∃ o c1, opened factory c o c1 ∧
    closing_on_failure o
      (acquire_from rounds o device_key limit reserved priority wait (monotonic (readings c))) c1 = (r, c')).
Proof.
  unfold acquire_slot. intros [(s & c1 & Hs & Hr)|(e & Hs & ->)]%ST_bind_run; [|done]. injection Hs as <- <-.
  apply ST_bind_run in Hr as [(o & c2 & Ho & Hr)|(e & Ho & ->)]; [right|left]; eauto.
Qed.

Lemma opened_owns factory c o c1 : opens holds valid known factory → decent → valid (locks c) →
  opened factory c o c1 → owns o no_locks c1.
Proof. intros Ho Hd Hv Hc. by apply (open_store_spec _ (clock_monotonic c).2 _ _ Ho Hd) in Hc as [_ Hc]. Qed.

Lemma close_works o c r c' : (∀ st, (close o st).1 = Ok tt) → store_call (close o) c = (r, c') → r = Ok tt.
Proof.
  intros Hclose. unfold store_call. specialize (Hclose (locks (others_move c))). destruct (close o _) as [r' st'].
  cbn in Hclose. rewrite Hclose. by intros [= <- _].
Qed.

(** C21. A lease is one slot of the order of its caller, held exclusively by the
    store opened for it, which holds no other lock; and nobody else holds it,
    whatever the other owners did meanwhile. *)
Theorem lease_is_exclusive rounds factory device_key limit reserved priority wait c c' lease :
  opens holds valid known factory → decent → valid (locks c) → own_store factory (clock_monotonic c).2 →
  acquire_slot rounds (Some factory) device_key limit reserved priority wait c = (Ok (Some lease), c') →
  ∃ o, _store lease = Some o ∧ lease_device lease = device_key ∧
    slot_index lease ∈ slot_order priority limit reserved ∧ _key lease = slot_key device_key (slot_index lease) ∧
    (∀ m k, holds (locks c') m o k ↔ m = Exclusive ∧ k = _key lease) ∧
    (∀ m o', holds (locks c') m o' (_key lease) → o' = o).
Proof.
  intros Ho Hd Hv Hown [(e & ? & _)|(o & c1 & Hc1 & Hr)]%acquire_slot_run; [done|].
  pose proof (opened_owns _ _ _ _ Ho Hd Hv Hc1) as Ho1. apply Hown in Hc1.
  apply closing_run in Hr as [(a & [= <-] & Hr)|(e & c2 & ? & _)]; [|done].
  apply (from_owns o Hc1 _ _ _ _ _ _ _ _ _ _ Ho1) in Hr as [Hready Hr]. destruct (Hr lease eq_refl) as (? & ? & ? & ? & _ & Hh).
  exists o. split_and!; [done..| |].
  - intros m k. rewrite Hh. unfold one_lock, and_lock, no_locks. naive_solver.
  - intros m o' Hh'. symmetry. eapply (valid_excludes _ _ _ laws _ m o o' (_key lease)); [apply Hready| |done].
    apply Hh. by right.
Qed.

(** C22. A refusal holds nothing: without a factory nothing is touched; when the
    store cannot be opened no lock changes hands and the caller is told the
    device is busy; and after any other refusal, an exception of the store
    included, the store that was opened is closed and holds no lock. *)
Theorem refused_holds_nothing rounds factory device_key limit reserved priority wait c c' e :
  (∀ f, factory = Some f → opens holds valid known f ∧ own_store f (clock_monotonic c).2) →
  decent → valid (locks c) → (∀ o st, (close o st).1 = Ok tt) →
  acquire_slot rounds factory device_key limit reserved priority wait c = (Raise e, c') →
  match factory with
  | None => (∃ message, e = TypeError message) ∧ c' = c
  | Some f =>
      (∀ o c1, opened f c o c1 → ∀ m k, ¬ holds (locks c') m o k) ∧
      ((∀ o c1, ¬ opened f c o c1) →
        e = DeviceBusy (busy_message "session limiter store unavailable") ∧
        same_locks holds (interference (moves c) (locks c)) (locks c'))
  end.
Proof.
  intros Hf Hd Hv Hclose Hr. destruct factory as [f|]; [|injection Hr as <- <-; eauto].
  destruct (Hf f eq_refl) as [Ho Hown]. apply acquire_slot_run in Hr as [(e' & [= <-] & Hr)|(o & c1 & Hc1 & Hr)].
  - split; [by intros o c1 Hc1; unfold opened in Hc1; rewrite Hr in Hc1|]. intros _.
    by apply (open_store_spec _ _ _ _ Ho Hd) in Hr as (Hs & -> & _).
  - split; [|intros Hn; by apply Hn in Hc1]. intros o' c2 Hc2. unfold opened in Hc1, Hc2. rewrite Hc1 in Hc2.
    injection Hc2 as <- <-. pose proof (opened_owns _ _ _ _ Ho Hd Hv Hc1) as Ho1. apply Hown in Hc1.
    apply closing_run in Hr as [(a & ? & _)|(e' & c2 & [= <-] & Hr & ->)]; [done|].
    apply (from_owns o Hc1 _ _ _ _ _ _ _ _ _ _ Ho1) in Hr as [Hready _].
    destruct (store_call (close o) c2) as [r c3] eqn:E. destruct (close_owns o Hc1 _ _ _ Hready E) as [_ Hc].
    apply (close_works _ _ _ _ (Hclose o)) in E. intros m k Hh. apply Hc in E as [_ Hh']. by apply Hh' in Hh.
Qed.
(** A lease that is released returns, with no store, once the store is closed
    holds nothing even if unlocking raised; and releasing again changes
    nothing. *)
Theorem release_gives_back lease o c r c' : _store lease = Some o → polite o → ready valid known o (locks c) →
  (∀ st, (close o st).1 = Ok tt) → release lease c = (r, c') →
  (∀ m k, ¬ holds (locks c') m o k) ∧
  ∃ lease', r = Ok lease' ∧ released lease' = true ∧ release lease' c' = (Ok lease', c').
Proof.
  intros Hs Hp Hr Hclose. unfold release at 1. rewrite Hs. intros [= <- <-]. split; [|by eexists].
  destruct (store_call (unlock o (_key lease)) c) as [r1 c1] eqn:E1. cbn [snd].
  destruct (store_call_run o Hp (OpUnlock (_key lease)) _ _ _ _ (λ _, eq_refl) Hr E1) as (_ & _ & _ & Hr1 & _).
  destruct (store_call (close o) c1) as [r2 c2] eqn:E2. cbn [snd].
  destruct (close_owns o Hp _ _ _ Hr1 E2) as [_ Hc]. apply (close_works _ _ _ _ Hclose) in E2.
  intros m k Hh. apply Hc in E2 as [_ Hh']. by apply Hh' in Hh.
Qed.

(** ** Every call ends *)

Lemma other_refusals limit detail :
  detail = "a higher-priority request is waiting for a slot" ∨ detail = "session limiter store unavailable" →
  DeviceBusy (busy_message detail) ≠ all_in_use limit.
Proof. by intros [->| ->] [=]. Qed.

Lemma yield_raises o device_key c e c' : yield_to_waiters o device_key c = (Raise e, c') →
  (∃ name, e = Other name) ∨ e = DeviceBusy (busy_message "a higher-priority request is waiting for a slot").
Proof.
  unfold yield_to_waiters. intros [Ht%store_call_raises|(b & c1 & _ & Hr)]%ST_bind_Raise; [by left|].
  destruct b; cbn [negb] in Hr; [left; by apply store_call_raises in Hr|right]. by injection Hr as <- _.
Qed.

(** The moment until which a call waits. *)
Definition wait_deadline (priority : Priority) (wait started : spec_float) : spec_float :=
  float_add started (py_max float_zero (if bool_decide (priority = BACKGROUND) then float_zero else wait)).

(** A call whose store was opened in [c], and that lets the waiting go first if it
    is in the background, then gives up. *)
Definition given_up (o : N) device_key limit reserved priority deadline c c' : Prop :=
  ∃ c1, (if bool_decide (priority = BACKGROUND) then yield_to_waiters o device_key else mret tt) c = (Ok tt, c1) ∧
    gives_up o device_key priority (slot_order priority limit reserved) deadline (false, c1) c'.

Lemma from_ends o rounds device_key limit reserved priority wait started last c r c' :
  polite o → (∀ n, (last ≤ n)%nat → deadline_passed (wait_deadline priority wait started) n) →
  owns o no_locks c → (last < rounds)%nat →
  acquire_from rounds o device_key limit reserved priority wait started c = (r, c') →
  r ≠ Ok None ∧ (r = Raise (all_in_use limit) → given_up o device_key limit reserved priority (wait_deadline priority wait started) c c').
Proof.
  intros Hp Hlast Hown Hrounds. unfold acquire_from. intros [([] & c1 & Hy & Hr)|(e & Hy & ->)]%ST_bind_run.
  - assert (owns o no_locks c1) as Hown1.
    { case_bool_decide; [by eapply yield_owns|by injection Hy as <-]. }
    apply (loop_ends o Hp _ _ _ _ _ _ last Hlast _ false) in Hr as [Hn Hup]; [|exact Hown1|lia..].
    split; [done|]. intros Hr%Hup. by exists c1.
  - split; [done|]. case_bool_decide; [|done]. intros [= ->].
    apply yield_raises in Hy as [[name ?]|Hy]; [done|]. exfalso. symmetry in Hy. revert Hy. apply other_refusals. by left.
Qed.

(** C23. Once the clock passes its deadline every call ends, with a lease or an
    exception. A call is refused because the slots are in use only at the end of
    rounds of its own: in each of them every slot of its order was another
    owner's when it tried it; after each but the last the clock had not reached
    the deadline, and it slept; after the last the deadline had passed, and all
    that it did then was to close its store. *)
Theorem acquisition_ends factory device_key limit reserved priority wait c last :
  opens holds valid known factory → decent → valid (locks c) → own_store factory (clock_monotonic c).2 →
  let deadline := wait_deadline priority wait (monotonic (readings c)) in
  (∀ n, (last ≤ n)%nat → deadline_passed deadline n) →
  ∀ rounds, (last < rounds)%nat → ∃ r c',
    acquire_slot rounds (Some factory) device_key limit reserved priority wait c = (r, c') ∧ r ≠ Ok None ∧
    (r = Raise (all_in_use limit) → ∃ o c1 c2, opened factory c o c1 ∧
      given_up o device_key limit reserved priority deadline c1 c2 ∧ c' = (store_call (close o) c2).2).
Proof.
  intros Ho Hd Hv Hown deadline Hlast rounds Hrounds.
  destruct (acquire_slot _ _ _ _ _ _ _ c) as [r c'] eqn:E. exists r, c'. split; [done|].
  apply acquire_slot_run in E as [(e & -> & Hr)|(o & c1 & Hc1 & Hr)].
  - split; [done|]. intros [= ->]. apply (open_store_spec _ _ _ _ Ho Hd) in Hr as (_ & Hr & _); [|done].
    exfalso. symmetry in Hr. revert Hr. apply other_refusals. by right.
  - pose proof (opened_owns _ _ _ _ Ho Hd Hv Hc1) as Ho1. pose proof (Hown _ _ Hc1) as Hp.
    apply closing_run in Hr as [(a & -> & Hr)|(e & c2 & -> & Hr & ->)];
      apply (from_ends _ _ _ _ _ _ _ _ last _ _ _ Hp Hlast Ho1 Hrounds) in Hr as [Hn Hup]; (split; [done|]); [done|].
    intros Hr%Hup. by exists o, c1, c2.
Qed.

(** ** Sessions at once *)

(** A lease that has not been released, and its lock. *)
Definition live (st : St) (device_key : string) lease : Prop :=
  ∃ o, _store lease = Some o ∧ holds st Exclusive o (_key lease) ∧ _key lease = slot_key device_key (slot_index lease).

Lemma live_distinct st device_key leases : valid st → Forall (live st device_key) leases →
  NoDup (_store <$> leases) → NoDup (slot_index <$> leases).
Proof.
  intros Hv. induction leases as [|l leases IH]; intros Hf Hn; [constructor|].
  apply Forall_cons in Hf as [(o & Ho & Hh & Hk) Hf]. apply NoDup_cons in Hn as [Hl Hn].
  rewrite fmap_cons. apply NoDup_cons. split; [|by apply IH].
  intros (l' & Hi & Hl')%list_elem_of_fmap. apply Hl. apply list_elem_of_fmap. exists l'. split; [|done].
  rewrite Forall_forall in Hf. destruct (Hf l' Hl') as (o' & Ho' & Hh' & Hk').
  rewrite Ho, Ho'. f_equal. rewrite <-Hi, <-Hk in Hk'. rewrite Hk' in Hh'. by eapply (valid_excludes _ _ _ laws).
Qed.

Lemma live_bounded st device_key order leases : valid st → Forall (live st device_key) leases →
  NoDup (_store <$> leases) → Forall (λ lease, slot_index lease ∈ order) leases → (length leases ≤ length order)%nat.
Proof.
  intros Hv Hf Hn Ho. rewrite <-(length_fmap slot_index). apply submseteq_length, NoDup_submseteq.
  - by eapply live_distinct.
  - intros i (l & -> & Hl)%list_elem_of_fmap. rewrite Forall_forall in Ho. by apply Ho.
Qed.

(** C24. A device never has more sessions at once than its slots, and never more
    background sessions than the slots that are not reserved, whoever holds them:
    in every state of the store, as many leases as the limit at most are live. *)
Theorem sessions_bounded st limits host_max device_key leases (priority : SlotLease → Priority) :
  let limit := limit_for limits host_max in
  let reserved := reserved_for limits limit in
  valid st → Forall (live st device_key) leases → NoDup (_store <$> leases) →
  Forall (λ lease, slot_index lease ∈ slot_order (priority lease) limit reserved) leases →
  (Z.of_nat (length leases) ≤ limit)%Z ∧
  (Z.of_nat (length (filter (λ lease, priority lease = BACKGROUND) leases)) ≤ limit - reserved)%Z.
Proof.
  intros limit reserved Hv Hf Hn Ho. rewrite Forall_forall in Ho.
  assert (1 ≤ limit ∧ 0 ≤ reserved < limit)%Z as [Hl Hr].
  { unfold reserved, reserved_for, limit, limit_for. destruct host_max; lia. }
  split.
  - pose proof (live_bounded st device_key (range limit) leases Hv Hf Hn) as Hb. rewrite range_length in Hb.
    rewrite Forall_forall in Hb. specialize (Hb ltac:(intros l Hin; apply elem_of_range;
      specialize (Ho l Hin); rewrite elem_of_slot_order in Ho; case_bool_decide; lia)). lia.
  - set (bg := filter _ _). assert (Hsub : sublist bg leases) by apply sublist_filter.
    pose proof (live_bounded st device_key (range (limit - reserved)) bg Hv) as Hb. rewrite range_length in Hb.
    enough (length bg ≤ Z.to_nat (limit - reserved))%nat by lia. apply Hb.
    + rewrite Forall_forall in Hf |- *. intros l [_ Hin]%list_elem_of_filter. by apply Hf.
    + eapply sublist_NoDup; [exact Hn|]. by apply fmap_sublist.
    + rewrite Forall_forall. intros l [Hp Hin]%list_elem_of_filter. apply elem_of_range.
      specialize (Ho l Hin). rewrite elem_of_slot_order, bool_decide_eq_true_2 in Ho by done. lia.
Qed.
End limiter.

(** ** Witnesses *)

#[local] Existing Instance toy_digest.

Instance toy_digest_laws : Blake2bLaws := toy_digest_bytes.

Lemma settings_well_formed_witness :
  let limits := MkLimits 12 3 float_zero float_zero 3 2 in
  limit_for limits (Some 4%Z) = 4%Z ∧ reserved_for limits 4 = 3%Z ∧
  (- 2 ^ 63 ≤ slot_key "lab-olt" 0 < 2 ^ 63)%Z.
Proof.
  intros limits. split; [reflexivity|]. split; [reflexivity|].
  destruct (settings_well_formed limits (Some 4%Z) "lab-olt" WRITE) as (_ & _ & _ & _ & _ & _ & Hk & _).
  exact (Hk 0%Z).
Defined.

Lemma scripted_decent script : @decent _ _ _ (scripted script).
Proof. intros n st. apply act_valid. Qed.

Lemma scripted_own_store script : (∀ n, Forall (λ step, step.1 = 1%N) (script n)) → script 0%nat = [] →
  @own_store _ _ _ (scripted script) backend_store (@clock_monotonic _ (scripted script) (calling two_sessions)).2.
Proof.
  intros Hs H0 o c'. unfold open_store, store_call, others_move. cbn. rewrite H0. cbn. intros [= <- _].
  apply scripted_polite; [done|]. by vm_compute.
Qed.

Lemma lease_is_exclusive_witness :
  ∃ o, _store writer_lease = Some o ∧ lease_device writer_lease = "lab-olt" ∧
    slot_index writer_lease ∈ slot_order WRITE 2 1 ∧ _key writer_lease = slot_key "lab-olt" (slot_index writer_lease) ∧
    (∀ m k, holds (locks writer_after) m o k ↔ m = Exclusive ∧ k = _key writer_lease) ∧
    (∀ m o', holds (locks writer_after) m o' (_key writer_lease) → o' = o).
Proof.
  exact (lease_is_exclusive (H0 := scripted lets_go) 100 backend_store "lab-olt" 2 1 WRITE _ (calling two_sessions) writer_after writer_lease
    backend_opens (scripted_decent lets_go) two_sessions_valid (scripted_own_store lets_go lets_go_first eq_refl) writer_run).
Defined.

Lemma refused_holds_nothing_witness :
  (writer never WRITE 4).1 = Raise (all_in_use 2) ∧ ∀ m k, ¬ holds (locks (writer never WRITE 4).2) m 2%N k.
Proof.
  split; [exact (f_equal fst refused_run)|].
  refine (proj1 (refused_holds_nothing (H0 := scripted never) 100 (Some backend_store) "lab-olt" 2 1 WRITE _
    (calling two_sessions) (writer never WRITE 4).2 (all_in_use 2) _ (scripted_decent never) two_sessions_valid _ refused_run)
    2%N _ eq_refl).
  - intros f [= <-]. exact (conj backend_opens (scripted_own_store never never_first eq_refl)).
  - reflexivity.
Defined.

Lemma acquisition_ends_witness :
  ∃ o c1 c2, opened (H0 := scripted never) backend_store (calling two_sessions) o c1 ∧
    given_up (H0 := scripted never) o "lab-olt" 2 1 WRITE
      (wait_deadline WRITE (binary_normalize 53 1024 4 0 false) (seconds 0)) c1 c2 ∧
    (writer never WRITE 4).2 = (store_call (H0 := scripted never) (close o) c2).2.
Proof.
  destruct (acquisition_ends (H0 := scripted never) backend_store "lab-olt" 2 1 WRITE (binary_normalize 53 1024 4 0 false)
    (calling two_sessions) 4 backend_opens (scripted_decent never) two_sessions_valid
    (scripted_own_store never never_first eq_refl) four_seconds_passed 100) as (r & c' & Hr & _ & Hfull); [lia|].
  pose proof (eq_trans (eq_sym Hr) refused_run) as E. apply pair_equal_spec in E as [Er Ec].
  rewrite <-Ec. exact (Hfull Er).
Defined.

Lemma sessions_bounded_witness :
  (Z.of_nat (length [one_lease]) ≤ 2)%Z ∧
  (Z.of_nat (length (filter (λ _ : SlotLease, WRITE = BACKGROUND) [one_lease])) ≤ 2 - 1)%Z.
Proof.
  refine (sessions_bounded one_session (MkLimits 2 1 float_zero float_zero 3 2) None "lab-olt" [one_lease] (λ _, WRITE)
    one_session_valid _ _ _).
  - repeat constructor. exists 1%N. split; [reflexivity|]. split; [|reflexivity]. vm_compute. reflexivity.
  - apply NoDup_singleton.
  - repeat constructor.
Defined.
