(* ===== verification/InventoryValuation.v ===== *)
(** * Stock valuation

    [packages/dotmac-inventory/src/dotmac_inventory/valuation.py]: weighted
    averages, first-in first-out issues, and the lower of cost and net realisable
    value, at six decimals. The column sums of the native extension are left
    out. *)

From S2P Require Import Prelude PyData PyDecimal.
From stdpp Require Import base strings list.
From Stdlib Require Import ZArith NArith.

(** What a call raises. *)
Inductive valuation_error : Type := ValueError (message : string) | Signal (s : signal).

Definition dec {A} (r : result signal A) : result valuation_error A :=
  match r with Ok a => Ok a | Raise s => Raise (Signal s) end.

Definition _SCALE : decimal := Fin false 1 (-6).

Definition quantize (value : decimal) : result valuation_error decimal :=
  dec (PyDecimal.quantize value _SCALE ROUND_HALF_UP).

Record ValuationState : Type := MkValuationState {
  quantity : decimal;
  total_value : decimal;
  unit_cost : decimal;
}.

Record FIFO_LAYER : Type := MkLayer {
  lot_ref : string;
  layer_quantity : decimal;
  layer_unit_cost : decimal;
}.

Record FIFOConsumption : Type := MkConsumption {
  consumed : list FIFO_LAYER;
  remaining : list FIFO_LAYER;
  total_cost : decimal;
}.

Record LowerOfCostAndNRV : Type := MkLowerOfCostAndNRV {
  cost : decimal;
  nrv : decimal;
  carrying_amount : decimal;
  write_down : decimal;
}.

(** ** Weighted averages *)

Definition receive_weighted_average (current : ValuationState) (received received_cost : decimal)
    : result valuation_error ValuationState :=
  not_positive ← dec (decimal_le received (of_Z 0));
  _ ← raise_if not_positive (ValueError "Receipt quantity must be positive");
  negative ← dec (decimal_lt received_cost (of_Z 0));
  _ ← raise_if negative (ValueError "Receipt unit cost cannot be negative");
  sum ← dec (decimal_add (quantity current) received);
  new_quantity ← quantize sum;
  value_in ← dec (decimal_mul received received_cost);
  value ← dec (decimal_add (total_value current) value_in);
  new_value ← quantize value;
  average ← dec (decimal_div new_value new_quantity);
  new_cost ← quantize average;
  Ok (MkValuationState new_quantity new_value new_cost).

(** [f"Insufficient stock: ..."]. *)
Definition insufficient (available requested : decimal) : result valuation_error valuation_error :=
  a ← quantize available;
  r ← quantize requested;
  Ok (ValueError ("Insufficient stock: " +:+ decimal_str a +:+ " available, " +:+ decimal_str r +:+ " requested")).

Definition raise_insufficient (short : bool) (available requested : decimal) : result valuation_error unit :=
  if short then e ← insufficient available requested; Raise e else Ok tt.

Definition issue_weighted_average (current : ValuationState) (issued : decimal)
    : result valuation_error ValuationState :=
  not_positive ← dec (decimal_le issued (of_Z 0));
  _ ← raise_if not_positive (ValueError "Issue quantity must be positive");
  short ← dec (decimal_lt (quantity current) issued);
  _ ← raise_insufficient short (quantity current) issued;
  left ← dec (decimal_sub (quantity current) issued);
  new_quantity ← quantize left;
  empty ← dec (decimal_eq new_quantity (of_Z 0));
  if (empty : bool) then Ok (MkValuationState (Fin false 0 (-6)) (Fin false 0 (-6)) (Fin false 0 (-6)))
  else
    value ← dec (decimal_mul issued (unit_cost current));
    value_out ← quantize value;
    rest ← dec (decimal_sub (total_value current) value_out);
    new_value ← quantize rest;
    average ← dec (decimal_div new_value new_quantity);
    new_cost ← quantize average;
    Ok (MkValuationState new_quantity new_value new_cost).

(** ** First in, first out *)

(** What the loop of [consume_fifo] carries. *)
Record Issuing : Type := MkIssuing {
  needed : decimal;
  taken : list FIFO_LAYER;
  kept : list FIFO_LAYER;
  running_cost : decimal;
}.

Definition consume_layer (s : Issuing) (layer : FIFO_LAYER) : result valuation_error Issuing :=
  available ← quantize (layer_quantity layer);
  cost ← quantize (layer_unit_cost layer);
  finished ← dec (decimal_le (needed s) (of_Z 0));
  if (finished : bool) then
    Ok (MkIssuing (needed s) (taken s) (kept s ++ [MkLayer (lot_ref layer) available cost]) (running_cost s))
  else
    used ← dec (decimal_min available (needed s));
    used_quantity ← quantize used;
    value ← dec (decimal_mul used cost);
    running ← dec (decimal_add (running_cost s) value);
    difference ← dec (decimal_sub available used);
    left ← quantize difference;
    some_left ← dec (decimal_gt left (of_Z 0));
    still ← dec (decimal_sub (needed s) used);
    Ok (MkIssuing still (taken s ++ [MkLayer (lot_ref layer) used_quantity cost])
          (if (some_left : bool) then kept s ++ [MkLayer (lot_ref layer) left cost] else kept s) running).

Definition consume_fifo (layers : list FIFO_LAYER) (issued : decimal) : result valuation_error FIFOConsumption :=
  not_positive ← dec (decimal_le issued (of_Z 0));
  _ ← raise_if not_positive (ValueError "FIFO issue quantity must be positive");
  available ← dec (decimal_sum (layer_quantity <$> layers));
  short ← dec (decimal_lt available issued);
  _ ← raise_insufficient short available issued;
  s ← fold_result consume_layer (MkIssuing issued [] [] (of_Z 0)) layers;
  cost ← quantize (running_cost s);
  Ok (MkConsumption (taken s) (kept s) cost).

(** ** Lower of cost and net realisable value *)

Definition refuse_negative (named : string * decimal) : result valuation_error unit :=
  negative ← dec (decimal_lt named.2 (of_Z 0));
  raise_if negative (ValueError (named.1 +:+ " cannot be negative")).

Definition lower_of_cost_and_nrv (cost estimated_selling_price costs_to_complete selling_costs : decimal)
    : result valuation_error LowerOfCostAndNRV :=
  _ ← map_result refuse_negative
        [("cost", cost); ("estimated selling price", estimated_selling_price);
         ("costs to complete", costs_to_complete); ("selling costs", selling_costs)];
  after_completion ← dec (decimal_sub estimated_selling_price costs_to_complete);
  proceeds ← dec (decimal_sub after_completion selling_costs);
  realisable ← dec (decimal_max (of_Z 0) proceeds);
  nrv ← quantize realisable;
  normalized_cost ← quantize cost;
  carrying ← dec (decimal_min normalized_cost nrv);
  difference ← dec (decimal_sub normalized_cost carrying);
  write_down ← quantize difference;
  Ok (MkLowerOfCostAndNRV normalized_cost nrv carrying write_down).
