(* ===== verification/InventoryTheorems.v ===== *)
(** * What stock valuation guarantees

    At six decimals the arithmetic is that of counts, so [consume_fifo] of
    [dotmac_inventory/valuation.py] cuts the layers at the quantity it issues,
    and loses no stock. *)

From S2P Require Import Prelude PyData PyDecimal DecimalFacts DecimalError DecimalText DecimalCounts InventoryValuation.
From stdpp Require Import base strings list.
From Stdlib Require Import ZArith NArith QArith Lia.

Local Open Scope Z_scope.

(** ** Six decimals *)

(** A count of the twelfth place, half up at the sixth. *)
Definition half_up (k : Z) : Z := half_up_div k (10 ^ 6).

Lemma half_up_bound k : 0 ≤ k < 10 ^ PREC → 0 ≤ half_up k < 10 ^ 23.
Proof.
  intros Hk. unfold half_up, PREC in *. split; [apply half_up_div_nonneg; lia|].
  apply Z.le_lt_trans with (10 ^ 22); [|done]. apply half_up_div_le; lia.
Qed.

Lemma quantize_twelve a k : counts (-12) a k → 0 ≤ k → ∃ d, quantize a = Ok d ∧ counts (-6) d (half_up k).
Proof.
  intros Ha Hk. assert (Z.abs k < 10 ^ PREC) as Hk' by (by destruct Ha as (? & ? & ? & _ & _ & _ & ?)).
  destruct (quantize_up (-12) (-6) a k) as (d & Hd & Hc); [lia|lia|done|done| |].
  { change (half_up (k) < 10 ^ 27). pose proof (half_up_bound (k) ltac:(lia)). lia. }
  exists d. split; [|done]. unfold quantize, _SCALE. by rewrite Hd.
Qed.

Lemma quantize_six a k : counts (-6) a k → 0 ≤ k → k < 10 ^ 22 → ∃ d, quantize a = Ok d ∧ counts (-6) d k.
Proof.
  intros Ha Hk0 Hk1. destruct (quantize_whole_units (-6) a k) as (d & Hd & Hc); [lia|done|lia|].
  exists d. split; [|done]. unfold quantize, _SCALE. by rewrite Hd.
Qed.

(** ** Issues, on counts *)

(** A lot, its quantity and its unit cost in millionths. *)
Abbreviation lot := (string * Z * Z)%type.

Definition lot_quantity (l : lot) : Z := l.1.2.
Definition lot_cost (l : lot) : Z := l.1.2 * l.2.

Definition total (f : lot → Z) (lots : list lot) : Z := foldr (λ l, Z.add (f l)) 0 lots.

Definition layer_is (layer : FIFO_LAYER) (l : lot) : Prop :=
  lot_ref layer = l.1.1 ∧ counts (-6) (layer_quantity layer) l.1.2 ∧ counts (-6) (layer_unit_cost layer) l.2.

(** No debts, and no quantity or cost beyond the precision. *)
Definition sensible (l : lot) : Prop := 0 ≤ l.1.2 < 10 ^ 22 ∧ 0 ≤ l.2 < 10 ^ 22.

(** The state of the loop: what is still needed, the lots taken and kept, and
    the cost in units of the twelfth place. *)
Definition progress (s : Issuing) (r : Z) (out kept_lots : list lot) (k : Z) : Prop :=
  counts (-6) (needed s) r ∧ Forall2 layer_is (taken s) out ∧ Forall2 layer_is (kept s) kept_lots ∧
  counts (-12) (running_cost s) k.

Lemma dec_order test x a b i j : counts x a i → counts x b j → dec (decimal_order test a b) = Ok (test (i ?= j)).
Proof. intros Ha Hb. by rewrite (counts_order x a b i j test). Qed.

Lemma Forall2_snoc {A B} (P : A → B → Prop) l k a b : Forall2 P l k → P a b → Forall2 P (l ++ [a]) (k ++ [b]).
Proof. intros Hl Hab. apply Forall2_app; [done|]. by repeat constructor. Qed.

(** Once nothing is needed, a layer is kept. *)
Lemma consume_layer_kept s layer l out kept_lots k : progress s 0 out kept_lots k → layer_is layer l → sensible l →
  ∃ s', consume_layer s layer = Ok s' ∧ progress s' 0 out (kept_lots ++ [l]) k.
Proof.
  intros (Hr & Ho & Hk & Hc) (Hl & Hq & Hu) [Hsq Hsu]. unfold consume_layer, decimal_le, decimal_gt.
  destruct (quantize_six _ _ Hq) as (a & -> & Ha); [lia..|]. cbn [mbind result_bind].
  destruct (quantize_six _ _ Hu) as (u & -> & Hu'); [lia..|]. cbn [mbind result_bind].
  rewrite (dec_order is_le (-6) (needed s) (of_Z 0) 0 0) by (done || by apply counts_zero). cbn [mbind result_bind].
  eexists. split; [done|]. split; [done|]. split; [done|]. split; [|done]. apply Forall2_snoc; [done|]. by split_and!.
Qed.

(** While some is needed, the smaller of the layer and the need is taken. *)
Lemma consume_layer_taken s layer l out kept_lots r k : progress s r out kept_lots k → layer_is layer l → sensible l →
  0 < r < 10 ^ 22 → 0 ≤ k → k + lot_cost l < 10 ^ PREC →
  let u := Z.min l.1.2 r in
  ∃ s', consume_layer s layer = Ok s' ∧
    progress s' (r - u) (out ++ [(l.1.1, u, l.2)])
      (kept_lots ++ if decide (l.1.2 = u) then [] else [(l.1.1, l.1.2 - u, l.2)]) (k + u * l.2).
Proof.
  intros (Hr & Ho & Hk & Hc) (Hl & Hq & Hu) [Hsq Hsu] Hr0 Hk0 Hb u. unfold consume_layer, decimal_le, decimal_gt, lot_cost in *.
  destruct (quantize_six _ _ Hq) as (a & -> & Ha); [lia..|]. cbn [mbind result_bind].
  destruct (quantize_six _ _ Hu) as (c & -> & Hc'); [lia..|]. cbn [mbind result_bind].
  rewrite (dec_order is_le (-6) (needed s) (of_Z 0) r 0) by (done || by apply counts_zero). cbn [mbind result_bind].
  assert (is_le (r ?= 0) = false) as -> by (unfold is_le; destruct (Z.compare_spec r 0); lia || done).
  destruct (counts_min (-6) a (needed s) l.1.2 r) as (v & -> & Hv); [done|done|]. cbn [dec]. fold u in Hv.
  cbn [mbind result_bind]. assert (0 ≤ u ≤ l.1.2 ∧ u ≤ r) as [Hu0 Hur] by (unfold u; lia).
  destruct (quantize_six _ _ Hv) as (w & -> & Hw); [lia..|]. cbn [mbind result_bind].
  assert (0 ≤ u * l.2 ≤ l.1.2 * l.2) as Hul by nia.
  destruct (counts_mul (-6) (-6) v c u l.2) as (p & -> & Hp); [lia|lia|done|done|lia|]. cbn [dec mbind result_bind].
  destruct (counts_add (-12) (running_cost s) p k (u * l.2)) as (k' & -> & Hk'); [lia|done|done|lia|]. cbn [dec mbind result_bind].
  destruct (counts_sub (-6) a v l.1.2 u) as (d & -> & Hd); [lia|done|done|unfold PREC; lia|]. cbn [dec mbind result_bind].
  destruct (quantize_six _ _ Hd) as (left & -> & Hleft); [lia..|]. cbn [mbind result_bind].
  rewrite (dec_order is_gt (-6) left (of_Z 0) (l.1.2 - u) 0) by (done || by apply counts_zero). cbn [mbind result_bind].
  destruct (counts_sub (-6) (needed s) v r u) as (n & -> & Hn); [lia|done|done|unfold PREC; lia|]. cbn [dec mbind result_bind].
  eexists. split; [done|]. split; [done|]. split; [|split; [|done]]; cbn [taken kept].
  - apply Forall2_snoc; [done|]. by split_and!.
  - unfold is_gt. case_decide as E.
    + replace (l.1.2 - u) with 0 by lia. by rewrite app_nil_r.
    + destruct (Z.compare_spec (l.1.2 - u) 0); [lia|lia|]. apply Forall2_snoc; [done|]. by split_and!.
Qed.

Lemma consume_rest layers lots : Forall2 layer_is layers lots → Forall sensible lots → ∀ s out kept_lots k,
  progress s 0 out kept_lots k →
  ∃ s', fold_result consume_layer s layers = Ok s' ∧ progress s' 0 out (kept_lots ++ lots) k.
Proof.
  induction 1 as [|layer l layers lots Hl _ IH]; intros Hf s out kept_lots k Hp; [exists s; by rewrite app_nil_r|].
  apply Forall_cons in Hf as [Hs Hf]. destruct (consume_layer_kept _ _ _ _ _ _ Hp Hl Hs) as (s1 & H1 & Hp1).
  destruct (IH Hf _ _ _ _ Hp1) as (s2 & H2 & Hp2). exists s2. cbn [fold_result]. rewrite H1. cbn [mbind result_bind].
  split; [done|]. by rewrite <-app_assoc in Hp2.
Qed.

(** The cut of the lots at a quantity. *)
Record cut (lots before : list lot) (at_ : lot) (v : Z) (after : list lot) (q : Z) : Prop := {
  cut_lots : lots = before ++ (at_.1.1, at_.1.2 + v, at_.2) :: after;
  cut_taken : total lot_quantity before + lot_quantity at_ = q;
  cut_some : 0 < lot_quantity at_;
  cut_left : 0 ≤ v;
}.

Definition left_over (at_ : lot) (v : Z) : list lot := if decide (v = 0) then [] else [(at_.1.1, v, at_.2)].

Lemma total_app f a b : total f (a ++ b) = total f a + total f b.
Proof. induction a as [|l a IH]; [done|]. cbn. fold (total f (a ++ b)). fold (total f a). rewrite IH. lia. Qed.

Lemma lots_total_nonneg f lots : Forall (λ l, 0 ≤ f l) lots → 0 ≤ total f lots.
Proof. induction 1; cbn; [lia|]. unfold total in *. lia. Qed.

Lemma sensible_cost lots : Forall sensible lots → 0 ≤ total lot_cost lots.
Proof. intros Hf. apply lots_total_nonneg. eapply Forall_impl; [exact Hf|]. intros l [H1 H2]. unfold lot_cost. nia. Qed.

Lemma consume_cut layers lots : Forall2 layer_is layers lots → Forall sensible lots → ∀ s r out kept_lots k,
  progress s r out kept_lots k → 0 < r < 10 ^ 22 → r ≤ total lot_quantity lots → 0 ≤ k →
  k + total lot_cost lots < 10 ^ PREC →
  ∃ s' before at_ v after, fold_result consume_layer s layers = Ok s' ∧ cut lots before at_ v after r ∧
    progress s' 0 (out ++ before ++ [at_]) (kept_lots ++ left_over at_ v ++ after)
      (k + total lot_cost before + lot_cost at_).
Proof.
  induction 1 as [|layer l layers lots Hl Hls IH]; intros Hf s r out kept_lots k Hp Hr Hsum Hk Hb; [cbn in Hsum; lia|].
  apply Forall_cons in Hf as [Hs Hf]. pose proof (sensible_cost _ Hf) as Hrest. pose proof Hs as [Hsq Hsu].
  cbn in Hsum, Hb. fold (total lot_quantity lots) in Hsum. fold (total lot_cost lots) in Hb.
  destruct (consume_layer_taken _ _ _ _ _ _ _ Hp Hl Hs Hr Hk) as (s1 & H1 & Hp1); [lia|].
  cbn [fold_result]. rewrite H1. cbn [mbind result_bind]. destruct l as [[name q] c]. cbn [fst snd] in *.
  change (lot_quantity (name, q, c)) with q in Hsum. change (lot_cost (name, q, c)) with (q * c) in Hb.
  destruct (Z.lt_ge_cases q r) as [Hlt|Hge].
  - replace (Z.min q r) with q in Hp1 by lia. rewrite decide_True, app_nil_r in Hp1 by done.
    destruct (IH Hf _ _ _ _ _ Hp1) as (s2 & before & at_ & v & after & H2 & [E1 E2 E3 E4] & Hp2); [lia|lia|nia|lia|].
    exists s2, ((name, q, c) :: before), at_, v, after. split; [done|]. split.
    + split; [by rewrite E1|change (q + total lot_quantity before + lot_quantity at_ = r); lia|done|done].
    + change (total lot_cost ((name, q, c) :: before)) with (q * c + total lot_cost before).
      rewrite <-app_assoc in Hp2. by rewrite Z.add_assoc.
  - replace (Z.min q r) with r in Hp1 by lia. rewrite Z.sub_diag in Hp1.
    destruct (consume_rest _ _ Hls Hf _ _ _ _ Hp1) as (s2 & H2 & Hp2).
    exists s2, [], (name, r, c), (q - r), lots. split; [done|]. split.
    + split; cbn; [by replace (r + (q - r)) with q by lia|lia|lia|lia].
    + cbn [total foldr app]. rewrite Z.add_0_r, app_assoc. unfold left_over. cbn [fst snd].
      unfold lot_cost. cbn [fst snd]. destruct (decide (q = r)) as [E|E].
      * by rewrite (decide_True (P := q - r = 0)) by lia.
      * by rewrite (decide_False (P := q - r = 0)) by lia.
Qed.

Lemma counts_sum layers lots : Forall2 layer_is layers lots → Forall sensible lots → ∀ a k,
  counts (-6) a k → 0 ≤ k → k + total lot_quantity lots < 10 ^ PREC →
  ∃ d, fold_result decimal_add a (layer_quantity <$> layers) = Ok d ∧ counts (-6) d (k + total lot_quantity lots).
Proof.
  induction 1 as [|layer l layers lots (_ & Hq & _) _ IH]; intros Hf a k Ha Hk Hb.
  { exists a. cbn. by rewrite Z.add_0_r. }
  apply Forall_cons in Hf as [[Hs _] Hf].
  change (total lot_quantity (l :: lots)) with (l.1.2 + total lot_quantity lots) in *.
  assert (0 ≤ total lot_quantity lots) as Ht.
  { apply lots_total_nonneg. eapply Forall_impl; [exact Hf|]. by intros l' [[H' _] _]. }
  cbn [fmap list_fmap fold_result]. destruct (counts_add (-6) a (layer_quantity layer) k l.1.2) as (b & -> & Hb'); [lia|done|done|lia|].
  cbn [mbind result_bind]. destruct (IH Hf b (k + l.1.2) Hb') as (d & Hd & Hc); [lia|lia|].
  exists d. split; [exact Hd|]. by rewrite Z.add_assoc.
Qed.

(** C26. First in, first out, for quantities and unit costs of at most six
    decimals, written without an exponent: none of the layers negative, none of
    10^22 millionths or more, nor the quantity asked for (of at most twenty-eight
    digits, if negative) nor the sum of the layers, and the value of all the layers below 10^28 units of the twelfth
    place. An issue of stock cuts the layers in order at the quantity asked for.
    The layers before the cut are taken whole, the one at the cut gives the rest
    of the quantity and keeps what it has left, the ones after are kept; the cost
    is that of what was taken, rounded half up at the sixth place. An issue of
    nothing or less, and one of more than there is, is refused. Of finer
    quantities this does not hold ([dust_is_issued]). *)
Theorem consume_fifo_exact layers lots issued q :
  Forall2 layer_is layers lots → Forall sensible lots → counts (-6) issued q → q < 10 ^ 22 →
  total lot_quantity lots < 10 ^ 22 → total lot_cost lots < 10 ^ PREC →
  (q ≤ 0 → consume_fifo layers issued = Raise (ValueError "FIFO issue quantity must be positive")) ∧
  (0 < q → total lot_quantity lots < q → ∃ message, consume_fifo layers issued = Raise (ValueError message)) ∧
  (0 < q ≤ total lot_quantity lots → ∃ r before at_ v after,
    consume_fifo layers issued = Ok r ∧ cut lots before at_ v after q ∧
    Forall2 layer_is (consumed r) (before ++ [at_]) ∧ Forall2 layer_is (remaining r) (left_over at_ v ++ after) ∧
    counts (-6) (total_cost r) (half_up (total lot_cost before + lot_cost at_))).
Proof.
  intros Hl Hf Hq Hq22 Ht22 Hcost. pose proof (counts_zero (-6) ltac:(lia)) as H0.
  assert (0 ≤ total lot_quantity lots) as Ht0.
  { apply lots_total_nonneg. eapply Forall_impl; [exact Hf|]. by intros l' [[H' _] _]. }
  unfold consume_fifo, decimal_le, decimal_lt, decimal_sum.
  rewrite (dec_order is_le (-6) issued (of_Z 0) q 0 Hq H0). cbn [mbind result_bind].
  split; [|split].
  - intros Hneg. assert (is_le (q ?= 0) = true) as -> by (unfold is_le; destruct (Z.compare_spec q 0); done || lia). done.
  - intros Hpos Hshort. assert (is_le (q ?= 0) = false) as -> by (unfold is_le; destruct (Z.compare_spec q 0); done || lia).
    cbn [raise_if mbind result_bind].
    destruct (counts_sum layers lots Hl Hf (of_Z 0) 0 H0) as (a & -> & Ha); [lia|unfold PREC; lia|]. cbn [dec mbind result_bind].
    rewrite (dec_order is_lt (-6) a issued _ q Ha Hq). cbn [mbind result_bind]. rewrite Z.add_0_l in *.
    assert (is_lt (total lot_quantity lots ?= q) = true) as -> by (unfold is_lt; by rewrite (proj2 (Z.compare_lt_iff _ _) Hshort)).
    unfold raise_insufficient, insufficient.
    destruct (quantize_six a _ Ha) as (a' & -> & _); [lia..|]. cbn [mbind result_bind].
    destruct (quantize_six issued q Hq) as (i' & -> & _); [lia..|]. cbn [mbind result_bind]. by eexists.
  - intros Hr. assert (is_le (q ?= 0) = false) as -> by (unfold is_le; destruct (Z.compare_spec q 0); done || lia).
    cbn [raise_if mbind result_bind].
    destruct (counts_sum layers lots Hl Hf (of_Z 0) 0 H0) as (a & -> & Ha); [lia|unfold PREC; lia|]. cbn [dec mbind result_bind].
    rewrite (dec_order is_lt (-6) a issued _ q Ha Hq). cbn [mbind result_bind]. rewrite Z.add_0_l in *.
    assert (is_lt (total lot_quantity lots ?= q) = false) as -> by (unfold is_lt; destruct (Z.compare_spec (total lot_quantity lots) q); done || lia).
    cbn [raise_insufficient mbind result_bind].
    destruct (consume_cut layers lots Hl Hf (MkIssuing issued [] [] (of_Z 0)) q [] [] 0) as (s & before & at_ & v & after & -> & Hcut & Hp);
      [split; [done|]; split; [constructor|]; split; [constructor|by apply counts_zero]|lia..|].
    cbn [mbind result_bind]. destruct Hp as (_ & Htaken & Hkept & Hrun). rewrite Z.add_0_l in Hrun.
    assert (0 ≤ total lot_cost before + lot_cost at_) as Hc0.
    { destruct Hcut as [-> _ Hsome Hv]. apply Forall_app in Hf as [Hb [[_ Hc] _]%Forall_cons].
      pose proof (sensible_cost _ Hb). unfold lot_quantity in Hsome. unfold lot_cost at 2. cbn [fst snd] in Hc. nia. }
    destruct (quantize_twelve _ _ Hrun Hc0) as (cost & -> & Hcost'). cbn [mbind result_bind].
    by exists (MkConsumption (taken s) (kept s) cost), before, at_, v, after.
Qed.

(** No stock is lost by a cut. *)
Lemma cut_conserves lots before at_ v after q : cut lots before at_ v after q →
  total lot_quantity (before ++ [at_]) = q ∧
  total lot_quantity (before ++ [at_]) + total lot_quantity (left_over at_ v ++ after) = total lot_quantity lots.
Proof.
  intros [-> <- _ _]. rewrite !total_app. change (total lot_quantity [at_]) with (lot_quantity at_ + 0).
  change (total lot_quantity ((at_.1.1, at_.1.2 + v, at_.2) :: after)) with (lot_quantity at_ + v + total lot_quantity after).
  assert (total lot_quantity (left_over at_ v) = v) as ->; [|lia].
  unfold left_over. case_decide; [done|]. change (v + 0 = v). lia.
Qed.

(** ** Weighted averages *)

(** Quantity, value and unit cost of a stock, in millionths. *)
Definition stock_is (s : ValuationState) (q v u : Z) : Prop :=
  counts (-6) (quantity s) q ∧ counts (-6) (total_value s) v ∧ counts (-6) (unit_cost s) u.

(** An issue that returns leaves the quantity less what was issued, and the value
    less the cost of it at the average, rounded half up; the last issue leaves
    nothing. *)
Theorem issue_average_exact current issued s' qty v u q :
  stock_is current qty v u → counts (-6) issued q →
  0 ≤ qty < 10 ^ 22 → 0 ≤ v < 10 ^ 22 → 0 ≤ u → q * u < 10 ^ PREC → half_up (q * u) ≤ v →
  issue_weighted_average current issued = Ok s' →
  0 < q ≤ qty ∧ counts (-6) (quantity s') (qty - q) ∧
  counts (-6) (total_value s') (if decide (q = qty) then 0 else v - half_up (q * u)).
Proof.
  intros (Hq & Hv & Hu) Hi Hqty Hv22 Hu0 Hqu Hle. pose proof (counts_zero (-6) ltac:(lia)) as H0.
  unfold issue_weighted_average, decimal_le, decimal_lt.
  rewrite (dec_order is_le (-6) issued (of_Z 0) q 0 Hi H0). cbn [mbind result_bind].
  destruct (is_le (q ?= 0)) eqn:E1; [done|]. assert (0 < q) as Hpos by (unfold is_le in E1; destruct (Z.compare_spec q 0); done || lia).
  cbn [raise_if mbind result_bind]. rewrite (dec_order is_lt (-6) _ issued qty q Hq Hi). cbn [mbind result_bind].
  destruct (is_lt (qty ?= q)) eqn:E2.
  { unfold raise_insufficient. destruct (insufficient _ _); done. }
  assert (q ≤ qty) as Hle' by (unfold is_lt in E2; destruct (Z.compare_spec qty q); done || lia).
  cbn [raise_insufficient mbind result_bind].
  destruct (counts_sub (-6) (quantity current) issued qty q) as (d & -> & Hd); [lia|done|done|unfold PREC; lia|]. cbn [dec mbind result_bind].
  destruct (quantize_six d _ Hd) as (n & -> & Hn); [lia..|]. cbn [mbind result_bind].
  assert (decimal_eq n (of_Z 0) = Ok (bool_decide (q = qty))) as ->.
  { pose proof (counts_cmp _ _ _ _ _ Hn H0) as Hc. destruct Hn as (sn & cn & en & -> & _).
    transitivity (Ok (E := signal) (match decimal_cmp (Fin sn cn en) (of_Z 0) with Eq => true | _ => false end)); [done|].
    rewrite Hc. f_equal. destruct (Z.compare_spec (qty - q) 0); case_bool_decide; done || lia. }
  cbn [dec mbind result_bind]. destruct (decide (q = qty)) as [->|Hne].
  { rewrite bool_decide_eq_true_2 by done. intros [= <-]. split; [lia|]. rewrite Z.sub_diag.
    assert (counts (-6) (Fin false 0 (-6)) 0) as Hz by (exists false, 0%N, (-6); split_and!; done || reflexivity || lia).
    by split. }
  rewrite bool_decide_eq_false_2 by done.
  destruct (counts_mul (-6) (-6) issued (unit_cost current) q u) as (p & -> & Hp); [lia|lia|done|done|nia|]. cbn [dec mbind result_bind].
  destruct (quantize_twelve p _ Hp) as (out & -> & Hout); [nia|]. cbn [mbind result_bind].
  assert (0 ≤ half_up (q * u)) as Hh by (apply half_up_bound; nia).
  destruct (counts_sub (-6) (total_value current) out v (half_up (q * u))) as (r & -> & Hr); [lia|done|done|unfold PREC; lia|]. cbn [dec mbind result_bind].
  destruct (quantize_six r _ Hr) as (w & -> & Hw); [lia..|]. cbn [mbind result_bind].
  intros Hres. repeat (apply result_bind_Ok in Hres as (? & _ & Hres)). injection Hres as <-. by split; [lia|].
Qed.

(** ** Runs *)

Definition millionths (k : Z) : decimal := Fin false (Z.to_N k) (-6).
Definition layer (name : string) (q c : Z) : FIFO_LAYER := MkLayer name (millionths q) (millionths c).

Definition consumption_of (r : result valuation_error FIFOConsumption)
    : option (list (string * string) * list (string * string) * string) :=
  let show l := (lot_ref l, decimal_str (layer_quantity l)) in
  match r with
  | Ok r => Some (map show (consumed r), map show (remaining r), decimal_str (total_cost r))
  | Raise _ => None
  end.

Example issue_across_lots :
  consumption_of (consume_fifo [layer "a" 2000000 1500000; layer "b" 3000000 2000000; layer "c" 1000000 9000000]
                    (millionths 3500000))
  = Some ([("a", "2.000000"); ("b", "1.500000")], [("b", "1.500000"); ("c", "1.000000")], "6.000000").
Proof. vm_compute. reflexivity. Qed.

(** Quantities below the sixth place count for what is available and not for
    what is taken: the whole issue is accepted and nothing is consumed. *)
Example dust_is_issued :
  consumption_of (consume_fifo (replicate 10 (MkLayer "dust" (Fin false 4 (-7)) (millionths 1000000))) (Fin false 4 (-6)))
  = Some (replicate 10 ("dust", "0.000000"), [], "0.000000").
Proof. vm_compute. reflexivity. Qed.

Lemma millionths_counts k : 0 ≤ k < 10 ^ PREC → counts (-6) (millionths k) k.
Proof.
  intros Hk. exists false, (Z.to_N k), (-6). split_and!; [done|lia|lia| |lia].
  unfold millionths. cbn [value]. unfold signed. by rewrite Z2N.id by lia.
Qed.

Lemma layer_counts name q c : 0 ≤ q < 10 ^ PREC → 0 ≤ c < 10 ^ PREC → layer_is (layer name q c) (name, q, c).
Proof. intros Hq Hc. split; [done|]. split; by apply millionths_counts. Qed.

Lemma consume_fifo_exact_witness : ∃ r before at_ v after,
  consume_fifo [layer "a" 2000000 1500000; layer "b" 3000000 2000000] (millionths 3500000) = Ok r ∧
  cut [("a", 2000000, 1500000); ("b", 3000000, 2000000)] before at_ v after 3500000 ∧
  Forall2 layer_is (consumed r) (before ++ [at_]) ∧ Forall2 layer_is (remaining r) (left_over at_ v ++ after) ∧
  counts (-6) (total_cost r) (half_up (total lot_cost before + lot_cost at_)).
Proof.
  refine (proj2 (proj2 (consume_fifo_exact [layer "a" 2000000 1500000; layer "b" 3000000 2000000]
    [("a", 2000000, 1500000); ("b", 3000000, 2000000)] (millionths 3500000) 3500000 _ _ _ _ _ _)) _).
  - constructor; [apply layer_counts; by vm_compute|]. constructor; [apply layer_counts; by vm_compute|constructor].
  - repeat (apply Forall_cons; split; [by vm_compute|]). by apply Forall_nil.
  - apply millionths_counts. by vm_compute.
  - reflexivity.
  - vm_compute. reflexivity.
  - vm_compute. reflexivity.
  - by vm_compute.
Defined.
