(* ===== verification/FinanceCalculation.v ===== *)
(** * Fixed-asset calculations

    [packages/dotmac-finance/src/dotmac_finance/calculation.py]: depreciation,
    impairment, revaluation and disposal; and the charges of the native extension
    it calls, [packages/dotmac-finance/native/src/lib.rs], whose decimals are
    those of the same library in the same context. The two exchange numbers as
    text. The context is the default one: its flags and the order of several
    trapped signals are left out, and so is a failure to allocate. *)

From S2P Require Import Prelude PyData PyDecimal.
From stdpp Require Import base strings pretty list.
From Stdlib Require Import ZArith NArith Ascii.

Local Open Scope Z_scope.

(** ** The native charges *)

Module Native.

(** [Stop]: a trapped signal, or a scale out of range. *)
Inductive Stop : Type := Signal (s : signal) | Policy.

Definition check {A} (r : result signal A) : result Stop A :=
  match r with Ok a => Ok a | Raise s => Raise (Signal s) end.

Definition Machine_parse (text : string) : result Stop decimal :=
  match parse_decimal text with Some d => Ok d | None => Raise (Signal InvalidOperation) end.

(** [Decimal::compare] of numbers in order. *)
Definition compare (a b : decimal) : result Stop comparison :=
  if is_nan a || is_nan b then Raise (Signal InvalidOperation) else Ok (decimal_cmp a b).

Definition sub (left_ right_ : decimal) : result Stop decimal := check (decimal_sub left_ right_).

Definition choose (first second : decimal) (minimum : bool) : result Stop decimal :=
  order ← compare second first;
  let replace := if minimum then is_lt order else is_gt order in
  Ok (if (replace : bool) then second else first).

(** The exponent of [scaleb] is an integer of its own. *)
Definition scaleb_by (a exponent : decimal) : result signal decimal :=
  match exponent with Fin s n 0 => scaleb a (signed s n) | _ => Raise InvalidOperation end.

Definition Machine_quantize (scale : Z) (value : decimal) : result Stop decimal :=
  _ ← raise_if (negb ((0 <=? scale) && (scale <=? 6))) Policy;
  quantum ← Machine_parse "1";
  exponent ← Machine_parse (pretty (- scale));
  quantum ← check (scaleb_by quantum exponent);
  check (PyDecimal.quantize value quantum ROUND_HALF_UP).

(** [while &period < periods]: the carrying amount at the end, of at most as
    many rounds as there is fuel. *)
Fixpoint trajectory (fuel : nat) (scale : Z) (residual useful multiplier zero : decimal)
    (periods remaining_count period : N) (current : decimal) : result Stop decimal :=
  match fuel with
  | O => Ok current
  | S fuel =>
      if (period <? periods)%N then
        difference ← sub current residual;
        maximum ← choose zero difference false;
        order ← compare maximum zero;
        match order with
        | Eq => Ok current
        | _ =>
            charge ←
              (if (period + 1 =? remaining_count)%N then Ok maximum
               else
                 tentative ← check (decimal_mul current multiplier);
                 tentative ← check (decimal_div tentative useful);
                 tentative ← Machine_quantize scale tentative;
                 choose maximum tentative true);
            current ← check (decimal_sub current charge);
            trajectory fuel scale residual useful multiplier zero periods remaining_count (period + 1) current
        end
      else Ok current
  end.

Definition charge (scale : Z) (carrying residual useful remaining : decimal) (periods : N) (method : string)
    (remaining_count : N) : result Stop decimal :=
  zero ← Machine_parse "0";
  if String.eqb method "straight_line" then
    difference ← sub carrying residual;
    charge ← choose zero difference false;
    periods_value ← Machine_parse (pretty (Z.of_N periods));
    charge ← check (decimal_mul charge periods_value);
    charge ← check (decimal_div charge remaining);
    Machine_quantize scale charge
  else
    multiplier ← Machine_parse (if String.eqb method "double_declining" then "2" else "1");
    current ← trajectory (N.to_nat periods) scale residual useful multiplier zero periods remaining_count 0 carrying;
    difference ← sub carrying current;
    Machine_quantize scale difference.

Definition compute (carrying residual unimpaired useful remaining : string) (periods remaining_count : N)
    (method : string) (scale : Z) : result Stop (string * string) :=
  carrying ← Machine_parse carrying;
  residual ← Machine_parse residual;
  unimpaired ← Machine_parse unimpaired;
  useful ← Machine_parse useful;
  remaining ← Machine_parse remaining;
  charge_ ← charge scale carrying residual useful remaining periods method remaining_count;
  unimpaired_charge ← charge scale unimpaired residual useful remaining periods method remaining_count;
  Ok (decimal_str charge_, decimal_str unimpaired_charge).

(** [BigUint::parse_bytes] of decimal digits. *)
Definition parse_count (text : string) : option N :=
  match take_digits 0 0 text with (n, S _, EmptyString) => Some n | _ => None end.

(** A refusal of the arguments, or a stop of the computation. *)
Inductive Failure : Type := Refused (message : string) | Stopped (s : Stop).

Definition is_method (method : string) : bool :=
  existsb (String.eqb method) ["straight_line"; "declining_balance"; "double_declining"].

Definition has_nul (s : string) : bool := negb (str_all (λ c, negb (Ascii.eqb c zero)) s).

Definition depreciation_charges (values : list string) (periods method : string) (minor_units : Z)
    : result Failure (string * string) :=
  let refused := Refused "invalid depreciation computation snapshot" in
  match values with
  | [carrying; residual; unimpaired; useful; remaining] =>
      _ ← raise_if (negb (is_method method) || existsb has_nul values) refused;
      match parse_count periods with
      | None => Raise (Refused "invalid depreciation period count")
      | Some periods =>
          match parse_count remaining with
          | None => Raise (Refused "invalid depreciation remaining life")
          | Some remaining_count =>
              match compute carrying residual unimpaired useful remaining periods remaining_count method minor_units with
              | Ok charges => Ok charges
              | Raise s => Raise (Stopped s)
              end
          end
      end
  | _ => Raise refused
  end.

End Native.

(** ** Values *)

Inductive DepreciationMethod : Type := STRAIGHT_LINE | DECLINING_BALANCE | DOUBLE_DECLINING.

#[export] Instance DepreciationMethod_eq_dec : EqDecision DepreciationMethod.
Proof. solve_decision. Defined.

Definition method_value (m : DepreciationMethod) : string :=
  match m with
  | STRAIGHT_LINE => "straight_line"
  | DECLINING_BALANCE => "declining_balance"
  | DOUBLE_DECLINING => "double_declining"
  end.

(** What a call raises. *)
Inductive finance_error : Type :=
  FinanceRuleViolation (message : string) | ValueError (message : string) | TypeError (message : string) | Signal (s : signal).

Definition dec {A} (r : result signal A) : result finance_error A :=
  match r with Ok a => Ok a | Raise s => Raise (Signal s) end.

(** A value given for an amount, and one given for a method. *)
Inductive amount_argument : Type := AFloat | ADecimal (d : decimal) | AnotherValue.
Inductive method_argument : Type := AMethod (m : DepreciationMethod) | AnotherMethod (text : string).

Definition _amount (value : amount_argument) (label : string) : result finance_error decimal :=
  match value with
  | AFloat => Raise (TypeError (label +:+ " refuses float; pass Decimal"))
  | AnotherValue => Raise (TypeError (label +:+ " must be Decimal"))
  | ADecimal d => _ ← raise_if (negb (is_finite d)) (FinanceRuleViolation (label +:+ " must be finite")); Ok d
  end.

Definition scale_violation : finance_error := FinanceRuleViolation "minor units must be between zero and six".

Definition _quantum (minor_units : Z) : result finance_error decimal :=
  _ ← raise_if (negb ((0 <=? minor_units) && (minor_units <=? 6))) scale_violation;
  dec (scaleb (of_Z 1) (- minor_units)).

Definition _q (minor_units : Z) (value : decimal) : result finance_error decimal :=
  quantum ← _quantum minor_units; dec (PyDecimal.quantize value quantum ROUND_HALF_UP).

(** [min([first, *rest])]. *)
Definition min_of (first : decimal) (rest : list decimal) : result signal decimal := fold_result decimal_min first rest.
Definition max_of (first : decimal) (rest : list decimal) : result signal decimal := fold_result decimal_max first rest.

(** [if min([...]) < 0: raise]. *)
Definition refuse_negative (first : decimal) (rest : list decimal) (message : string) : result finance_error unit :=
  least ← dec (min_of first rest);
  negative ← dec (decimal_lt least (of_Z 0));
  raise_if negative (FinanceRuleViolation message).

(** ** Depreciation *)

Record DepreciationResult : Type := MkDepreciation {
  charge : decimal;
  unimpaired_charge : decimal;
  closing_carrying_amount : decimal;
  closing_unimpaired_carrying_amount : decimal;
  closing_remaining_life_months : Z;
}.

Definition read_charge (text : string) : result finance_error decimal :=
  match parse_decimal text with Some d => Ok d | None => Raise (Signal InvalidOperation) end.

Definition _native_charges (carrying residual unimpaired : decimal) (useful remaining periods : Z)
    (method : DepreciationMethod) (minor_units : Z) : result finance_error (decimal * decimal) :=
  match Native.depreciation_charges
          [decimal_str carrying; decimal_str residual; decimal_str unimpaired;
           decimal_str (of_Z useful); decimal_str (of_Z remaining)]
          (decimal_str (of_Z periods)) (method_value method)
          (if (0 <=? minor_units) && (minor_units <=? 6) then minor_units else 7) with
  | Ok (charge, unimpaired_charge) =>
      charge ← read_charge charge;
      unimpaired_charge ← read_charge unimpaired_charge;
      Ok (charge, unimpaired_charge)
  | Raise (Native.Refused message) => Raise (ValueError message)
  | Raise (Native.Stopped (Native.Signal s)) => Raise (Signal s)
  | Raise (Native.Stopped Native.Policy) => Raise scale_violation
  end.

(** [min(charge, max(Decimal(0), amount - residual))]. *)
Definition limit_charge (charge amount residual : decimal) : result finance_error decimal :=
  difference ← dec (decimal_sub amount residual);
  most ← dec (decimal_max (of_Z 0) difference);
  dec (decimal_min charge most).

Definition closing (minor_units : Z) (amount charge : decimal) : result finance_error decimal :=
  difference ← dec (decimal_sub amount charge); _q minor_units difference.

Definition calculate_depreciation (carrying_amount residual_value unimpaired_carrying_amount : amount_argument)
    (remaining_life_months useful_life_months periods : Z) (method : method_argument) (minor_units : Z)
    : result finance_error DepreciationResult :=
  carrying ← _amount carrying_amount "carrying amount";
  residual ← _amount residual_value "residual value";
  unimpaired ← _amount unimpaired_carrying_amount "unimpaired carrying amount";
  method ← match method with
           | AMethod m => Ok m
           | AnotherMethod text => Raise (FinanceRuleViolation ("unsupported depreciation method: " +:+ text))
           end;
  _ ← raise_if ((useful_life_months <=? 0) || (remaining_life_months <? 0))
        (FinanceRuleViolation "useful and remaining life must be valid months");
  _ ← raise_if (periods <=? 0) (FinanceRuleViolation "depreciation needs at least one period");
  let effective_periods := Z.min periods remaining_life_months in
  if effective_periods =? 0 then
    zero ← _q minor_units (of_Z 0);
    Ok (MkDepreciation zero zero carrying unimpaired 0)
  else
    _ ← refuse_negative carrying [residual; unimpaired] "carrying and residual values cannot be negative";
    charges ← _native_charges carrying residual unimpaired useful_life_months remaining_life_months effective_periods
                method minor_units;
    charge ← limit_charge charges.1 carrying residual;
    unimpaired_charge ← limit_charge charges.2 unimpaired residual;
    rounded_charge ← _q minor_units charge;
    rounded_unimpaired_charge ← _q minor_units unimpaired_charge;
    closing_carrying ← closing minor_units carrying charge;
    closing_unimpaired ← closing minor_units unimpaired unimpaired_charge;
    Ok (MkDepreciation rounded_charge rounded_unimpaired_charge closing_carrying closing_unimpaired
          (remaining_life_months - effective_periods)).

(** ** Impairment *)

Record ImpairmentResult : Type := MkImpairment {
  recoverable_amount : decimal;
  loss_to_reserve : decimal;
  loss_to_profit_or_loss : decimal;
  reversal_to_profit_or_loss : decimal;
  reversal_to_reserve : decimal;
  impaired_carrying_amount : decimal;
  closing_revaluation_reserve_balance : decimal;
  closing_impairment_loss_balance : decimal;
  closing_reserve_reduction_balance : decimal;
}.

(** What the branches of [calculate_impairment] assign. *)
Record Impairing : Type := MkImpairing {
  i_loss_to_reserve : decimal;
  i_loss_to_pl : decimal;
  i_reversal_to_pl : decimal;
  i_reversal_to_reserve : decimal;
  i_closing : decimal;
  i_reserve : decimal;
  i_loss_balance : decimal;
  i_reserve_reduction : decimal;
}.

Definition impairment_loss (minor_units : Z) (zero carrying recoverable loss_balance reserve_reduction reserve : decimal)
    : result finance_error Impairing :=
  difference ← dec (decimal_sub carrying recoverable);
  loss ← _q minor_units difference;
  loss_to_reserve ← dec (decimal_min loss reserve);
  loss_to_pl ← dec (decimal_sub loss loss_to_reserve);
  reserve ← dec (decimal_sub reserve loss_to_reserve);
  reserve_reduction ← dec (decimal_add reserve_reduction loss_to_reserve);
  loss_balance ← dec (decimal_add loss_balance loss_to_pl);
  Ok (MkImpairing loss_to_reserve loss_to_pl zero zero recoverable reserve loss_balance reserve_reduction).

Definition impairment_reversal (minor_units : Z) (zero carrying ceiling recoverable loss_balance reserve_reduction reserve : decimal)
    : result finance_error Impairing :=
  rise ← dec (decimal_sub recoverable carrying);
  room ← dec (decimal_sub ceiling carrying);
  room ← dec (decimal_max (of_Z 0) room);
  reversible ← dec (decimal_add loss_balance reserve_reduction);
  permitted ← dec (min_of rise [room; reversible]);
  permitted ← _q minor_units permitted;
  reversal_to_pl ← dec (decimal_min permitted loss_balance);
  rest ← dec (decimal_sub permitted reversal_to_pl);
  reversal_to_reserve ← dec (decimal_min rest reserve_reduction);
  reversal ← dec (decimal_add reversal_to_pl reversal_to_reserve);
  closing ← dec (decimal_add carrying reversal);
  loss_balance ← dec (decimal_sub loss_balance reversal_to_pl);
  reserve_reduction ← dec (decimal_sub reserve_reduction reversal_to_reserve);
  reserve ← dec (decimal_add reserve reversal_to_reserve);
  Ok (MkImpairing zero zero reversal_to_pl reversal_to_reserve closing reserve loss_balance reserve_reduction).

Definition given (arguments : list (option amount_argument)) : list amount_argument := omap id arguments.

Definition calculate_impairment
    (carrying_amount unimpaired_carrying_amount : amount_argument)
    (fair_value_less_costs_of_disposal value_in_use : option amount_argument)
    (impairment_loss_balance reserve_reduction_balance revaluation_reserve_balance : amount_argument) (minor_units : Z)
    : result finance_error ImpairmentResult :=
  carrying ← _amount carrying_amount "carrying amount";
  ceiling ← _amount unimpaired_carrying_amount "unimpaired carrying amount";
  loss_balance ← _amount impairment_loss_balance "impairment loss balance";
  reserve_reduction ← _amount reserve_reduction_balance "reserve reduction balance";
  reserve ← _amount revaluation_reserve_balance "revaluation reserve";
  candidates ← map_result (λ value, _amount value "recoverable amount input")
                 (given [fair_value_less_costs_of_disposal; value_in_use]);
  match candidates with
  | [] => Raise (FinanceRuleViolation "impairment requires a recoverable amount input")
  | candidate :: others =>
      _ ← refuse_negative candidate (others ++ [carrying; ceiling; loss_balance; reserve_reduction; reserve])
            "impairment values cannot be negative";
      largest ← dec (max_of candidate others);
      recoverable ← _q minor_units largest;
      zero ← _q minor_units (of_Z 0);
      below ← dec (decimal_lt recoverable carrying);
      above ← dec (decimal_gt recoverable carrying);
      i ← (if (below : bool) then impairment_loss minor_units zero carrying recoverable loss_balance reserve_reduction reserve
           else if (above : bool) then
             impairment_reversal minor_units zero carrying ceiling recoverable loss_balance reserve_reduction reserve
           else Ok (MkImpairing zero zero zero zero carrying reserve loss_balance reserve_reduction));
      to_reserve ← _q minor_units (i_loss_to_reserve i);
      to_pl ← _q minor_units (i_loss_to_pl i);
      from_pl ← _q minor_units (i_reversal_to_pl i);
      from_reserve ← _q minor_units (i_reversal_to_reserve i);
      closing ← _q minor_units (i_closing i);
      reserve ← _q minor_units (i_reserve i);
      loss_balance ← _q minor_units (i_loss_balance i);
      reserve_reduction ← _q minor_units (i_reserve_reduction i);
      Ok (MkImpairment recoverable to_reserve to_pl from_pl from_reserve closing reserve loss_balance reserve_reduction)
  end.

(** ** Revaluation *)

Record RevaluationResult : Type := MkRevaluation {
  surplus_to_reserve : decimal;
  loss_reversed_to_profit_or_loss : decimal;
  reserve_reversed : decimal;
  revaluation_loss_to_profit_or_loss : decimal;
  revalued_carrying_amount : decimal;
  closing_reserve_balance : decimal;
  closing_prior_loss_balance : decimal;
}.

(** What the branches of [calculate_revaluation] assign. *)
Record Revaluing : Type := MkRevaluing {
  r_surplus : decimal;
  r_loss_reversed : decimal;
  r_reserve_reversed : decimal;
  r_loss : decimal;
  r_reserve : decimal;
  r_prior_loss : decimal;
}.

Definition revalue_up (zero difference reserve prior_loss : decimal) : result finance_error Revaluing :=
  loss_reversed ← dec (decimal_min difference prior_loss);
  surplus ← dec (decimal_sub difference loss_reversed);
  prior_loss ← dec (decimal_sub prior_loss loss_reversed);
  reserve ← dec (decimal_add reserve surplus);
  Ok (MkRevaluing surplus loss_reversed zero zero reserve prior_loss).

Definition revalue_down (zero difference reserve prior_loss : decimal) : result finance_error Revaluing :=
  decrease ← dec (decimal_neg difference);
  reserve_reversed ← dec (decimal_min decrease reserve);
  loss ← dec (decimal_sub decrease reserve_reversed);
  reserve ← dec (decimal_sub reserve reserve_reversed);
  prior_loss ← dec (decimal_add prior_loss loss);
  Ok (MkRevaluing zero zero reserve_reversed loss reserve prior_loss).

Definition calculate_revaluation
    (carrying_amount fair_value revaluation_reserve_balance prior_revaluation_loss_balance : amount_argument)
    (minor_units : Z) : result finance_error RevaluationResult :=
  carrying ← _amount carrying_amount "carrying amount";
  fair ← _amount fair_value "fair value";
  reserve ← _amount revaluation_reserve_balance "revaluation reserve";
  prior_loss ← _amount prior_revaluation_loss_balance "prior revaluation loss";
  _ ← refuse_negative carrying [fair; reserve; prior_loss] "revaluation values cannot be negative";
  zero ← _q minor_units (of_Z 0);
  difference ← dec (decimal_sub fair carrying);
  difference ← _q minor_units difference;
  rises ← dec (decimal_gt difference (of_Z 0));
  falls ← dec (decimal_lt difference (of_Z 0));
  r ← (if (rises : bool) then revalue_up zero difference reserve prior_loss
       else if (falls : bool) then revalue_down zero difference reserve prior_loss
       else Ok (MkRevaluing zero zero zero zero reserve prior_loss));
  surplus ← _q minor_units (r_surplus r);
  loss_reversed ← _q minor_units (r_loss_reversed r);
  reserve_reversed ← _q minor_units (r_reserve_reversed r);
  loss ← _q minor_units (r_loss r);
  closing ← _q minor_units fair;
  reserve ← _q minor_units (r_reserve r);
  prior_loss ← _q minor_units (r_prior_loss r);
  Ok (MkRevaluation surplus loss_reversed reserve_reversed loss closing reserve prior_loss).

(** ** Disposal *)

Record DisposalResult : Type := MkDisposal {
  net_proceeds : decimal;
  gain_or_loss : decimal;
}.

Definition calculate_disposal (carrying_amount proceeds costs_of_disposal : amount_argument) (minor_units : Z)
    : result finance_error DisposalResult :=
  carrying ← _amount carrying_amount "carrying amount";
  gross ← _amount proceeds "disposal proceeds";
  costs ← _amount costs_of_disposal "costs of disposal";
  _ ← refuse_negative carrying [gross; costs] "disposal values cannot be negative";
  difference ← dec (decimal_sub gross costs);
  net ← _q minor_units difference;
  difference ← dec (decimal_sub net carrying);
  gain_or_loss ← _q minor_units difference;
  Ok (MkDisposal net gain_or_loss).
