(* ===== verification/FinanceTheorems.v ===== *)
(** * What the fixed-asset calculations guarantee

    For amounts that count minor units, [dotmac_finance/calculation.py] computes
    the charges of a reference schedule on integers, never charges below the
    residual value and ends at it; and an impairment or a revaluation moves as
    much between the carrying amount, the reserve and the balances as it says. *)

From S2P Require Import Prelude PyData PyDecimal DecimalFacts DecimalError DecimalText DecimalCounts FinanceCalculation.
From stdpp Require Import base strings pretty list.
From Stdlib Require Import ZArith NArith QArith Lia.

Local Open Scope Z_scope.

(** An amount of so many units of the place [x]. *)
Definition LIMIT : Z := 10 ^ 20.
Definition amount_is (x : Z) (v : amount_argument) (k : Z) : Prop :=
  ∃ d, v = ADecimal d ∧ counts x d k ∧ 0 ≤ k < LIMIT.

(** ** A reference schedule *)

Definition multiplier_of (m : DepreciationMethod) : Z := match m with DOUBLE_DECLINING => 2 | _ => 1 end.

(** The charge of a month, of a carrying amount [k] and a residual value [r], in
    a useful life of [u] months: the last of the remaining months takes all. *)
Definition month_charge (m : DepreciationMethod) (r u k : Z) (last : bool) : Z :=
  if last then Z.max 0 (k - r) else Z.min (Z.max 0 (k - r)) (half_up_div (k * multiplier_of m) u).

(** The carrying amount after [p] months, of [n] that remain. *)
Fixpoint after_months (m : DepreciationMethod) (r u : Z) (n p : nat) (k : Z) : Z :=
  match p with
  | O => k
  | S p => after_months m r u (pred n) p (k - month_charge m r u k (n =? 1)%nat)
  end.

(** The charge of [p] months of [n] that remain. *)
Definition reference_charge (m : DepreciationMethod) (r u n p k : Z) : Z :=
  match m with
  | STRAIGHT_LINE => half_up_div (Z.max 0 (k - r) * p) n
  | _ => k - after_months m r u (Z.to_nat n) (Z.to_nat p) k
  end.

Lemma month_charge_bounds m r u k last : 0 ≤ r → 0 ≤ k → 0 < u → 0 ≤ month_charge m r u k last ≤ Z.max 0 (k - r).
Proof.
  intros Hr Hk Hu. unfold month_charge. destruct last; [lia|].
  pose proof (half_up_div_nonneg (k * multiplier_of m) u ltac:(destruct m; cbn; lia) Hu). lia.
Qed.

Lemma month_charge_none m r u k last : 0 ≤ r → 0 ≤ k → 0 < u → k ≤ r → month_charge m r u k last = 0.
Proof. intros Hr Hk Hu H. pose proof (month_charge_bounds m r u k last Hr Hk Hu). lia. Qed.

Lemma after_months_done m r u p : 0 ≤ r → 0 < u → ∀ n k, 0 ≤ k ≤ r → after_months m r u n p k = k.
Proof.
  intros Hr Hu. induction p as [|p IH]; intros n k Hk; [done|]. cbn [after_months].
  rewrite month_charge_none, Z.sub_0_r by lia. by apply IH.
Qed.

(** Depreciation stops at the residual value. *)
Lemma after_months_bounds m r u p : 0 ≤ r → 0 < u → ∀ n k, 0 ≤ k → Z.min k r ≤ after_months m r u n p k ≤ k.
Proof.
  intros Hr Hu. induction p as [|p IH]; intros n k Hk; [cbn; lia|]. cbn [after_months].
  pose proof (month_charge_bounds m r u k (n =? 1)%nat Hr Hk Hu) as Hc.
  specialize (IH (pred n) (k - month_charge m r u k (n =? 1)%nat) ltac:(lia)). lia.
Qed.

(** ... and it reaches it in the last month. *)
Lemma after_months_all m r u n : 0 ≤ r → 0 < u → ∀ k, 0 ≤ k → (0 < n)%nat → after_months m r u n n k = Z.min k r.
Proof.
  intros Hr Hu. induction n as [|n IH]; intros k Hk Hn; [lia|]. cbn [after_months Nat.pred].
  pose proof (month_charge_bounds m r u k (S n =? 1)%nat Hr Hk Hu) as Hc.
  destruct n as [|n]; [cbn; lia|]. rewrite IH by lia. lia.
Qed.

Lemma reference_charge_bounds m r u n p k : 0 ≤ r → 0 < u → 0 ≤ k → 0 ≤ p ≤ n → 0 < n →
  0 ≤ reference_charge m r u n p k ≤ Z.max 0 (k - r).
Proof.
  intros Hr Hu Hk Hp Hn. pose proof (after_months_bounds m r u (Z.to_nat p) Hr Hu (Z.to_nat n) k Hk).
  destruct m; cbn [reference_charge]; [|lia..].
  split; [apply half_up_div_nonneg; nia|apply half_up_div_le; nia].
Qed.

(** The whole of the remaining life charges all that is above the residual. *)
Lemma reference_charge_all m r u n k : 0 ≤ r → 0 < u → 0 ≤ k → 0 < n → reference_charge m r u n n k = Z.max 0 (k - r).
Proof.
  intros Hr Hu Hk Hn. pose proof (after_months_all m r u (Z.to_nat n) Hr Hu k Hk).
  destruct m; cbn [reference_charge]; [by apply half_up_div_exact|lia..].
Qed.

(** ** The native charges *)

Lemma native_parse_nat n : Native.Machine_parse (pretty (Z.of_N n)) = Ok (Fin false n 0).
Proof. unfold Native.Machine_parse. by rewrite pretty_parse. Qed.

Lemma native_quantize s v : 0 ≤ s ≤ 6 → Native.Machine_quantize s v = Native.check (PyDecimal.quantize v (Fin false 1 (- s)) ROUND_HALF_UP).
Proof.
  intros Hs. unfold Native.Machine_quantize. rewrite (proj2 (Z.leb_le 0 s)), (proj2 (Z.leb_le s 6)) by lia.
  assert (Native.Machine_parse (pretty (- s)) = Ok (Fin (negb (s =? 0)) (Z.to_N s) 0)) as E.
  { assert (s = 0 ∨ s = 1 ∨ s = 2 ∨ s = 3 ∨ s = 4 ∨ s = 5 ∨ s = 6) as H by lia. destruct_or! H; subst s; vm_compute; reflexivity. }
  rewrite E. assert (s = 0 ∨ s = 1 ∨ s = 2 ∨ s = 3 ∨ s = 4 ∨ s = 5 ∨ s = 6) as H by lia.
  destruct_or! H; subst s; reflexivity.
Qed.

Lemma returns_check {A} (r : result signal A) Q : returns r Q → returns (Native.check r) Q.
Proof. intros (a & -> & Ha). by exists a. Qed.

Lemma native_choose x a b i j minimum : counts x a i → counts x b j →
  returns (Native.choose a b minimum) (λ d, counts x d (if minimum then Z.min i j else Z.max i j)).
Proof.
  intros Ha Hb. assert (Native.choose a b minimum = Native.check (if minimum then decimal_min a b else decimal_max a b)) as ->.
  { unfold Native.choose, Native.compare, decimal_min, decimal_max, decimal_lt, decimal_gt, decimal_order.
    destruct (is_nan b || is_nan a); by destruct minimum. }
  apply returns_check. destruct minimum; [by apply counts_min|by apply counts_max].
Qed.

Lemma native_compare x a b i j : counts x a i → counts x b j → Native.compare a b = Ok (i ?= j).
Proof.
  intros Ha Hb. pose proof (counts_cmp _ _ _ _ _ Ha Hb) as Hc. destruct Ha as (s & m & e & -> & _), Hb as (t & n & f & -> & _).
  unfold Native.compare. cbn [is_nan orb]. by rewrite Hc.
Qed.

Section native.
Context (mu : Z) (Hmu : 0 ≤ mu ≤ 6).
Local Abbreviation x := (- mu).
Local Abbreviation natural n := (Fin false n 0).

Lemma natural_counts n : Z.of_N n < 10 ^ PREC → counts 0 (natural n) (Z.of_N n).
Proof.
  intros Hn. exists false, n, 0. split_and!; [done|lia|lia| |lia]. reflexivity.
Qed.

Lemma native_times a k n : counts x a k → Z.abs (k * Z.of_N n) < 10 ^ PREC → Z.of_N n < 10 ^ PREC →
  returns (decimal_mul a (natural n)) (λ d, counts x d (k * Z.of_N n)).
Proof.
  intros Ha Hb Hn. destruct (counts_mul x 0 a (natural n) k (Z.of_N n)) as (d & Hd & Hc); [lia|lia|done|by apply natural_counts|done|].
  exists d. by rewrite Z.add_0_r in Hc.
Qed.

(** One month of the declining methods. *)
Lemma native_month method zero useful current residual maximum k r last :
  counts x zero 0 → counts x current k → counts x residual r → 0 ≤ k < LIMIT → 0 ≤ r < LIMIT →
  (0 < useful)%N → Z.of_N useful < 10 ^ 6 → counts x maximum (Z.max 0 (k - r)) →
  returns (if (last : bool) then Ok maximum else
      tentative ← Native.check (decimal_mul current (natural (Z.to_N (multiplier_of method))));
      tentative ← Native.check (decimal_div tentative (natural useful));
      tentative ← Native.Machine_quantize mu tentative;
      Native.choose maximum tentative true)
    (λ d, counts x d (month_charge method r (Z.of_N useful) k last)).
Proof.
  intros Hz Hc Hr Hk Hr0 Hu Hu6 Hm. unfold LIMIT in *. destruct last; [by exists maximum|].
  assert (0 ≤ k * multiplier_of method ≤ 10 ^ 26) as Hb by (destruct method; cbn [multiplier_of]; lia).
  destruct (native_times current k (Z.to_N (multiplier_of method)) Hc) as (t & -> & Ht);
    [unfold PREC; destruct method; cbn; lia|by destruct method|]. cbn [Native.check mbind result_bind].
  rewrite Z2N.id in Ht by by destruct method.
  destruct (div_half_up x t (k * multiplier_of method) useful) as (q & d & -> & Hq & Hd); [lia|exact Ht|done|done|lia|]. cbn [Native.check mbind result_bind].
  rewrite native_quantize, Hq by done. cbn [Native.check mbind result_bind].
  exact (native_choose x maximum d _ _ true Hm Hd).
Qed.

Lemma native_trajectory method zero useful residual r periods remaining_count fuel :
  counts x zero 0 → counts x residual r → 0 ≤ r < LIMIT → (0 < useful)%N → Z.of_N useful < 10 ^ 6 →
  ∀ n period current k, counts x current k → 0 ≤ k < LIMIT → fuel = N.to_nat (periods - period) → (fuel ≤ n)%nat →
  (period + N.of_nat n)%N = remaining_count →
  returns (Native.trajectory fuel mu residual (natural useful) (natural (Z.to_N (multiplier_of method))) zero periods
             remaining_count period current)
    (λ d, counts x d (after_months method r (Z.of_N useful) n fuel k)).
Proof.
  intros Hz Hr Hr0 Hu Hu6. induction fuel as [|fuel IH]; intros n period current k Hc Hk Hfuel Hn Hcount; [by exists current|].
  cbn [Native.trajectory after_months]. rewrite (proj2 (N.ltb_lt period periods)) by lia.
  destruct (counts_sub x current residual k r) as (diff & Hd & Hdiff); [lia|done|done|unfold PREC, LIMIT in *; lia|].
  unfold Native.sub. rewrite Hd. cbn [Native.check mbind result_bind].
  destruct (native_choose x zero diff 0 (k - r) false Hz Hdiff) as (maximum & -> & Hm). cbn [mbind result_bind].
  rewrite (native_compare x maximum zero (Z.max 0 (k - r)) 0) by done. cbn [mbind result_bind].
  destruct (Z.compare_spec (Z.max 0 (k - r)) 0) as [E|E|E]; [|lia|].
  { exists current. split; [done|]. rewrite month_charge_none, Z.sub_0_r, after_months_done by lia. done. }
  assert ((period + 1 =? remaining_count)%N = (n =? 1)%nat) as ->.
  { destruct (N.eqb_spec (period + 1) remaining_count), (Nat.eqb_spec n 1); done || lia. }
  destruct (native_month method zero useful current residual maximum k r (n =? 1)%nat) as (c & -> & Hc'); [done..|].
  cbn [mbind result_bind]. pose proof (month_charge_bounds method r (Z.of_N useful) k (n =? 1)%nat) as Hb.
  destruct (counts_sub x current c k _ ltac:(lia) Hc Hc') as (next & -> & Hnext); [unfold PREC, LIMIT in *; lia|].
  cbn [Native.check mbind result_bind]. apply IH; [done|lia|lia|lia|lia].
Qed.

Lemma native_charge method carrying residual k r useful n p :
  counts x carrying k → counts x residual r → 0 ≤ k < LIMIT → 0 ≤ r < LIMIT → (0 < useful)%N → Z.of_N useful < 10 ^ 6 →
  (0 < p ≤ n)%N → Z.of_N n < 10 ^ 6 →
  returns (Native.charge mu carrying residual (natural useful) (natural n) p (method_value method) n)
    (λ d, counts x d (reference_charge method r (Z.of_N useful) (Z.of_N n) (Z.of_N p) k)).
Proof.
  intros Hc Hr Hk Hr0 Hu Hu6 Hp Hn. pose proof (counts_zero x ltac:(lia)) as Hz. unfold Native.charge.
  change (Native.Machine_parse "0") with (Native.Machine_parse (pretty (Z.of_N 0))). rewrite (native_parse_nat 0). cbn [mbind result_bind].
  change (of_Z 0) with (natural 0) in Hz. destruct (decide (method = STRAIGHT_LINE)) as [->|Hm].
  - cbn [method_value String.eqb Ascii.eqb Bool.eqb reference_charge]. unfold Native.sub.
    destruct (counts_sub x carrying residual k r) as (diff & Hd & Hdiff); [lia|done|done|unfold PREC, LIMIT in *; lia|].
    rewrite Hd. cbn [Native.check mbind result_bind].
    destruct (native_choose x (natural 0) diff 0 (k - r) false Hz Hdiff) as (base & -> & Hb). cbn [mbind result_bind].
    rewrite native_parse_nat. cbn [mbind result_bind].
    assert (0 ≤ Z.max 0 (k - r) * Z.of_N p ≤ 10 ^ 26) as Hbound by (unfold LIMIT in *; nia).
    destruct (native_times base _ p Hb) as (t & -> & Ht); [unfold PREC; lia|unfold PREC; lia|]. cbn [Native.check mbind result_bind].
    destruct (div_half_up x t (Z.max 0 (k - r) * Z.of_N p) n) as (q & d & -> & Hq & Hd'); [lia|done|done|lia|lia|].
    cbn [Native.check mbind result_bind]. rewrite native_quantize, Hq by done. by exists d.
  - assert (String.eqb (method_value method) "straight_line" = false) as -> by by destruct method.
    assert (Native.Machine_parse (if String.eqb (method_value method) "double_declining" then "2" else "1")
      = Ok (E := Native.Stop) (natural (Z.to_N (multiplier_of method)))) as -> by (destruct method; [done|reflexivity..]).
    cbn [mbind result_bind].
    destruct (native_trajectory method (natural 0) useful residual r p n (N.to_nat p) Hz Hr Hr0 Hu Hu6 (N.to_nat n) 0 carrying k) as (e & -> & He);
      [done|done|lia|lia|lia|]. cbn [mbind result_bind].
    pose proof (after_months_bounds method r (Z.of_N useful) (N.to_nat p) ltac:(lia) ltac:(lia) (N.to_nat n) k ltac:(lia)) as Hb.
    destruct (counts_sub x carrying e k _ ltac:(lia) Hc He) as (diff & Hd & Hdiff); [unfold PREC, LIMIT in *; lia|].
    unfold Native.sub. rewrite Hd. cbn [Native.check mbind result_bind].
    destruct (quantize_whole_units x diff _ ltac:(lia) Hdiff) as (d & Hq & Hd'); [unfold LIMIT in *; lia|].
    rewrite native_quantize, Hq by done. exists d. split; [done|].
    assert (reference_charge method r (Z.of_N useful) (Z.of_N n) (Z.of_N p) k
      = k - after_months method r (Z.of_N useful) (N.to_nat n) (N.to_nat p) k) as ->; [|done].
    rewrite <-(N2Z.id n) at 2. rewrite <-(N2Z.id p) at 2. rewrite !Z_N_nat. by destruct method.
Qed.

(** Numbers cross as text. *)
Lemma counts_text d k : counts x d k → Native.Machine_parse (decimal_str d) = Ok d ∧ read_charge (decimal_str d) = Ok d ∧
  Native.has_nul (decimal_str d) = false.
Proof.
  intros (s & n & e & -> & He & _). unfold Native.Machine_parse, read_charge, Native.has_nul. rewrite decimal_str_parse by lia.
  split_and!; [done..|]. apply negb_false_iff, (str_all_weaken numeral_char); [|apply decimal_str_numeral; lia].
  intros c. by destruct c as [[] [] [] [] [] [] [] []].
Qed.

Lemma parse_count_pretty n : Native.parse_count (pretty (Z.of_N n)) = Some n.
Proof.
  unfold Native.parse_count. destruct (pretty_digits n) as (a & Ha & Hall & Hn).
  rewrite <-(string_app_nil_r (pretty _)), take_digits_all by done. rewrite Hn.
  destruct (pretty (Z.of_N n)) eqn:E; [by destruct a|done].
Qed.

Lemma of_Z_natural z : 0 ≤ z → of_Z z = natural (Z.to_N z).
Proof. intros Hz. unfold of_Z. by rewrite (proj2 (Z.ltb_ge z 0)), Z.abs_eq by lia. Qed.

Lemma of_Z_text z : 0 ≤ z → decimal_str (of_Z z) = pretty (Z.of_N (Z.to_N z)).
Proof. intros Hz. by rewrite of_Z_natural, decimal_str_int. Qed.

Lemma pretty_no_nul n : Native.has_nul (pretty (Z.of_N n)) = false.
Proof.
  unfold Native.has_nul. apply negb_false_iff. destruct (pretty_digits n) as (_ & _ & Hall & _).
  apply (str_all_weaken is_digit_char); [|done]. intros c. by destruct c as [[] [] [] [] [] [] [] []].
Qed.

Lemma native_charges_spec method carrying residual unimpaired k r j u n p :
  counts x carrying k → counts x residual r → counts x unimpaired j →
  0 ≤ k < LIMIT → 0 ≤ r < LIMIT → 0 ≤ j < LIMIT → 0 < u < 10 ^ 6 → 0 < p ≤ n → n < 10 ^ 6 →
  returns (_native_charges carrying residual unimpaired u n p method mu)
    (λ c, counts x c.1 (reference_charge method r u n p k) ∧ counts x c.2 (reference_charge method r u n p j)).
Proof.
  intros Hc Hr Hj Hk Hr0 Hj0 Hu Hp Hn. unfold _native_charges, Native.depreciation_charges.
  rewrite !of_Z_text by lia.
  destruct (counts_text _ _ Hc) as (Pc & _ & Nc), (counts_text _ _ Hr) as (Pr & _ & Nr), (counts_text _ _ Hj) as (Pj & _ & Nj).
  cbn [existsb]. rewrite Nc, Nr, Nj, !pretty_no_nul.
  assert (Native.is_method (method_value method) = true) as -> by by destruct method.
  cbn [negb orb raise_if mbind result_bind]. rewrite !parse_count_pretty. unfold Native.compute. rewrite Pc, Pr, Pj, !native_parse_nat.
  cbn [mbind result_bind]. rewrite (proj2 (Z.leb_le 0 mu)), (proj2 (Z.leb_le mu 6)) by lia. cbn [andb].
  assert (0 < Z.to_N u ∧ 0 < Z.to_N p <= Z.to_N n)%N as [Hu' Hp'] by lia.
  assert (Z.of_N (Z.to_N u) < 10 ^ 6 ∧ Z.of_N (Z.to_N n) < 10 ^ 6) as [Hu6 Hn6] by lia.
  destruct (native_charge method carrying residual k r _ _ _ Hc Hr Hk Hr0 Hu' Hu6 Hp' Hn6) as (c1 & -> & H1).
  destruct (native_charge method unimpaired residual j r _ _ _ Hj Hr Hj0 Hr0 Hu' Hu6 Hp' Hn6) as (c2 & -> & H2).
  cbn [mbind result_bind]. rewrite !Z2N.id in H1, H2 by lia.
  destruct (counts_text _ _ H1) as (_ & -> & _), (counts_text _ _ H2) as (_ & -> & _). cbn [mbind result_bind]. by exists (c1, c2).
Qed.

(** ** Steps of the calculations *)

Lemma returns_dec {A} (r : result signal A) Q : returns r Q → returns (dec r) Q.
Proof. intros (a & -> & Ha). by exists a. Qed.

Lemma scaled_quantum : _quantum mu = Ok (Fin false 1 x).
Proof. unfold _quantum. rewrite (proj2 (Z.leb_le 0 mu)), (proj2 (Z.leb_le mu 6)) by lia. cbn [andb negb raise_if mbind result_bind]. by rewrite scaleb_one by lia. Qed.

Lemma q_counts a k : counts x a k → Z.abs k < 10 ^ 27 → returns (_q mu a) (λ d, counts x d k).
Proof.
  intros Ha Hk. unfold _q. rewrite scaled_quantum. cbn [mbind result_bind]. apply returns_dec, quantize_whole_units; [lia|done|done].
Qed.

Lemma dec_add a b i j : counts x a i → counts x b j → Z.abs (i + j) < 10 ^ 27 → returns (dec (decimal_add a b)) (λ d, counts x d (i + j)).
Proof. intros. apply returns_dec, counts_add; [lia|done|done|unfold PREC; lia]. Qed.

Lemma dec_sub a b i j : counts x a i → counts x b j → Z.abs (i - j) < 10 ^ 27 → returns (dec (decimal_sub a b)) (λ d, counts x d (i - j)).
Proof. intros. apply returns_dec, counts_sub; [lia|done|done|unfold PREC; lia]. Qed.

Lemma dec_min a b i j : counts x a i → counts x b j → returns (dec (decimal_min a b)) (λ d, counts x d (Z.min i j)).
Proof. intros. by apply returns_dec, counts_min. Qed.

Lemma dec_max a b i j : counts x a i → counts x b j → returns (dec (decimal_max a b)) (λ d, counts x d (Z.max i j)).
Proof. intros. by apply returns_dec, counts_max. Qed.

Lemma zero_counts : counts x (of_Z 0) 0.
Proof. apply counts_zero. lia. Qed.

Lemma amount_reads v k label : amount_is x v k → returns (_amount v label) (λ d, counts x d k ∧ 0 ≤ k < LIMIT).
Proof.
  intros (d & -> & Hd & Hk). exists d. split; [|done]. destruct Hd as (s & n & e & -> & _). done.
Qed.

(** The least of some amounts. *)
Lemma least_counts l : ∀ a k ks, counts x a k → Forall2 (counts x) l ks →
  returns (min_of a l) (λ d, counts x d (foldl Z.min k ks)).
Proof.
  induction l as [|b l IH]; intros a k ks Ha Hl; inversion Hl; subst; [by exists a|].
  unfold min_of. cbn [fold_result foldl]. destruct (counts_min x a b k y) as (d & -> & Hd); [done|done|].
  cbn [mbind result_bind]. by apply IH.
Qed.

Lemma greatest_counts l : ∀ a k ks, counts x a k → Forall2 (counts x) l ks →
  returns (max_of a l) (λ d, counts x d (foldl Z.max k ks)).
Proof.
  induction l as [|b l IH]; intros a k ks Ha Hl; inversion Hl; subst; [by exists a|].
  unfold max_of. cbn [fold_result foldl]. destruct (counts_max x a b k y) as (d & -> & Hd); [done|done|].
  cbn [mbind result_bind]. by apply IH.
Qed.

Lemma least_nonneg ks : ∀ k, 0 ≤ k → Forall (λ k, 0 ≤ k) ks → 0 ≤ foldl Z.min k ks.
Proof. induction ks as [|j ks IH]; intros k Hk Hf; [done|]. apply Forall_cons in Hf as [Hj Hf]. cbn. apply IH; [lia|done]. Qed.

(** Amounts are not negative. *)
Lemma not_negative a k l ks message : counts x a k → 0 ≤ k → Forall2 (λ d k, counts x d k ∧ 0 ≤ k) l ks →
  refuse_negative a l message = Ok tt.
Proof.
  intros Ha Hk Hl. unfold refuse_negative.
  destruct (least_counts l a k ks Ha) as (d & -> & Hd); [eapply Forall2_impl; [exact Hl|by intros ?? []]|].
  cbn [dec mbind result_bind]. unfold decimal_lt. rewrite (counts_order x d (of_Z 0) _ 0 is_lt Hd zero_counts).
  cbn [dec mbind result_bind]. assert (0 ≤ foldl Z.min k ks) as Hle.
  { apply least_nonneg; [done|]. clear -Hl. induction Hl as [|?? ?? []]; by constructor. }
  unfold is_lt. destruct (Z.compare_spec (foldl Z.min k ks) 0); [done|lia|done].
Qed.

End native.

Create HintDb counted.
#[export] Hint Resolve q_counts dec_add dec_sub dec_min dec_max amount_reads zero_counts : counted.
#[export] Hint Extern 1 (Z.abs _ < _) => unfold LIMIT in *; lia : counted.
#[export] Hint Extern 1 (0 ≤ _ < LIMIT) => unfold LIMIT in *; lia : counted.
#[export] Hint Extern 1 (_ ≤ Z.max _ _) => lia : counted.

(** The next step of a calculation on counts. *)
Ltac counted := eapply returns_bind; [solve [eauto with counted]|cbn beta; intros ? ?].
(** ... and that of an argument. *)
Tactic Notation "argument" ident(d) := eapply returns_bind; [solve [eauto with counted]|intros d [? ?]].

Lemma limit_charge_counts mu charge amount residual c k r : 0 ≤ mu ≤ 6 →
  counts (- mu) charge c → counts (- mu) amount k → counts (- mu) residual r → 0 ≤ k < LIMIT → 0 ≤ r < LIMIT →
  c ≤ Z.max 0 (k - r) → returns (limit_charge charge amount residual) (λ d, counts (- mu) d c).
Proof.
  intros Hmu Hc Hk Hr Hk0 Hr0 Hle. unfold limit_charge. counted. counted.
  eapply returns_weaken; [eauto with counted|]. intros d Hd. by rewrite Z.min_l in Hd.
Qed.

Lemma closing_counts mu amount charge k c : 0 ≤ mu ≤ 6 → counts (- mu) amount k → counts (- mu) charge c →
  0 ≤ k < LIMIT → 0 ≤ c < LIMIT → returns (closing mu amount charge) (λ d, counts (- mu) d (k - c)).
Proof. intros Hmu Hk Hc Hk0 Hc0. unfold closing. counted. eauto with counted. Qed.
#[export] Hint Resolve limit_charge_counts closing_counts : counted.

(** A month and more of a book: what it closes at. *)
Record depreciated (x : Z) (r : DepreciationResult) (c j k' j' n' : Z) : Prop := {
  depreciated_charge : counts x (charge r) c;
  depreciated_unimpaired : counts x (unimpaired_charge r) j;
  depreciated_closing : counts x (closing_carrying_amount r) k';
  depreciated_unimpaired_closing : counts x (closing_unimpaired_carrying_amount r) j';
  depreciated_life : closing_remaining_life_months r = n';
}.

(** The charge of [p] periods, of the months that remain. *)
Definition book_charge (m : DepreciationMethod) (r u n p k : Z) : Z :=
  if decide (n = 0) then 0 else reference_charge m r u n (Z.min p n) k.

Lemma book_charge_bounds m r u n p k : 0 ≤ r → 0 < u → 0 ≤ k → 0 ≤ n → 0 < p →
  0 ≤ book_charge m r u n p k ≤ Z.max 0 (k - r) ∧ (0 < n ≤ p → book_charge m r u n p k = Z.max 0 (k - r)).
Proof.
  intros Hr Hu Hk Hn Hp. unfold book_charge. case_decide; [lia|]. split.
  - apply reference_charge_bounds; lia.
  - intros H1. rewrite Z.min_r by lia. apply reference_charge_all; lia.
Qed.

(** C27. Depreciation is the reference schedule, which stops at the residual
    value: for amounts given as decimals that count minor units, not negative and
    below 10^20 of them, in a currency of at most six places, and books that live
    less than a million months, [p] periods charge what the reference charges for
    as many of them as remain, in the books and without the impairments; the
    closing amounts are less by the charges, and the life by the periods. No
    amount falls below the residual value for it, and the last month leaves
    exactly that value. *)
Theorem depreciation_exact mu carrying residual unimpaired k r j u n p method :
  0 ≤ mu ≤ 6 → amount_is (- mu) carrying k → amount_is (- mu) residual r → amount_is (- mu) unimpaired j →
  0 < u < 10 ^ 6 → 0 ≤ n < 10 ^ 6 → 0 < p →
  returns (calculate_depreciation carrying residual unimpaired n u p (AMethod method) mu)
    (λ d, let charge := book_charge method r u n p in
      depreciated (- mu) d (charge k) (charge j) (k - charge k) (j - charge j) (n - Z.min p n) ∧
      ∀ i, 0 ≤ i → Z.min i r ≤ i - charge i ≤ i ∧ (0 < n ≤ p → i - charge i = Z.min i r)).
Proof.
  intros Hmu Hc Hr Hj Hu Hn Hp. unfold calculate_depreciation. argument a. argument b. argument c.
  cbn [mbind result_bind]. rewrite (proj2 (Z.leb_gt u 0)), (proj2 (Z.ltb_ge n 0)), (proj2 (Z.leb_gt p 0)) by lia.
  cbn [orb raise_if mbind result_bind]. cbv zeta.
  assert (∀ i, 0 ≤ i → Z.min i r ≤ i - book_charge method r u n p i ≤ i ∧ (0 < n ≤ p → i - book_charge method r u n p i = Z.min i r)) as Hall.
  { intros i Hi. destruct (book_charge_bounds method r u n p i) as [H1' H2']; [lia..|]. split; [lia|]. intros Hnp. specialize (H2' Hnp). lia. }
  destruct (book_charge_bounds method r u n p k) as [Hbk _]; [lia..|].
  destruct (book_charge_bounds method r u n p j) as [Hbj _]; [lia..|].
  unfold book_charge in Hbk, Hbj |- * at 1 2 3 4. destruct (decide (n = 0)) as [->|Hn0].
  { rewrite Z.min_r by lia. cbn [Z.eqb]. counted. eexists. split; [done|]. split; [|done]. split; rewrite ?Z.sub_0_r; done. }
  rewrite (proj2 (Z.eqb_neq (Z.min p n) 0)) by lia.
  rewrite (not_negative mu Hmu a k [b; c] [r; j]) by (done || lia || (repeat constructor; done || lia)).
  cbn [mbind result_bind].
  eapply returns_bind; [apply (native_charges_spec mu Hmu method a b c k r j); done || lia|]. intros charges [Hk' Hj'].
  counted. counted. counted. counted. counted. counted.
  eexists. split; [done|]. split; [by split|done].
Qed.

(** ** Impairment *)

Lemma amounts_read mu label vs ks : 0 ≤ mu ≤ 6 → Forall2 (amount_is (- mu)) vs ks →
  returns (map_result (λ v, _amount v label) vs) (λ ds, Forall2 (λ d k, counts (- mu) d k ∧ 0 ≤ k < LIMIT) ds ks).
Proof.
  intros Hmu. induction 1 as [|v k vs ks Hv _ IH]; [by exists []|]. cbn [map_result]. argument d.
  eapply returns_bind; [exact IH|]. intros ds Hds. exists (d :: ds). split; [done|]. by constructor.
Qed.

(** The amounts of an impairment. *)
Record impaired (x : Z) (r : ImpairmentResult) (R lr lp pp pr k rs ls rd : Z) : Prop := {
  impaired_recoverable : counts x (recoverable_amount r) R;
  impaired_to_reserve : counts x (loss_to_reserve r) lr;
  impaired_to_pl : counts x (loss_to_profit_or_loss r) lp;
  impaired_from_pl : counts x (reversal_to_profit_or_loss r) pp;
  impaired_from_reserve : counts x (reversal_to_reserve r) pr;
  impaired_closing : counts x (impaired_carrying_amount r) k;
  impaired_reserve : counts x (closing_revaluation_reserve_balance r) rs;
  impaired_losses : counts x (closing_impairment_loss_balance r) ls;
  impaired_reductions : counts x (closing_reserve_reduction_balance r) rd;
}.

(** What a branch of the calculation assigns. *)
Definition impairing (x : Z) (i : Impairing) (lr lp pp pr k rs ls rd : Z) : Prop :=
  counts x (i_loss_to_reserve i) lr ∧ counts x (i_loss_to_pl i) lp ∧ counts x (i_reversal_to_pl i) pp ∧
  counts x (i_reversal_to_reserve i) pr ∧ counts x (i_closing i) k ∧ counts x (i_reserve i) rs ∧
  counts x (i_loss_balance i) ls ∧ counts x (i_reserve_reduction i) rd.

Lemma impairment_loss_counts mu zero carrying recoverable losses reductions reserve k R ls rd rs : 0 ≤ mu ≤ 6 → 
  counts (- mu) zero 0 → counts (- mu) carrying k → counts (- mu) recoverable R → counts (- mu) losses ls → counts (- mu) reductions rd →
  counts (- mu) reserve rs → 0 ≤ k < LIMIT → 0 ≤ R < LIMIT → 0 ≤ ls < LIMIT → 0 ≤ rd < LIMIT → 0 ≤ rs < LIMIT →
  returns (impairment_loss mu zero carrying recoverable losses reductions reserve)
    (λ i, let l := Z.min (k - R) rs in
      impairing (- mu) i l (k - R - l) 0 0 R (rs - l) (ls + (k - R - l)) (rd + l)).
Proof.
  intros. unfold impairment_loss. counted. counted. counted. counted. counted. counted. counted.
  eexists. split; [done|]. by split_and!.
Qed.

Lemma impairment_reversal_counts mu zero carrying ceiling recoverable losses reductions reserve k c R ls rd rs : 0 ≤ mu ≤ 6 → 
  counts (- mu) zero 0 → counts (- mu) carrying k → counts (- mu) ceiling c → counts (- mu) recoverable R → counts (- mu) losses ls → counts (- mu) reductions rd →
  counts (- mu) reserve rs → 0 ≤ k < LIMIT → 0 ≤ c < LIMIT → 0 ≤ R < LIMIT → 0 ≤ ls < LIMIT → 0 ≤ rd < LIMIT → 0 ≤ rs < LIMIT →
  returns (impairment_reversal mu zero carrying ceiling recoverable losses reductions reserve)
    (λ i, let p := Z.min (Z.min (R - k) (Z.max 0 (c - k))) (ls + rd) in
      let pl := Z.min p ls in let pr := Z.min (p - pl) rd in
      impairing (- mu) i 0 0 pl pr (k + (pl + pr)) (rs + pr) (ls - pl) (rd - pr)).
Proof.
  intros. unfold impairment_reversal. counted. counted. counted. counted.
  eapply returns_bind; [apply returns_dec, (least_counts mu); [eassumption|repeat (constructor; [eassumption|]); constructor]|]. cbn [foldl]. intros ? ?.
  counted. counted. counted. counted. counted. counted. counted. counted. counted.
  eexists. split; [done|]. by split_and!.
Qed.

(** The amounts that the branches assign, at the minor units. *)
Lemma impairment_rounded mu i R recoverable lr lp pp pr k rs ls rd : 0 ≤ mu ≤ 6 → counts (- mu) recoverable R →
  impairing (- mu) i lr lp pp pr k rs ls rd → Forall (λ v, 0 ≤ v < 2 * LIMIT) [lr; lp; pp; pr; k; rs; ls; rd] →
  returns (to_reserve ← _q mu (i_loss_to_reserve i); to_pl ← _q mu (i_loss_to_pl i);
           from_pl ← _q mu (i_reversal_to_pl i); from_reserve ← _q mu (i_reversal_to_reserve i);
           closing ← _q mu (i_closing i); reserve ← _q mu (i_reserve i);
           loss_balance ← _q mu (i_loss_balance i); reserve_reduction ← _q mu (i_reserve_reduction i);
           Ok (MkImpairment recoverable to_reserve to_pl from_pl from_reserve closing reserve loss_balance reserve_reduction))
    (λ r, impaired (- mu) r R lr lp pp pr k rs ls rd).
Proof.
  intros Hmu HR (H1 & H2 & H3 & H4 & H5 & H6 & H7 & H8) Hf. rewrite !Forall_cons in Hf.
  destruct Hf as (? & ? & ? & ? & ? & ? & ? & ? & _).
  counted. counted. counted. counted. counted. counted. counted. counted. eexists. split; [done|]. by split.
Qed.

Lemma greatest_bounds ks : ∀ k, 0 ≤ k < LIMIT → Forall (λ k, 0 ≤ k < LIMIT) ks → 0 ≤ foldl Z.max k ks < LIMIT.
Proof. induction ks as [|j ks IH]; intros k Hk Hf; [done|]. apply Forall_cons in Hf as [Hj Hf]. cbn. apply IH; [lia|done]. Qed.

(** C28. What an impairment moves, when every amount given is a decimal that
    counts minor units, not negative and below 10^20 of them, in a currency of at
    most six places, and a fair value or a value in use is given: the recoverable
    amount [R] is the largest one given. A loss brings the carrying amount down to
    it, out of the revaluation reserve first; a reversal brings it up to it, but
    not above what it would be without impairments nor by more than was impaired,
    to profit first. The carrying amount, the reserve and the two balances change
    by exactly the amounts reported, and none becomes negative. Of amounts with a
    fraction of a minor unit this does not hold ([dust_is_lost]). *)
Theorem impairment_balances mu carrying ceiling losses reductions reserve fair use k c ls rd rs R0 Rs :
  0 ≤ mu ≤ 6 → amount_is (- mu) carrying k → amount_is (- mu) ceiling c → amount_is (- mu) losses ls →
  amount_is (- mu) reductions rd → amount_is (- mu) reserve rs → Forall2 (amount_is (- mu)) (given [fair; use]) (R0 :: Rs) →
  returns (calculate_impairment carrying ceiling fair use losses reductions reserve mu)
    (λ r, let R := foldl Z.max R0 Rs in ∃ lr lp pp pr k' rs' ls' rd',
      impaired (- mu) r R lr lp pp pr k' rs' ls' rd' ∧ Forall (λ v, 0 ≤ v) [lr; lp; pp; pr; k'; rs'; ls'; rd'] ∧
      k' = k - lr - lp + pp + pr ∧ rs' = rs - lr + pr ∧ ls' = ls + lp - pp ∧ rd' = rd + lr - pr ∧
      (R ≤ k → k' = R ∧ lr = Z.min (k - R) rs ∧ pp = 0 ∧ pr = 0) ∧
      (k ≤ R → lr = 0 ∧ lp = 0 ∧ k' = k + Z.min (Z.min (R - k) (Z.max 0 (c - k))) (ls + rd) ∧ pp = Z.min (k' - k) ls)).
Proof.
  intros Hmu Hk Hc Hls Hrd Hrs Hgiven. unfold calculate_impairment.
  argument dk. argument dc. argument dls. argument drd. argument drs.
  eapply returns_bind; [exact (amounts_read mu _ _ _ Hmu Hgiven)|]. intros ds Hds.
  inversion Hds as [|d ? ds' ? [Hd Hd0] Hds']; subst.
  rewrite (not_negative mu Hmu d R0 _ (Rs ++ [k; c; ls; rd; rs])); [|done|lia|].
  2: { apply Forall2_app; [eapply Forall2_impl; [exact Hds'|]; intros ?? []; split; [done|lia]|].
       repeat constructor; done || lia. }
  cbn [mbind result_bind]. set (R := foldl Z.max R0 Rs).
  assert (0 ≤ R < LIMIT) as HR0.
  { apply greatest_bounds; [done|]. clear -Hds'. induction Hds' as [|?? ?? []]; by constructor. }
  eapply returns_bind; [apply returns_dec, (greatest_counts mu); [eassumption|eapply Forall2_impl; [exact Hds'|by intros ?? []]]|].
  cbn beta. fold R. intros largest Hlargest. counted. counted.
  unfold decimal_lt, decimal_gt. rewrite (counts_order (- mu) a dk R k is_lt), (counts_order (- mu) a dk R k is_gt) by done.
  cbn [dec mbind result_bind].
  set (p := Z.min (Z.min (R - k) (Z.max 0 (c - k))) (ls + rd)).
  destruct (Z.compare_spec R k) as [E|Hlt|Hgt]; cbn [is_lt is_gt].
  - cbn [mbind result_bind]. eapply returns_weaken; [apply (impairment_rounded mu _ R a 0 0 0 0 k rs ls rd); [done|done|by split_and!|]|].
    { rewrite !Forall_cons. unfold LIMIT in *. split_and!; done || lia. }
    intros r Hr. exists 0, 0, 0, 0, k, rs, ls, rd. rewrite !Forall_cons. split_and!; done || lia.
  - eapply returns_bind; [apply (impairment_loss_counts mu _ dk a dls drd drs k R ls rd rs); done || lia|]. cbn beta zeta. intros i Hi.
    eapply returns_weaken; [eapply (impairment_rounded mu); [done|done|exact Hi|]|].
    { rewrite !Forall_cons. unfold LIMIT in *. split_and!; done || lia. }
    intros r Hr. do 8 eexists. split; [exact Hr|]. rewrite !Forall_cons. split_and!; done || lia.
  - eapply returns_bind; [apply (impairment_reversal_counts mu _ dk dc a dls drd drs k c R ls rd rs); done || lia|]. cbn beta zeta. fold p. intros i Hi.
    eapply returns_weaken; [eapply (impairment_rounded mu); [done|done|exact Hi|]|].
    { rewrite !Forall_cons. unfold LIMIT in *. split_and!; done || lia. }
    intros r Hr. do 8 eexists. split; [exact Hr|]. rewrite !Forall_cons. split_and!; done || lia.
Qed.

(** ** Revaluation and disposal *)

(** The amounts of a revaluation. *)
Record revalued (x : Z) (r : RevaluationResult) (su lv rr lo k rs pl : Z) : Prop := {
  revalued_surplus : counts x (surplus_to_reserve r) su;
  revalued_loss_reversed : counts x (loss_reversed_to_profit_or_loss r) lv;
  revalued_reserve_reversed : counts x (reserve_reversed r) rr;
  revalued_loss : counts x (revaluation_loss_to_profit_or_loss r) lo;
  revalued_closing : counts x (revalued_carrying_amount r) k;
  revalued_reserve : counts x (closing_reserve_balance r) rs;
  revalued_prior_losses : counts x (closing_prior_loss_balance r) pl;
}.

(** What a branch of the calculation assigns. *)
Definition revaluing (x : Z) (r : Revaluing) (su lv rr lo rs pl : Z) : Prop :=
  counts x (r_surplus r) su ∧ counts x (r_loss_reversed r) lv ∧ counts x (r_reserve_reversed r) rr ∧
  counts x (r_loss r) lo ∧ counts x (r_reserve r) rs ∧ counts x (r_prior_loss r) pl.

Lemma counts_neg x a k : -1000 ≤ x → counts x a k → returns (decimal_neg a) (λ d, counts x d (- k)).
Proof.
  intros Hx Ha. destruct (counts_negate _ _ _ Ha) as (s & n & e & E & He & Hv & Hk).
  destruct Ha as (s0 & n0 & e0 & -> & _). cbn [copy_negate] in E. injection E as <- <- <-. cbn [decimal_neg].
  destruct (N.eqb_spec n0 0) as [->|Hn].
  - apply (fix_counts x); [lia|lia| |done]. rewrite <-Hv. cbn [value]. by destruct s0.
  - by apply (fix_counts x); [lia|lia| |].
Qed.

Lemma dec_neg mu a k : 0 ≤ mu ≤ 6 → counts (- mu) a k → returns (dec (decimal_neg a)) (λ d, counts (- mu) d (- k)).
Proof. intros Hmu Ha. apply returns_dec, counts_neg; [lia|done]. Qed.
#[export] Hint Resolve dec_neg : counted.

Lemma revalue_up_counts mu zero difference reserve losses i rs pl : 0 ≤ mu ≤ 6 → counts (- mu) zero 0 →
  counts (- mu) difference i → counts (- mu) reserve rs → counts (- mu) losses pl → 0 ≤ i < LIMIT → 0 ≤ rs < LIMIT → 0 ≤ pl < LIMIT →
  returns (revalue_up zero difference reserve losses)
    (λ r, let lv := Z.min i pl in revaluing (- mu) r (i - lv) lv 0 0 (rs + (i - lv)) (pl - lv)).
Proof. intros. unfold revalue_up. counted. counted. counted. counted. eexists. split; [done|]. by split_and!. Qed.

Lemma revalue_down_counts mu zero difference reserve losses i rs pl : 0 ≤ mu ≤ 6 → counts (- mu) zero 0 →
  counts (- mu) difference (- i) → counts (- mu) reserve rs → counts (- mu) losses pl → 0 ≤ i < LIMIT → 0 ≤ rs < LIMIT → 0 ≤ pl < LIMIT →
  returns (revalue_down zero difference reserve losses)
    (λ r, let rr := Z.min i rs in revaluing (- mu) r 0 0 rr (i - rr) (rs - rr) (pl + (i - rr))).
Proof.
  intros Hmu Hz Hd. unfold revalue_down. intros. counted. rewrite Z.opp_involutive in *.
  counted. counted. counted. counted. eexists. split; [done|]. by split_and!.
Qed.

Lemma revaluation_rounded mu r fair su lv rr lo k rs pl : 0 ≤ mu ≤ 6 → counts (- mu) fair k →
  revaluing (- mu) r su lv rr lo rs pl → Forall (λ v, 0 ≤ v < 2 * LIMIT) [su; lv; rr; lo; k; rs; pl] →
  returns (surplus ← _q mu (r_surplus r); loss_reversed ← _q mu (r_loss_reversed r);
           reserve_reversed ← _q mu (r_reserve_reversed r); loss ← _q mu (r_loss r); closing ← _q mu fair;
           reserve ← _q mu (r_reserve r); prior_loss ← _q mu (r_prior_loss r);
           Ok (MkRevaluation surplus loss_reversed reserve_reversed loss closing reserve prior_loss))
    (λ v, revalued (- mu) v su lv rr lo k rs pl).
Proof.
  intros Hmu Hk (H1 & H2 & H3 & H4 & H5 & H6) Hf. rewrite !Forall_cons in Hf. destruct Hf as (? & ? & ? & ? & ? & ? & ? & _).
  counted. counted. counted. counted. counted. counted. counted. eexists. split; [done|]. by split.
Qed.

(** C29. What a revaluation moves, when the four amounts given are decimals that
    count minor units, not negative and below 10^20 of them, in a currency of at
    most six places: the book closes at the fair value, and the difference is the
    surplus and the loss reversed, or the reserve reversed and the loss. A rise
    reverses earlier losses first, a fall uses the reserve first; the reserve and
    the balance of losses change by exactly these amounts, and none becomes
    negative. Of amounts with a fraction of a minor unit this does not hold
    ([fraction_is_rounded]). *)
Theorem revaluation_balances mu carrying fair reserve losses k f rs pl :
  0 ≤ mu ≤ 6 → amount_is (- mu) carrying k → amount_is (- mu) fair f → amount_is (- mu) reserve rs →
  amount_is (- mu) losses pl →
  returns (calculate_revaluation carrying fair reserve losses mu)
    (λ r, ∃ su lv rr lo rs' pl', revalued (- mu) r su lv rr lo f rs' pl' ∧
      Forall (λ v, 0 ≤ v) [su; lv; rr; lo; rs'; pl'] ∧
      f = k + su + lv - rr - lo ∧ rs' = rs + su - rr ∧ pl' = pl - lv + lo ∧
      (k ≤ f → lv = Z.min (f - k) pl ∧ rr = 0 ∧ lo = 0) ∧ (f ≤ k → rr = Z.min (k - f) rs ∧ su = 0 ∧ lv = 0)).
Proof.
  intros Hmu Hk Hf Hrs Hpl. unfold calculate_revaluation. argument dk. argument df. argument drs. argument dpl.
  rewrite (not_negative mu Hmu dk k _ [f; rs; pl]) by (done || lia || (repeat constructor; done || lia)).
  cbn [mbind result_bind]. counted. counted. counted.
  pose proof (zero_counts mu Hmu) as Hz. unfold decimal_lt, decimal_gt.
  rewrite (counts_order (- mu) a1 _ (f - k) 0 is_lt), (counts_order (- mu) a1 _ (f - k) 0 is_gt) by done. cbn [dec mbind result_bind].
  destruct (Z.compare_spec (f - k) 0) as [E|Hlt|Hgt]; cbn [is_lt is_gt].
  - cbn [mbind result_bind]. eapply returns_weaken; [apply (revaluation_rounded mu _ df 0 0 0 0 f rs pl); [done|done|by split_and!|]|].
    { rewrite !Forall_cons. unfold LIMIT in *. split_and!; done || lia. }
    intros r Hr. exists 0, 0, 0, 0, rs, pl. rewrite !Forall_cons. split_and!; done || lia.
  - eapply returns_bind; [apply (revalue_down_counts mu _ _ _ _ (k - f) rs pl); try (done || lia)|].
    { by replace (- (k - f)) with (f - k) by lia. }
    cbn beta zeta. intros r Hr. eapply returns_weaken; [eapply (revaluation_rounded mu); [done|done|exact Hr|]|].
    { rewrite !Forall_cons. unfold LIMIT in *. split_and!; done || lia. }
    intros v Hv. do 6 eexists. split; [exact Hv|]. rewrite !Forall_cons. split_and!; done || lia.
  - eapply returns_bind; [apply (revalue_up_counts mu _ _ _ _ (f - k) rs pl); done || lia|].
    cbn beta zeta. intros r Hr. eapply returns_weaken; [eapply (revaluation_rounded mu); [done|done|exact Hr|]|].
    { rewrite !Forall_cons. unfold LIMIT in *. split_and!; done || lia. }
    intros v Hv. do 6 eexists. split; [exact Hv|]. rewrite !Forall_cons. split_and!; done || lia.
Qed.

(** A disposal gains what it brings, net, above the carrying amount. *)
Theorem disposal_exact mu carrying proceeds costs k g c : 0 ≤ mu ≤ 6 → amount_is (- mu) carrying k →
  amount_is (- mu) proceeds g → amount_is (- mu) costs c →
  returns (calculate_disposal carrying proceeds costs mu)
    (λ r, counts (- mu) (net_proceeds r) (g - c) ∧ counts (- mu) (gain_or_loss r) (g - c - k)).
Proof.
  intros Hmu Hk Hg Hc. unfold calculate_disposal. argument dk. argument dg. argument dc.
  rewrite (not_negative mu Hmu dk k _ [g; c]) by (done || lia || (repeat constructor; done || lia)).
  cbn [mbind result_bind]. counted. counted. counted. counted. eexists. by split.
Qed.

(** ** Runs *)

Definition cents (k : Z) : amount_argument := ADecimal (Fin false (Z.to_N k) (-2)).

Lemma cents_amount k : 0 ≤ k < LIMIT → amount_is (- 2) (cents k) k.
Proof.
  intros Hk. eexists. split; [reflexivity|]. split; [|done]. exists false, (Z.to_N k), (-2).
  unfold LIMIT, PREC in *. split_and!; [done|lia|lia| |lia]. cbn [value]. unfold signed. by rewrite Z2N.id by lia.
Qed.

Definition depreciation_of (r : result finance_error DepreciationResult) : option (list string * Z) :=
  match r with
  | Ok d => Some (decimal_str <$> [charge d; unimpaired_charge d; closing_carrying_amount d; closing_unimpaired_carrying_amount d],
                  closing_remaining_life_months d)
  | Raise _ => None
  end.

(** The last three months of a book of 1,000.00, at twice the declining rate
    and at a straight line. *)
Example last_months :
  depreciation_of (calculate_depreciation (cents 100000) (cents 10000) (cents 120000) 3 36 2 (AMethod DOUBLE_DECLINING) 2)
    = Some (["108.03"; "129.63"; "891.97"; "1070.37"], 1) ∧
  depreciation_of (calculate_depreciation (cents 100000) (cents 10000) (cents 120000) 3 36 9 (AMethod DOUBLE_DECLINING) 2)
    = Some (["900.00"; "1100.00"; "100.00"; "100.00"], 0) ∧
  depreciation_of (calculate_depreciation (cents 100001) (cents 10000) (cents 120000) 8 36 3 (AMethod STRAIGHT_LINE) 2)
    = Some (["337.50"; "412.50"; "662.51"; "787.50"], 5).
Proof. vm_compute. repeat split. Qed.

(** A loss below the minor unit is reported as none, and taken off the carrying
    amount. *)
Example dust_is_lost :
  match calculate_impairment (ADecimal (Fin false 10004 (-3))) (cents 1000) (Some (cents 1000)) None (cents 0) (cents 0) (cents 0) 2 with
  | Ok r => decimal_str <$> [loss_to_reserve r; loss_to_profit_or_loss r; impaired_carrying_amount r]
  | Raise _ => []
  end = ["0.00"; "0.00"; "10.00"].
Proof. vm_compute. reflexivity. Qed.

(** A fall below the minor unit is reported as none; and a fair value with a
    fraction of one is not where the book closes. *)
Example fraction_is_rounded :
  let revaluation carrying fair :=
    match calculate_revaluation (ADecimal carrying) (ADecimal fair) (cents 0) (cents 0) 2 with
    | Ok r => decimal_str <$> [surplus_to_reserve r; revaluation_loss_to_profit_or_loss r; revalued_carrying_amount r]
    | Raise _ => []
    end in
  revaluation (Fin false 10004 (-3)) (Fin false 1000 (-2)) = ["0.00"; "0.00"; "10.00"] ∧
  revaluation (Fin false 1000 (-2)) (Fin false 10004 (-3)) = ["0.00"; "0.00"; "10.00"].
Proof. vm_compute. repeat split. Qed.

Lemma depreciation_exact_witness :
  returns (calculate_depreciation (cents 100000) (cents 10000) (cents 120000) 3 36 9 (AMethod DOUBLE_DECLINING) 2)
    (λ d, counts (- 2) (charge d) 90000 ∧ counts (- 2) (closing_carrying_amount d) 10000 ∧ closing_remaining_life_months d = 0).
Proof.
  eapply returns_weaken; [apply (depreciation_exact 2 _ _ _ 100000 10000 120000 36 3 9 DOUBLE_DECLINING)|].
  - lia.
  - by apply cents_amount.
  - by apply cents_amount.
  - by apply cents_amount.
  - lia.
  - lia.
  - lia.
  - intros d [[H1 _ H3 _ H5] _]. exact (conj H1 (conj H3 H5)).
Defined.

Lemma impairment_balances_witness :
  ∃ lr lp pp pr k rs ls rd,
    returns (calculate_impairment (cents 100000) (cents 100000) (Some (cents 60000)) (Some (cents 70000))
               (cents 0) (cents 0) (cents 20000) 2)
      (λ r, impaired (- 2) r 70000 lr lp pp pr k rs ls rd) ∧ lr = 20000 ∧ k = 70000 ∧ rd = 20000.
Proof.
  destruct (impairment_balances 2 (cents 100000) (cents 100000) (cents 0) (cents 0) (cents 20000) (Some (cents 60000))
    (Some (cents 70000)) 100000 100000 0 0 20000 60000 [70000]) as (r & Hr & lr & lp & pp & pr & k & rs & ls & rd & H & _ & _ & _ & _ & Hrd & Hloss & _);
    [lia|by apply cents_amount..| |].
  - constructor; [by apply cents_amount|]. constructor; [by apply cents_amount|]. constructor.
  - exists lr, lp, pp, pr, k, rs, ls, rd. destruct (Hloss ltac:(by vm_compute)) as (Hk & Hlr & _ & Hpr).
    split; [by exists r|]. subst. by vm_compute.
Defined.

Lemma revaluation_balances_witness :
  ∃ su lv rr lo rs pl,
    returns (calculate_revaluation (cents 100000) (cents 130000) (cents 5000) (cents 12000) 2)
      (λ r, revalued (- 2) r su lv rr lo 130000 rs pl) ∧ su = 18000 ∧ lv = 12000 ∧ pl = 0.
Proof.
  destruct (revaluation_balances 2 (cents 100000) (cents 130000) (cents 5000) (cents 12000) 100000 130000 5000 12000)
    as (r & Hr & su & lv & rr & lo & rs & pl & H & _ & Hf & _ & Hpl & Hup & _); [lia|by apply cents_amount..|].
  exists su, lv, rr, lo, rs, pl. destruct (Hup ltac:(lia)) as (Hlv & Hrr & Hlo).
  split; [by exists r|]. lia.
Defined.
