(* ===== verification/LearnExpression.v ===== *)
(** * Requirement expressions

    [dotmac_learning/requirements/expression.py]: the expression tree, node
    paths, the preorder [walk], the strict parser with its two safety bounds,
    the JSON form, the canonical text and its hash.

    A decoded JSON document is a [json]; a document that is itself a text is
    decoded first, by [json.loads], which is a parameter ([JsonText]).  The
    parser's [budget] is a one-element list shared by the whole parse: it is
    the state of a stateful call. *)

From S2P Require Import Prelude PyData.
From stdpp Require Import base gmap strings pretty list.
From Stdlib Require Import ZArith NArith Ascii SpecFloat.

(** ** The tree *)

Inductive Expr : Type :=
  | Cond (kind : string) (params : list (string * json))
  | All (children : list Expr)
  | Any (children : list Expr)
  | Not (child : Expr).

(** Induction through the children of a node. *)
Section expr_ind.
Context (P : Expr → Prop).
Context (Hcond : ∀ kind params, P (Cond kind params)).
Context (Hall : ∀ cs, Forall P cs → P (All cs)).
Context (Hany : ∀ cs, Forall P cs → P (Any cs)).
Context (Hnot : ∀ c, P c → P (Not c)).

Fixpoint Expr_nested_ind (e : Expr) : P e :=
  let fix go cs := match cs return Forall P cs with
    | [] => Forall_nil_2 _
    | c :: cs => Forall_cons_2 _ _ _ (Expr_nested_ind c) (go cs)
    end in
  match e with
  | Cond kind params => Hcond kind params
  | All cs => Hall cs (go cs)
  | Any cs => Hany cs (go cs)
  | Not c => Hnot c (Expr_nested_ind c)
  end.
End expr_ind.

(** The exceptions the requirements engine raises. *)
Inductive req_error : Type :=
  | ExpressionError (msg : string)
  | DuplicateConditionKindError (kind : string)
  | UnknownConditionKindError (kind : string)
  | ValueError (msg : string)
  | TypeError (msg : string)
  | KeyError
  | IndexError.

(** ** Node paths *)

Definition child_path (parent_path parent_kind : string) (index : nat) : string :=
  let segment := parent_kind +:+ "/" +:+ pretty index in
  if str_truthy parent_path then parent_path +:+ "/" +:+ segment else segment.

Definition node_kind (node : Expr) : string :=
  match node with
  | All _ => "all"
  | Any _ => "any"
  | Not _ => "not"
  | Cond _ _ => "cond"
  end.

Definition node_children (node : Expr) : list Expr :=
  match node with
  | All children | Any children => children
  | Not child => [child]
  | Cond _ _ => []
  end.

(** [enumerate(children)] with the paths of the children. *)
Definition child_nodes (path : string) (node : Expr) : list (string * Expr) :=
  imap (λ index child, (child_path path (node_kind node) index, child))
    (node_children node).

(** The loop of [walk]: pop a node, yield it, push its children from the last
    to the first. The head of the list is the top of the stack. *)
Fixpoint walk_loop (fuel : nat) (stack : list (string * Expr)) :
    list (string * Expr) :=
  match fuel, stack with
  | S fuel, (path, node) :: stack =>
      (path, node) :: walk_loop fuel
        (foldr (λ item stack, item :: stack) stack (child_nodes path node))
  | _, _ => []
  end.

(** The number of nodes, which is how often the loop runs. *)
Fixpoint expr_nodes (e : Expr) : nat :=
  match e with
  | Cond _ _ => 1
  | All cs | Any cs => S (sum_list_with expr_nodes cs)
  | Not c => S (expr_nodes c)
  end.

Definition walk (expr : Expr) : list (string * Expr) :=
  walk_loop (expr_nodes expr) [("", expr)].

(** ** The parser *)

Definition HARD_MAX_DEPTH : Z := 64.
Definition HARD_MAX_NODES : Z := 10000.

(** [f"{path or 'root'}: ..."]. *)
Definition at_path (path msg : string) : req_error :=
  ExpressionError ((if str_truthy path then path else "root") +:+ ": " +:+ msg).

Definition is_finite (f : spec_float) : bool :=
  match f with S754_zero _ | S754_finite _ _ _ => true | _ => false end.

(** A [json] has string keys and no other values, so two of the refusals of
    the source ("non-string key", "not JSON-compatible") cannot arise. *)
Fixpoint _check_json_value (value : json) (where_ : string) : result req_error unit :=
  match value with
  | JNull | JStr _ | JBool _ | JInt _ => Ok tt
  | JFloat f =>
      raise_if (negb (is_finite f)) (ExpressionError (where_ +:+ ": non-finite number"))
  | JList items =>
      (fix each items := match items with
       | [] => Ok tt
       | item :: items => _ ← _check_json_value item where_; each items
       end) items
  | JObj fields =>
      (fix each fields := match fields with
       | [] => Ok tt
       | (_, item) :: fields => _ ← _check_json_value item where_; each fields
       end) fields
  end.

(** [keys - {"cond", "params"}], sorted and printed as a list. *)
Definition extra_keys {A} (fields : list (string * A)) : list string :=
  filter (λ k, k ≠ "cond" ∧ k ≠ "params") fields.*1.
Definition repr_sorted (keys : list string) : string :=
  "[" +:+ str_join ", " (map py_repr_str (sort_keys ((λ k, (k, tt)) <$> keys)).*1) +:+ "]".

(** The [cond] branch of [_parse_node], on the value of the ["cond"] key. *)
Definition parse_cond (fields : list (string * json)) (kind : json) (path : string) :
    result req_error Expr :=
  _ ← raise_if (bool_decide (extra_keys fields ≠ []))
        (at_path path ("unknown keys " +:+ repr_sorted (extra_keys fields)));
  match kind with
  | JStr kind =>
      if str_truthy kind then
        match assoc_get "params" fields with
        | None => Raise (at_path path "cond requires params")
        | Some (JObj params) =>
            _ ← _check_json_value (JObj params) (if str_truthy path then path else "root");
            Ok (Cond kind params)
        | Some _ => Raise (at_path path "params must be an object")
        end
      else Raise (at_path path "cond kind must be a string")
  | _ => Raise (at_path path "cond kind must be a string")
  end.

(** The depth check and the decrement of the budget that open [_parse_node]. *)
Definition enter_node (path : string) (depth : Z) : ST Z req_error unit :=
  _ ← lift (raise_if (HARD_MAX_DEPTH <? depth)%Z (at_path path "nesting too deep"));
  _ ← modify (λ budget, budget - 1)%Z;
  budget ← gets (λ budget : Z, budget);
  lift (raise_if (budget <? 0)%Z (ExpressionError "expression has too many nodes")).

Fixpoint _parse_node (node : json) (path : string) (depth : Z) :
    ST Z req_error Expr :=
  _ ← enter_node path depth;
  match node with
  | JObj fields =>
      match assoc_get "cond" fields with
      | Some kind => lift (parse_cond fields kind path)
      | None =>
          match fields with
          | [(key, raw)] =>
              if String.eqb key "all" || String.eqb key "any" then
                match raw with
                | JList items =>
                    children ←
                      (fix each index items := match items with
                       | [] => mret []
                       | item :: items =>
                           child ← _parse_node item (child_path path key index) (depth + 1)%Z;
                           children ← each (S index) items;
                           mret (child :: children)
                       end) 0 items;
                    mret (if String.eqb key "all" then All children else Any children)
                | _ => raise (at_path path (key +:+ " must be a list"))
                end
              else if String.eqb key "not" then
                child ← _parse_node raw (child_path path "not" 0) (depth + 1)%Z;
                mret (Not child)
              else raise (at_path path ("unknown key " +:+ py_repr_str key))
          | _ => raise (at_path path "node must have exactly one of all/any/not/cond")
          end
      end
  | _ => raise (at_path path "node must be an object")
  end.

(** [json.loads]: the decoded value, or the text of its [ValueError]. *)
Class JsonText : Type := {
  json_loads : string → result string json;
}.

Definition parse_decoded (document : json) : result req_error Expr :=
  (_parse_node document "" 1 HARD_MAX_NODES).1.

Definition parse `{JsonText} (document : json) : result req_error Expr :=
  match document with
  | JStr text =>
      match json_loads text with
      | Ok document => parse_decoded document
      | Raise exc => Raise (ExpressionError ("malformed JSON: " +:+ exc))
      end
  | document => parse_decoded document
  end.

(** ** The JSON form *)

Fixpoint to_data (expr : Expr) : json :=
  match expr with
  | Cond kind params => JObj [("cond", JStr kind); ("params", JObj params)]
  | Not child => JObj [("not", to_data child)]
  | All children => JObj [("all", JList (map to_data children))]
  | Any children => JObj [("any", JList (map to_data children))]
  end.

Definition to_json `{Runtime} (expr : Expr) : string := json_dumps (to_data expr).

Definition content_hash `{Runtime} (expr : Expr) : string :=
  sha256_hexdigest (to_json expr).

Definition combine_additive (parent own : Expr) : Expr := All [parent; own].

(** ** Specifications *)

(** The nodes in preorder, children in declared order. *)
Fixpoint preorder_nodes (path : string) (e : Expr) : list (string * Expr) :=
  (path, e) ::
  let fix go kind index cs := match cs with
    | [] => []
    | c :: cs => preorder_nodes (child_path path kind index) c ++ go kind (S index) cs
    end in
  match e with
  | Cond _ _ => []
  | All cs => go "all" 0 cs
  | Any cs => go "any" 0 cs
  | Not c => preorder_nodes (child_path path "not" 0) c
  end.

(** The number of nodes on the longest path from the root to a leaf. *)
Fixpoint expr_depth (e : Expr) : nat :=
  match e with
  | Cond _ _ => 1
  | All cs | Any cs => S (foldr (λ c m, max (expr_depth c) m) 0 cs)
  | Not c => S (expr_depth c)
  end.

(** The values [_check_json_value] accepts. *)
Fixpoint json_finite (j : json) : bool :=
  match j with
  | JNull | JStr _ | JBool _ | JInt _ => true
  | JFloat f => is_finite f
  | JList items => forallb json_finite items
  | JObj fields => forallb (λ kv, json_finite kv.2) fields
  end.

(** The conditions of an expression are named and their parameters finite. *)
Fixpoint conds_ok (e : Expr) : bool :=
  match e with
  | Cond kind params => str_truthy kind && json_finite (JObj params)
  | All cs | Any cs => forallb conds_ok cs
  | Not c => conds_ok c
  end.

(** The two safety bounds. *)
Definition within_bounds (e : Expr) : Prop :=
  (Z.of_nat (expr_depth e) ≤ HARD_MAX_DEPTH ∧ Z.of_nat (expr_nodes e) ≤ HARD_MAX_NODES)%Z.

(** The grammar of requirement documents: which expression a decoded document
    denotes. A condition may list its two keys in either order. *)
Inductive denotes : json → Expr → Prop :=
  | denotes_cond fields kind params :
      fields ≡ₚ [("cond", JStr kind); ("params", JObj params)] →
      str_truthy kind = true → json_finite (JObj params) = true →
      denotes (JObj fields) (Cond kind params)
  | denotes_all docs cs :
      Forall2 denotes docs cs → denotes (JObj [("all", JList docs)]) (All cs)
  | denotes_any docs cs :
      Forall2 denotes docs cs → denotes (JObj [("any", JList docs)]) (Any cs)
  | denotes_not doc c :
      denotes doc c → denotes (JObj [("not", doc)]) (Not c).

(** A decoded document is a [dict] all the way down: no object repeats a
    key. *)
Fixpoint is_decoded (j : json) : Prop :=
  match j with
  | JList items => foldr (λ x P, is_decoded x ∧ P) True items
  | JObj fields => NoDup fields.*1 ∧ foldr (λ kv P, is_decoded kv.2 ∧ P) True fields
  | _ => True
  end.

(** The decoded document [parse] reads: [json.loads] of a text, the document
    itself otherwise. *)
Definition document_of `{JsonText} (document v : json) : Prop :=
  match document with
  | JStr text => json_loads text = Ok v
  | _ => v = document
  end.
