(* ===== verification/LearnConditions.v ===== *)
(** * Learner facts and typed conditions

    [dotmac_learning/requirements/facts.py] and [conditions.py]: the facts a
    condition may read, the registry of condition kinds, the built-in kinds
    and their evaluators.

    A condition's parameters are a pydantic model. The models of the source are
    the constructors of [BaseModel] (a product's own model keeps its decoded
    fields), a model class is a [ParamsModel], and [model_validate] is a
    parameter: [Pydantic]. What the models of the source declare of their
    fields is [PydanticLaws]. *)

From S2P Require Import Prelude PyData PyTime LearnExpression.
From stdpp Require Import base gmap strings pretty list.
From Stdlib Require Import ZArith NArith Ascii SpecFloat.

(** ** Facts *)

Inductive TargetKind : Type := course_access | activity_attempt.

#[export] Instance TargetKind_eq_dec : EqDecision TargetKind.
Proof. solve_decision. Defined.
#[export] Program Instance TargetKind_countable : Countable TargetKind := {|
  encode k := encode (match k with course_access => false | activity_attempt => true end);
  decode p := (λ b : bool, if b then activity_attempt else course_access) <$> decode p
|}.
Next Obligation. by intros []. Qed.

(** The text of the literal. *)
Definition target_kind_str (k : TargetKind) : string :=
  match k with course_access => "course_access" | activity_attempt => "activity_attempt" end.

Record Target : Type := MkTarget {
  target_kind : TargetKind;
  target_id : UUID;
}.

Record Route : Type := MkRoute {
  track_id : option UUID;
  predecessor_course_id : option UUID;
}.

Record LearnerFacts : Type := MkLearnerFacts {
  facts_tenant_id : UUID;
  facts_person_id : UUID;
  facts_now : datetime;
  completed_course_ids : gset UUID;
  certificate_course_ids : gset UUID;
  best_fraction_by_activity : gmap UUID spec_float;
  course_final_fraction : gmap UUID spec_float;
  course_grade_fraction : gmap UUID spec_float;
  attempts_by_activity : gmap UUID Z;
  enrolled_at_by_target : gmap (TargetKind * UUID) datetime;
  approvals : gmap (string * UUID * string) string;
  routes_by_course : gmap UUID (list Route);
  product_facts : gmap string json;
}.

(** ** Condition specifications *)

Inductive ReferenceKind : Type := ref_course | ref_activity.
#[export] Instance ReferenceKind_eq_dec : EqDecision ReferenceKind.
Proof. solve_decision. Defined.

Record Reference : Type := MkReference {
  ref_kind : ReferenceKind;
  ref_id : UUID;
}.

Record EvidenceRef : Type := MkEvidenceRef {
  ev_kind : string;
  ev_id : string;
}.
#[export] Instance EvidenceRef_eq_dec : EqDecision EvidenceRef.
Proof. solve_decision. Defined.

Record LeafContext : Type := MkLeafContext {
  ctx_facts : LearnerFacts;
  ctx_target : Target;
  ctx_path : string;
}.

Record LeafResult : Type := MkLeafResult {
  leaf_passed : bool;
  leaf_code : string;
  leaf_params : list (string * json);
  leaf_evidence : list EvidenceRef;
  leaf_indeterminate : bool;
}.

Inductive Subject : Type := subject_activity | subject_course_final | subject_course_grade.

Definition subject_str (s : Subject) : string :=
  match s with
  | subject_activity => "activity"
  | subject_course_final => "course_final"
  | subject_course_grade => "course_grade"
  end.

Inductive BaseModel : Type :=
  | CourseParams (course_id : UUID)
  | MinimumScoreParams (subject : Subject) (score_ref_id : UUID) (min_pct : Z)
  | AttemptsAtLeastParams (activity_id : UUID) (n : Z)
  | EnrolledBeforeParams (at_ : datetime)
  | ManualApprovalParams (approver_permission : string)
  | TrackPositionParams (track : UUID)
  | ProductParams (model : string) (fields : list (string * json)).

Inductive ParamsModel : Type :=
  | CourseModel | MinimumScoreModel | AttemptsAtLeastModel | EnrolledBeforeModel
  | ManualApprovalModel | TrackPositionModel | ProductModel (model : string).

(** [type(value)]. *)
Definition model_of (v : BaseModel) : ParamsModel :=
  match v with
  | CourseParams _ => CourseModel
  | MinimumScoreParams _ _ _ => MinimumScoreModel
  | AttemptsAtLeastParams _ _ => AttemptsAtLeastModel
  | EnrolledBeforeParams _ => EnrolledBeforeModel
  | ManualApprovalParams _ => ManualApprovalModel
  | TrackPositionParams _ => TrackPositionModel
  | ProductParams model _ => ProductModel model
  end.

(** [cls.__name__]. *)
Definition model_name (m : ParamsModel) : string :=
  match m with
  | CourseModel => "CourseParams"
  | MinimumScoreModel => "MinimumScoreParams"
  | AttemptsAtLeastModel => "AttemptsAtLeastParams"
  | EnrolledBeforeModel => "EnrolledBeforeParams"
  | ManualApprovalModel => "ManualApprovalParams"
  | TrackPositionModel => "TrackPositionParams"
  | ProductModel model => model
  end.

(** [model.model_validate(fields)]; [None] is its [ValidationError]. *)
Class Pydantic : Type := {
  model_validate : ParamsModel → list (string * json) → option BaseModel;
}.

(** The declared constraints of a params model: [strict], [ge], [le],
    [min_length] and [AwareDatetime]. *)
Definition params_valid (v : BaseModel) : Prop :=
  match v with
  | MinimumScoreParams _ _ min_pct => (1 ≤ min_pct ≤ 100)%Z
  | AttemptsAtLeastParams _ n => (1 ≤ n)%Z
  | EnrolledBeforeParams at_ => is_naive at_ = false
  | ManualApprovalParams approver_permission => str_truthy approver_permission = true
  | CourseParams _ | TrackPositionParams _ | ProductParams _ _ => True
  end.

Class PydanticLaws (P : Pydantic) : Prop := {
  validate_type m fields v : model_validate m fields = Some v → model_of v = m;
  validate_valid m fields v : model_validate m fields = Some v → params_valid v;
  validate_course u :
    model_validate CourseModel [("course_id", JStr (str_uuid u))] = Some (CourseParams u);
  validate_track u :
    model_validate TrackPositionModel [("track_id", JStr (str_uuid u))]
    = Some (TrackPositionParams u);
}.

Record ConditionSpec : Type := MkConditionSpec {
  spec_kind : string;
  params_model : ParamsModel;
  spec_targets : list TargetKind;
  spec_references : BaseModel → result req_error (list Reference);
  monotone : bool;
  spec_evaluate : BaseModel → LeafContext → result req_error LeafResult;
}.

(** ** The registry *)

Abbreviation ConditionRegistry := (gmap string ConditionSpec).

(** The loop of [ConditionRegistry.from_specs]. *)
Fixpoint register_specs (by_kind : ConditionRegistry) (specs : list ConditionSpec) :
    result req_error ConditionRegistry :=
  match specs with
  | [] => Ok by_kind
  | spec :: specs =>
      _ ← raise_if (bool_decide (is_Some (by_kind !! spec_kind spec)))
            (DuplicateConditionKindError (spec_kind spec));
      register_specs (<[spec_kind spec := spec]> by_kind) specs
  end.
Definition from_specs (specs : list ConditionSpec) : result req_error ConditionRegistry :=
  register_specs ∅ specs.

Definition registry_get (r : ConditionRegistry) (kind : string) : option ConditionSpec :=
  r !! kind.

Definition registry_require (r : ConditionRegistry) (kind : string) :
    result req_error ConditionSpec :=
  match r !! kind with
  | None => Raise (UnknownConditionKindError kind)
  | Some spec => Ok spec
  end.

Definition registry_kinds (r : ConditionRegistry) : list string :=
  (sort_keys ((λ kv : string * ConditionSpec, (kv.1, tt)) <$> map_to_list r)).*1.

Definition registry_contains (r : ConditionRegistry) (kind : string) : bool :=
  bool_decide (is_Some (r !! kind)).

(** ** Leaf results *)

(** [_typed]: the type check that fails. *)
Definition type_error {A} (expected : ParamsModel) (value : BaseModel) : result req_error A :=
  Raise (TypeError ("expected " +:+ model_name expected +:+ ", got " +:+
                    model_name (model_of value))).

Definition _pass (kind : string) (params : list (string * json))
    (evidence : list EvidenceRef) : LeafResult :=
  MkLeafResult true kind params evidence false.

Definition _fail (code : string) (params : list (string * json)) : LeafResult :=
  MkLeafResult false code params [] false.

Definition _missing (fact : string) (params : list (string * json)) : LeafResult :=
  MkLeafResult false "fact_missing" (("fact", JStr fact) :: params) [] true.

(** ** The built-in conditions *)

Definition _course_completed (params : BaseModel) (ctx : LeafContext) :
    result req_error LeafResult :=
  match params with
  | CourseParams course_id =>
      let detail := [("course_id", JStr (str_uuid course_id))] in
      Ok (if bool_decide (course_id ∈ completed_course_ids (ctx_facts ctx)) then
            _pass "course_completed" detail
              [MkEvidenceRef "course_completion" (str_uuid course_id)]
          else _fail "course_not_completed" detail)
  | _ => type_error CourseModel params
  end.

Definition _certificate_held (params : BaseModel) (ctx : LeafContext) :
    result req_error LeafResult :=
  match params with
  | CourseParams course_id =>
      let detail := [("course_id", JStr (str_uuid course_id))] in
      Ok (if bool_decide (course_id ∈ certificate_course_ids (ctx_facts ctx)) then
            _pass "certificate_held" detail
              [MkEvidenceRef "certificate" (str_uuid course_id)]
          else _fail "certificate_missing" detail)
  | _ => type_error CourseModel params
  end.

(** [n / 100] as a binary64 [float]: both operands are exact, and the division
    rounds once, to nearest even. *)
Definition float_of_Z (z : Z) : spec_float := binary_normalize 53 1024 z 0 false.
Definition pct_fraction (pct : Z) : spec_float :=
  SFdiv 53 1024 (float_of_Z pct) (float_of_Z 100).

Example pct_fraction_70 : pct_fraction 70 = S754_finite false 6305039478318694 (-53).
Proof. reflexivity. Qed.

(** The source of the fractions, its name and the evidence kind of a subject. *)
Definition score_source (subject : Subject) (facts : LearnerFacts) :
    gmap UUID spec_float * string * string :=
  match subject with
  | subject_activity =>
      (best_fraction_by_activity facts, "best_fraction_by_activity", "score")
  | subject_course_final => (course_final_fraction facts, "course_final_fraction", "gradebook")
  | subject_course_grade => (course_grade_fraction facts, "course_grade_fraction", "gradebook")
  end.

Definition _minimum_score (params : BaseModel) (ctx : LeafContext) :
    result req_error LeafResult :=
  match params with
  | MinimumScoreParams subject ref_id min_pct =>
      let '(source, fact, evidence) := score_source subject (ctx_facts ctx) in
      let detail := [("subject", JStr (subject_str subject));
                     ("ref_id", JStr (str_uuid ref_id)); ("min_pct", JInt min_pct)] in
      Ok (match source !! ref_id with
          | None => _missing fact detail
          | Some fraction =>
              let detail := detail ++ [("actual_fraction", JFloat fraction)] in
              if SFleb (pct_fraction min_pct) fraction then
                _pass "minimum_score" detail [MkEvidenceRef evidence (str_uuid ref_id)]
              else _fail "score_below_minimum" detail
          end)
  | _ => type_error MinimumScoreModel params
  end.

Definition _attempts_at_least (params : BaseModel) (ctx : LeafContext) :
    result req_error LeafResult :=
  match params with
  | AttemptsAtLeastParams activity_id n =>
      let detail := [("activity_id", JStr (str_uuid activity_id)); ("n", JInt n)] in
      Ok (match attempts_by_activity (ctx_facts ctx) !! activity_id with
          | None => _missing "attempts_by_activity" detail
          | Some used =>
              if (n <=? used)%Z then
                _pass "attempts_at_least" detail
                  [MkEvidenceRef "attempt" (str_uuid activity_id)]
              else _fail "attempts_below_minimum" (detail ++ [("actual", JInt used)])
          end)
  | _ => type_error AttemptsAtLeastModel params
  end.

Definition _enrolled_before (params : BaseModel) (ctx : LeafContext) :
    result req_error LeafResult :=
  match params with
  | EnrolledBeforeParams at_ =>
      let detail := [("at", JStr (isoformat at_))] in
      let target := ctx_target ctx in
      match enrolled_at_by_target (ctx_facts ctx) !! (target_kind target, target_id target) with
      | None => Ok (_missing "enrolled_at_by_target" detail)
      | Some first =>
          match dt_ltb first at_ with
          | None => Raise (TypeError "can't compare offset-naive and offset-aware datetimes")
          | Some true =>
              Ok (_pass "enrolled_before" detail
                    [MkEvidenceRef "enrollment" (str_uuid (target_id target))])
          | Some false => Ok (_fail "enrolled_after_cutoff" detail)
          end
      end
  | _ => type_error EnrolledBeforeModel params
  end.

Definition _manual_approval (params : BaseModel) (ctx : LeafContext) :
    result req_error LeafResult :=
  match params with
  | ManualApprovalParams approver_permission =>
      let detail := [("approver_permission", JStr approver_permission)] in
      let target := ctx_target ctx in
      Ok (match approvals (ctx_facts ctx)
                  !! (target_kind_str (target_kind target), target_id target, ctx_path ctx) with
          | Some approval_id =>
              _pass "manual_approval" detail [MkEvidenceRef "approval" approval_id]
          | None => _fail "approval_missing" detail
          end)
  | _ => type_error ManualApprovalModel params
  end.

(** The loop over the routes on the track. *)
Fixpoint track_loop (completed : gset UUID) (detail : list (string * json))
    (blocking : option UUID) (on_track : list Route) : LeafResult :=
  match on_track with
  | [] =>
      let text := match blocking with Some b => str_uuid b | None => "None" end in
      _fail "track_predecessor_incomplete"
        (detail ++ [("predecessor_course_id", JStr text)])
  | route :: on_track =>
      match predecessor_course_id route with
      | None => _pass "track_position" detail []
      | Some predecessor =>
          if bool_decide (predecessor ∈ completed) then
            _pass "track_position"
              (detail ++ [("predecessor_course_id", JStr (str_uuid predecessor))])
              [MkEvidenceRef "course_completion" (str_uuid predecessor)]
          else track_loop completed detail (Some predecessor) on_track
      end
  end.

Definition _track_position (params : BaseModel) (ctx : LeafContext) :
    result req_error LeafResult :=
  match params with
  | TrackPositionParams track =>
      let detail := [("track_id", JStr (str_uuid track))] in
      Ok (match routes_by_course (ctx_facts ctx) !! target_id (ctx_target ctx) with
          | None => _missing "routes_by_course" detail
          | Some routes =>
              let on_track := filter (λ route, track_id route = Some track) routes in
              match on_track with
              | [] => _missing "routes_by_course" detail
              | _ => track_loop (completed_course_ids (ctx_facts ctx)) detail None on_track
              end
          end)
  | _ => type_error TrackPositionModel params
  end.

(** ** References *)

Definition _course_refs (params : BaseModel) : result req_error (list Reference) :=
  match params with
  | CourseParams course_id => Ok [MkReference ref_course course_id]
  | _ => type_error CourseModel params
  end.

Definition _score_refs (params : BaseModel) : result req_error (list Reference) :=
  match params with
  | MinimumScoreParams subject ref_id _ =>
      Ok [MkReference match subject with subject_activity => ref_activity
                      | _ => ref_course end ref_id]
  | _ => type_error MinimumScoreModel params
  end.

Definition _attempt_refs (params : BaseModel) : result req_error (list Reference) :=
  match params with
  | AttemptsAtLeastParams activity_id _ => Ok [MkReference ref_activity activity_id]
  | _ => type_error AttemptsAtLeastModel params
  end.

Definition _no_refs (params : BaseModel) : result req_error (list Reference) := Ok [].

(** ** The built-in registry *)

Definition ALL_TARGETS : list TargetKind := [course_access; activity_attempt].

Definition BUILTIN_CONDITIONS : list ConditionSpec := [
  MkConditionSpec "course_completed" CourseModel ALL_TARGETS _course_refs true
    _course_completed;
  MkConditionSpec "certificate_held" CourseModel ALL_TARGETS _course_refs true
    _certificate_held;
  MkConditionSpec "minimum_score" MinimumScoreModel ALL_TARGETS _score_refs true
    _minimum_score;
  MkConditionSpec "attempts_at_least" AttemptsAtLeastModel [activity_attempt] _attempt_refs
    true _attempts_at_least;
  MkConditionSpec "enrolled_before" EnrolledBeforeModel ALL_TARGETS _no_refs true
    _enrolled_before;
  MkConditionSpec "manual_approval" ManualApprovalModel ALL_TARGETS _no_refs false
    _manual_approval;
  MkConditionSpec "track_position" TrackPositionModel [course_access] _no_refs true
    _track_position
].

Definition default_registry : result req_error ConditionRegistry :=
  from_specs BUILTIN_CONDITIONS.
