(* ===== verification/LearnEvaluate.v ===== *)
(** * Evaluation of a requirement expression

    [dotmac_learning/requirements/evaluate.py]: the leaf evaluation, the
    composition of [all], [any] and [not] over passed, failed and undecided
    children, and the result with its reasons and evidence. *)

From S2P Require Import Prelude PyData PyTime LearnExpression LearnConditions.
From stdpp Require Import base gmap strings pretty list.
From Stdlib Require Import ZArith NArith Ascii.

Record Reason : Type := MkReason {
  reason_code : string;
  reason_path : string;
  reason_params : list (string * json);
}.

Inductive NodeResult : Type := MkNodeResult {
  nr_path : string;
  nr_kind : string;
  nr_passed : bool;
  nr_reasons : list Reason;
  nr_evidence : list EvidenceRef;
  nr_children : list NodeResult;
  nr_satisfied : list Reason;
  nr_indeterminate : bool;
}.

Record EvaluationResult : Type := MkEvaluationResult {
  er_passed : bool;
  er_root : NodeResult;
  er_reasons : list Reason;
  er_evidence : list EvidenceRef;
  er_indeterminate : bool;
}.

(** The loop of [_dedupe]. *)
Fixpoint dedupe_loop (seen ordered evidence : list EvidenceRef) : list EvidenceRef :=
  match evidence with
  | [] => ordered
  | item :: evidence =>
      if bool_decide (item ∈ seen) then dedupe_loop seen ordered evidence
      else dedupe_loop (item :: seen) (ordered ++ [item]) evidence
  end.
Definition _dedupe (evidence : list EvidenceRef) : list EvidenceRef :=
  dedupe_loop [] [] evidence.

Definition _prefixed (reasons : list Reason) : list Reason :=
  map (λ r, MkReason ("not." +:+ reason_code r) (reason_path r) (reason_params r)) reasons.

Definition _concat (nodes : list NodeResult) (failed : bool) : list Reason :=
  nodes ≫= λ node, if failed then nr_reasons node else nr_satisfied node.

(** A leaf that cannot be decided. *)
Definition undecided_leaf (code kind path : string) : NodeResult :=
  MkNodeResult path kind false [MkReason code path [("kind", JStr kind)]] [] [] [] true.

Section evaluate.
Context `{Pydantic}.

Definition _eval_cond (kind : string) (fields : list (string * json)) (path : string)
    (facts : LearnerFacts) (registry : ConditionRegistry) (target : Target) :
    result req_error NodeResult :=
  spec ← registry_require registry kind;
  if negb (bool_decide (target_kind target ∈ spec_targets spec)) then
    Ok (undecided_leaf "kind_not_allowed_for_target" kind path)
  else
    match model_validate (params_model spec) fields with
    | None => Ok (undecided_leaf "invalid_params" kind path)
    | Some params =>
        leaf ← spec_evaluate spec params (MkLeafContext facts target path);
        let reason := MkReason (leaf_code leaf) path (leaf_params leaf) in
        Ok (if leaf_passed leaf then
              MkNodeResult path kind true [] (leaf_evidence leaf) [] [reason] false
            else
              MkNodeResult path kind false [reason] (leaf_evidence leaf) [] []
                (leaf_indeterminate leaf))
    end.

(** The [Not] branch of [_eval], on the evaluated child. *)
Definition eval_not (path : string) (child : NodeResult) : NodeResult :=
  if nr_indeterminate child then
    MkNodeResult path "not" false (nr_reasons child) (nr_evidence child) [child] [] true
  else if nr_passed child then
    MkNodeResult path "not" false (_prefixed (nr_satisfied child)) (nr_evidence child)
      [child] [] false
  else
    MkNodeResult path "not" true [] (nr_evidence child) [child]
      (_prefixed (nr_reasons child)) false.

(** The evidence of a group and whether a child is undecided. *)
Definition group_evidence (children : list NodeResult) : list EvidenceRef :=
  _dedupe (children ≫= nr_evidence).
Definition group_unknown (children : list NodeResult) : bool :=
  existsb nr_indeterminate children.

(** The [all] branch, on the evaluated children. *)
Definition eval_all (path : string) (children : list NodeResult) : NodeResult :=
  let evidence := group_evidence children in
  let unknown := group_unknown children in
  let definitely_false :=
    existsb (λ child, negb (nr_passed child) && negb (nr_indeterminate child)) children in
  if negb definitely_false && negb unknown then
    MkNodeResult path "all" true [] evidence children (_concat children false) false
  else
    MkNodeResult path "all" false (_concat children true) evidence children []
      (unknown && negb definitely_false).

(** The [any] branch, on the evaluated children. *)
Definition eval_any (path : string) (children : list NodeResult) : NodeResult :=
  let evidence := group_evidence children in
  let unknown := group_unknown children in
  match children with
  | [] => MkNodeResult path "any" false [MkReason "empty_any" path []] [] [] [] false
  | _ =>
      if existsb nr_passed children then
        MkNodeResult path "any" true [] evidence children
          (filter (λ child, nr_passed child = true) children ≫= nr_satisfied) false
      else
        MkNodeResult path "any" false (_concat children true) evidence children [] unknown
  end.

Fixpoint _eval (node : Expr) (path : string) (facts : LearnerFacts)
    (registry : ConditionRegistry) (target : Target) : result req_error NodeResult :=
  let fix each kind index cs := match cs with
    | [] => Ok []
    | c :: cs =>
        child ← _eval c (child_path path kind index) facts registry target;
        children ← each kind (S index) cs;
        Ok (child :: children)
    end in
  match node with
  | Cond kind fields => _eval_cond kind fields path facts registry target
  | Not c =>
      child ← _eval c (child_path path "not" 0) facts registry target;
      Ok (eval_not path child)
  | All cs => children ← each "all" 0 cs; Ok (eval_all path children)
  | Any cs => children ← each "any" 0 cs; Ok (eval_any path children)
  end.

Definition evaluate (expr : Expr) (facts : LearnerFacts) (registry : ConditionRegistry)
    (target : Target) : result req_error EvaluationResult :=
  root ← _eval expr "" facts registry target;
  Ok (MkEvaluationResult (nr_passed root) root
        (if negb (nr_passed root) then nr_reasons root else [])
        (_dedupe (nr_evidence root)) (nr_indeterminate root)).
End evaluate.

(** ** Specification: three-valued logic *)

(** The verdict on a node: [Some b] is decided, [None] is unknown. *)
Definition verdict : Type := option bool.

Definition verdict_of (r : NodeResult) : verdict :=
  if nr_indeterminate r then None else Some (nr_passed r).

(** Kleene's strong connectives. *)
Definition kleene_not (v : verdict) : verdict := negb <$> v.
Definition kleene_and (v w : verdict) : verdict :=
  match v, w with
  | Some false, _ | _, Some false => Some false
  | Some true, Some true => Some true
  | _, _ => None
  end.
Definition kleene_or (v w : verdict) : verdict :=
  match v, w with
  | Some true, _ | _, Some true => Some true
  | Some false, Some false => Some false
  | _, _ => None
  end.

(** The value of a tree under an assignment of verdicts to its leaves. *)
Section kleene.
Context (leaf : string → string → list (string * json) → verdict).

Fixpoint kleene (path : string) (e : Expr) : verdict :=
  let fix each f z kind index cs := match cs with
    | [] => z
    | c :: cs => f (kleene (child_path path kind index) c) (each f z kind (S index) cs)
    end in
  match e with
  | Cond kind params => leaf path kind params
  | All cs => each kleene_and (Some true) "all" 0 cs
  | Any cs => each kleene_or (Some false) "any" 0 cs
  | Not c => kleene_not (kleene (child_path path "not" 0) c)
  end.
End kleene.
