(* ===== verification/LearnValidate.v ===== *)
(** * Validation of a requirement expression before publication

    [dotmac_learning/requirements/validate.py]: the dependency edges, the two
    cycle searches, the constant test, and [validate] with its issues. The
    issues and the set of negated non-monotone leaves are the state the checks
    write; the catalog the caller supplies is a [ReferenceCatalog]. *)

From S2P Require Import Prelude PyData PyTime LearnExpression LearnConditions.
From stdpp Require Import base gmap strings pretty list sorting.
From Stdlib Require Import ZArith NArith Ascii.

Definition MAX_DEPTH : nat := 6.
Definition MAX_NODES : nat := 64.
Definition CERTIFICATE_FINAL_MIN_PCT : Z := 50.

Inductive Severity : Type := sev_error | sev_warning.

Record ValidationIssue : Type := MkIssue {
  severity : Severity;
  issue_code : string;
  issue_path : string;
  issue_message : string;
}.

Record ReferenceCatalog : Type := MkCatalog {
  course_exists : UUID → bool;
  activity_exists : UUID → bool;
  activity_max_attempts : UUID → option Z;
  activity_gradable : UUID → bool;
}.

(** ** Dependency graphs *)

(** [Mapping[UUID, set[UUID]]]. *)
Abbreviation Edges := (gmap UUID (gset UUID)).

(** [sorted(s)]. *)
Definition uuid_le (u v : UUID) : Prop := uuid_leb u v = true.
#[export] Instance uuid_le_dec u v : Decision (uuid_le u v).
Proof. unfold uuid_le. apply _. Defined.
Definition sorted_uuids (s : gset UUID) : list UUID := merge_sort uuid_le (elements s).

(** [sorted(edges.get(node, set()))]. *)
Definition neighbours (edges : Edges) (node : UUID) : list UUID :=
  sorted_uuids (default ∅ (edges !! node)).

(** *** [_cycle_through]: breadth-first search *)

(** The loop over the neighbours of [start], until one is [start] itself. *)
Fixpoint seed_queue (start : UUID) (nbrs : list UUID)
    (parents : gmap UUID (option UUID)) (queue : list UUID) :
    option (gmap UUID (option UUID) * list UUID) :=
  match nbrs with
  | [] => Some (parents, queue)
  | nxt :: nbrs =>
      if decide (nxt = start) then None
      else seed_queue start nbrs (<[nxt := None]> parents) (queue ++ [nxt])
  end.

(** The [while] loop over the parents: [chain] is the list so far, its last
    element first. *)
Fixpoint chain_loop (fuel : nat) (parents : gmap UUID (option UUID)) (chain : list UUID) :
    result req_error (list UUID) :=
  match fuel, chain with
  | S fuel, last :: _ =>
      match parents !! last with
      | None => Raise KeyError
      | Some None => Ok chain
      | Some (Some parent) => chain_loop fuel parents (parent :: chain)
      end
  | _, _ => Raise KeyError
  end.

(** The inner loop; the flag says whether it met [start]. *)
Fixpoint bfs_scan (start node : UUID) (nbrs : list UUID)
    (parents : gmap UUID (option UUID)) (queue : list UUID) :
    bool * gmap UUID (option UUID) * list UUID :=
  match nbrs with
  | [] => (false, parents, queue)
  | nxt :: nbrs =>
      if decide (nxt = start) then (true, parents, queue)
      else if decide (is_Some (parents !! nxt)) then bfs_scan start node nbrs parents queue
      else bfs_scan start node nbrs (<[nxt := Some node]> parents) (queue ++ [nxt])
  end.

Fixpoint bfs_loop (fuel : nat) (start : UUID) (edges : Edges)
    (parents : gmap UUID (option UUID)) (queue : list UUID) :
    result req_error (option (list UUID)) :=
  match fuel, queue with
  | S fuel, node :: queue =>
      match bfs_scan start node (neighbours edges node) parents queue with
      | (true, parents, _) =>
          chain ← chain_loop (size parents) parents [node];
          Ok (Some (start :: chain))
      | (false, parents, queue) => bfs_loop fuel start edges parents queue
      end
  | _, _ => Ok None
  end.

(** Every node a set of edges mentions. *)
Definition edge_nodes (edges : Edges) : gset UUID :=
  dom edges ∪ ⋃ (snd <$> map_to_list edges).

(** Every node enters the queue once, so the loop runs at most once per
    node. *)
Definition _cycle_through (start : UUID) (edges : Edges) :
    result req_error (option (list UUID)) :=
  match seed_queue start (neighbours edges start) ∅ [] with
  | None => Ok (Some [start])
  | Some (parents, queue) => bfs_loop (S (size (edge_nodes edges))) start edges parents queue
  end.

(** *** [find_cycles]: depth-first search *)

Inductive Status : Type := on_stack | finished.

(** [l[l.index(x):]] and [l[:l.index(x)]]. *)
Fixpoint from_index (x : UUID) (l : list UUID) : list UUID :=
  match l with
  | [] => []
  | y :: l' => if decide (x = y) then l else from_index x l'
  end.
Fixpoint before_index (x : UUID) (l : list UUID) : list UUID :=
  match l with
  | [] => []
  | y :: l' => if decide (x = y) then [] else y :: before_index x l'
  end.

(** [min(cycle)] of a non-empty list. *)
Fixpoint min_uuid (x : UUID) (l : list UUID) : UUID :=
  match l with
  | [] => x
  | y :: l => min_uuid (if uuid_ltb y x then y else x) l
  end.

(** The rotation of a cycle that starts at its smallest id. *)
Definition rotate_to_min (cycle : list UUID) : list UUID :=
  match cycle with
  | [] => []
  | x :: l => let m := min_uuid x l in from_index m cycle ++ before_index m cycle
  end.

(** What the search keeps: the states, the path, the iterators (each the
    neighbours still to come, the innermost first) and the cycles found. The
    keys of [seen] are the cycles themselves. *)
Record Dfs : Type := MkDfs {
  dfs_state : gmap UUID Status;
  dfs_path : list UUID;
  dfs_stack : list (list UUID);
  dfs_cycles : list (list UUID);
  dfs_seen : list (list UUID);
}.

(** The [for] loop over the innermost iterator: it records the cycles the path
    closes and stops at the first node not yet visited. *)
Fixpoint dfs_scan (state : gmap UUID Status) (path nbrs : list UUID)
    (cycles seen : list (list UUID)) :
    option (UUID * list UUID) * (list (list UUID) * list (list UUID)) :=
  match nbrs with
  | [] => (None, (cycles, seen))
  | nxt :: nbrs =>
      match state !! nxt with
      | None => (Some (nxt, nbrs), (cycles, seen))
      | Some on_stack =>
          let cycle := rotate_to_min (from_index nxt path) in
          if decide (cycle ∈ seen) then dfs_scan state path nbrs cycles seen
          else dfs_scan state path nbrs (cycles ++ [cycle]) (cycle :: seen)
      | Some finished => dfs_scan state path nbrs cycles seen
      end
  end.

(** One round of the [while] loop. *)
Definition dfs_step (edges : Edges) (d : Dfs) : Dfs :=
  match dfs_stack d with
  | [] => d
  | nbrs :: stack =>
      match dfs_scan (dfs_state d) (dfs_path d) nbrs (dfs_cycles d) (dfs_seen d) with
      | (Some (nxt, rest), (cycles, seen)) =>
          MkDfs (<[nxt := on_stack]> (dfs_state d)) (dfs_path d ++ [nxt])
            (neighbours edges nxt :: rest :: stack) cycles seen
      | (None, (cycles, seen)) =>
          match last (dfs_path d) with
          | Some node =>
              MkDfs (<[node := finished]> (dfs_state d)) (removelast (dfs_path d))
                stack cycles seen
          | None => MkDfs (dfs_state d) [] stack cycles seen
          end
      end
  end.

Fixpoint dfs_loop (fuel : nat) (edges : Edges) (d : Dfs) : Dfs :=
  match fuel, dfs_stack d with
  | S fuel, _ :: _ => dfs_loop fuel edges (dfs_step edges d)
  | _, _ => d
  end.

(** The body of the loop over the roots. Each round of [dfs_loop] visits or
    finishes a node, and no node is visited or finished twice. *)
Definition dfs_root (edges : Edges) (d : Dfs) (root : UUID) : Dfs :=
  match dfs_state d !! root with
  | Some _ => d
  | None =>
      dfs_loop (2 * size (edge_nodes edges)) edges
        (MkDfs (<[root := on_stack]> (dfs_state d)) [root] [neighbours edges root]
           (dfs_cycles d) (dfs_seen d))
  end.

Definition find_cycles (edges : Edges) : list (list UUID) :=
  dfs_cycles (foldl (dfs_root edges) (MkDfs ∅ [] [] [] []) (sorted_uuids (edge_nodes edges))).

(** ** Constant expressions *)

Fixpoint _constant (expr : Expr) : option bool :=
  match expr with
  | Cond _ _ => None
  | Not child => negb <$> _constant child
  | All children =>
      let values := map _constant children in
      if existsb (λ v, bool_decide (v = Some false)) values then Some false
      else if forallb (λ v, bool_decide (v = Some true)) values then Some true else None
  | Any children =>
      let values := map _constant children in
      if existsb (λ v, bool_decide (v = Some true)) values then Some true
      else if forallb (λ v, bool_decide (v = Some false)) values then Some false else None
  end.

(** ** Validation *)

(** The depth of a node, read off its path. *)
Definition path_depth (path : string) : nat :=
  if str_truthy path then (count_char "/" path + 1) / 2 + 1 else 1.

Definition _join (not_path kind sub_path : string) : string :=
  let base := if str_truthy not_path then not_path +:+ "/" +:+ kind +:+ "/0"
              else kind +:+ "/0" in
  if str_truthy sub_path then base +:+ "/" +:+ sub_path else base.

(** The state of [validate]: its issues and [non_monotone_under_not]. *)
Record Checks : Type := MkChecks {
  issues : list ValidationIssue;
  non_monotone_under_not : gset string;
}.

Definition add (sev : Severity) (code path message : string) : ST Checks req_error unit :=
  modify (λ c, MkChecks (issues c ++ [MkIssue sev code path message])
                 (non_monotone_under_not c)).

(** [for x in l: f(x)]. *)
Fixpoint for_each {A} (f : A → ST Checks req_error unit) (l : list A) :
    ST Checks req_error unit :=
  match l with
  | [] => mret tt
  | x :: l => _ ← f x; for_each f l
  end.

(** [if c: ...]. *)
Definition when (c : bool) (m : ST Checks req_error unit) : ST Checks req_error unit :=
  if c then m else mret tt.

Definition ref_kind_str (k : ReferenceKind) : string :=
  match k with ref_course => "course" | ref_activity => "activity" end.

Definition _check_references (refs : list Reference) (path : string)
    (catalog : ReferenceCatalog) (target : Target) : ST Checks req_error unit :=
  for_each (λ ref,
    exists_ ←
      match ref_kind ref with
      | ref_course =>
          _ ← when (bool_decide (target_kind target = course_access)
                    && bool_decide (ref_id ref = target_id target))
                (add sev_error "self_reference" path "course requires itself");
          mret (course_exists catalog (ref_id ref))
      | ref_activity => mret (activity_exists catalog (ref_id ref))
      end;
    when (negb exists_)
      (add sev_error "missing_reference" path
         (ref_kind_str (ref_kind ref) +:+ " " +:+ str_uuid (ref_id ref) +:+
          " does not exist in this tenant"))) refs.

Definition _check_thresholds (params : BaseModel) (path : string)
    (catalog : ReferenceCatalog) (now : datetime) : ST Checks req_error unit :=
  match params with
  | AttemptsAtLeastParams activity_id n =>
      let limit := if activity_exists catalog activity_id
                   then activity_max_attempts catalog activity_id else None in
      match limit with
      | Some limit =>
          when (limit <? n)%Z
            (add sev_error "impossible_threshold" path
               ("needs " +:+ pretty n +:+ " attempts but the activity allows " +:+
                pretty limit))
      | None => mret tt
      end
  | MinimumScoreParams subject ref_id _ =>
      when (match subject with subject_activity => true | _ => false end
            && activity_exists catalog ref_id && negb (activity_gradable catalog ref_id))
        (add sev_error "impossible_threshold" path
           "minimum score on an activity with no gradable items")
  | EnrolledBeforeParams at_ =>
      match dt_leb at_ now with
      | None => raise (TypeError "can't compare offset-naive and offset-aware datetimes")
      | Some past =>
          when past
            (add sev_warning "enrolled_before_in_past" path
               "cutoff is already in the past; new enrollments can never satisfy it")
      end
  | _ => mret tt
  end.

Section validate.
Context `{Pydantic}.

(** [_parsed_params]: the second component of the source's pair says whether
    the first is a model. *)
Definition _parsed_params (kind : string) (fields : list (string * json))
    (registry : ConditionRegistry) : option BaseModel * bool :=
  match registry_get registry kind with
  | None => (None, false)
  | Some spec =>
      match model_validate (params_model spec) fields with
      | Some params => (Some params, true)
      | None => (None, false)
      end
  end.

(** The edges of the references of a leaf. *)
Definition reference_edges (target : Target) (refs : list Reference) : list (UUID * UUID) :=
  (λ ref, (target_id target, ref_id ref)) <$> filter (λ ref, ref_kind ref = ref_course) refs.

Definition leaf_edges (target : Target) (registry : ConditionRegistry) (node : Expr) :
    result req_error (list (UUID * UUID)) :=
  match node with
  | Cond kind fields =>
      match _parsed_params kind fields registry, registry_get registry kind with
      | (Some params, true), Some spec =>
          reference_edges target <$> spec_references spec params
      | _, _ => Ok []
      end
  | _ => Ok []
  end.

Definition dependency_edges (target : Target) (expr : Expr) (registry : ConditionRegistry) :
    result req_error (list (UUID * UUID)) :=
  if negb (bool_decide (target_kind target = course_access)) then Ok []
  else
    each ← map_result (λ item, leaf_edges target registry item.2) (walk expr);
    Ok (concat each).

(** The [Not] part of the loop of [validate]: the non-monotone leaves under the
    node at [path]. *)
Definition non_monotone_leaf (registry : ConditionRegistry) (node : Expr) : bool :=
  match node with
  | Cond kind _ =>
      match registry_get registry kind with
      | Some spec => negb (monotone spec)
      | None => false
      end
  | _ => false
  end.
Definition negated_leaves (registry : ConditionRegistry) (path : string) (child : Expr) :
    gset string :=
  list_to_set ((λ item, _join path "not" item.1) <$>
    filter (λ item : string * Expr, non_monotone_leaf registry item.2 = true) (walk child)).

Definition collect_negated (registry : ConditionRegistry) (path : string) (node : Expr) :
    ST Checks req_error unit :=
  match node with
  | Not child =>
      modify (λ c, MkChecks (issues c)
        (non_monotone_under_not c ∪ negated_leaves registry path child))
  | _ => mret tt
  end.

Definition check_certificate (certificate_bearing : bool) (params : BaseModel)
    (path : string) : ST Checks req_error unit :=
  match params with
  | MinimumScoreParams _ _ min_pct =>
      when (certificate_bearing && (min_pct <? CERTIFICATE_FINAL_MIN_PCT)%Z)
        (add sev_error "below_certificate_floor" path
           ("minimum score below the " +:+ pretty CERTIFICATE_FINAL_MIN_PCT +:+ "% floor"))
  | _ => mret tt
  end.

(** The part of the loop that concerns a leaf. *)
Definition check_cond (registry : ConditionRegistry) (target : Target)
    (catalog : ReferenceCatalog) (now : datetime) (certificate_bearing : bool)
    (path kind : string) (fields : list (string * json)) : ST Checks req_error unit :=
  match registry_get registry kind with
  | None =>
      add sev_error "unknown_kind" path ("unknown condition kind " +:+ py_repr_str kind)
  | Some spec =>
      _ ← when (negb (bool_decide (target_kind target ∈ spec_targets spec)))
            (add sev_error "kind_not_allowed_for_target" path
               (kind +:+ " cannot be used on " +:+ target_kind_str (target_kind target)));
      match _parsed_params kind fields registry with
      | (Some params, true) =>
          refs ← lift (spec_references spec params);
          _ ← _check_references refs path catalog target;
          _ ← _check_thresholds params path catalog now;
          check_certificate certificate_bearing params path
      | _ => add sev_error "params_invalid" path ("invalid params for " +:+ kind)
      end
  end.

(** The body of the loop over the nodes. *)
Definition check_node (registry : ConditionRegistry) (target : Target)
    (catalog : ReferenceCatalog) (now : datetime) (certificate_bearing : bool)
    (item : string * Expr) : ST Checks req_error unit :=
  _ ← when (match item.2 with Any [] => true | _ => false end)
        (add sev_error "empty_any" item.1 "any() with no children can never pass");
  _ ← collect_negated registry item.1 item.2;
  match item.2 with
  | Cond kind fields =>
      check_cond registry target catalog now certificate_bearing item.1 kind fields
  | _ => mret tt
  end.

(** The first node below the depth limit. *)
Fixpoint check_depth (nodes : list (string * Expr)) : ST Checks req_error unit :=
  match nodes with
  | [] => mret tt
  | (path, _) :: nodes =>
      let depth := path_depth path in
      if (MAX_DEPTH <? depth)%nat then
        add sev_error "depth_exceeded" path
          ("depth " +:+ pretty depth +:+ " exceeds " +:+ pretty MAX_DEPTH)
      else check_depth nodes
  end.

(** The edges of the mapping and those of the expression. *)
Definition all_edges (extra_edges : Edges) (own : list (UUID * UUID)) : Edges :=
  foldl (λ edges e, <[e.1 := default ∅ (edges !! e.1) ∪ {[e.2]}]> edges) extra_edges own.

(** The names of a cycle, closed. *)
Definition cycle_names (cycle : list UUID) : string :=
  str_join " -> " (map str_uuid (cycle ++ take 1 cycle)).

Definition check_cycle (target : Target) (edges : Edges) : ST Checks req_error unit :=
  if bool_decide (target_kind target = course_access) then
    cycle ← lift (_cycle_through (target_id target) edges);
    match cycle with
    | Some cycle =>
        when (1 <? length cycle)%nat
          (add sev_error "cycle" "" ("requirement cycle: " +:+ cycle_names cycle))
    | None => mret tt
    end
  else mret tt.

Definition validate_checks (expr : Expr) (registry : ConditionRegistry) (target : Target)
    (catalog : ReferenceCatalog) (now : datetime) (extra_edges : option Edges)
    (certificate_bearing : bool) : ST Checks req_error unit :=
  let nodes := walk expr in
  _ ← when (MAX_NODES <? length nodes)%nat
        (add sev_error "too_many_nodes" ""
           (pretty (length nodes) +:+ " nodes exceeds " +:+ pretty MAX_NODES));
  _ ← check_depth nodes;
  _ ← for_each (check_node registry target catalog now certificate_bearing) nodes;
  negated ← gets non_monotone_under_not;
  _ ← for_each (λ leaf_path,
        add sev_error "negated_non_monotone" leaf_path
          "not() over a condition that can stop being satisfied is refused")
        (sort_keys ((λ k, (k, tt)) <$> elements negated)).*1;
  _ ← match _constant expr with
      | Some constant =>
          add sev_warning (if constant then "constant_true" else "constant_false") ""
            "expression does not depend on any learner fact"
      | None => mret tt
      end;
  own ← lift (dependency_edges target expr registry);
  check_cycle target (all_edges (default ∅ extra_edges) own).

Definition validate (expr : Expr) (registry : ConditionRegistry) (target : Target)
    (catalog : ReferenceCatalog) (now : datetime) (extra_edges : option Edges)
    (certificate_bearing : bool) : result req_error (list ValidationIssue) :=
  match validate_checks expr registry target catalog now extra_edges certificate_bearing
          (MkChecks [] ∅) with
  | (Ok _, checks) => Ok (issues checks)
  | (Raise exc, _) => Raise exc
  end.
End validate.
