(* ===== verification/LearnLegacy.v ===== *)
(** * The course access rule as a requirement expression

    [dotmac_learning/requirements/legacy.py], with the state and the message
    of [dotmac_learning/entitlements.py] it maps an evaluation back to. *)

From S2P Require Import Prelude PyData PyTime LearnExpression LearnConditions.
From S2P Require Import LearnEvaluate.
From stdpp Require Import base gmap strings pretty list.
From Stdlib Require Import ZArith NArith Ascii.

Record CourseAccessState : Type := MkCourseAccessState {
  course_id : UUID;
  locked : bool;
  locked_reason : option string;
  locked_until_course_id : option UUID;
}.

Definition _course_lock_reason (title : option string) (fallback : string) : string :=
  match title with
  | Some title =>
      if str_truthy title then
        "Complete " +:+ String quote_char (title +:+ String quote_char " to unlock this course.")
      else fallback
  | None => fallback
  end.

Definition PREVIOUS_COURSE_FALLBACK : string :=
  "Complete the previous course to unlock this course.".
Definition PREREQUISITE_FALLBACK : string :=
  "Complete the prerequisite course to unlock this course.".

Definition _route_expr (route : Route) : Expr :=
  match track_id route, predecessor_course_id route with
  | Some track, Some _ => Cond "track_position" [("track_id", JStr (str_uuid track))]
  | _, _ => All []
  end.

Definition compile_course_access (course : UUID) (routes : list Route)
    (prerequisite_ids : list UUID) : result req_error Expr :=
  match routes with
  | [] => Raise (ValueError ("course " +:+ str_uuid course +:+
                             " has no route; it is not entitled"))
  | _ =>
      Ok (All [
        Any (map _route_expr routes);
        All (map (λ required, Cond "course_completed"
                   [("course_id", JStr (str_uuid required))]) prerequisite_ids)
      ])
  end.

(** A locked state, with the title of the course to complete first. *)
Definition locked_on (course until : UUID) (titles : gmap UUID (option string))
    (fallback : string) : CourseAccessState :=
  MkCourseAccessState course true
    (Some (_course_lock_reason (default None (titles !! until)) fallback)) (Some until).

(** The loop over [zip(prerequisite_ids, children, strict=True)]. *)
Fixpoint prerequisite_loop (course : UUID) (titles : gmap UUID (option string))
    (prerequisite_ids : list UUID) (nodes : list NodeResult) :
    result req_error CourseAccessState :=
  match prerequisite_ids, nodes with
  | required :: prerequisite_ids, node :: nodes =>
      if negb (nr_passed node) then Ok (locked_on course required titles PREREQUISITE_FALLBACK)
      else prerequisite_loop course titles prerequisite_ids nodes
  | [], [] => Raise (ValueError "evaluation failed but no prerequisite is unmet")
  | _, _ => Raise (ValueError "zip() arguments have different lengths")
  end.

Definition to_course_access_state (course : UUID) (res : EvaluationResult)
    (routes : list Route) (prerequisite_ids : list UUID)
    (titles : gmap UUID (option string)) : result req_error CourseAccessState :=
  if er_passed res then Ok (MkCourseAccessState course false None None)
  else
    match nr_children (er_root res) with
    | [route_group; prerequisite_group] =>
        if negb (nr_passed route_group) then
          match last routes with
          | Some route =>
              match predecessor_course_id route with
              | Some previous => Ok (locked_on course previous titles PREVIOUS_COURSE_FALLBACK)
              | None => Raise (ValueError "a failing route must have a predecessor")
              end
          | None => Raise IndexError
          end
        else prerequisite_loop course titles prerequisite_ids (nr_children prerequisite_group)
    | _ => Raise (ValueError "unpacking expected two groups")
    end.

Definition legacy_unmet_prerequisites (state : CourseAccessState)
    (prerequisite_ids : list UUID) (completed : gset UUID) : list UUID :=
  let required :=
    if locked state then prerequisite_ids ++ option_list (locked_until_course_id state)
    else prerequisite_ids in
  filter (λ course, course ∉ completed) required.

(** ** Specification: the rule itself *)

(** The course that blocks a route: its predecessor, while it is not
    completed. A route without a track never blocks. *)
Definition route_blocker (completed : gset UUID) (route : Route) : option UUID :=
  match track_id route, predecessor_course_id route with
  | Some _, Some previous => if decide (previous ∈ completed) then None else Some previous
  | _, _ => None
  end.

(** The loop over the routes: a locked state is replaced by the state of the
    next route, an open one stays. *)
Definition route_state (completed : gset UUID) (current : option (option UUID))
    (route : Route) : option (option UUID) :=
  match current with
  | Some None => current
  | _ => Some (route_blocker completed route)
  end.

(** The access state of an entitled course: the routes first, then the first
    prerequisite not completed. *)
Definition legacy_access (course : UUID) (routes : list Route) (prerequisite_ids : list UUID)
    (titles : gmap UUID (option string)) (completed : gset UUID) : CourseAccessState :=
  match foldl (route_state completed) None routes with
  | Some (Some previous) => locked_on course previous titles PREVIOUS_COURSE_FALLBACK
  | _ =>
      match filter (λ required, required ∉ completed) prerequisite_ids with
      | required :: _ => locked_on course required titles PREREQUISITE_FALLBACK
      | [] => MkCourseAccessState course false None None
      end
  end.
