(* ===== verification/LearnSyntax.v ===== *)
(** * Requirement expressions: parser, JSON form and walk

    The parser accepts exactly the documents of the grammar [denotes] within
    the two safety bounds, [walk] is the preorder of the tree, and a node path
    names one node and tells its depth. *)

From S2P Require Import Prelude PyData PyTime LearnExpression.
From stdpp Require Import base gmap strings pretty list.
From Stdlib Require Import ZArith NArith Ascii SpecFloat.

(** ** The parser against the grammar *)

Lemma forallb_Forall {A} (p : A → bool) l : forallb p l = true ↔ Forall (λ x, p x = true) l.
Proof.
  induction l as [|x l IH]; simpl; [by split; constructor|].
  by rewrite andb_true_iff, Forall_cons, IH.
Qed.

Lemma check_json_value_Ok j where_ u :
  _check_json_value j where_ = Ok u ↔ json_finite j = true.
Proof.
  destruct u. induction j as [| | |f| |l IH|fs IH] using json_nested_ind;
    [done..|simpl|done| |].
  - rewrite raise_if_Ok. apply negb_false_iff.
  - cbn [_check_json_value json_finite].
    induction IH as [|x l Hx _ IHl]; [done|]. cbn [forallb].
    rewrite result_bind_Ok, andb_true_iff, <-IHl, <-Hx.
    split; [intros ([] & ? & ?)|intros [??]]; eauto.
  - cbn [_check_json_value json_finite].
    induction IH as [|[k x] fs Hx _ IHl]; [done|]. cbn [forallb snd] in *.
    rewrite result_bind_Ok, andb_true_iff, <-IHl, <-Hx.
    split; [intros ([] & ? & ?)|intros [??]]; eauto.
Qed.

(** The loop over the items of an [all] or [any] list. *)
Definition parse_items (path key : string) (depth : Z) :=
  fix each (index : nat) (items : list json) : ST Z req_error (list Expr) :=
    match items with
    | [] => mret []
    | item :: items =>
        child ← _parse_node item (child_path path key index) depth;
        children ← each (S index) items;
        mret (child :: children)
    end.

Lemma enter_node_Ok path depth b u b' :
  enter_node path depth b = (Ok u, b') ↔
    (depth ≤ HARD_MAX_DEPTH ∧ b' = b - 1 ∧ 0 ≤ b')%Z.
Proof.
  unfold enter_node. rewrite ST_bind_Ok. setoid_rewrite lift_run.
  setoid_rewrite raise_if_Ok. setoid_rewrite Z.ltb_ge. split.
  - intros (a & ? & [Hd <-] & H). run_inv. bool_to_prop. subst. lia.
  - intros (Hd & -> & Hb). exists tt, b. split; [done|].
    cbv [mbind ST_bind modify gets lift raise_if].
    destruct (Z.ltb_spec (b - 1) 0); [lia|]. by destruct u.
Qed.

(** What a successful parse of a sub-document at some depth says. *)
Definition parses (d : json) (depth : Z) (b : Z) (e : Expr) (b' : Z) : Prop :=
  denotes d e ∧ b' = (b - Z.of_nat (expr_nodes e))%Z ∧ (0 ≤ b')%Z ∧
  (depth + Z.of_nat (expr_depth e) ≤ HARD_MAX_DEPTH + 1)%Z.

(** The same of the items of a list. *)
Definition parses_items (ds : list json) (depth : Z) (b : Z) (es : list Expr) (b' : Z) : Prop :=
  Forall2 denotes ds es ∧ b' = (b - Z.of_nat (sum_list_with expr_nodes es))%Z ∧
  (0 ≤ b')%Z ∧
  (es = [] ∨
   depth + Z.of_nat (foldr (λ c m, max (expr_depth c) m) 0%nat es) ≤ HARD_MAX_DEPTH + 1)%Z.

Lemma expr_nodes_pos e : 0 < expr_nodes e.
Proof. destruct e; simpl; lia. Qed.

Lemma expr_depth_pos e : 0 < expr_depth e.
Proof. destruct e; simpl; lia. Qed.

Lemma children_depth_pos c cs : 0 < foldr (λ c m, max (expr_depth c) m) 0 (c :: cs).
Proof. simpl. pose proof (expr_depth_pos c). lia. Qed.

Definition node_spec (d : json) : Prop := ∀ path depth b e b',
  is_decoded d → (0 ≤ b)%Z →
  _parse_node d path depth b = (Ok e, b') ↔ parses d depth b e b'.

Lemma parse_items_spec items path key depth :
  Forall node_spec items → ∀ index b es b',
  foldr (λ x P, is_decoded x ∧ P) True items → (0 ≤ b)%Z →
  parse_items path key depth index items b = (Ok es, b') ↔
    parses_items items depth b es b'.
Proof.
  unfold parses_items.
  induction 1 as [|d ds Hd _ IH]; intros index b es b' Hdec Hb; cbn [parse_items].
  - split.
    + intros H. run_inv. subst. split_and!; [constructor|simpl; lia|lia|by left].
    + intros (H & -> & _). inversion H; subst. simpl.
      by rewrite Z.sub_0_r.
  - destruct Hdec as [Hdec Hdecs]. rewrite ST_bind_Ok. split.
    + intros (e & b1 & He & H). apply Hd in He as (Hde & -> & Hb1 & Hdep); [|done..].
      apply ST_bind_Ok in H as (es' & b2 & Hes & H). run_inv.
      apply IH in Hes as (Hdes & -> & Hb2 & Hdeps); [|done..].
      subst. split_and!; [by constructor|simpl; lia|lia|right].
      simpl. destruct Hdeps as [->|?]; simpl; lia.
    + intros (H & -> & Hb' & Hdep). destruct Hdep as [->|Hdep]; [inversion H|].
      inversion H as [|? e ? es' Hde Hdes]; subst. simpl in Hb', Hdep.
      exists e, (b - Z.of_nat (expr_nodes e))%Z. split.
      { apply Hd; [done..|]. split_and!; [done..|lia|lia]. }
      apply ST_bind_Ok. exists es', (b - Z.of_nat (sum_list_with expr_nodes (e :: es')))%Z.
      split; [|done].
      apply IH; [done|lia|]. split_and!; [done|simpl; lia|simpl; lia|].
      destruct es'; [by left|right]. lia.
Qed.

(** The loop at the node that opens it. *)
Lemma parse_all_run items path depth b e b' :
  _parse_node (JObj [("all", JList items)]) path depth b = (Ok e, b') ↔
    ∃ cs b1, enter_node path depth b = (Ok tt, b1) ∧
      parse_items path "all" (depth + 1) 0 items b1 = (Ok cs, b') ∧ e = All cs.
Proof.
  change (_parse_node (JObj [("all", JList items)]) path depth) with
    (enter_node path depth ≫= λ _,
       children ← parse_items path "all" (depth + 1) 0 items; mret (All children)).
  rewrite ST_bind_Ok. setoid_rewrite ST_bind_Ok. split.
  - intros ([] & b1 & H1 & cs & b2 & H2 & H3). run_inv. subst. eauto 10.
  - intros (cs & b1 & H1 & H2 & ->). exists tt, b1. split; [done|].
    by exists cs, b'.
Qed.

Lemma parse_any_run items path depth b e b' :
  _parse_node (JObj [("any", JList items)]) path depth b = (Ok e, b') ↔
    ∃ cs b1, enter_node path depth b = (Ok tt, b1) ∧
      parse_items path "any" (depth + 1) 0 items b1 = (Ok cs, b') ∧ e = Any cs.
Proof.
  change (_parse_node (JObj [("any", JList items)]) path depth) with
    (enter_node path depth ≫= λ _,
       children ← parse_items path "any" (depth + 1) 0 items; mret (Any children)).
  rewrite ST_bind_Ok. setoid_rewrite ST_bind_Ok. split.
  - intros ([] & b1 & H1 & cs & b2 & H2 & H3). run_inv. subst. eauto 10.
  - intros (cs & b1 & H1 & H2 & ->). exists tt, b1. split; [done|].
    by exists cs, b'.
Qed.

Lemma parse_not_run doc path depth b e b' :
  _parse_node (JObj [("not", doc)]) path depth b = (Ok e, b') ↔
    ∃ c b1, enter_node path depth b = (Ok tt, b1) ∧
      _parse_node doc (child_path path "not" 0) (depth + 1) b1 = (Ok c, b') ∧ e = Not c.
Proof.
  change (_parse_node (JObj [("not", doc)]) path depth) with
    (enter_node path depth ≫= λ _,
       child ← _parse_node doc (child_path path "not" 0) (depth + 1); mret (Not child)).
  rewrite ST_bind_Ok. setoid_rewrite ST_bind_Ok. split.
  - intros ([] & b1 & H1 & c & b2 & H2 & H3). run_inv. subst. eauto 10.
  - intros (c & b1 & H1 & H2 & ->). exists tt, b1. split; [done|].
    by exists c, b'.
Qed.

(** A condition: exactly the two keys, in either order. *)
Lemma assoc_get_In {A} k (fs : list (string * A)) a :
  NoDup fs.*1 → assoc_get k fs = Some a ↔ (k, a) ∈ fs.
Proof.
  induction fs as [|[k' a'] fs IH]; cbn [assoc_get fst fmap list_fmap].
  - intros _. split; [done|by inversion 1].
  - intros [Hk Hnd]%NoDup_cons. destruct (String.eqb_spec k k') as [<-|Hne].
    + rewrite elem_of_cons. split; [intros [= ->]; by left|].
      intros [[= ->]|Hin]; [done|]. destruct Hk.
      by apply (list_elem_of_fmap_2 fst) in Hin.
    + rewrite elem_of_cons, (IH Hnd). naive_solver.
Qed.

Lemma two_keys (fs : list (string * json)) kind params :
  NoDup fs.*1 → extra_keys fs = [] →
  assoc_get "cond" fs = Some kind → assoc_get "params" fs = Some params →
  fs ≡ₚ [("cond", kind); ("params", params)].
Proof.
  intros Hnd Hex Hk%assoc_get_In Hp%assoc_get_In; [|done..].
  apply NoDup_Permutation.
  - by apply NoDup_fmap_1 in Hnd.
  - repeat constructor; set_solver.
  - intros [k a]. rewrite !elem_of_cons. split; [|set_solver].
    intros Hin.
    assert (k = "cond" ∨ k = "params") as [-> | ->].
    { destruct (decide (k = "cond")), (decide (k = "params")); try tauto.
      assert (k ∈ extra_keys fs) as Hx; [|by rewrite Hex in Hx; inversion Hx].
      apply list_elem_of_filter. split; [done|].
      by apply (list_elem_of_fmap_2 fst) in Hin. }
    + left. apply assoc_get_In in Hin, Hk; [|done..]. congruence.
    + right; left. apply assoc_get_In in Hin, Hp; [|done..]. congruence.
Qed.

Lemma parse_cond_Ok fs kind path e :
  NoDup fs.*1 → assoc_get "cond" fs = Some kind →
  parse_cond fs kind path = Ok e ↔
    ∃ k ps, e = Cond k ps ∧ fs ≡ₚ [("cond", JStr k); ("params", JObj ps)] ∧
      str_truthy k = true ∧ json_finite (JObj ps) = true.
Proof.
  intros Hnd Hk. unfold parse_cond. rewrite result_bind_Ok. split.
  - intros (u & Hx & H). result_inv. bool_to_prop.
    destruct kind as [| | | |k| |]; try done.
    destruct (str_truthy k) eqn:Hkt; [|done].
    destruct (assoc_get "params" fs) as [[| | | | | |ps]|] eqn:Hp; try done.
    apply result_bind_Ok in H as (u' & Hf & [= <-]).
    apply check_json_value_Ok in Hf. exists k, ps. split_and!; try done.
    apply two_keys; try done.
  - intros (k & ps & -> & Hperm & Hkt & Hf).
    assert (Hkind : kind = JStr k).
    { apply assoc_get_In in Hk; [|done]. rewrite Hperm in Hk.
      apply elem_of_cons in Hk as [[= ->]|Hk]; [done|].
      by apply list_elem_of_singleton in Hk. }
    assert (Hps : assoc_get "params" fs = Some (JObj ps)).
    { apply assoc_get_In; [done|]. rewrite Hperm. set_solver. }
    assert (Hx : extra_keys fs = []).
    { apply filter_none. intros x Hin. rewrite Hperm in Hin. set_solver. }
    exists tt. subst kind. rewrite Hx, Hkt, Hps. split; [done|].
    destruct (_check_json_value (JObj ps) _) as [[]|] eqn:Hc; [done|].
    by rewrite (proj2 (check_json_value_Ok _ _ tt) Hf) in Hc.
Qed.

Lemma parse_cond_run fs kind path depth b e b' :
  assoc_get "cond" fs = Some kind →
  _parse_node (JObj fs) path depth b = (Ok e, b') ↔
    enter_node path depth b = (Ok tt, b') ∧ parse_cond fs kind path = Ok e.
Proof.
  intros Hk.
  assert (_parse_node (JObj fs) path depth = enter_node path depth ≫= λ _,
    lift (parse_cond fs kind path)) as -> by (cbn [_parse_node]; by rewrite Hk).
  rewrite ST_bind_Ok. setoid_rewrite lift_run. split.
  - intros ([] & b1 & H1 & H2 & <-). done.
  - intros [H1 H2]. by exists tt, b'.
Qed.

(** The other documents are refused. *)
Definition composite_fields (fs : list (string * json)) : Prop :=
  (∃ items, fs = [("all", JList items)]) ∨ (∃ items, fs = [("any", JList items)]) ∨
  (∃ doc, fs = [("not", doc)]).

Lemma parse_other_run d path depth b e b' :
  (∀ fs, d = JObj fs → assoc_get "cond" fs = None ∧ ¬ composite_fields fs) →
  _parse_node d path depth b ≠ (Ok e, b').
Proof.
  intros Hd H.
  assert (∃ exc, _parse_node d path depth = enter_node path depth ≫= λ _, raise exc)
    as [exc Hexc].
  { destruct d as [| | | | | |fs]; try (by eexists).
    destruct (Hd fs eq_refl) as [Hc Hnc]. cbn [_parse_node]. rewrite Hc.
    destruct fs as [|[key raw] [|]]; try (by eexists).
    destruct (String.eqb_spec key "all") as [->|].
    { destruct raw; try (by eexists). destruct Hnc. left. eauto. }
    destruct (String.eqb_spec key "any") as [->|].
    { destruct raw; try (by eexists). destruct Hnc. right; left. eauto. }
    destruct (String.eqb_spec key "not") as [->|].
    { destruct Hnc. right; right. eauto. }
    simpl. by eexists. }
  rewrite Hexc in H. apply ST_bind_Ok in H as ([] & b1 & _ & H). discriminate H.
Qed.

Lemma perm_no_cond (fs : list (string * json)) kind rest :
  fs ≡ₚ ("cond", kind) :: rest → NoDup fs.*1 → assoc_get "cond" fs = Some kind.
Proof. intros Hp Hnd. apply assoc_get_In; [done|]. rewrite Hp. set_solver. Qed.

Lemma composite_items_spec items path depth b cs b1 b' key :
  Forall node_spec items → is_decoded (JList items) →
  (0 ≤ b)%Z →
  (enter_node path depth b = (Ok tt, b1) ∧
   parse_items path key (depth + 1) 0 items b1 = (Ok cs, b')) ↔
  (b1 = (b - 1)%Z ∧ Forall2 denotes items cs ∧
   b' = (b - Z.of_nat (S (sum_list_with expr_nodes cs)))%Z ∧ (0 ≤ b')%Z ∧
   (depth + Z.of_nat (S (foldr (λ c m, max (expr_depth c) m) 0%nat cs))
     ≤ HARD_MAX_DEPTH + 1)%Z).
Proof.
  intros Hitems Hdec Hb. rewrite enter_node_Ok. split.
  - intros ((Hd & -> & Hb1) & H). apply parse_items_spec in H as (H & -> & ? & Hdep);
      [|done..].
    split_and!; [done|done|lia|lia|]. destruct Hdep as [->|]; simpl; lia.
  - intros (-> & H & -> & Hb' & Hdep). split_and!; [lia|done|lia|].
    apply parse_items_spec; [done|done|lia|].
    split_and!; [done|lia|lia|]. destruct cs; [by left|right; lia].
Qed.

(** The grammar, by the shape of the document. *)
Lemma denotes_cond_inv fs kind e :
  NoDup fs.*1 → assoc_get "cond" fs = Some kind →
  denotes (JObj fs) e ↔
    ∃ k ps, e = Cond k ps ∧ fs ≡ₚ [("cond", JStr k); ("params", JObj ps)] ∧
      str_truthy k = true ∧ json_finite (JObj ps) = true.
Proof.
  intros Hnd Hk. split.
  - inversion 1; subst; [eauto 10|done..].
  - intros (k & ps & -> & ? & ? & ?). by constructor.
Qed.

Lemma denotes_other d e :
  (∀ fs, d = JObj fs → assoc_get "cond" fs = None ∧ ¬ composite_fields fs) →
  is_decoded d → ¬ denotes d e.
Proof.
  intros Hd Hdec. inversion 1 as [fs k ps Hp| | |]; subst;
    destruct (Hd _ eq_refl) as [Hk Hc]; [|destruct Hc; unfold composite_fields; eauto..].
  by rewrite (perm_no_cond _ _ _ Hp) in Hk by apply Hdec.
Qed.

Ltac denotes_composite :=
  let Hp := fresh "Hperm" in
  split;
  [inversion 1 as [fs k ps Hp| | |]; subst;
    [by apply perm_no_cond in Hp; [|apply NoDup_singleton]|eauto..]
  |intros (? & -> & ?); by constructor].

Lemma denotes_all_inv ds e :
  denotes (JObj [("all", JList ds)]) e ↔ ∃ cs, e = All cs ∧ Forall2 denotes ds cs.
Proof. denotes_composite. Qed.
Lemma denotes_any_inv ds e :
  denotes (JObj [("any", JList ds)]) e ↔ ∃ cs, e = Any cs ∧ Forall2 denotes ds cs.
Proof. denotes_composite. Qed.
Lemma denotes_not_inv d e :
  denotes (JObj [("not", d)]) e ↔ ∃ c, e = Not c ∧ denotes d c.
Proof. denotes_composite. Qed.

Lemma node_spec_cond fs kind :
  assoc_get "cond" fs = Some kind → node_spec (JObj fs).
Proof.
  intros Hk path depth b e b' [Hnd _] Hb. unfold parses.
  rewrite (parse_cond_run _ kind), enter_node_Ok, parse_cond_Ok,
    (denotes_cond_inv _ kind) by done. split.
  - intros ((Hd & -> & Hb1) & k & ps & -> & ?).
    split_and!; [by eauto 10|simpl; lia..].
  - intros ((k & ps & -> & ?) & -> & Hb' & Hdep). simpl in *.
    split_and!; [lia..|eauto 10].
Qed.

Lemma node_spec_all items :
  Forall node_spec items → node_spec (JObj [("all", JList items)]).
Proof.
  intros IH path depth b e b' [_ [Hdec _]] Hb. unfold parses.
  rewrite parse_all_run, denotes_all_inv. split.
  - intros (cs & b1 & H1 & H2 & ->).
    destruct (proj1 (composite_items_spec _ _ _ _ _ _ _ _ IH Hdec Hb) (conj H1 H2))
      as (_ & ? & ? & ? & ?). split_and!; eauto.
  - intros ((cs & -> & ?) & ? & ? & ?). exists cs, (b - 1)%Z. apply and_assoc.
    split; [|done]. by apply composite_items_spec.
Qed.

Lemma node_spec_any items :
  Forall node_spec items → node_spec (JObj [("any", JList items)]).
Proof.
  intros IH path depth b e b' [_ [Hdec _]] Hb. unfold parses.
  rewrite parse_any_run, denotes_any_inv. split.
  - intros (cs & b1 & H1 & H2 & ->).
    destruct (proj1 (composite_items_spec _ _ _ _ _ _ _ _ IH Hdec Hb) (conj H1 H2))
      as (_ & ? & ? & ? & ?). split_and!; eauto.
  - intros ((cs & -> & ?) & ? & ? & ?). exists cs, (b - 1)%Z. apply and_assoc.
    split; [|done]. by apply composite_items_spec.
Qed.

Lemma node_spec_not doc : node_spec doc → node_spec (JObj [("not", doc)]).
Proof.
  intros IH path depth b e b' [_ [Hdec _]] Hb. unfold parses.
  rewrite parse_not_run, denotes_not_inv. setoid_rewrite enter_node_Ok. split.
  - intros (c & b1 & (Hd & -> & Hb1) & H2 & ->).
    apply IH in H2 as (? & -> & ? & ?); [|done..].
    split_and!; [eauto|simpl; lia..].
  - intros ((c & -> & Hc) & -> & Hb' & Hdep). simpl in Hb', Hdep.
    pose proof (expr_depth_pos c).
    exists c, (b - 1)%Z. split_and!; [lia..| |done].
    apply IH; [done|lia|]. split_and!; [done|simpl; lia|simpl; lia|lia].
Qed.

Lemma node_spec_other d :
  (∀ fs, d = JObj fs → assoc_get "cond" fs = None ∧ ¬ composite_fields fs) →
  node_spec d.
Proof.
  intros Hd path depth b e b' Hdec Hb. split.
  - by intros []%parse_other_run.
  - by intros [[]%denotes_other _].
Qed.

Lemma composite_dec fs :
  (∃ items, fs = [("all", JList items)]) + (∃ items, fs = [("any", JList items)]) +
  (∃ doc, fs = [("not", doc)]) + {¬ composite_fields fs}.
Proof.
  assert (Hno : ∀ P Q R : Prop, ¬ P → ¬ Q → ¬ R → ¬ (P ∨ Q ∨ R)) by tauto.
  destruct fs as [|[key raw] [|]];
    try (right; apply Hno; intros [? [=]]; fail).
  destruct (decide (key = "not")) as [->|]; [left; right; eauto|].
  destruct raw as [| | | | |items|];
    try (right; apply Hno; intros [? [=]]; congruence).
  destruct (decide (key = "all")) as [->|]; [left; left; left; eauto|].
  destruct (decide (key = "any")) as [->|]; [left; left; right; eauto|].
  right. apply Hno; intros [? [=]]; congruence.
Qed.

Lemma node_spec_holds d :
  node_spec d ∧ (∀ items, d = JList items → Forall node_spec items).
Proof.
  induction d as [| | | | |l IH|fs IH] using json_nested_ind;
    try (split; [by apply node_spec_other|done]).
  - split; [by apply node_spec_other|]. intros ? [= <-].
    eapply Forall_impl; [exact IH|]. by intros ? [? _].
  - split; [|done].
    destruct (assoc_get "cond" fs) as [kind|] eqn:Hk; [by eapply node_spec_cond|].
    destruct (composite_dec fs) as [[[Hc|Hc]|Hc]|Hno]; try destruct Hc as [? ->].
    + apply Forall_singleton in IH as [_ IH]. by apply node_spec_all, IH.
    + apply Forall_singleton in IH as [_ IH]. by apply node_spec_any, IH.
    + apply Forall_singleton in IH as [IH _]. by apply node_spec_not.
    + apply node_spec_other. by intros ? [= <-].
Qed.

Lemma parse_decoded_iff d e :
  is_decoded d → parse_decoded d = Ok e ↔ denotes d e ∧ within_bounds e.
Proof.
  intros Hd. unfold parse_decoded, within_bounds.
  pose proof (proj1 (node_spec_holds d) "" 1%Z HARD_MAX_NODES e) as Hspec.
  unfold parses in Hspec. split.
  - destruct (_parse_node _ _ _ _) as [[e'|] b'] eqn:E; [|done]. intros [= ->].
    destruct (proj1 (Hspec b' Hd ltac:(done)) eq_refl) as (? & -> & ? & ?).
    split_and!; [done|lia..].
  - intros (Hde & Hdep & Hn).
    rewrite (proj2 (Hspec (HARD_MAX_NODES - Z.of_nat (expr_nodes e))%Z Hd ltac:(done)));
      [done|]. split_and!; [done..|lia|lia].
Qed.

(** ** The JSON form *)

Lemma to_data_denotes e : conds_ok e = true → denotes (to_data e) e.
Proof.
  induction e as [k ps|cs IH|cs IH|c IH] using Expr_nested_ind; cbn [conds_ok to_data];
    intros Hok; try (apply forallb_Forall in Hok).
  1: { apply andb_true_iff in Hok as [??]. by constructor. }
  3: { constructor. by apply IH. }
  all: constructor; apply Forall2_fmap_l, Forall_Forall2_diag;
    eapply Forall_impl; [apply Forall_and; split; [exact IH|exact Hok]|];
    intros x [Hx ?]; by apply Hx.
Qed.

Lemma denotes_conds_ok e : ∀ d, denotes d e → conds_ok e = true.
Proof.
  induction e as [k ps|cs IH|cs IH|c IH] using Expr_nested_ind; intros d Hd;
    inversion Hd; subst; cbn [conds_ok].
  1: by apply andb_true_iff.
  3: by eapply IH.
  all: apply forallb_Forall;
    match goal with H : Forall2 denotes _ _ |- _ => rename H into Hds end;
    clear Hd; induction Hds; [constructor|];
    apply Forall_cons in IH as [IHx IH]; constructor; eauto.
Qed.

(** Sorting the keys makes the text independent of their order. *)
Lemma sort_keys_two {A} (fs : list (string * A)) a b :
  fs ≡ₚ [("cond", a); ("params", b)] → sort_keys fs = [("cond", a); ("params", b)].
Proof.
  intros Hp. symmetry in Hp.
  apply Permutation_length_2_inv in Hp as [-> | ->]; reflexivity.
Qed.

Lemma dumps_one `{Runtime} k j j' :
  json_dumps j = json_dumps j' → json_dumps (JObj [(k, j)]) = json_dumps (JObj [(k, j')]).
Proof.
  intros Hj. change (json_dumps (JObj [(k, ?x)])) with
    ("{" +:+ (json_str k +:+ ":" +:+ json_dumps x) +:+ "}"). by rewrite Hj.
Qed.

Lemma dumps_list `{Runtime} l l' :
  Forall2 (λ j j', json_dumps j = json_dumps j') l l' →
  json_dumps (JList l) = json_dumps (JList l').
Proof.
  intros Hl. change (json_dumps (JList ?x)) with
    ("[" +:+ str_join "," (map json_dumps x) +:+ "]").
  do 3 f_equal. induction Hl; simpl; congruence.
Qed.

Lemma dumps_children `{Runtime} cs ds :
  Forall (λ c, ∀ d, denotes d c → json_dumps d = json_dumps (to_data c)) cs → Forall2 denotes ds cs →
  json_dumps (JList ds) = json_dumps (JList (map to_data cs)).
Proof.
  intros IH Hds. apply dumps_list.
  induction Hds; [constructor|]. apply Forall_cons in IH as [IHx IH].
  constructor; [by apply IHx|by apply IHHds].
Qed.

Lemma denotes_dumps `{Runtime} e : ∀ d, denotes d e → json_dumps d = to_json e.
Proof.
  unfold to_json.
  induction e as [k ps|cs IH|cs IH|c IH] using Expr_nested_ind; intros d Hd;
    inversion Hd as [fs ? ? Hp| | |]; subst; cbn [to_data];
    try (apply dumps_one; first [by apply dumps_children | by apply IH]).
  cbn [json_dumps]. do 3 f_equal.
  apply (Permutation_map (λ kv, (kv.1, json_dumps kv.2))) in Hp.
  by rewrite (sort_keys_two _ _ _ Hp).
Qed.

Lemma foldr_and_Forall {A} (P : A → Prop) l :
  foldr (λ x Q, P x ∧ Q) True l ↔ Forall P l.
Proof.
  induction l as [|x l IH]; simpl; [by split; constructor|].
  by rewrite Forall_cons, IH.
Qed.

Lemma denotes_decoded e : ∀ d, denotes d e → is_decoded d → is_decoded (to_data e).
Proof.
  induction e as [k ps|cs IH|cs IH|c IH] using Expr_nested_ind; intros d Hd Hdec;
    inversion Hd; subst; cbn [to_data is_decoded foldr snd] in *.
  - destruct Hdec as [_ Hdec]. split; [repeat constructor; set_solver|].
    split; [done|]. split; [|done].
    rewrite (foldr_and_Forall (λ kv, is_decoded kv.2)) in Hdec.
    match goal with H : _ ≡ₚ _ |- _ => rewrite H in Hdec end.
    apply Forall_cons in Hdec as [_ [Hdec _]%Forall_cons]. exact Hdec.
  - destruct Hdec as (? & Hdec & _). split_and!; [apply NoDup_singleton| |done].
    rewrite foldr_and_Forall in *. apply Forall_fmap.
    match goal with H : Forall2 denotes _ _ |- _ => rename H into Hds end.
    clear Hd. induction Hds; constructor; inversion IH; inversion Hdec; subst; simpl; eauto.
  - destruct Hdec as (? & Hdec & _). split_and!; [apply NoDup_singleton| |done].
    rewrite foldr_and_Forall in *. apply Forall_fmap.
    match goal with H : Forall2 denotes _ _ |- _ => rename H into Hds end.
    clear Hd. induction Hds; constructor; inversion IH; inversion Hdec; subst; simpl; eauto.
  - destruct Hdec as (? & Hdec & _). split_and!; [apply NoDup_singleton|eauto|done].
Qed.

(** ** Errors *)

Lemma check_json_value_error j where_ exc :
  _check_json_value j where_ = Raise exc → ∃ msg, exc = ExpressionError msg.
Proof.
  induction j as [| | |f| |l IH|fs IH] using json_nested_ind; cbn [_check_json_value];
    try done.
  - intros [_ <-]%raise_if_Raise. eauto.
  - induction IH as [|x l Hx _ IHl]; [done|].
    intros [?|(? & _ & ?)]%result_bind_Raise; eauto.
  - induction IH as [|[k x] fs Hx _ IHl]; [done|].
    intros [?|(? & _ & ?)]%result_bind_Raise; eauto.
Qed.

Lemma parse_cond_error fs kind path exc :
  parse_cond fs kind path = Raise exc → ∃ msg, exc = ExpressionError msg.
Proof.
  unfold parse_cond, at_path.
  intros [[_ <-]%raise_if_Raise|(_ & _ & H)]%result_bind_Raise; [eauto|].
  repeat case_match; try (injection H as <-; by eauto).
  all: by apply result_bind_Raise in H as [?%check_json_value_error|(? & _ & [=])].
Qed.

Definition raises_expression_error {A} (m : ST Z req_error A) : Prop :=
  ∀ b exc b', m b = (Raise exc, b') → ∃ msg, exc = ExpressionError msg.

Lemma enter_node_error path depth : raises_expression_error (enter_node path depth).
Proof.
  intros b exc b'. unfold enter_node, at_path.
  intros [H|(? & ? & _ & H)]%ST_bind_Raise.
  { apply lift_run in H as [[_ <-]%raise_if_Raise _]. eauto. }
  cbv [mbind ST_bind modify gets lift] in H.
  injection H as [_ <-]%raise_if_Raise _. eauto.
Qed.

Lemma bind_error {A B} (m : ST Z req_error A) (f : A → ST Z req_error B) :
  raises_expression_error m → (∀ a, raises_expression_error (f a)) →
  raises_expression_error (m ≫= f).
Proof.
  intros Hm Hf b exc b' [H|(a & b1 & _ & H)]%ST_bind_Raise; [by eapply Hm|by eapply Hf].
Qed.

Lemma ret_error {A} (a : A) : raises_expression_error (mret a).
Proof. intros ???. discriminate. Qed.

Lemma raise_error {A} msg : raises_expression_error (A:=A) (raise (ExpressionError msg)).
Proof. intros ???. unfold raise. intros [= <- _]. eauto. Qed.

Lemma parse_node_error d :
  (∀ path depth, raises_expression_error (_parse_node d path depth)) ∧
  (∀ items, d = JList items →
    Forall (λ d, ∀ path depth, raises_expression_error (_parse_node d path depth)) items).
Proof.
  induction d as [| | | | |l IH|fs IH] using json_nested_ind; (split; [|try done]);
    try (intros path depth; apply bind_error;
      [apply enter_node_error|intros; apply raise_error]).
  { intros ? [= <-]. eapply Forall_impl; [exact IH|]. by intros ? [? _]. }
  intros path depth. cbn [_parse_node].
  apply bind_error; [apply enter_node_error|intros _].
  destruct (assoc_get "cond" fs) as [kind|].
  { intros b exc b' [H _]%lift_run. by eapply parse_cond_error. }
  destruct fs as [|[key raw] [|]]; try apply raise_error.
  apply Forall_cons in IH as [[IHraw IHitems] _]. cbn [snd] in *.
  destruct (_ || _).
  - destruct raw as [| | | | |items|]; try apply raise_error.
    apply bind_error; [|intros; apply ret_error].
    change (raises_expression_error (parse_items path key (depth + 1) 0 items)).
    specialize (IHitems _ eq_refl). clear IHraw. generalize 0.
    induction IHitems as [|item items Hitem _ IHi]; intros index; cbn [parse_items];
      [apply ret_error|].
    apply bind_error; [apply Hitem|intros child].
    apply bind_error; [apply IHi|intros; apply ret_error].
  - destruct (String.eqb key "not"); [|apply raise_error].
    apply bind_error; [apply IHraw|intros; apply ret_error].
Qed.

(** ** The walk *)

Lemma preorder_unfold path e :
  preorder_nodes path e =
    (path, e) :: (child_nodes path e ≫= λ item, preorder_nodes item.1 item.2).
Proof.
  assert (Hgo : ∀ kind cs index,
    (fix go kind index cs := match cs with
     | [] => []
     | c :: cs => preorder_nodes (child_path path kind index) c ++ go kind (S index) cs
     end) kind index cs
    = imap (λ i c, (child_path path kind (index + i), c)) cs ≫=
        λ item, preorder_nodes item.1 item.2).
  { intros kind cs. induction cs as [|c cs IH]; intros index; [done|].
    rewrite imap_cons, bind_cons. cbn [fst snd]. rewrite Nat.add_0_r. f_equal.
    rewrite IH. f_equal. apply imap_ext. intros i x _. simpl. by rewrite Nat.add_succ_r. }
  unfold child_nodes.
  destruct e as [k ps|cs|cs|c]; cbn [preorder_nodes node_kind node_children].
  - done.
  - f_equal. exact (Hgo "all" cs 0).
  - f_equal. exact (Hgo "any" cs 0).
  - f_equal. cbn. by rewrite app_nil_r.
Qed.

(** The number of nodes on a stack. *)
Definition stack_nodes (stack : list (string * Expr)) : nat :=
  sum_list_with (λ item, expr_nodes item.2) stack.

Lemma push_children {A} (stack items : list A) :
  foldr (λ item stack, item :: stack) stack items = items ++ stack.
Proof. induction items; simpl; congruence. Qed.

Lemma stack_nodes_app s1 s2 : stack_nodes (s1 ++ s2) = stack_nodes s1 + stack_nodes s2.
Proof. apply sum_list_with_app. Qed.

Lemma child_nodes_snd path e : (child_nodes path e).*2 = node_children e.
Proof.
  unfold child_nodes. apply list_eq. intros i.
  rewrite list_lookup_fmap, list_lookup_imap. by destruct (node_children e !! i).
Qed.

Lemma expr_nodes_unfold e : expr_nodes e = S (sum_list_with expr_nodes (node_children e)).
Proof. destruct e; simpl; lia. Qed.

Lemma stack_nodes_snd stack : stack_nodes stack = sum_list_with expr_nodes stack.*2.
Proof.
  induction stack as [|[q x] stack IH]; [done|].
  change (expr_nodes x + stack_nodes stack
    = expr_nodes x + sum_list_with expr_nodes stack.*2). by rewrite IH.
Qed.

Lemma stack_nodes_children path e : S (stack_nodes (child_nodes path e)) = expr_nodes e.
Proof. by rewrite stack_nodes_snd, child_nodes_snd, expr_nodes_unfold. Qed.

Lemma walk_loop_preorder fuel : ∀ stack,
  stack_nodes stack ≤ fuel →
  walk_loop fuel stack = stack ≫= λ item, preorder_nodes item.1 item.2.
Proof.
  induction fuel as [|fuel IH]; intros [|[path e] stack] Hf; try done; cbn in Hf.
  - pose proof (expr_nodes_pos e). lia.
  - cbn [walk_loop]. rewrite push_children, bind_cons. cbn [fst snd].
    rewrite preorder_unfold. cbn [app]. f_equal.
    rewrite IH, bind_app; [done|].
    pose proof (stack_nodes_children path e). rewrite stack_nodes_app.
    change (sum_list_with _ stack) with (stack_nodes stack) in Hf. lia.
Qed.

Lemma walk_preorder e : walk e = preorder_nodes "" e.
Proof.
  unfold walk. rewrite walk_loop_preorder by (cbn; lia).
  cbn. by rewrite app_nil_r.
Qed.

(** *** Induction over the nodes of a tree *)

(** The nodes below a node: each with the number of steps down to it. *)
Inductive below (path : string) (e : Expr) : nat → string → Expr → Prop :=
  | below_here : below path e 0 path e
  | below_child i c n q x :
      node_children e !! i = Some c →
      below (child_path path (node_kind e) i) c n q x →
      below path e (S n) q x.

Lemma elem_of_child_nodes path e q x :
  (q, x) ∈ child_nodes path e ↔
    ∃ i, node_children e !! i = Some x ∧ q = child_path path (node_kind e) i.
Proof.
  unfold child_nodes. rewrite list_elem_of_lookup. split.
  - intros (i & Hi). rewrite list_lookup_imap in Hi.
    apply fmap_Some in Hi as (c & Hc & [= -> ->]). eauto.
  - intros (i & Hi & ->). exists i. by rewrite list_lookup_imap, Hi.
Qed.

Lemma Expr_children_ind (P : Expr → Prop) :
  (∀ e, Forall P (node_children e) → P e) → ∀ e, P e.
Proof. intros H. induction e using Expr_nested_ind; apply H; by repeat constructor. Qed.

Lemma preorder_below e : ∀ path q x, (q, x) ∈ preorder_nodes path e ↔ ∃ n, below path e n q x.
Proof.
  induction e as [e IH] using Expr_children_ind. intros path q x.
  rewrite preorder_unfold, elem_of_cons, list_elem_of_bind. split.
  - intros [[= -> ->]|([q' c] & Hin & Hc)]; [by exists 0; constructor|].
    apply elem_of_child_nodes in Hc as (i & Hi & ->). cbn in Hin.
    apply (Forall_lookup_1 _ _ _ _ IH Hi) in Hin as [n Hn].
    exists (S n). by econstructor.
  - intros [n Hn]. inversion Hn as [|i c n' ? ? Hi Hb]; subst; [by left|right].
    eexists (_, c). split; [|apply elem_of_child_nodes; eauto]. cbn.
    apply (Forall_lookup_1 _ _ _ _ IH Hi). eauto.
Qed.

Lemma elem_of_walk e q x : (q, x) ∈ walk e ↔ ∃ n, below "" e n q x.
Proof. rewrite walk_preorder. apply preorder_below. Qed.

(** *** Node paths *)

Lemma count_char_app c a b : count_char c (a +:+ b) = count_char c a + count_char c b.
Proof. induction a as [|d a IH]; simpl; [done|]. rewrite IH. lia. Qed.

Lemma pretty_N_go_slash n : ∀ s, count_char "/" (pretty_N_go n s) = count_char "/" s.
Proof.
  induction (N.lt_wf_0 n) as [n _ IH]; intros s.
  destruct (decide (n = 0)%N) as [->|]; [by rewrite pretty_N_go_0|].
  rewrite pretty_N_go_step, IH by (try apply N.div_lt; lia).
  cbn [count_char]. unfold pretty_N_char. by repeat case_match.
Qed.

Lemma pretty_nat_slash (i : nat) : count_char "/" (pretty i) = 0.
Proof.
  unfold pretty, pretty_nat, pretty, pretty_N. case_decide; [done|].
  by rewrite pretty_N_go_slash.
Qed.

Lemma child_path_truthy path kind i : str_truthy (child_path path kind i) = true.
Proof. unfold child_path. by destruct kind, path. Qed.

Lemma node_kind_slash e : count_char "/" (node_kind e) = 0.
Proof. by destruct e. Qed.

Lemma child_path_slash path e i :
  count_char "/" (child_path path (node_kind e) i) =
    (if str_truthy path then count_char "/" path + 2 else 1).
Proof.
  unfold child_path. destruct (str_truthy path);
    rewrite ?count_char_app, node_kind_slash, pretty_nat_slash; cbn; lia.
Qed.

Lemma below_slash path e n q x :
  below path e n q x → str_truthy path = true →
  str_truthy q = true ∧ count_char "/" q = count_char "/" path + 2 * n.
Proof.
  induction 1 as [|path e i c n q x Hi Hb IH]; intros Ht; [split; [done|lia]|].
  destruct IH as [Hq Hn]; [apply child_path_truthy|]. split; [done|].
  rewrite Hn, child_path_slash, Ht. lia.
Qed.

(** The rest of a path below a node: nothing, or a slash and more. *)
Definition path_rest (t : string) : Prop := t = "" ∨ ∃ t', t = String "/" t'.

Lemma below_extends path e n q x :
  below path e n q x → str_truthy path = true → ∃ t, q = path +:+ t ∧ path_rest t.
Proof.
  induction 1 as [|path e i c n q x Hi Hb IH]; intros Ht.
  { exists "". split; [|by left]. clear. induction path as [|a p IHp]; [done|]. rewrite string_app_cons. by f_equal. }
  destruct IH as (t & -> & _); [apply child_path_truthy|].
  unfold child_path. rewrite Ht.
  exists ("/" +:+ (node_kind e +:+ "/" +:+ pretty i) +:+ t). split; [|right; by eexists].
  by rewrite !string_app_assoc.
Qed.

Lemma no_slash_split a b t u :
  count_char "/" a = 0 → count_char "/" b = 0 → path_rest t → path_rest u →
  a +:+ t = b +:+ u → a = b.
Proof.
  intros Ha Hb Ht Hu. revert b Hb. induction a as [|c a IH]; intros [|d b] Hb H;
    cbn [count_char] in *; rewrite ?string_app_cons in H.
  - done.
  - destruct Ht as [->|[t' ->]]; [done|]. injection H as <- _. done.
  - destruct Hu as [->|[u' ->]]; [done|]. injection H as -> _. done.
  - injection H as <- H. destruct (Ascii.eqb "/" c); [lia|]. f_equal. by apply IH.
Qed.

Lemma string_app_inv_head (a b c : string) : a +:+ b = a +:+ c → b = c.
Proof.
  induction a as [|x a IH]; [done|]. rewrite !string_app_cons. intros [= H]. by apply IH.
Qed.

(** Siblings have different paths, and so have the nodes below them. *)
Lemma sibling_paths path e i j t u :
  path_rest t → path_rest u →
  child_path path (node_kind e) i +:+ t = child_path path (node_kind e) j +:+ u → i = j.
Proof.
  intros Ht Hu H. unfold child_path in H.
  assert (pretty i +:+ t = pretty j +:+ u) as Hij.
  { destruct (str_truthy path); rewrite !string_app_assoc in H;
      by repeat apply string_app_inv_head in H. }
  apply no_slash_split in Hij; [|apply pretty_nat_slash..|done|done].
  by apply (inj (pretty (A:=nat))) in Hij.
Qed.

Lemma string_app_cancel (a b : string) : a = a +:+ b → b = "".
Proof.
  induction a as [|x a IH]; [done|]. rewrite string_app_cons. intros [= H]. by apply IH.
Qed.

Lemma child_path_ne path e i t : path ≠ child_path path (node_kind e) i +:+ t.
Proof.
  unfold child_path. intros H. destruct (str_truthy path) eqn:Ht.
  - rewrite !string_app_assoc in H. by apply string_app_cancel in H.
  - destruct path; [|done]. by destruct e.
Qed.

Lemma fmap_bind {A B C} (f : A → list B) (g : B → C) l :
  g <$> (l ≫= f) = l ≫= λ x, g <$> f x.
Proof. induction l; [done|]. rewrite !bind_cons, fmap_app. by f_equal. Qed.

Lemma preorder_paths_NoDup e : ∀ path, NoDup (preorder_nodes path e).*1.
Proof.
  induction e as [e IH] using Expr_children_ind. intros path.
  rewrite preorder_unfold, fmap_cons, fmap_bind. cbn [fst].
  assert (Hext : ∀ i c q, node_children e !! i = Some c →
    q ∈ (preorder_nodes (child_path path (node_kind e) i) c).*1 →
    ∃ t, q = child_path path (node_kind e) i +:+ t ∧ path_rest t).
  { intros i c q Hi ([q' x] & -> & Hx)%list_elem_of_fmap.
    apply preorder_below in Hx as [n Hx].
    by apply below_extends in Hx; [|apply child_path_truthy]. }
  constructor.
  - intros ([q c] & Hq & Hc)%list_elem_of_bind.
    apply elem_of_child_nodes in Hc as (i & Hi & ->).
    apply (Hext _ _ _ Hi) in Hq as (t & Hq & _). by apply child_path_ne in Hq.
  - apply NoDup_bind.
    + intros [q1 c1] [q2 c2] q H1 H2.
      apply elem_of_child_nodes in H1 as (i & Hi & ->), H2 as (j & Hj & ->).
      intros (t & Ht & ?)%(Hext _ _ _ Hi) (u & Hu & ?)%(Hext _ _ _ Hj).
      assert (i = j) as -> by (eapply sibling_paths; [..|by rewrite <-Ht]; done).
      congruence.
    + intros [q c] (i & Hi & ->)%elem_of_child_nodes.
      by apply (Forall_lookup_1 _ _ _ _ IH Hi).
    + apply (NoDup_fmap_1 fst), NoDup_alt. intros i j q.
      rewrite !list_lookup_fmap. unfold child_nodes. rewrite !list_lookup_imap.
      destruct (node_children e !! i) as [ci|] eqn:Hi; [|done].
      destruct (node_children e !! j) as [cj|] eqn:Hj; [|done].
      cbn. intros [= <-] [= H]. symmetry.
      eapply (sibling_paths path e _ _ "" ""); [by left..|]. by rewrite H.
Qed.

Lemma walk_paths_NoDup e : NoDup (walk e).*1.
Proof. rewrite walk_preorder. apply preorder_paths_NoDup. Qed.
