(* ===== verification/LearnSemantics.v ===== *)
(** * Requirement evaluation: composition laws

    Evaluation and its three-valued specification unfold the same way over the
    children of a node; the composition of node results is Kleene's; what the
    leaves of a tree settle carries to its root. *)

From S2P Require Import Prelude PyData PyTime LearnExpression LearnConditions.
From S2P Require Import LearnEvaluate LearnSyntax.
From stdpp Require Import base gmap strings pretty list.
From Stdlib Require Import ZArith NArith Ascii.

(** ** Unfolding over the children *)

(** The result of a composite node, from the results of its children. *)
Definition compose (path : string) (e : Expr) (children : list NodeResult) : NodeResult :=
  match e with
  | All _ => eval_all path children
  | Any _ => eval_any path children
  | _ => match children with
         | child :: _ => eval_not path child
         | [] => undecided_leaf "" "" path
         end
  end.

Definition is_cond (e : Expr) : bool := match e with Cond _ _ => true | _ => false end.

Section unfold.
Context `{Pydantic} (facts : LearnerFacts) (registry : ConditionRegistry) (target : Target).

(** The evaluation of the nodes of a list, in order. *)
Definition eval_nodes (nodes : list (string * Expr)) : result req_error (list NodeResult) :=
  map_result (λ item, _eval item.2 item.1 facts registry target) nodes.

Lemma eval_unfold path e :
  is_cond e = false →
  _eval e path facts registry target =
    (children ← eval_nodes (child_nodes path e); Ok (compose path e children)).
Proof.
  assert (Heach : ∀ kind cs index,
    (fix each kind index cs := match cs with
     | [] => Ok []
     | c :: cs =>
         child ← _eval c (child_path path kind index) facts registry target;
         children ← each kind (S index) cs;
         Ok (child :: children)
     end) kind index cs
    = eval_nodes (imap (λ i c, (child_path path kind (index + i), c)) cs)).
  { intros kind cs. induction cs as [|c cs IH]; intros index; [done|].
    rewrite imap_cons. unfold eval_nodes. cbn [map_result fst snd].
    rewrite Nat.add_0_r. destruct (_eval c _ _ _ _) as [r|]; [|done].
    cbn. rewrite IH. do 2 f_equal. apply imap_ext. intros i x _. simpl.
    by rewrite Nat.add_succ_r. }
  unfold child_nodes. destruct e as [k ps|cs|cs|c]; intros Hc;
    cbn [is_cond node_kind node_children] in *; [done|..].
  - cbn [_eval]. rewrite (Heach "all" cs 0). done.
  - cbn [_eval]. rewrite (Heach "any" cs 0). done.
  - cbn [_eval]. cbn. by destruct (_eval c _ _ _ _).
Qed.
End unfold.

(** The value of a composite node, from the values of its children. *)
Definition kleene_compose (e : Expr) (vs : list verdict) : verdict :=
  match e with
  | All _ => foldr kleene_and (Some true) vs
  | Any _ => foldr kleene_or (Some false) vs
  | _ => match vs with v :: _ => kleene_not v | [] => None end
  end.

Lemma kleene_unfold leaf path e :
  is_cond e = false →
  kleene leaf path e =
    kleene_compose e ((λ item, kleene leaf item.1 item.2) <$> child_nodes path e).
Proof.
  assert (Heach : ∀ f z kind cs index,
    (fix each (f : verdict → verdict → verdict) (z : verdict) (kind : string)
       (index : nat) (cs : list Expr) : verdict := match cs with
     | [] => z
     | c :: cs => f (kleene leaf (child_path path kind index) c) (each f z kind (S index) cs)
     end) f z kind index cs
    = foldr f z ((λ item, kleene leaf item.1 item.2) <$>
        imap (λ i c, (child_path path kind (index + i), c)) cs)).
  { intros f z kind cs. induction cs as [|c cs IH]; intros index; [done|].
    rewrite imap_cons, fmap_cons. cbn [foldr fst snd]. rewrite Nat.add_0_r. f_equal.
    rewrite IH. do 2 f_equal. apply imap_ext. intros i x _. simpl.
    by rewrite Nat.add_succ_r. }
  unfold child_nodes. destruct e as [k ps|cs|cs|c]; intros Hc;
    cbn [is_cond node_kind node_children] in *; [done|..].
  - exact (Heach kleene_and (Some true) "all" cs 0).
  - exact (Heach kleene_or (Some false) "any" cs 0).
  - done.
Qed.

(** ** The composition of verdicts *)

(** A node that is undecided has not passed. *)
Definition fail_closed (r : NodeResult) : Prop :=
  nr_indeterminate r = true → nr_passed r = false.

Lemma verdict_true r : fail_closed r → verdict_of r = Some true ↔ nr_passed r = true.
Proof.
  unfold fail_closed, verdict_of.
  destruct (nr_indeterminate r), (nr_passed r); naive_solver.
Qed.

Lemma verdict_false r :
  verdict_of r = Some false ↔ nr_indeterminate r = false ∧ nr_passed r = false.
Proof. unfold verdict_of. destruct (nr_indeterminate r), (nr_passed r); naive_solver. Qed.

Lemma verdict_none r : verdict_of r = None ↔ nr_indeterminate r = true.
Proof. unfold verdict_of. destruct (nr_indeterminate r); naive_solver. Qed.

Lemma kleene_and_foldr vs :
  foldr kleene_and (Some true) vs =
    if existsb (λ v, bool_decide (v = Some false)) vs then Some false
    else if existsb (λ v, bool_decide (v = None)) vs then None else Some true.
Proof.
  induction vs as [|v vs IH]; [done|]. cbn [foldr existsb]. rewrite IH.
  destruct v as [[]|]; cbn; by repeat case_match.
Qed.

Lemma kleene_or_foldr vs :
  foldr kleene_or (Some false) vs =
    if existsb (λ v, bool_decide (v = Some true)) vs then Some true
    else if existsb (λ v, bool_decide (v = None)) vs then None else Some false.
Proof.
  induction vs as [|v vs IH]; [done|]. cbn [foldr existsb]. rewrite IH.
  destruct v as [[]|]; cbn; by repeat case_match.
Qed.

Lemma existsb_fmap_ext {A B} (f : A → B) (p : B → bool) (q : A → bool) l :
  Forall (λ x, p (f x) = q x) l → existsb p (f <$> l) = existsb q l.
Proof. induction 1 as [|x l Hx _ IH]; [done|]. cbn. by rewrite Hx, IH. Qed.

Lemma eval_all_verdict path children :
  verdict_of (eval_all path children) =
    foldr kleene_and (Some true) (verdict_of <$> children).
Proof.
  rewrite kleene_and_foldr.
  rewrite (existsb_fmap_ext _ _ (λ c, negb (nr_passed c) && negb (nr_indeterminate c))).
  2: { apply Forall_true. intros r. unfold verdict_of.
    by destruct (nr_indeterminate r), (nr_passed r). }
  rewrite (existsb_fmap_ext _ _ nr_indeterminate).
  2: { apply Forall_true. intros r. unfold verdict_of.
    by destruct (nr_indeterminate r), (nr_passed r). }
  unfold eval_all, group_unknown.
  destruct (existsb (λ child, _) children), (existsb nr_indeterminate children); done.
Qed.

Lemma eval_any_verdict path children :
  Forall fail_closed children →
  verdict_of (eval_any path children) =
    foldr kleene_or (Some false) (verdict_of <$> children).
Proof.
  intros Hfc. rewrite kleene_or_foldr.
  rewrite (existsb_fmap_ext _ _ nr_passed).
  2: { eapply Forall_impl; [exact Hfc|]. intros r. unfold fail_closed, verdict_of.
    destruct (nr_indeterminate r), (nr_passed r); naive_solver. }
  rewrite (existsb_fmap_ext _ _ nr_indeterminate).
  2: { apply Forall_true. intros r. unfold verdict_of.
    by destruct (nr_indeterminate r), (nr_passed r). }
  unfold eval_any, group_unknown. destruct children as [|c cs]; [done|].
  by destruct (existsb nr_passed (c :: cs)), (existsb nr_indeterminate (c :: cs)).
Qed.

Lemma eval_not_verdict path child :
  verdict_of (eval_not path child) = kleene_not (verdict_of child).
Proof.
  unfold eval_not, verdict_of.
  destruct (nr_indeterminate child) eqn:Hi, (nr_passed child) eqn:Hp; cbn; done.
Qed.

Lemma compose_fail_closed path e children : fail_closed (compose path e children).
Proof.
  unfold fail_closed, compose, eval_all, eval_any, eval_not.
  destruct e; by repeat case_match.
Qed.

Lemma compose_verdict path e children :
  is_cond e = false → length children = length (node_children e) →
  Forall fail_closed children →
  verdict_of (compose path e children) = kleene_compose e (verdict_of <$> children).
Proof.
  intros He Hlen Hfc. destruct e as [| | |c]; [done|..]; cbn [compose kleene_compose].
  - apply eval_all_verdict.
  - by apply eval_any_verdict.
  - destruct children as [|child [|]]; try done. apply eval_not_verdict.
Qed.

(** ** Leaves *)

Lemma eval_cond_fail_closed `{Pydantic} kind fields path facts registry target r :
  _eval_cond kind fields path facts registry target = Ok r → fail_closed r.
Proof.
  unfold _eval_cond, fail_closed. intros Hr.
  apply result_bind_Ok in Hr as (spec & _ & Hr).
  destruct (negb _); [by injection Hr as <-|].
  destruct (model_validate _ _); [|by injection Hr as <-].
  apply result_bind_Ok in Hr as (leaf & _ & Hr).
  injection Hr as <-. by destruct (leaf_passed leaf).
Qed.

Section semantics.
Context `{Pydantic} (facts : LearnerFacts) (registry : ConditionRegistry) (target : Target).

(** The verdict of a leaf. *)
Definition leaf_verdict (path kind : string) (fields : list (string * json)) : verdict :=
  match _eval_cond kind fields path facts registry target with
  | Ok r => verdict_of r
  | Raise _ => None
  end.

Lemma eval_nodes_Ok nodes rs :
  eval_nodes facts registry target nodes = Ok rs ↔
    Forall2 (λ item r, _eval item.2 item.1 facts registry target = Ok r) nodes rs.
Proof. apply map_result_Ok. Qed.

Lemma child_nodes_length path e : length (child_nodes path e) = length (node_children e).
Proof. unfold child_nodes. apply length_imap. Qed.

Lemma Forall_child_nodes (P : Expr → Prop) path e :
  Forall P (node_children e) → Forall (λ item, P item.2) (child_nodes path e).
Proof.
  rewrite !Forall_forall. intros HP [q c] (i & Hi & _)%elem_of_child_nodes.
  apply HP. by eapply list_elem_of_lookup_2.
Qed.

Lemma eval_kleene e : ∀ path r,
  _eval e path facts registry target = Ok r →
  verdict_of r = kleene leaf_verdict path e ∧ fail_closed r.
Proof.
  induction e as [e IH] using Expr_children_ind. intros path r Hr.
  destruct (is_cond e) eqn:He.
  { destruct e as [k ps| | |]; try done. cbn [_eval kleene] in *.
    unfold leaf_verdict. rewrite Hr. split; [done|]. by eapply eval_cond_fail_closed. }
  rewrite eval_unfold in Hr by done.
  apply result_bind_Ok in Hr as (children & Hcs & [= <-]).
  apply eval_nodes_Ok in Hcs. pose proof (Forall2_length _ _ _ Hcs) as Hlen.
  rewrite child_nodes_length in Hlen.
  apply (Forall_child_nodes _ path) in IH.
  assert (Hall : Forall2 (λ item r,
      verdict_of r = kleene leaf_verdict item.1 item.2 ∧ fail_closed r)
      (child_nodes path e) children).
  { clear Hlen. induction Hcs as [|item c items cs Hc _ IHcs]; [constructor|].
    apply Forall_cons in IH as [IHc IH]. constructor; eauto. }
  split; [|apply compose_fail_closed].
  rewrite compose_verdict, kleene_unfold; [|done..|].
  - f_equal. clear IH Hlen Hcs. induction Hall as [|item c items cs [Hc _] _ IHcs]; [done|].
    rewrite !fmap_cons. by rewrite Hc, IHcs.
  - clear -Hall. induction Hall as [|item c items cs [_ Hc] _ IHcs]; constructor; auto.
Qed.

(** Whether an evaluation raises is settled at the leaves. *)
Lemma map_result_ok {E A B} (f : A → result E B) l :
  is_ok (map_result f l) = forallb (λ x, is_ok (f x)) l.
Proof.
  induction l as [|x l IH]; [done|]. cbn [map_result forallb]. rewrite <-IH.
  destruct (f x); [|done]. cbn. by destruct (map_result f l).
Qed.

Lemma eval_ok_iff e : ∀ path,
  is_ok (_eval e path facts registry target) = true ↔
    ∀ n q k fields, below path e n q (Cond k fields) →
      is_ok (_eval_cond k fields q facts registry target) = true.
Proof.
  induction e as [e IH] using Expr_children_ind. intros path.
  destruct (is_cond e) eqn:He.
  { destruct e as [k ps| | |]; try done. cbn [_eval]. split.
    - intros Hok n q k' fields Hb. inversion Hb as [|i c n' ? ? Hi]; subst; [done|].
      cbn in Hi. by rewrite lookup_nil in Hi.
    - intros Hl. apply (Hl 0 path). constructor. }
  rewrite eval_unfold by done.
  assert (is_ok (children ← eval_nodes facts registry target (child_nodes path e);
      Ok (compose path e children)) =
    is_ok (eval_nodes facts registry target (child_nodes path e))) as ->
    by (by destruct (eval_nodes _ _ _ _)).
  unfold eval_nodes. rewrite map_result_ok, forallb_Forall, Forall_forall. split.
  - intros Hok n q k fields Hb. inversion Hb as [|i c n' ? ? Hi Hb']; subst; [done|].
    eapply (Forall_lookup_1 _ _ _ _ IH Hi); [|done].
    apply (Hok (_, c)). apply elem_of_child_nodes; eauto.
  - intros Hl [q c] (i & Hi & ->)%elem_of_child_nodes. cbn.
    apply (Forall_lookup_1 _ _ _ _ IH Hi). intros n q' k fields Hb.
    eapply Hl. by econstructor.
Qed.

Lemma eval_raises e : ∀ path exc,
  _eval e path facts registry target = Raise exc →
  ∃ n q k fields, below path e n q (Cond k fields) ∧
    _eval_cond k fields q facts registry target = Raise exc.
Proof.
  induction e as [e IH] using Expr_children_ind. intros path exc Hr.
  destruct (is_cond e) eqn:He.
  { destruct e as [k ps| | |]; try done. exists 0, path, k, ps. by split; [constructor|]. }
  rewrite eval_unfold in Hr by done.
  apply result_bind_Raise in Hr as [Hr|(? & _ & [=])].
  assert (∃ item, item ∈ child_nodes path e ∧
    _eval item.2 item.1 facts registry target = Raise exc) as ([q c] & Hin & Hc).
  { clear IH. unfold eval_nodes in Hr.
    induction (child_nodes path e) as [|item items IHi]; [done|].
    cbn [map_result] in Hr. apply result_bind_Raise in Hr as [Hr|(? & _ & Hr)].
    { exists item. split; [by left|done]. }
    apply result_bind_Raise in Hr as [Hr|(? & _ & [=])].
    destruct (IHi Hr) as (it & ? & ?). exists it. split; [by right|done]. }
  apply elem_of_child_nodes in Hin as (i & Hi & ->). cbn in Hc.
  apply (Forall_lookup_1 _ _ _ _ IH Hi) in Hc as (n & q & k & fields & Hb & Hc).
  exists (S n), q, k, fields. split; [by econstructor|done].
Qed.
End semantics.
