(* ===== verification/LearnRules.v ===== *)
(** * Requirement evaluation: constants, explanations and facts

    When an expression is constant, what its reasons explain, and how the
    verdict moves when the facts about a learner grow. *)

From S2P Require Import Prelude PyData PyTime LearnExpression LearnConditions.
From S2P Require Import LearnEvaluate LearnValidate LearnSyntax LearnSemantics.
From stdpp Require Import base gmap strings pretty list.
From Stdlib Require Import ZArith NArith Ascii SpecFloat.

(** ** Monotonicity of the three-valued connectives *)

(** A relation between verdicts the connectives preserve. *)
Section kleene_related.
Context (R : verdict → verdict → Prop).
Context (Rand : ∀ v w v' w', R v v' → R w w' → R (kleene_and v w) (kleene_and v' w')).
Context (Ror : ∀ v w v' w', R v v' → R w w' → R (kleene_or v w) (kleene_or v' w')).
Context (Rtrue : R (Some true) (Some true)) (Rfalse : R (Some false) (Some false)).

(** [ok] admits the nodes whose negations, if any, preserve the relation. *)
Lemma kleene_related leaf leaf' e : ∀ path,
  (∀ n q x, below path e n q x →
    match x with
    | Cond kind fields => R (leaf q kind fields) (leaf' q kind fields)
    | Not _ => ∀ v v', R v v' → R (kleene_not v) (kleene_not v')
    | _ => True
    end) →
  R (kleene leaf path e) (kleene leaf' path e).
Proof.
  induction e as [e IH] using Expr_children_ind. intros path Hl.
  destruct (is_cond e) eqn:He.
  { destruct e as [k ps| | |]; try done. apply (Hl 0 path (Cond k ps)). constructor. }
  rewrite !kleene_unfold by done.
  assert (Hall : Forall (λ item, R (kleene leaf item.1 item.2) (kleene leaf' item.1 item.2))
    (child_nodes path e)).
  { apply Forall_forall. intros [q c] (i & Hi & ->)%elem_of_child_nodes. cbn.
    apply (Forall_lookup_1 _ _ _ _ IH Hi). intros n q' x Hb.
    apply (Hl (S n)). by econstructor. }
  destruct e as [|cs|cs|c]; [done|..]; cbn [kleene_compose].
  - induction Hall; cbn; auto.
  - induction Hall; cbn; auto.
  - apply (Hl 0 path (Not c) (below_here _ _)).
    apply Forall_cons in Hall as [Hc _]. exact Hc.
Qed.
End kleene_related.

(** Decided verdicts stay. *)
Definition refines (v w : verdict) : Prop := v = None ∨ v = w.

Lemma kleene_refines leaf leaf' e path :
  (∀ n q kind fields, below path e n q (Cond kind fields) →
    refines (leaf q kind fields) (leaf' q kind fields)) →
  refines (kleene leaf path e) (kleene leaf' path e).
Proof.
  intros Hl. apply (kleene_related refines); unfold refines.
  - intros [[]|] [[]|] ?? [?|<-] [?|<-]; simplify_eq; cbn; auto;
      repeat (match goal with v : verdict |- _ => destruct v as [[]|] end); cbn; auto.
  - intros [[]|] [[]|] ?? [?|<-] [?|<-]; simplify_eq; cbn; auto;
      repeat (match goal with v : verdict |- _ => destruct v as [[]|] end); cbn; auto.
  - by right.
  - by right.
  - intros n q x Hb. destruct x as [k ps| | |]; [|done|done|].
    + by eapply Hl.
    + intros v v' [->| ->]; auto.
Qed.

(** The leaves determine the value. *)
Lemma kleene_ext leaf leaf' e path :
  (∀ n q kind fields, below path e n q (Cond kind fields) →
    leaf q kind fields = leaf' q kind fields) →
  kleene leaf path e = kleene leaf' path e.
Proof.
  intros Hl. apply (kleene_related (=)); try congruence.
  intros n q x Hb. destruct x; [by eapply Hl|done|done|congruence].
Qed.

(** Passing leaves keep passing, where no node is negated. *)
Definition keeps_passing (v w : verdict) : Prop := v = Some true → w = Some true.

Lemma kleene_keeps_passing leaf leaf' e path :
  (∀ n q x, below path e n q x →
    match x with
    | Cond kind fields => keeps_passing (leaf q kind fields) (leaf' q kind fields)
    | Not _ => False
    | _ => True
    end) →
  keeps_passing (kleene leaf path e) (kleene leaf' path e).
Proof.
  intros Hl. apply (kleene_related keeps_passing); unfold keeps_passing.
  - intros [[]|] [[]|] ?? Hv Hw [=]. by rewrite Hv, Hw.
  - intros v w v' w' Hv Hw H. destruct v as [[]|], w as [[]|]; try done;
      rewrite ?Hv, ?Hw by done; try done; by destruct v' as [[]|].
  - done.
  - done.
  - intros n q x Hb. specialize (Hl n q x Hb). by destruct x.
Qed.

(** ** Constant expressions *)

Lemma constant_values (cs : list Expr) b (p : option bool → bool) :
  existsb p (map _constant cs) = b ↔ existsb (λ c, p (_constant c)) cs = b.
Proof.
  assert (existsb p (map _constant cs) = existsb (λ c, p (_constant c)) cs) as ->; [|done].
  induction cs as [|c cs IH]; [done|]. cbn. by rewrite IH.
Qed.

Lemma constant_forallb (cs : list Expr) (p : option bool → bool) :
  forallb p (map _constant cs) = forallb (λ c, p (_constant c)) cs.
Proof. induction cs as [|c cs IH]; [done|]. cbn. by rewrite IH. Qed.

(** The constant value of a composite node. *)
Lemma constant_all_false cs :
  _constant (All cs) = Some false ↔ ∃ c, c ∈ cs ∧ _constant c = Some false.
Proof.
  cbn [_constant]. destruct (existsb _ _) eqn:H.
  - split; [|done]. intros _. apply constant_values, existsb_true in H as (c & ? & ?).
    bool_to_prop. eauto.
  - split; [by case_match|]. intros (c & Hc & Hf).
    apply constant_values in H. rewrite existsb_false in H. specialize (H c Hc).
    by bool_to_prop.
Qed.

Lemma constant_all_true cs :
  _constant (All cs) = Some true ↔ ∀ c, c ∈ cs → _constant c = Some true.
Proof.
  cbn [_constant]. destruct (existsb _ _) eqn:H.
  - split; [done|]. intros Hall. apply constant_values, existsb_true in H as (c & Hc & Hf).
    bool_to_prop. rewrite (Hall c Hc) in Hf. done.
  - rewrite constant_forallb. destruct (forallb _ cs) eqn:Hb.
    + split; [|done]. intros _ c Hc. apply forallb_Forall in Hb.
      rewrite Forall_forall in Hb. specialize (Hb c Hc). by bool_to_prop.
    + split; [done|]. intros Hall. exfalso.
      assert (forallb (λ c, bool_decide (_constant c = Some true)) cs = true); [|congruence].
      apply forallb_Forall, Forall_forall. intros c Hc. apply bool_decide_eq_true. auto.
Qed.

Lemma constant_any_true cs :
  _constant (Any cs) = Some true ↔ ∃ c, c ∈ cs ∧ _constant c = Some true.
Proof.
  cbn [_constant]. destruct (existsb _ _) eqn:H.
  - split; [|done]. intros _. apply constant_values, existsb_true in H as (c & ? & ?).
    bool_to_prop. eauto.
  - split; [by case_match|]. intros (c & Hc & Hf).
    apply constant_values in H. rewrite existsb_false in H. specialize (H c Hc).
    by bool_to_prop.
Qed.

Lemma constant_any_false cs :
  _constant (Any cs) = Some false ↔ ∀ c, c ∈ cs → _constant c = Some false.
Proof.
  cbn [_constant]. destruct (existsb _ _) eqn:H.
  - split; [done|]. intros Hall. apply constant_values, existsb_true in H as (c & Hc & Hf).
    bool_to_prop. rewrite (Hall c Hc) in Hf. done.
  - rewrite constant_forallb. destruct (forallb _ cs) eqn:Hb.
    + split; [|done]. intros _ c Hc. apply forallb_Forall in Hb.
      rewrite Forall_forall in Hb. specialize (Hb c Hc). by bool_to_prop.
    + split; [done|]. intros Hall. exfalso.
      assert (forallb (λ c, bool_decide (_constant c = Some false)) cs = true); [|congruence].
      apply forallb_Forall, Forall_forall. intros c Hc. apply bool_decide_eq_true. auto.
Qed.

Lemma constant_not b c : _constant (Not c) = Some b ↔ _constant c = Some (negb b).
Proof. cbn [_constant]. destruct (_constant c) as [[]|], b; naive_solver. Qed.

(** Kleene's connectives over a list. *)
Lemma kleene_and_true vs : foldr kleene_and (Some true) vs = Some true ↔ ∀ v, v ∈ vs → v = Some true.
Proof.
  induction vs as [|v vs IH]; cbn [foldr]; [by set_solver|].
  setoid_rewrite elem_of_cons. split.
  - intros H. destruct v as [[]|], (foldr kleene_and (Some true) vs) as [[]|]; try done.
    intros w [->|Hw]; [done|]. by apply IH.
  - intros H. rewrite (H v) by (by left). rewrite (proj2 IH); [done|]. auto.
Qed.

Lemma kleene_and_false vs : foldr kleene_and (Some true) vs = Some false ↔ Some false ∈ vs.
Proof.
  induction vs as [|v vs IH]; cbn [foldr]; [by set_solver|].
  rewrite elem_of_cons, <-IH.
  destruct v as [[]|], (foldr kleene_and (Some true) vs) as [[]|]; naive_solver.
Qed.

Lemma kleene_or_true vs : foldr kleene_or (Some false) vs = Some true ↔ Some true ∈ vs.
Proof.
  induction vs as [|v vs IH]; cbn [foldr]; [by set_solver|].
  rewrite elem_of_cons, <-IH.
  destruct v as [[]|], (foldr kleene_or (Some false) vs) as [[]|]; naive_solver.
Qed.

Lemma kleene_or_false vs :
  foldr kleene_or (Some false) vs = Some false ↔ ∀ v, v ∈ vs → v = Some false.
Proof.
  induction vs as [|v vs IH]; cbn [foldr]; [by set_solver|].
  setoid_rewrite elem_of_cons. split.
  - intros H. destruct v as [[]|], (foldr kleene_or (Some false) vs) as [[]|]; try done.
    intros w [->|Hw]; [done|]. by apply IH.
  - intros H. rewrite (H v) by (by left). rewrite (proj2 IH); [done|]. auto.
Qed.

(** The values of the children, with the child each comes from. *)
Lemma elem_of_child_values leaf path e v :
  v ∈ (λ item, kleene leaf item.1 item.2) <$> child_nodes path e ↔
    ∃ i c, node_children e !! i = Some c ∧
      v = kleene leaf (child_path path (node_kind e) i) c.
Proof.
  rewrite list_elem_of_fmap. split.
  - intros ([q c] & -> & (i & Hi & ->)%elem_of_child_nodes). eauto.
  - intros (i & c & Hi & ->). exists (child_path path (node_kind e) i, c).
    split; [done|]. apply elem_of_child_nodes. eauto.
Qed.

Lemma kleene_All leaf path cs :
  kleene leaf path (All cs) =
    foldr kleene_and (Some true) ((λ item, kleene leaf item.1 item.2) <$> child_nodes path (All cs)).
Proof. by rewrite kleene_unfold. Qed.
Lemma kleene_Any leaf path cs :
  kleene leaf path (Any cs) =
    foldr kleene_or (Some false) ((λ item, kleene leaf item.1 item.2) <$> child_nodes path (Any cs)).
Proof. by rewrite kleene_unfold. Qed.

(** A constant expression has its value under every assignment. *)
Lemma constant_sound leaf e : ∀ path b, _constant e = Some b → kleene leaf path e = Some b.
Proof.
  induction e as [e IH] using Expr_children_ind. intros path b Hb.
  assert (Hc : ∀ i c b', node_children e !! i = Some c → _constant c = Some b' →
    kleene leaf (child_path path (node_kind e) i) c = Some b').
  { intros i c b' Hi ?. by apply (Forall_lookup_1 _ _ _ _ IH Hi). }
  clear IH. destruct e as [k ps|cs|cs|c]; [done|..].
  - rewrite kleene_All. destruct b.
    + apply kleene_and_true. intros v (i & c & Hi & ->)%elem_of_child_values.
      eapply Hc; [done|]. eapply constant_all_true; [done|]. by eapply list_elem_of_lookup_2.
    + apply constant_all_false in Hb as (c & [i Hi]%list_elem_of_lookup & Hf).
      apply kleene_and_false, elem_of_child_values. exists i, c. split; [done|].
      symmetry. by apply Hc.
  - rewrite kleene_Any. destruct b.
    + apply constant_any_true in Hb as (c & [i Hi]%list_elem_of_lookup & Hf).
      apply kleene_or_true, elem_of_child_values. exists i, c. split; [done|].
      symmetry. by apply Hc.
    + apply kleene_or_false. intros v (i & c & Hi & ->)%elem_of_child_values.
      eapply Hc; [done|]. eapply constant_any_false; [done|]. by eapply list_elem_of_lookup_2.
  - apply constant_not in Hb. pose proof (Hc 0 c (negb b) eq_refl Hb) as Hv.
    cbn [kleene node_kind] in *. rewrite Hv. by destruct b.
Qed.

(** Assignments of the leaves of disjoint trees merge. *)
Definition paths_of (item : string * Expr) : list string := (preorder_nodes item.1 item.2).*1.

Lemma below_in_paths path e n q x : below path e n q x → q ∈ paths_of (path, e).
Proof.
  intros Hb. unfold paths_of. apply list_elem_of_fmap. exists (q, x). split; [done|].
  apply preorder_below. eauto.
Qed.

Lemma merge_leaves items b :
  (∀ item, item ∈ items → ∃ leaf, kleene leaf item.1 item.2 = Some b) →
  NoDup (items ≫= paths_of) →
  ∃ leaf, ∀ item, item ∈ items → kleene leaf item.1 item.2 = Some b.
Proof.
  induction items as [|[p c] items IH]; intros Hl Hnd.
  { exists (λ _ _ _, None). by intros ? ?%not_elem_of_nil. }
  rewrite bind_cons in Hnd. apply NoDup_app in Hnd as (_ & Hdis & Hnd).
  destruct (Hl (p, c)) as [leaf Hleaf]; [by left|].
  destruct IH as [leaf' Hleaf']; [intros; apply Hl; by right|done|].
  exists (λ q kind fields, if decide (q ∈ paths_of (p, c)) then leaf q kind fields
                     else leaf' q kind fields).
  intros item [->|Hin]%elem_of_cons.
  - rewrite <-Hleaf. apply kleene_ext. intros n q k ps Hb.
    rewrite decide_True; [done|]. by eapply below_in_paths.
  - rewrite <-(Hleaf' item Hin). apply kleene_ext. intros n q k ps Hb.
    rewrite decide_False; [done|]. intros Hq. apply (Hdis q Hq).
    apply list_elem_of_bind. exists item. split; [|done].
    destruct item. by eapply below_in_paths.
Qed.

Lemma child_paths_NoDup path e : NoDup (child_nodes path e ≫= paths_of).
Proof.
  pose proof (preorder_paths_NoDup e path) as Hnd.
  rewrite preorder_unfold, fmap_cons, fmap_bind in Hnd.
  by apply NoDup_cons in Hnd as [_ Hnd].
Qed.

Lemma merge_children path e b :
  (∀ i c, node_children e !! i = Some c →
    ∃ leaf, kleene leaf (child_path path (node_kind e) i) c = Some b) →
  ∃ leaf, ∀ v, v ∈ (λ item, kleene leaf item.1 item.2) <$> child_nodes path e → v = Some b.
Proof.
  intros Hl. destruct (merge_leaves (child_nodes path e) b) as [leaf Hleaf].
  - intros [q c] (i & Hi & ->)%elem_of_child_nodes. by apply Hl.
  - apply child_paths_NoDup.
  - exists leaf. intros v (item & -> & Hin)%list_elem_of_fmap. by apply Hleaf.
Qed.

(** Any other value can be reached. *)
Lemma constant_complete e : ∀ path b,
  _constant e ≠ Some (negb b) → ∃ leaf, kleene leaf path e = Some b.
Proof.
  induction e as [e IH] using Expr_children_ind. intros path b Hb.
  assert (Hc : ∀ i c, node_children e !! i = Some c → ∀ b', _constant c ≠ Some (negb b') →
    ∃ leaf, kleene leaf (child_path path (node_kind e) i) c = Some b').
  { intros i c Hi b' ?. by apply (Forall_lookup_1 _ _ _ _ IH Hi). }
  clear IH.
  assert (Hother : ∀ (cs : list Expr) b', ¬ (∀ c, c ∈ cs → _constant c = Some b') →
    ∃ i c, cs !! i = Some c ∧ _constant c ≠ Some b').
  { intros cs b' Hn. destruct (decide (Exists (λ c, _constant c ≠ Some b') cs)) as [He|He].
    - apply Exists_exists in He as (c & [i Hi]%list_elem_of_lookup & Hx). eauto.
    - destruct Hn. rewrite Exists_exists in He. intros c Hin.
      destruct (decide (_constant c = Some b')); [done|]. destruct He; eauto. }
  destruct e as [k ps|cs|cs|c].
  - by exists (λ _ _ _, Some b).
  - destruct b; cbn [negb] in Hb.
    + destruct (merge_children path (All cs) true) as [leaf Hleaf].
      { intros i c Hi. apply (Hc i c Hi). intros Hf. apply Hb, constant_all_false.
        exists c. split; [by eapply list_elem_of_lookup_2|done]. }
      exists leaf. rewrite kleene_All. by apply kleene_and_true.
    + rewrite constant_all_true in Hb. apply Hother in Hb as (i & c & Hi & Hx).
      destruct (Hc i c Hi false Hx) as [leaf Hleaf]. exists leaf.
      rewrite kleene_All. apply kleene_and_false, elem_of_child_values. eauto.
  - destruct b; cbn [negb] in Hb.
    + rewrite constant_any_false in Hb. apply Hother in Hb as (i & c & Hi & Hx).
      destruct (Hc i c Hi true Hx) as [leaf Hleaf]. exists leaf.
      rewrite kleene_Any. apply kleene_or_true, elem_of_child_values. eauto.
    + destruct (merge_children path (Any cs) false) as [leaf Hleaf].
      { intros i c Hi. apply (Hc i c Hi). intros Hf. apply Hb, constant_any_true.
        exists c. split; [by eapply list_elem_of_lookup_2|done]. }
      exists leaf. rewrite kleene_Any. by apply kleene_or_false.
  - rewrite constant_not, negb_involutive in Hb.
    destruct (Hc 0 c eq_refl (negb b)) as [leaf Hleaf]; [by rewrite negb_involutive|].
    exists leaf. cbn [kleene node_kind] in *. rewrite Hleaf. cbn.
    by rewrite negb_involutive.
Qed.

(** ** Explanations *)

(** A leaf or an empty [any]: what a reason points at. *)
Definition explains (x : Expr) : Prop := is_cond x = true ∨ x = Any [].

Record explained (path : string) (e : Expr) (r : NodeResult) : Prop := {
  explained_passed : nr_passed r = true → nr_reasons r = [];
  explained_failed : nr_passed r = false → nr_reasons r = [] → _constant e = Some false;
  explained_satisfied : nr_passed r = true → nr_satisfied r = [] → _constant e = Some true;
  explained_paths reason : reason ∈ nr_reasons r ++ nr_satisfied r →
    ∃ n x, below path e n (reason_path reason) x ∧ explains x;
}.

Lemma concat_nil children failed :
  _concat children failed = [] →
  ∀ c, c ∈ children → (if failed then nr_reasons c else nr_satisfied c) = [].
Proof.
  intros H c Hc. unfold _concat in H.
  induction children as [|d ds IH]; [by inversion Hc|].
  rewrite bind_cons in H. apply app_eq_nil in H as [Hd H].
  apply elem_of_cons in Hc as [->|Hc]; auto.
Qed.

Lemma elem_of_concat children failed reason :
  reason ∈ _concat children failed →
  ∃ c, c ∈ children ∧ reason ∈ nr_reasons c ++ nr_satisfied c.
Proof.
  unfold _concat. intros (c & Hr & Hc)%list_elem_of_bind. exists c. split; [done|].
  rewrite elem_of_app. destruct failed; auto.
Qed.

Section explained.
Context `{Pydantic} (facts : LearnerFacts) (registry : ConditionRegistry) (target : Target).
Local Abbreviation eval e path := (_eval e path facts registry target).

(** What is known of the child at a position. *)
Definition child_explained (path : string) (e : Expr) (r : NodeResult) : Prop :=
  ∃ i c, node_children e !! i = Some c ∧
    eval c (child_path path (node_kind e) i) = Ok r ∧
    explained (child_path path (node_kind e) i) c r.

Lemma child_explained_paths path e r reason :
  child_explained path e r → reason ∈ nr_reasons r ++ nr_satisfied r →
  ∃ n x, below path e n (reason_path reason) x ∧ explains x.
Proof.
  intros (i & c & Hi & _ & Hx) (n & x & Hb & He)%(explained_paths _ _ _ Hx).
  exists (S n), x. split; [by econstructor|done].
Qed.

(** A decided child without reasons is constant. *)
Lemma child_failed_constant path e r :
  child_explained path e r → nr_passed r = false → nr_reasons r = [] →
  nr_indeterminate r = false ∧ ∃ c, c ∈ node_children e ∧ _constant c = Some false.
Proof.
  intros (i & c & Hi & Hr & Hx) Hp Hn. pose proof (explained_failed _ _ _ Hx Hp Hn) as Hc.
  split; [|exists c; split; [by eapply list_elem_of_lookup_2|done]].
  apply eval_kleene in Hr as [Hv _]. rewrite (constant_sound _ _ _ _ Hc) in Hv.
  by apply verdict_false in Hv as [??].
Qed.

Lemma child_passed_constant path e r :
  child_explained path e r → nr_passed r = true → nr_satisfied r = [] →
  ∃ c, c ∈ node_children e ∧ _constant c = Some true.
Proof.
  intros (i & c & Hi & _ & Hx) Hp Hn.
  exists c. split; [by eapply list_elem_of_lookup_2|]. by eapply explained_satisfied.
Qed.

(** The results of the children, explained. *)
Definition children_explained (path : string) (e : Expr) (children : list NodeResult) : Prop :=
  (∀ r, r ∈ children → child_explained path e r) ∧
  (∀ c, c ∈ node_children e → ∃ q r, r ∈ children ∧ explained q c r).

Lemma children_explained_intro path e children :
  eval_nodes facts registry target (child_nodes path e) = Ok children →
  (∀ i c r, node_children e !! i = Some c →
    eval c (child_path path (node_kind e) i) = Ok r →
    explained (child_path path (node_kind e) i) c r) →
  children_explained path e children.
Proof.
  intros Hcs%eval_nodes_Ok Hx. split.
  - intros r [i Hr]%list_elem_of_lookup.
    destruct (Forall2_lookup_r _ _ _ _ _ Hcs Hr) as ([q c] & Hi & Hc).
    unfold child_nodes in Hi. rewrite list_lookup_imap in Hi.
    apply fmap_Some in Hi as (c' & Hi & [= -> ->]). cbn in Hc.
    exists i, c'. auto.
  - intros c [i Hi]%list_elem_of_lookup.
    destruct (Forall2_lookup_l _ _ _ i (child_path path (node_kind e) i, c) Hcs)
      as (r & Hr & Hc).
    { unfold child_nodes. by rewrite list_lookup_imap, Hi. }
    exists (child_path path (node_kind e) i), r.
    split; [by eapply list_elem_of_lookup_2|auto].
Qed.

Lemma children_paths path e children failed reason :
  children_explained path e children → reason ∈ _concat children failed →
  ∃ n x, below path e n (reason_path reason) x ∧ explains x.
Proof.
  intros [Hall _] (r & Hr & Hin)%elem_of_concat.
  eapply child_explained_paths; [by apply Hall|done].
Qed.

(** A failed or undecided child leaves a reason, unless it is constant. *)
Lemma children_failed_constant path e children r :
  children_explained path e children → r ∈ children →
  nr_passed r = false → _concat children true = [] →
  nr_indeterminate r = false ∧ ∃ c, c ∈ node_children e ∧ _constant c = Some false.
Proof.
  intros [Hall _] Hr Hp Hn. apply (child_failed_constant path e r); [by apply Hall|done|].
  by apply (concat_nil _ true Hn).
Qed.

Lemma child_undecided_failed path e r :
  child_explained path e r → nr_indeterminate r = true → nr_passed r = false.
Proof. intros (i & c & _ & Hr & _). by apply eval_kleene in Hr as [_ Hr]. Qed.

Lemma explained_all path cs children :
  children_explained path (All cs) children → explained path (All cs) (eval_all path children).
Proof.
  intros Hx. unfold eval_all, group_unknown.
  destruct (existsb (λ c, negb (nr_passed c) && _) children) eqn:Hdf; cbn [negb andb].
  { constructor; cbn [nr_passed nr_reasons nr_satisfied]; try done.
    - intros _ Hn. apply existsb_true in Hdf as (r & Hr & [Hp%negb_true_iff Hi]%andb_true_iff).
      apply constant_all_false. by apply (children_failed_constant path (All cs) children r).
    - intros reason. rewrite app_nil_r. by apply children_paths. }
  destruct (existsb nr_indeterminate children) eqn:Hu; cbn [negb].
  { constructor; cbn [nr_passed nr_reasons nr_satisfied]; try done.
    - intros _ Hn. exfalso. apply existsb_true in Hu as (r & Hr & Hi).
      destruct (children_failed_constant path (All cs) children r) as [Hd _]; try done;
        [|congruence].
      eapply child_undecided_failed; [by apply Hx|done].
    - intros reason. rewrite app_nil_r. by apply children_paths. }
  constructor; cbn [nr_passed nr_reasons nr_satisfied]; try done.
  - intros _ Hn. apply constant_all_true. intros c Hc.
    destruct (proj2 Hx c Hc) as (q & r & Hr & He).
    rewrite existsb_false in Hdf, Hu. specialize (Hdf r Hr). specialize (Hu r Hr).
    cbn beta in Hdf. rewrite Hu in Hdf.
    eapply (explained_satisfied _ _ _ He); [by destruct (nr_passed r)|].
    by apply (concat_nil _ false Hn).
  - intros reason Hin. cbn in Hin. by eapply children_paths.
Qed.

Lemma elem_of_passed_reasons children reason :
  reason ∈ filter (λ c, nr_passed c = true) children ≫= nr_satisfied →
  reason ∈ _concat children false.
Proof.
  intros (r & Hr & Hin)%list_elem_of_bind. apply list_elem_of_filter in Hin as [_ Hin].
  apply list_elem_of_bind. eauto.
Qed.

Lemma explained_any path cs children :
  length children = length cs →
  children_explained path (Any cs) children → explained path (Any cs) (eval_any path children).
Proof.
  intros Hlen Hx. destruct children as [|r0 rs].
  { destruct cs; [|done]. constructor; cbn [eval_any nr_passed nr_reasons nr_satisfied]; try done.
    intros reason Hin%list_elem_of_singleton. subst reason.
    exists 0, (Any []). split; [constructor|by right]. }
  unfold eval_any, group_unknown. set (children := r0 :: rs) in *.
  destruct (existsb nr_passed children) eqn:Hp.
  { constructor; cbn [nr_passed nr_reasons nr_satisfied]; try done.
    - intros _ Hn. apply existsb_true in Hp as (r & Hr & Hp).
      apply constant_any_true. apply (child_passed_constant path (Any cs) r);
        [by apply Hx|done|].
      assert (Hsub : ∀ reason, reason ∈ nr_satisfied r → False).
      { intros reason Hin.
        assert (reason ∈ filter (λ c, nr_passed c = true) children ≫= nr_satisfied) as H'.
        { apply list_elem_of_bind. exists r. split; [done|]. by apply list_elem_of_filter. }
        rewrite Hn in H'. by inversion H'. }
      destruct (nr_satisfied r) as [|reason ?]; [done|]. destruct (Hsub reason). by left.
    - intros reason. rewrite app_nil_l. intros Hin%elem_of_passed_reasons.
      by eapply children_paths. }
  rewrite existsb_false in Hp.
  constructor; cbn [nr_passed nr_reasons nr_satisfied]; try done.
  - intros _ Hn. apply constant_any_false. intros c Hc.
    destruct (proj2 Hx c Hc) as (q & r & Hr & He).
    apply (explained_failed _ _ _ He); [by apply Hp|]. by apply (concat_nil _ true Hn).
  - intros reason. rewrite app_nil_r. by apply children_paths.
Qed.

Lemma elem_of_prefixed reasons reason :
  reason ∈ _prefixed reasons → ∃ reason', reason' ∈ reasons ∧ reason_path reason = reason_path reason'.
Proof. unfold _prefixed. intros (r & -> & Hr)%list_elem_of_fmap. eauto. Qed.

Lemma explained_not path c child :
  child_explained path (Not c) child → explained path (Not c) (eval_not path child).
Proof.
  intros Hx. unfold eval_not.
  assert (Hpaths : ∀ reasons reason, reason ∈ _prefixed reasons →
    (∀ r, r ∈ reasons → r ∈ nr_reasons child ++ nr_satisfied child) →
    ∃ n x, below path (Not c) n (reason_path reason) x ∧ explains x).
  { intros reasons reason (r & Hr & ->)%elem_of_prefixed Hsub.
    eapply child_explained_paths; [done|by apply Hsub]. }
  destruct (nr_indeterminate child) eqn:Hi;
    [|destruct (nr_passed child) eqn:Hp];
    constructor; cbn [nr_passed nr_reasons nr_satisfied]; try done.
  - intros _ Hn. pose proof (child_undecided_failed _ _ _ Hx Hi) as Hp.
    destruct (child_failed_constant _ _ _ Hx Hp Hn) as [Hd _]. congruence.
  - intros reason. rewrite app_nil_r. intros Hr.
    eapply child_explained_paths; [done|]. apply elem_of_app. by left.
  - intros _ Hn%map_eq_nil.
    destruct (child_passed_constant _ _ _ Hx Hp Hn) as (c' & Hc & Hk).
    apply list_elem_of_singleton in Hc as ->. by apply constant_not.
  - intros reason. rewrite app_nil_r. intros Hr. eapply Hpaths; [done|].
    intros. apply elem_of_app. by right.
  - intros _ Hn%map_eq_nil.
    destruct (child_failed_constant _ _ _ Hx Hp Hn) as (_ & c' & Hc & Hk).
    apply list_elem_of_singleton in Hc as ->. by apply constant_not.
  - intros reason Hr. cbn in Hr. eapply Hpaths; [done|].
    intros. apply elem_of_app. by left.
Qed.

Lemma explained_cond path kind fields r :
  _eval_cond kind fields path facts registry target = Ok r →
  explained path (Cond kind fields) r.
Proof.
  intros Hr.
  assert (Hone : ∀ reason code ps, reason ∈ [MkReason code path ps] →
    ∃ n x, below path (Cond kind fields) n (reason_path reason) x ∧ explains x).
  { intros reason code ps ->%list_elem_of_singleton. exists 0, (Cond kind fields).
    split; [constructor|by left]. }
  unfold _eval_cond in Hr. apply result_bind_Ok in Hr as (spec & _ & Hr).
  destruct (negb _).
  { injection Hr as <-. constructor; try done.
    intros reason Hin. exact (Hone _ _ _ Hin). }
  destruct (model_validate _ _) as [params|].
  2: { injection Hr as <-. constructor; try done.
    intros reason Hin. exact (Hone _ _ _ Hin). }
  apply result_bind_Ok in Hr as (leaf & _ & Hr). injection Hr as <-.
  destruct (leaf_passed leaf); constructor; try done;
    intros reason Hin; exact (Hone _ _ _ Hin).
Qed.

Lemma eval_explained e : ∀ path r, eval e path = Ok r → explained path e r.
Proof.
  induction e as [e IH] using Expr_children_ind. intros path r Hr.
  destruct (is_cond e) eqn:He.
  { destruct e; try done. by apply explained_cond. }
  rewrite eval_unfold in Hr by done.
  apply result_bind_Ok in Hr as (children & Hcs & [= <-]).
  assert (Hx : children_explained path e children).
  { apply children_explained_intro; [done|]. intros i c r Hi.
    by apply (Forall_lookup_1 _ _ _ _ IH Hi). }
  assert (length children = length (node_children e)) as Hlen.
  { apply eval_nodes_Ok, Forall2_length in Hcs. by rewrite child_nodes_length in Hcs. }
  destruct e as [|cs|cs|c]; [done|by apply explained_all|by apply explained_any|].
  destruct children as [|child [|]]; try done. apply explained_not, Hx. by left.
Qed.
End explained.
