(* ===== verification/LearnFacts.v ===== *)
(** * What conditions promise, and facts that grow

    [ConditionLaws] is what the engine may rely on of the kinds of a registry:
    an evaluator handed its own parameters answers, a decided answer does not
    move when unknown facts become known, and a kind declared monotone keeps
    passing as the learner progresses. The built-in kinds keep it. *)

From S2P Require Import Prelude PyData PyTime LearnExpression LearnConditions.
From S2P Require Import LearnEvaluate LearnValidate LearnSyntax LearnSemantics LearnRules.
From stdpp Require Import base gmap strings pretty list.
From Stdlib Require Import ZArith NArith Ascii SpecFloat.

(** ** The registry *)

Lemma register_specs_Ok specs : ∀ by_kind r,
  register_specs by_kind specs = Ok r ↔
    NoDup (spec_kind <$> specs) ∧ (∀ s, s ∈ specs → by_kind !! spec_kind s = None) ∧
    r = foldl (λ m s, <[spec_kind s := s]> m) by_kind specs.
Proof.
  induction specs as [|s specs IH]; intros by_kind r; cbn [register_specs fmap list_fmap foldl].
  { split; [intros [= ->]|by intros (_ & _ & ->)].
    split_and!; [constructor|by intros ? ?%not_elem_of_nil|done]. }
  rewrite result_bind_Ok, NoDup_cons. setoid_rewrite IH. setoid_rewrite raise_if_Ok. split.
  - intros (_ & Hs & Hnd & Hnew & ->). bool_to_prop.
    split_and!; [|done| |done].
    + intros (t & Ht & Hin)%list_elem_of_fmap. specialize (Hnew t Hin).
      rewrite <-Ht, lookup_insert_eq in Hnew. done.
    + intros t [->|Ht]%elem_of_cons; [by apply eq_None_not_Some|].
      specialize (Hnew t Ht). by apply lookup_insert_None in Hnew as [? _].
  - intros ([Hs Hnd] & Hnew & ->). exists tt. split_and!; [|done| |done].
    + apply bool_decide_eq_false, eq_None_not_Some, Hnew. by left.
    + intros t Ht. apply lookup_insert_None. split; [apply Hnew; by right|].
      intros Heq. apply Hs. rewrite Heq. by apply list_elem_of_fmap_2.
Qed.

Lemma register_fold_lookup (specs : list ConditionSpec) : ∀ (by_kind : ConditionRegistry) k s,
  NoDup (spec_kind <$> specs) →
  foldl (λ m s, <[spec_kind s := s]> m) by_kind specs !! k = Some s ↔
    (s ∈ specs ∧ spec_kind s = k) ∨ ((k ∉ (spec_kind <$> specs)) ∧ by_kind !! k = Some s).
Proof.
  induction specs as [|t specs IH]; intros by_kind k s Hnd; cbn [foldl].
  - rewrite elem_of_nil, fmap_nil. split; [intros ?; right|intros [[[] _]|[_ ?]]]; auto.
    split; [apply not_elem_of_nil|done].
  - rewrite fmap_cons in Hnd. apply NoDup_cons in Hnd as [Ht Hnd].
    rewrite IH, fmap_cons, !elem_of_cons, lookup_insert_Some by done. split.
    + intros [[Hs <-]|[Hk [[<- ->]|[Hne Hs]]]].
      * left. auto.
      * left. auto.
      * right. split; [|done]. intros [->|?]; done.
    + intros [[[->|Hs] <-]|[Hk Hs]].
      * right. split; [done|]. by left.
      * by left.
      * right. split; [tauto|]. right. split; [|done]. intros <-. tauto.
Qed.

Lemma from_specs_lookup specs r k s :
  from_specs specs = Ok r → r !! k = Some s ↔ s ∈ specs ∧ spec_kind s = k.
Proof.
  intros (Hnd & _ & ->)%register_specs_Ok. rewrite register_fold_lookup by done.
  rewrite lookup_empty. naive_solver.
Qed.

(** ** Facts that grow *)

(** Every enrollment instant is aware. *)
Definition facts_aware (f : LearnerFacts) : Prop :=
  ∀ t d, enrolled_at_by_target f !! t = Some d → is_naive d = false.

(** [f'] knows everything [f] knows, and agrees with it where absence is an
    answer (completions, certificates and approvals). *)
Record facts_extend (f f' : LearnerFacts) : Prop := {
  extend_completed : completed_course_ids f' = completed_course_ids f;
  extend_certificates : certificate_course_ids f' = certificate_course_ids f;
  extend_approvals : approvals f' = approvals f;
  extend_best : best_fraction_by_activity f ⊆ best_fraction_by_activity f';
  extend_final : course_final_fraction f ⊆ course_final_fraction f';
  extend_grade : course_grade_fraction f ⊆ course_grade_fraction f';
  extend_attempts : attempts_by_activity f ⊆ attempts_by_activity f';
  extend_enrolled : enrolled_at_by_target f ⊆ enrolled_at_by_target f';
  extend_routes : routes_by_course f ⊆ routes_by_course f';
}.

(** A score at least as high: it reaches every threshold the other reaches. *)
Definition score_le (m m' : gmap UUID spec_float) : Prop :=
  ∀ u x, m !! u = Some x → ∃ x', m' !! u = Some x' ∧ ∀ t, SFleb t x = true → SFleb t x' = true.

(** The learner progressed from [f] to [f']: more completions, certificates
    and attempts, scores no lower, enrollments no later. *)
Record facts_progress (f f' : LearnerFacts) : Prop := {
  progress_completed : completed_course_ids f ⊆ completed_course_ids f';
  progress_certificates : certificate_course_ids f ⊆ certificate_course_ids f';
  progress_best : score_le (best_fraction_by_activity f) (best_fraction_by_activity f');
  progress_final : score_le (course_final_fraction f) (course_final_fraction f');
  progress_grade : score_le (course_grade_fraction f) (course_grade_fraction f');
  progress_attempts u n : attempts_by_activity f !! u = Some n →
    ∃ n', attempts_by_activity f' !! u = Some n' ∧ (n ≤ n')%Z;
  progress_enrolled t d : enrolled_at_by_target f !! t = Some d →
    ∃ d', enrolled_at_by_target f' !! t = Some d' ∧ is_naive d' = is_naive d ∧
      (instant d' ≤ instant d)%Z;
  progress_routes : routes_by_course f' = routes_by_course f;
}.

(** ** The laws of a condition *)

Definition decided (leaf : LeafResult) : Prop :=
  leaf_passed leaf = true ∨ leaf_indeterminate leaf = false.

Definition spec_total (s : ConditionSpec) : Prop := ∀ p ctx,
  model_of p = params_model s → params_valid p → facts_aware (ctx_facts ctx) →
  is_ok (spec_evaluate s p ctx) = true ∧ is_ok (spec_references s p) = true.

Definition spec_stable (s : ConditionSpec) : Prop := ∀ p f f' target path leaf,
  facts_extend f f' → spec_evaluate s p (MkLeafContext f target path) = Ok leaf →
  decided leaf → spec_evaluate s p (MkLeafContext f' target path) = Ok leaf.

Definition spec_keeps_passing (s : ConditionSpec) : Prop := ∀ p f f' target path leaf,
  facts_progress f f' → spec_evaluate s p (MkLeafContext f target path) = Ok leaf →
  leaf_passed leaf = true →
  ∃ leaf', spec_evaluate s p (MkLeafContext f' target path) = Ok leaf' ∧
    leaf_passed leaf' = true.

Class ConditionLaws (registry : ConditionRegistry) : Prop := {
  law_total k s : registry !! k = Some s → spec_total s;
  law_stable k s : registry !! k = Some s → spec_stable s;
  law_keeps_passing k s : registry !! k = Some s → monotone s = true → spec_keeps_passing s;
}.

(** ** The built-in conditions keep the laws *)

(** One goal per built-in condition. *)
Ltac each_builtin := unfold BUILTIN_CONDITIONS; repeat apply Forall_cons_2; [..|apply Forall_nil_2].


Lemma dt_ltb_aware a b : is_naive a = false → is_naive b = false → is_Some (dt_ltb a b).
Proof. intros Ha Hb. unfold dt_ltb. rewrite Ha, Hb. by rewrite bool_decide_true. Qed.

Lemma builtin_total : Forall spec_total BUILTIN_CONDITIONS.
Proof.
  each_builtin; intros p ctx Hm Hv Ha; destruct p; try done; cbn in Hm, Hv;
    cbn [spec_evaluate spec_references].
  - unfold _minimum_score. by destruct (score_source _ _) as [[??]?].
  - unfold _enrolled_before. destruct (_ !! _) as [d|] eqn:Hd; [|done].
    destruct (dt_ltb_aware d at_) as [[] ->]; [by eapply Ha|done|done|done].
Qed.

Lemma extend_score_source subject f f' u x :
  facts_extend f f' → (score_source subject f).1.1 !! u = Some x →
  (score_source subject f').1.1 !! u = Some x.
Proof.
  intros Hx. destruct subject; cbn; intros H; eapply lookup_weaken; try done; apply Hx.
Qed.

Lemma builtin_stable : Forall spec_stable BUILTIN_CONDITIONS.
Proof.
  each_builtin; intros p f f' target path leaf Hx He Hd; destruct p; try done;
    cbn [spec_evaluate] in *.
  - unfold _course_completed in *. cbn in *. by rewrite (extend_completed _ _ Hx).
  - unfold _certificate_held in *. cbn in *. by rewrite (extend_certificates _ _ Hx).
  - unfold _minimum_score in *. cbn [ctx_facts] in *.
    assert ((score_source subject f').1.2 = (score_source subject f).1.2 ∧
      (score_source subject f').2 = (score_source subject f).2) as [H1 H2] by by destruct subject.
    pose proof (extend_score_source subject f f' score_ref_id) as Hs.
    destruct (score_source subject f) as [[m fact] ev],
      (score_source subject f') as [[m' fact'] ev']. cbn in *. subst.
    destruct (m !! score_ref_id) as [x|]; [by rewrite (Hs x)|].
    injection He as <-. by destruct Hd.
  - unfold _attempts_at_least in *. cbn in *.
    destruct (attempts_by_activity f !! activity_id) as [x|] eqn:E.
    + by rewrite (lookup_weaken _ _ _ _ E (extend_attempts _ _ Hx)).
    + injection He as <-. by destruct Hd.
  - unfold _enrolled_before in *. cbn in *.
    destruct (enrolled_at_by_target f !! _) as [x|] eqn:E.
    + by rewrite (lookup_weaken _ _ _ _ E (extend_enrolled _ _ Hx)).
    + injection He as <-. by destruct Hd.
  - unfold _manual_approval in *. cbn in *. by rewrite (extend_approvals _ _ Hx).
  - unfold _track_position in *. cbn in *. rewrite (extend_completed _ _ Hx).
    destruct (routes_by_course f !! _) as [x|] eqn:E.
    + by rewrite (lookup_weaken _ _ _ _ E (extend_routes _ _ Hx)).
    + injection He as <-. by destruct Hd.
Qed.

(** The track loop passes when some route is open. *)
Definition route_open (completed : gset UUID) (route : Route) : bool :=
  match predecessor_course_id route with
  | None => true
  | Some predecessor => bool_decide (predecessor ∈ completed)
  end.

Lemma track_loop_passed completed detail routes : ∀ blocking,
  leaf_passed (track_loop completed detail blocking routes) = existsb (route_open completed) routes.
Proof.
  induction routes as [|r routes IH]; intros blocking; [done|].
  cbn [track_loop existsb]. unfold route_open at 1.
  destruct (predecessor_course_id r) as [u|]; [|done].
  case_bool_decide; [done|]. by rewrite IH.
Qed.

Lemma route_open_mono completed completed' route :
  completed ⊆ completed' → route_open completed route = true → route_open completed' route = true.
Proof.
  unfold route_open. destruct (predecessor_course_id route); [|done].
  rewrite !bool_decide_eq_true. set_solver.
Qed.

Lemma progress_score_source subject f f' :
  facts_progress f f' → score_le (score_source subject f).1.1 (score_source subject f').1.1.
Proof. intros Hx. destruct subject; apply Hx. Qed.

Lemma builtin_keeps_passing :
  Forall (λ s, monotone s = true → spec_keeps_passing s) BUILTIN_CONDITIONS.
Proof.
  each_builtin; intros Hmono p f f' target path leaf Hx He Hp; destruct p; try done;
    cbn [spec_evaluate] in *.
  - unfold _course_completed in *. cbn in *. eexists. split; [done|].
    injection He as <-. case_bool_decide; [|done].
    rewrite bool_decide_true; [done|]. by apply (progress_completed _ _ Hx).
  - unfold _certificate_held in *. cbn in *. eexists. split; [done|].
    injection He as <-. case_bool_decide; [|done].
    rewrite bool_decide_true; [done|]. by apply (progress_certificates _ _ Hx).
  - unfold _minimum_score in *. cbn [ctx_facts] in *.
    pose proof (progress_score_source subject _ _ Hx score_ref_id) as Hs.
    destruct (score_source subject f) as [[m fact] ev],
      (score_source subject f') as [[m' fact'] ev']. cbn in *.
    eexists. split; [done|]. injection He as <-.
    destruct (m !! score_ref_id) as [x|]; [|done].
    destruct (Hs x eq_refl) as (x' & -> & Hle).
    destruct (SFleb _ x) eqn:Hleb; [|done]. by rewrite Hle.
  - unfold _attempts_at_least in *. cbn in *. eexists. split; [done|]. injection He as <-.
    destruct (attempts_by_activity f !! _) as [x|] eqn:E; [|done].
    destruct (progress_attempts _ _ Hx _ _ E) as (x' & -> & ?).
    destruct (Z.leb_spec n x); [|done]. by rewrite (proj2 (Z.leb_le _ _)) by lia.
  - unfold _enrolled_before in *. cbn in *.
    destruct (enrolled_at_by_target f !! _) as [d|] eqn:E; [|by injection He as <-].
    destruct (progress_enrolled _ _ Hx _ _ E) as (d' & -> & Hn & Hi).
    unfold dt_ltb in *. rewrite Hn. destruct (bool_decide _); [|done].
    destruct (Z.ltb_spec (instant d) (instant at_)); [|by injection He as <-].
    rewrite (proj2 (Z.ltb_lt _ _)) by lia. eauto.
  - unfold _track_position in *. cbn in *. rewrite (progress_routes _ _ Hx).
    eexists. split; [done|]. injection He as <-.
    destruct (routes_by_course f !! _) as [routes|]; [|done].
    destruct (filter _ routes) as [|r rs]; [done|].
    rewrite track_loop_passed in *. apply existsb_true in Hp as (r' & Hin & Hp).
    apply existsb_true. exists r'. split; [done|].
    eapply route_open_mono; [apply Hx|done].
Qed.

Lemma default_registry_laws registry : default_registry = Ok registry → ConditionLaws registry.
Proof.
  intros Hr. pose proof builtin_total as Ht. pose proof builtin_stable as Hs.
  pose proof builtin_keeps_passing as Hk. rewrite Forall_forall in Ht, Hs, Hk.
  split; intros k s [Hin _]%(from_specs_lookup _ _ _ _ Hr); auto.
Qed.
