(* ===== verification/LearnCycles.v ===== *)
(** * The two cycle searches

    The breadth-first search finds a shortest cycle through its start, or there
    is none; the depth-first search reports only cycles, and every cycle of the
    graph shares an edge with one it reports. *)

From S2P Require Import Prelude PyData PyTime LearnExpression LearnConditions.
From S2P Require Import LearnValidate.
From stdpp Require Import base gmap strings pretty list sorting.
From Stdlib Require Import ZArith NArith Ascii.

(** ** Graphs *)

Definition edge (edges : Edges) (u v : UUID) : Prop := v ∈ default ∅ (edges !! u).

Lemma elem_of_sorted_uuids s u : u ∈ sorted_uuids s ↔ u ∈ s.
Proof. unfold sorted_uuids. rewrite merge_sort_Permutation. set_solver. Qed.

Lemma elem_of_neighbours edges u v : v ∈ neighbours edges u ↔ edge edges u v.
Proof. apply elem_of_sorted_uuids. Qed.

Lemma edge_in_nodes edges u v : edge edges u v → u ∈ edge_nodes edges ∧ v ∈ edge_nodes edges.
Proof.
  unfold edge, edge_nodes. destruct (edges !! u) as [vs|] eqn:E; [|set_solver].
  intros Hv. split; apply elem_of_union; [left|right].
  - by apply elem_of_dom_2 in E.
  - apply elem_of_union_list. exists vs. split; [|done].
    apply list_elem_of_fmap. exists (u, vs). split; [done|]. by apply elem_of_map_to_list.
Qed.

Section graph.
Context (edges : Edges).
Local Abbreviation edge := (edge edges).

(** Every element has an edge to the next. *)
Fixpoint links (l : list UUID) : Prop :=
  match l with
  | [] => True
  | u :: l' => match l' with [] => True | v :: _ => edge u v end ∧ links l'
  end.

(** A cycle, read from one of its nodes: the last has an edge to the first. *)
Definition closed (c : list UUID) : Prop :=
  links c ∧ ∃ u v, last c = Some u ∧ head c = Some v ∧ edge u v.

Lemma links_app a b :
  links (a ++ b) ↔
    links a ∧ links b ∧ ∀ u v, last a = Some u → head b = Some v → edge u v.
Proof.
  induction a as [|x [|y a] IH].
  - simpl. naive_solver.
  - cbn [app links last]. destruct b as [|z b]; cbn; naive_solver.
  - change ((x :: y :: a) ++ b) with (x :: y :: (a ++ b)).
    cbn [links]. change (y :: a ++ b) with ((y :: a) ++ b).
    cbn [links] in IH. change (links ((y :: a) ++ b)) with
      (match a ++ b with [] => True | v :: _ => edge y v end ∧ links (a ++ b)) in *.
    cbn [app links] in IH.
    rewrite last_cons_cons. tauto.
Qed.

(** A cycle read from another node. *)
Definition rotation (c c' : list UUID) : Prop := ∃ a b, c = a ++ b ∧ c' = b ++ a.

Lemma rotation_sym c c' : rotation c c' → rotation c' c.
Proof. intros (a & b & -> & ->). by exists b, a. Qed.

Lemma closed_rotation c c' : rotation c c' → closed c → closed c'.
Proof.
  intros (a & b & -> & ->). unfold closed. rewrite !links_app.
  intros ((Ha & Hb & Hab) & u & v & Hu & Hv & Huv).
  destruct a as [|x a]; [rewrite app_nil_r in *; cbn in *; naive_solver|].
  destruct b as [|y b]; [rewrite app_nil_r in *; cbn in *; naive_solver|].
  rewrite last_app_cons in Hu. cbn in Hv. injection Hv as <-. split.
  - split_and!; [done|done|]. intros u' v' Hu'. rewrite Hu in Hu'. injection Hu' as <-.
    cbn. by intros [= <-].
  - destruct (last (x :: a)) as [w|] eqn:Hw; [|by apply last_None in Hw].
    exists w, y. rewrite last_app_cons. split_and!; [done|done|]. by apply Hab.
Qed.

Lemma rotation_length c c' : rotation c c' → length c = length c'.
Proof. intros (a & b & -> & ->). rewrite !length_app. lia. Qed.

Lemma rotation_Permutation c c' : rotation c c' → c ≡ₚ c'.
Proof. intros (a & b & -> & ->). apply Permutation_app_comm. Qed.

(** ** Breadth-first search *)

Section bfs.
Context (start : UUID).

(** The search at level [k]: [done_] holds the nodes whose neighbours have been
    seen, [popped] the nodes that left the queue, and [d] the distance from
    [start] of the nodes found. *)
Record BfsInv (k : nat) (done_ popped : gset UUID) (d : UUID → nat)
    (parents : gmap UUID (option UUID)) (queue : list UUID) : Prop := {
  bfs_dom n : is_Some (parents !! n) ↔ n ∈ popped ∨ n ∈ queue;
  bfs_queue : NoDup queue ∧ ∀ n, n ∈ queue → n ∉ popped;
  bfs_start : parents !! start = None;
  bfs_root n : parents !! n = Some None → edge start n ∧ d n = 1;
  bfs_parent n p : parents !! n = Some (Some p) →
    edge p n ∧ is_Some (parents !! p) ∧ d n = S (d p);
  bfs_size n : is_Some (parents !! n) → d n ≤ size parents ∧ d n ≤ S k;
  bfs_nodes n : is_Some (parents !! n) → n ∈ edge_nodes edges;
  bfs_seed n : edge start n → n ≠ start ∧ is_Some (parents !! n) ∧ d n ≤ 1;
  bfs_done p n : p ∈ done_ → edge p n →
    n ≠ start ∧ is_Some (parents !! n) ∧ d n ≤ S (d p);
  bfs_level n : n ∈ queue → k ≤ d n;
  bfs_sorted : StronglySorted (λ a b, d a ≤ d b) queue;
}.

(** One more node, found from [h]. *)
Definition discover (d : UUID → nat) (k : nat) (n m : UUID) : nat :=
  if decide (m = n) then S k else d m.

Lemma is_Some_insert (parents : gmap UUID (option UUID)) n o m :
  is_Some (<[n := o]> parents !! m) ↔ m = n ∨ is_Some (parents !! m).
Proof. rewrite lookup_insert_is_Some'. naive_solver. Qed.

Lemma discover_old d k n m : m ≠ n → discover d k n m = d m.
Proof. intros Hm. unfold discover. by rewrite decide_False. Qed.
Lemma discover_new d k n : discover d k n n = S k.
Proof. unfold discover. by rewrite decide_True. Qed.

Lemma sorted_snoc (R : UUID → UUID → Prop) l x :
  StronglySorted R l → (∀ y, y ∈ l → R y x) → StronglySorted R (l ++ [x]).
Proof.
  induction 1 as [|y l Hl IH Hy]; intros Hx; cbn; [repeat constructor|].
  constructor; [apply IH; intros; apply Hx; by right|].
  apply Forall_app. split; [done|]. constructor; [|constructor]. apply Hx. by left.
Qed.

Lemma sorted_ext (R R' : UUID → UUID → Prop) l :
  (∀ x y, x ∈ l → y ∈ l → R x y → R' x y) → StronglySorted R l → StronglySorted R' l.
Proof.
  intros HR. induction 1 as [|y l Hl IH Hy]; [constructor|]. constructor.
  - apply IH. intros a b Ha Hb. apply HR; by right.
  - rewrite Forall_forall in *. intros b Hb. apply HR; [by left|by right|auto].
Qed.

Lemma bfs_insert k done_ popped d parents queue h n :
  BfsInv k done_ popped d parents queue → is_Some (parents !! h) → d h = k →
  parents !! n = None → n ≠ start → edge h n →
  BfsInv k done_ popped (discover d k n) (<[n := Some h]> parents) (queue ++ [n]).
Proof.
  intros HI Hh Hd Hn Hns He.
  assert (Hne : ∀ m, is_Some (parents !! m) → m ≠ n) by (intros m [? Hm] ->; congruence).
  assert (Hnp : n ∉ popped).
  { intros Hx. apply (Hne n); [|done]. apply (bfs_dom _ _ _ _ _ _ HI). auto. }
  assert (Hnq : n ∉ queue).
  { intros Hx. apply (Hne n); [|done]. apply (bfs_dom _ _ _ _ _ _ HI). auto. }
  assert (Hlt : ∀ m, is_Some (parents !! m) → discover d k n m = d m).
  { intros m Hm. apply discover_old, Hne, Hm. }
  assert (Hq : ∀ m, m ∈ queue → is_Some (parents !! m)).
  { intros m Hm. apply (bfs_dom _ _ _ _ _ _ HI). auto. }
  constructor.
  - intros m. rewrite is_Some_insert, (bfs_dom _ _ _ _ _ _ HI), elem_of_app,
      list_elem_of_singleton. tauto.
  - destruct (bfs_queue _ _ _ _ _ _ HI) as [Hnd Hpop]. split.
    + apply NoDup_app. split_and!; [done| |apply NoDup_singleton].
      intros m Hm ->%list_elem_of_singleton. done.
    + intros m [Hm| ->%list_elem_of_singleton]%elem_of_app; auto.
  - rewrite lookup_insert_ne by done. apply (bfs_start _ _ _ _ _ _ HI).
  - intros m Hm. destruct (decide (m = n)) as [->|]; [by rewrite lookup_insert_eq in Hm|].
    rewrite lookup_insert_ne in Hm by done. rewrite discover_old by done.
    by apply (bfs_root _ _ _ _ _ _ HI).
  - intros m p Hm. destruct (decide (m = n)) as [->|].
    + rewrite lookup_insert_eq in Hm. injection Hm as <-.
      rewrite discover_new, Hlt, is_Some_insert by done. auto.
    + rewrite lookup_insert_ne in Hm by done.
      destruct (bfs_parent _ _ _ _ _ _ HI _ _ Hm) as (? & Hp & ?).
      rewrite discover_old, is_Some_insert, Hlt by done. auto.
  - intros m Hm. rewrite map_size_insert_None by done.
    destruct (decide (m = n)) as [->|].
    + rewrite discover_new. pose proof (bfs_size _ _ _ _ _ _ HI h Hh). lia.
    + apply is_Some_insert in Hm as [->|Hm]; [done|]. rewrite discover_old by done.
      pose proof (bfs_size _ _ _ _ _ _ HI m Hm). lia.
  - intros m [->|Hm]%is_Some_insert; [apply (edge_in_nodes _ _ _ He)|].
    by apply (bfs_nodes _ _ _ _ _ _ HI).
  - intros m Hm. destruct (bfs_seed _ _ _ _ _ _ HI m Hm) as (? & ? & ?).
    rewrite is_Some_insert, Hlt by done. auto.
  - intros p m Hp Hm. destruct (bfs_done _ _ _ _ _ _ HI p m Hp Hm) as (? & Hsm & ?).
    rewrite is_Some_insert, (Hlt m) by done. split_and!; [done|auto|].
    destruct (decide (p = n)) as [->|]; [|by rewrite discover_old].
    rewrite discover_new. pose proof (bfs_size _ _ _ _ _ _ HI m Hsm). lia.
  - intros m [Hm| ->%list_elem_of_singleton]%elem_of_app; [|rewrite discover_new; lia].
    rewrite Hlt by auto. by apply (bfs_level _ _ _ _ _ _ HI).
  - apply sorted_snoc.
    + eapply sorted_ext; [|by apply (bfs_sorted _ _ _ _ _ _ HI)].
      intros x y Hx Hy. by rewrite !Hlt by auto.
    + intros y Hy. rewrite discover_new, Hlt by auto.
      apply (bfs_size _ _ _ _ _ _ HI). auto.
Qed.

(** The loop over the neighbours adds nodes, each with the node it was found
    from. *)
Lemma bfs_scan_spec k done_ popped h nbrs : ∀ d parents queue found parents' queue',
  BfsInv k done_ popped d parents queue → is_Some (parents !! h) → d h = k →
  (∀ n, n ∈ nbrs → edge h n) →
  bfs_scan start h nbrs parents queue = (found, parents', queue') →
  ∃ d', BfsInv k done_ popped d' parents' queue' ∧ parents ⊆ parents' ∧
    (∀ n, is_Some (parents !! n) → d' n = d n) ∧
    if found then edge h start
    else ∀ n, n ∈ nbrs → n ≠ start ∧ is_Some (parents' !! n) ∧ d' n ≤ S k.
Proof.
  induction nbrs as [|n nbrs IH]; intros d parents queue found parents' queue' HI Hh Hd Hn;
    cbn [bfs_scan].
  { intros [= <- <- <-]. exists d. split_and!; try done. by intros ? ?%not_elem_of_nil. }
  destruct (decide (n = start)) as [->|Hns].
  { intros [= <- <- <-]. exists d. split_and!; try done. apply Hn. by left. }
  assert (Hrest : ∀ m, m ∈ nbrs → edge h m) by (intros; apply Hn; by right).
  destruct (decide (is_Some (parents !! n))) as [Hin|Hnew%eq_None_not_Some]; intros Hs.
  - destruct (IH d parents queue found parents' queue') as (d' & HI' & Hsub & Hold & Hres);
      try done.
    exists d'. split_and!; try done. destruct found; [done|].
    intros m [->|Hm]%elem_of_cons; [|by apply Hres].
    split_and!; [done|by eapply lookup_weaken_is_Some|].
    rewrite Hold by done. by apply (bfs_size _ _ _ _ _ _ HI).
  - assert (Hne : ∀ m, is_Some (parents !! m) → m ≠ n) by (intros m [? Hm] ->; congruence).
    destruct (IH (discover d k n) (<[n := Some h]> parents) (queue ++ [n]) found parents' queue')
      as (d' & HI' & Hsub & Hold & Hres); try done.
    + apply bfs_insert; try done. apply Hn. by left.
    + apply is_Some_insert. auto.
    + by rewrite discover_old by auto.
    + exists d'. split_and!; try done.
      * etrans; [|exact Hsub]. by apply insert_subseteq.
      * intros m Hm. rewrite Hold by (apply is_Some_insert; auto).
        apply discover_old. auto.
      * destruct found; [done|]. intros m [->|Hm]%elem_of_cons; [|by apply Hres].
        split_and!; [done| |].
        { eapply lookup_weaken_is_Some; [|done]. apply is_Some_insert. auto. }
        rewrite Hold by (apply is_Some_insert; auto). by rewrite discover_new.
Qed.

(** The chain of parents of a node at distance [S n]: [n] nodes lead to it. *)
Lemma chain_loop_spec k done_ popped d parents queue :
  BfsInv k done_ popped d parents queue →
  ∀ n fuel h rest, is_Some (parents !! h) → d h = S n → n < fuel →
  links (h :: rest) →
  ∃ l, chain_loop fuel parents (h :: rest) = Ok (l ++ h :: rest) ∧
    length l = n ∧ links (start :: l ++ h :: rest).
Proof.
  intros HI n. induction n as [|n IH]; intros [|fuel] h rest [o Ho] Hd Hf Hl; try lia;
    cbn [chain_loop]; rewrite Ho; destruct o as [p|].
  - destruct (bfs_parent _ _ _ _ _ _ HI _ _ Ho) as (_ & Hp & Hdp).
    rewrite Hd in Hdp. injection Hdp as Hdp.
    destruct Hp as [[q|] Hp].
    + apply (bfs_parent _ _ _ _ _ _ HI) in Hp as (_ & _ & ?). lia.
    + apply (bfs_root _ _ _ _ _ _ HI) in Hp as [_ ?]. lia.
  - exists []. apply (bfs_root _ _ _ _ _ _ HI) in Ho as [He _]. done.
  - destruct (bfs_parent _ _ _ _ _ _ HI _ _ Ho) as (He & Hp & Hdp).
    destruct (IH fuel p (h :: rest)) as (l & Hc & Hlen & Hlinks); [done|lia|lia| |].
    { split; [done|exact Hl]. }
    exists (l ++ [p]). rewrite Hc, <-app_assoc, length_app. split_and!; [done|cbn; lia|done].
  - apply (bfs_root _ _ _ _ _ _ HI) in Ho as [_ ?]. lia.
Qed.

(** A short enough walk from [start] stays among the nodes done. *)
Lemma walk_done k done_ popped d parents queue bound :
  BfsInv k done_ popped d parents queue →
  (∀ v, is_Some (parents !! v) → d v < bound → v ∈ done_) →
  ∀ l, links (start :: l) → length l < bound →
    ∀ p, last (start :: l) = Some p → p = start ∨ (p ∈ done_ ∧ d p ≤ length l).
Proof.
  intros HI Hb l. induction l as [|v l IH] using rev_ind; intros Hl Hlen p.
  { cbn. intros [= <-]. by left. }
  rewrite length_app in Hlen. cbn in Hlen.
  change (links ((start :: l) ++ [v])) in Hl.
  apply links_app in Hl as (Hl & _ & He).
  change (last ((start :: l) ++ [v]) = Some p → p = start ∨ p ∈ done_ ∧ d p ≤ length (l ++ [v])).
  rewrite last_snoc. intros [= <-]. right.
  destruct (last (start :: l)) as [q|] eqn:Hq; [|by apply last_None in Hq].
  specialize (He q v eq_refl eq_refl).
  assert (is_Some (parents !! v) ∧ d v ≤ S (length l)) as [Hv Hd].
  { destruct (IH Hl ltac:(lia) q eq_refl) as [->|[Hin Hdq]].
    - destruct (bfs_seed _ _ _ _ _ _ HI v He) as (_ & ? & ?). split; [done|lia].
    - destruct (bfs_done _ _ _ _ _ _ HI q v Hin He) as (_ & ? & ?). split; [done|lia]. }
  rewrite length_app. cbn. split; [apply Hb; [done|lia]|lia].
Qed.

Lemma closed_done k done_ popped d parents queue bound c :
  BfsInv k done_ popped d parents queue →
  (∀ v, is_Some (parents !! v) → d v < bound → v ∈ done_) →
  closed c → head c = Some start → bound < length c.
Proof.
  intros HI Hb [Hl (u & v & Hu & Hv & He)] Hs. rewrite Hs in Hv. injection Hv as <-.
  destruct c as [|w l]; [done|]. cbn in Hs. injection Hs as ->. cbn.
  destruct (decide (length l < bound)) as [Hlt|]; [|lia]. exfalso.
  destruct (walk_done _ _ _ _ _ _ _ HI Hb l Hl Hlt u Hu) as [->|[Hin _]].
  - by destruct (bfs_seed _ _ _ _ _ _ HI start He).
  - by destruct (bfs_done _ _ _ _ _ _ HI u start Hin He).
Qed.

(** What the search promises. *)
Definition shortest_cycle (res : option (list UUID)) : Prop :=
  match res with
  | Some c => head c = Some start ∧ closed c ∧
      ∀ c', closed c' → head c' = Some start → length c ≤ length c'
  | None => ∀ c', closed c' → head c' ≠ Some start
  end.

(** The head of the queue leaves it. *)
Lemma bfs_pop k popped d parents h queue :
  BfsInv k popped popped d parents (h :: queue) →
  BfsInv (d h) popped (popped ∪ {[h]}) d parents queue ∧ is_Some (parents !! h) ∧
  h ∉ popped.
Proof.
  intros HI. destruct (bfs_queue _ _ _ _ _ _ HI) as [Hnd Hpop].
  apply NoDup_cons in Hnd as [Hhq Hnd].
  assert (Hh : is_Some (parents !! h)) by (apply (bfs_dom _ _ _ _ _ _ HI); right; by left).
  assert (Hk : k ≤ d h) by (apply (bfs_level _ _ _ _ _ _ HI); by left).
  pose proof (bfs_sorted _ _ _ _ _ _ HI) as Hsort. apply StronglySorted_inv in Hsort as [Hsort Hle].
  rewrite Forall_forall in Hle.
  split_and!; [|done|apply Hpop; by left]. destruct HI. constructor; try done.
  - intros n. rewrite bfs_dom0, elem_of_cons. set_solver.
  - split; [done|]. intros n Hn. rewrite not_elem_of_union, not_elem_of_singleton. split.
    + apply Hpop. by right.
    + by intros ->.
  - intros n Hn. destruct (bfs_size0 n Hn). lia.
Qed.

Lemma bfs_found k popped d parents queue h :
  BfsInv k popped (popped ∪ {[h]}) d parents queue →
  is_Some (parents !! h) → d h = k → edge h start →
  ∃ c, chain_loop (size parents) parents [h] = Ok c ∧ shortest_cycle (Some (start :: c)).
Proof.
  intros HI Hh Hd He.
  assert (∃ n, d h = S n) as [n Hn].
  { destruct Hh as [[p|] Hh].
    - apply (bfs_parent _ _ _ _ _ _ HI) in Hh as (_ & _ & ->). eauto.
    - apply (bfs_root _ _ _ _ _ _ HI) in Hh as [_ ->]. eauto. }
  destruct (chain_loop_spec _ _ _ _ _ _ HI n (size parents) h []) as (l & Hc & Hlen & Hl);
    [done|done| |done|].
  { pose proof (bfs_size _ _ _ _ _ _ HI h Hh). lia. }
  exists (l ++ [h]). split; [done|]. split_and!; [done| |].
  - split; [done|]. exists h, start. split_and!; [|done|done].
    change (last ((start :: l) ++ [h]) = Some h). apply last_snoc.
  - intros c' Hc' Hs. cbn. rewrite length_app. cbn.
    assert (k < length c'); [|lia].
    apply (closed_done _ _ _ _ _ _ k c' HI); [|done|done].
    intros v Hv Hdv. apply (bfs_dom _ _ _ _ _ _ HI) in Hv as [Hv|Hv].
    + apply elem_of_union in Hv as [Hv|Hv%elem_of_singleton]; [done|subst v; lia].
    + apply (bfs_level _ _ _ _ _ _ HI) in Hv. lia.
Qed.

(** The neighbours of a popped node, all seen. *)
Lemma bfs_finish k popped d parents queue h :
  BfsInv k popped (popped ∪ {[h]}) d parents queue → d h = k →
  (∀ n, edge h n → n ≠ start ∧ is_Some (parents !! n) ∧ d n ≤ S k) →
  BfsInv k (popped ∪ {[h]}) (popped ∪ {[h]}) d parents queue.
Proof.
  intros HI Hd Hn. destruct HI. constructor; try done.
  intros p n [Hp|Hp%elem_of_singleton]%elem_of_union He; [by apply bfs_done0|].
  subst p. rewrite Hd. by apply Hn.
Qed.

Lemma bfs_loop_spec fuel : ∀ k popped d parents queue,
  BfsInv k popped popped d parents queue →
  size (edge_nodes edges) < fuel + size popped →
  ∃ res, bfs_loop fuel start edges parents queue = Ok res ∧ shortest_cycle res.
Proof.
  induction fuel as [|fuel IH]; intros k popped d parents queue HI Hf.
  { exfalso. assert (size popped ≤ size (edge_nodes edges)); [|lia].
    apply subseteq_size. intros n Hn. apply (bfs_nodes _ _ _ _ _ _ HI).
    apply (bfs_dom _ _ _ _ _ _ HI). by left. }
  destruct queue as [|h queue]; cbn [bfs_loop].
  { exists None. split; [done|]. intros c Hc Hs.
    assert (length c < length c); [|lia].
    apply (closed_done _ _ _ _ _ _ (length c) c HI); [|done|done].
    intros v Hv _. apply (bfs_dom _ _ _ _ _ _ HI) in Hv as [Hv|Hv%not_elem_of_nil]; done. }
  apply bfs_pop in HI as (HI & Hh & Hnew).
  destruct (bfs_scan start h (neighbours edges h) parents queue) as [[found parents'] queue'] eqn:Hs.
  apply (bfs_scan_spec (d h) popped (popped ∪ {[h]}) h _ d) in Hs
    as (d' & HI' & Hsub & Hold & Hres); [|done|done|done|by intros n ?%elem_of_neighbours].
  assert (Hh' : is_Some (parents' !! h)) by by eapply lookup_weaken_is_Some.
  specialize (Hold h Hh). destruct found.
  - destruct (bfs_found _ _ _ _ _ _ HI' Hh' Hold Hres) as (c & -> & Hc).
    by exists (Some (start :: c)).
  - eapply IH.
    + apply bfs_finish; [done|done|]. intros n He. by apply Hres, elem_of_neighbours.
    + rewrite size_union, size_singleton by set_solver. lia.
Qed.

(** *** The first level *)

Lemma seed_queue_spec nbrs : ∀ parents queue,
  seed_queue start nbrs parents queue =
    if decide (start ∈ nbrs) then None
    else Some (foldl (λ m n, <[n := None]> m) parents nbrs, queue ++ nbrs).
Proof.
  induction nbrs as [|n nbrs IH]; intros parents queue; cbn [seed_queue foldl].
  { rewrite decide_False by apply not_elem_of_nil. by rewrite app_nil_r. }
  destruct (decide (n = start)) as [->|Hn].
  { rewrite decide_True; [done|by left]. }
  rewrite IH, <-app_assoc. destruct (decide (start ∈ nbrs)).
  - rewrite decide_True; [done|by right].
  - rewrite decide_False; [done|]. rewrite elem_of_cons. naive_solver.
Qed.

Lemma foldl_insert_None nbrs : ∀ (parents : gmap UUID (option UUID)) n,
  foldl (λ m n, <[n := None]> m) parents nbrs !! n =
    if decide (n ∈ nbrs) then Some None else parents !! n.
Proof.
  induction nbrs as [|x nbrs IH]; intros parents n; cbn [foldl].
  { by rewrite decide_False by apply not_elem_of_nil. }
  rewrite IH. destruct (decide (n ∈ nbrs)).
  - rewrite decide_True; [done|by right].
  - destruct (decide (n = x)) as [->|].
    + rewrite lookup_insert_eq, decide_True; [done|by left].
    + rewrite lookup_insert_ne, decide_False; [done| |done].
      rewrite elem_of_cons. naive_solver.
Qed.

Lemma neighbours_NoDup u : NoDup (neighbours edges u).
Proof. unfold neighbours, sorted_uuids. rewrite merge_sort_Permutation. apply NoDup_elements. Qed.

Lemma seed_inv :
  ¬ edge start start →
  let nbrs := neighbours edges start in
  BfsInv 0 ∅ ∅ (λ _, 1) (foldl (λ m n, <[n := None]> m) ∅ nbrs) nbrs.
Proof.
  intros Hs nbrs.
  assert (Hlook : ∀ n, foldl (λ (m : gmap UUID (option UUID)) n, <[n := None]> m) ∅ nbrs !! n =
    if decide (n ∈ nbrs) then Some None else None).
  { intros n. rewrite foldl_insert_None. by rewrite lookup_empty. }
  assert (Hin : ∀ n, n ∈ nbrs ↔ edge start n) by (intros; apply elem_of_neighbours).
  assert (His : ∀ n, is_Some (foldl (λ (m : gmap UUID (option UUID)) n, <[n := None]> m) ∅ nbrs !! n)
    ↔ n ∈ nbrs).
  { intros n. rewrite Hlook. destruct (decide _); split; try done; intros [? ?]; done. }
  constructor.
  - intros n. rewrite His. set_solver.
  - split; [apply neighbours_NoDup|set_solver].
  - rewrite Hlook, decide_False; [done|]. by rewrite Hin.
  - intros n Hn. split; [|done]. apply Hin, His. by rewrite Hn.
  - intros n p. rewrite Hlook. by destruct (decide _).
  - intros n Hn. split; [|lia].
    assert (size (foldl (λ (m : gmap UUID (option UUID)) n, <[n := None]> m) ∅ nbrs) ≠ 0); [|lia].
    intros Hz%map_size_empty_inv. rewrite Hz, lookup_empty in Hn. by destruct Hn.
  - intros n Hn. apply His, Hin in Hn. apply (edge_in_nodes _ _ _ Hn).
  - intros n Hn. rewrite His, Hin. split_and!; [by intros ->|done|lia].
  - set_solver.
  - lia.
  - clear. induction nbrs; constructor; auto. by apply Forall_true.
Qed.

Lemma cycle_through_spec :
  ∃ res, _cycle_through start edges = Ok res ∧ shortest_cycle res.
Proof.
  unfold _cycle_through. rewrite seed_queue_spec.
  destruct (decide (start ∈ neighbours edges start)) as [Hs|Hs]; rewrite elem_of_neighbours in Hs.
  - exists (Some [start]). split; [done|]. split_and!; [done| |].
    + split; [done|]. by exists start, start.
    + intros [|? c] _; [done|]. cbn. lia.
  - eapply bfs_loop_spec; [by apply seed_inv|]. lia.
Qed.
End bfs.
End graph.
