(* ===== verification/LearnFindCycles.v ===== *)
(** * The depth-first cycle search

    [find_cycles] terminates with every node finished; each cycle it reports is
    a simple cycle of the graph read from its smallest node; and whenever the
    search closes an edge, the cycle through that edge is among those
    reported. *)

From S2P Require Import Prelude PyData PyTime LearnExpression LearnConditions.
From S2P Require Import LearnValidate LearnCycles.
From stdpp Require Import base gmap strings pretty list sorting.
From Stdlib Require Import ZArith NArith Ascii.

(** ** Rotation to the smallest node *)

Lemma before_from x l : x ∈ l → before_index x l ++ from_index x l = l.
Proof.
  induction l as [|y l IH]; intros Hx; [by inversion Hx|]. cbn.
  destruct (decide (x = y)) as [->|Hne]; [done|]. cbn. f_equal. apply IH.
  by apply elem_of_cons in Hx as [?|?].
Qed.

Lemma from_index_head x l : x ∈ l → head (from_index x l) = Some x.
Proof.
  induction l as [|y l IH]; intros Hx; [by inversion Hx|]. cbn.
  destruct (decide (x = y)) as [->|Hne]; [done|]. apply IH.
  by apply elem_of_cons in Hx as [?|?].
Qed.

Lemma from_index_last x l : x ∈ l → last (from_index x l) = last l.
Proof.
  intros Hx. rewrite <-(before_from x l) at 2 by done.
  pose proof (from_index_head x l Hx) as Hh.
  destruct (from_index x l) as [|y l'] eqn:E; [done|]. by rewrite last_app_cons.
Qed.

Lemma uuid_leb_refl u : uuid_leb u u = true.
Proof. apply N.leb_refl. Qed.
Lemma uuid_leb_trans u v w : uuid_leb u v = true → uuid_leb v w = true → uuid_leb u w = true.
Proof. unfold uuid_leb. rewrite !N.leb_le. lia. Qed.

Lemma min_uuid_spec l : ∀ x,
  min_uuid x l ∈ x :: l ∧ ∀ y, y ∈ x :: l → uuid_leb (min_uuid x l) y = true.
Proof.
  induction l as [|z l IH]; intros x; cbn [min_uuid].
  { split; [by left|]. intros y ->%list_elem_of_singleton. apply uuid_leb_refl. }
  destruct (IH (if uuid_ltb z x then z else x)) as [Hin Hle]. split.
  - apply elem_of_cons in Hin as [->|Hin]; [|by right; right].
    destruct (uuid_ltb z x); [right; by left|by left].
  - assert (Hxz : uuid_leb (min_uuid (if uuid_ltb z x then z else x) l) x = true ∧
      uuid_leb (min_uuid (if uuid_ltb z x then z else x) l) z = true).
    { unfold uuid_ltb, uuid_leb in *. destruct (N.ltb_spec (uuid_int z) (uuid_int x)).
      - specialize (Hle z ltac:(by left)). rewrite !N.leb_le in *. lia.
      - specialize (Hle x ltac:(by left)). rewrite !N.leb_le in *. lia. }
    intros y [->|[->|Hy]%elem_of_cons]%elem_of_cons; [apply Hxz|apply Hxz|].
    apply Hle. by right.
Qed.

Lemma rotate_to_min_spec c :
  c ≠ [] → rotation c (rotate_to_min c) ∧
    ∃ m, head (rotate_to_min c) = Some m ∧ ∀ y, y ∈ c → uuid_leb m y = true.
Proof.
  destruct c as [|x l]; [done|intros _]. unfold rotate_to_min.
  destruct (min_uuid_spec l x) as [Hin Hle]. set (m := min_uuid x l) in *. split.
  - exists (before_index m (x :: l)), (from_index m (x :: l)). split; [|done].
    by rewrite before_from.
  - exists m. split; [|done]. pose proof (from_index_head m (x :: l) Hin) as Hh.
    by destruct (from_index m (x :: l)).
Qed.

Section dfs.
Context (edges : Edges).
Local Abbreviation edge := (edge edges).

(** ** What is reported *)

(** A cycle in the form the search reports it. *)
Definition reported_form (c : list UUID) : Prop :=
  closed edges c ∧ NoDup c ∧ ∃ m, head c = Some m ∧ ∀ y, y ∈ c → uuid_leb m y = true.

(** Some reported cycle runs through the edge from [u] to [w]: read from [w]
    it ends in [u]. *)
Definition closes (cycles : list (list UUID)) (u w : UUID) : Prop :=
  ∃ c c0, c ∈ cycles ∧ rotation c c0 ∧ head c0 = Some w ∧ last c0 = Some u.

Lemma closes_mono cycles cycles' u w :
  (∀ c, c ∈ cycles → c ∈ cycles') → closes cycles u w → closes cycles' u w.
Proof. intros Hsub (c & c0 & ? & ? & ? & ?). exists c, c0. auto. Qed.

(** The cycle a back edge closes. *)
Lemma back_edge_cycle path u w :
  links edges path → NoDup path → last path = Some u → w ∈ path → edge u w →
  reported_form (rotate_to_min (from_index w path)) ∧
  ∃ c0, rotation (rotate_to_min (from_index w path)) c0 ∧ head c0 = Some w ∧ last c0 = Some u.
Proof.
  intros Hl Hnd Hu Hw He.
  pose proof (from_index_head w path Hw) as Hh.
  pose proof (from_index_last w path Hw) as Hlast. rewrite Hu in Hlast.
  rewrite <-(before_from w path) in Hl, Hnd by done.
  apply links_app in Hl as (_ & Hl & _). apply NoDup_app in Hnd as (_ & _ & Hnd).
  destruct (rotate_to_min_spec (from_index w path)) as (Hrot & m & Hm & Hle).
  { intros E. by rewrite E in Hh. }
  split.
  - split_and!.
    + eapply closed_rotation; [done|]. split; [done|]. exists u, w. auto.
    + by rewrite <-(rotation_Permutation _ _ Hrot).
    + exists m. split; [done|]. intros y Hy. apply Hle.
      by rewrite (rotation_Permutation _ _ Hrot).
  - exists (from_index w path). split; [by apply rotation_sym|done].
Qed.

(** ** The state of the search *)

(** What is known of the edges of the nodes on the path, innermost first:
    [child] is the node the path continues with. *)
Fixpoint frames (finished_ : list UUID) (cycles : list (list UUID)) (child : option UUID)
    (rpath : list UUID) (stack : list (list UUID)) : Prop :=
  match rpath, stack with
  | [], [] => True
  | u :: rpath, nbrs :: stack =>
      (∀ w, w ∈ nbrs → edge u w) ∧
      (∀ w, edge u w → w ∈ nbrs ∨ w ∈ finished_ ∨ closes cycles u w ∨ child = Some w) ∧
      frames finished_ cycles (Some u) rpath stack
  | _, _ => False
  end.

(** [finished_] lists the finished nodes, the last one first. *)
Record DfsInv (finished_ : list UUID) (d : Dfs) : Prop := {
  inv_finished u : dfs_state d !! u = Some finished ↔ u ∈ finished_;
  inv_path u : dfs_state d !! u = Some on_stack ↔ u ∈ dfs_path d;
  inv_path_NoDup : NoDup (dfs_path d);
  inv_links : links edges (dfs_path d);
  inv_frames : frames finished_ (dfs_cycles d) None (rev (dfs_path d)) (dfs_stack d);
  inv_done l u l' w : finished_ = l ++ u :: l' → edge u w →
    w ∈ l' ∨ closes (dfs_cycles d) u w;
  inv_cycles c : c ∈ dfs_cycles d → reported_form c;
  inv_cycles_NoDup : NoDup (dfs_cycles d);
  inv_seen c : c ∈ dfs_seen d ↔ c ∈ dfs_cycles d;
  inv_nodes u : is_Some (dfs_state d !! u) → u ∈ edge_nodes edges;
}.

Lemma frames_mono finished_ cycles finished' cycles' rpath : ∀ child child' stack,
  (∀ u, u ∈ finished_ → u ∈ finished') → (∀ c, c ∈ cycles → c ∈ cycles') →
  (∀ u, child = Some u → u ∈ finished' ∨ child' = Some u) →
  frames finished_ cycles child rpath stack → frames finished' cycles' child' rpath stack.
Proof.
  induction rpath as [|u rpath IH]; intros child child' [|nbrs stack] Hf Hc Hch; cbn [frames];
    try done.
  intros (Hn & He & Hrest). split_and!; [done| |].
  - intros w Hw. destruct (He w Hw) as [?|[?|[?|?]]]; [by left|right; left; auto| |].
    + right; right; left. by eapply closes_mono.
    + destruct (Hch w); auto.
  - eapply IH; [done|done| |done]. intros v. by right.
Qed.

Lemma frames_length finished_ cycles rpath : ∀ child stack,
  frames finished_ cycles child rpath stack → length rpath = length stack.
Proof.
  induction rpath as [|u rpath IH]; intros child [|nbrs stack]; cbn [frames]; try done.
  intros (_ & _ & Hr). cbn. f_equal. by eapply IH.
Qed.

(** *** The loop over the neighbours *)

(** What the loop leaves when it started from [cycles]. *)
Definition scan_result (finished_ : list UUID) (state : gmap UUID Status) (u : UUID)
    (cycles : list (list UUID)) (nbrs : list UUID) (next : option (UUID * list UUID))
    (cycles' seen' : list (list UUID)) : Prop :=
  (∀ c, c ∈ cycles → c ∈ cycles') ∧
  (∀ c, c ∈ cycles' → reported_form c) ∧ NoDup cycles' ∧ (∀ c, c ∈ seen' ↔ c ∈ cycles') ∧
  match next with
  | None => ∀ w, w ∈ nbrs → w ∈ finished_ ∨ closes cycles' u w
  | Some (v, rest) =>
      state !! v = None ∧ edge u v ∧ (∀ w, w ∈ rest → edge u w) ∧
      ∀ w, w ∈ nbrs → w = v ∨ w ∈ rest ∨ w ∈ finished_ ∨ closes cycles' u w
  end.

(** A neighbour accounted for. *)
Lemma scan_result_cons finished_ state u cycles cycles1 v nbrs next cycles' seen' :
  (∀ c, c ∈ cycles → c ∈ cycles1) → v ∈ finished_ ∨ closes cycles1 u v →
  scan_result finished_ state u cycles1 nbrs next cycles' seen' →
  scan_result finished_ state u cycles (v :: nbrs) next cycles' seen'.
Proof.
  intros Hsub1 Hv (Hsub & Hcy & Hcn & Hseen & Hres).
  assert (Hv' : v ∈ finished_ ∨ closes cycles' u v).
  { destruct Hv; [by left|right; by eapply closes_mono]. }
  split_and!; [auto|done|done|done|].
  destruct next as [[v' rest]|].
  - destruct Hres as (? & ? & ? & Hres). split_and!; [done|done|done|].
    intros w [->|Hw]%elem_of_cons; [by right; right|auto].
  - intros w [->|Hw]%elem_of_cons; auto.
Qed.

Lemma dfs_scan_spec (finished_ : list UUID) state path u nbrs :
  (∀ v, state !! v = Some finished ↔ v ∈ finished_) →
  (∀ v, state !! v = Some on_stack ↔ v ∈ path) →
  links edges path → NoDup path → last path = Some u → (∀ w, w ∈ nbrs → edge u w) →
  ∀ cycles seen next cycles' seen',
  (∀ c, c ∈ cycles → reported_form c) → NoDup cycles → (∀ c, c ∈ seen ↔ c ∈ cycles) →
  dfs_scan state path nbrs cycles seen = (next, (cycles', seen')) →
  scan_result finished_ state u cycles nbrs next cycles' seen'.
Proof.
  intros Hfin Hpath Hl Hnd Hu.
  induction nbrs as [|v nbrs IH]; intros He cycles seen next cycles' seen' Hcy Hcn Hseen;
    cbn [dfs_scan].
  { intros [= <- <- <-]. split_and!; try done. by intros ? ?%not_elem_of_nil. }
  assert (Hev : edge u v) by (apply He; by left).
  specialize (IH ltac:(intros; apply He; by right)).
  destruct (state !! v) as [[|]|] eqn:Hsv.
  - assert (Hvp : v ∈ path) by (by apply Hpath).
    destruct (back_edge_cycle path u v) as (Hform & c0 & Hrot & Hh & Hlast); [done..|].
    destruct (decide (rotate_to_min (from_index v path) ∈ seen)) as [Hin|Hnew]; intros Hs.
    + eapply scan_result_cons; [done| |by eapply IH].
      right. eexists _, c0. split; [by apply Hseen|done].
    + eapply scan_result_cons; [| |eapply IH; [| | |exact Hs]].
      * intros c Hc. apply elem_of_app. by left.
      * right. eexists _, c0. split; [|done]. apply elem_of_app. right. by left.
      * intros c [Hc|Hc%list_elem_of_singleton]%elem_of_app; [auto|by subst c].
      * apply NoDup_app. split_and!; [done| |apply NoDup_singleton].
        intros c Hc ->%list_elem_of_singleton. apply Hnew. by apply Hseen.
      * intros c. rewrite elem_of_cons, elem_of_app, list_elem_of_singleton, Hseen. tauto.
  - intros Hs. eapply scan_result_cons; [done| |by eapply IH]. left. by apply Hfin.
  - intros [= <- <- <-]. split_and!; try done.
    + intros w Hw. apply He. by right.
    + intros w [->|Hw]%elem_of_cons; auto.
Qed.

(** *** One round of the loop *)

Lemma rev_last (path : list UUID) u rpath :
  rev path = u :: rpath → path = rev rpath ++ [u] ∧ last path = Some u.
Proof.
  intros H. assert (path = rev rpath ++ [u]) as ->.
  { rewrite <-(rev_involutive path), H. done. }
  split; [done|]. apply last_snoc.
Qed.

(** A new node on the path. *)
Lemma dfs_advance finished_ d u v rest stack rpath cycles' seen' :
  DfsInv finished_ d → rev (dfs_path d) = u :: rpath →
  frames finished_ (dfs_cycles d) (Some u) rpath stack →
  (∀ w, edge u w → w ∈ rest ∨ w ∈ finished_ ∨ closes cycles' u w ∨ Some v = Some w) →
  scan_result finished_ (dfs_state d) u (dfs_cycles d) rest (Some (v, rest)) cycles' seen' →
  DfsInv finished_
    (MkDfs (<[v := on_stack]> (dfs_state d)) (dfs_path d ++ [v])
       (neighbours edges v :: rest :: stack) cycles' seen').
Proof.
  intros HI Hrev Hfr Hedges (Hsub & Hcy & Hcn & Hseen & Hv & Huv & Hrest & _).
  destruct (rev_last _ _ _ Hrev) as [Hpath Hlast].
  assert (Hvf : v ∉ finished_) by (intros Hx; apply (inv_finished _ _ HI) in Hx; congruence).
  assert (Hvp : v ∉ dfs_path d) by (intros Hx; apply (inv_path _ _ HI) in Hx; congruence).
  constructor; cbn [dfs_state dfs_path dfs_stack dfs_cycles dfs_seen]; try done.
  - intros w. destruct (decide (w = v)) as [->|].
    + rewrite lookup_insert_eq. split; [done|]. by intros.
    + rewrite lookup_insert_ne by done. apply (inv_finished _ _ HI).
  - intros w. rewrite elem_of_app, list_elem_of_singleton.
    destruct (decide (w = v)) as [->|].
    + rewrite lookup_insert_eq. tauto.
    + rewrite lookup_insert_ne, (inv_path _ _ HI) by done. tauto.
  - apply NoDup_app. split_and!; [apply (inv_path_NoDup _ _ HI)| |apply NoDup_singleton].
    intros w Hw ->%list_elem_of_singleton. done.
  - apply links_app. split_and!; [apply (inv_links _ _ HI)|done|].
    rewrite Hlast. by intros ? ? [= <-] [= <-].
  - rewrite rev_app_distr. cbn [rev app]. rewrite Hrev. cbn [frames]. split_and!.
    + intros w. apply elem_of_neighbours.
    + intros w Hw. left. by apply elem_of_neighbours.
    + done.
    + done.
    + eapply frames_mono; [..|exact Hfr]; auto.
  - intros l w l' x Hf Hx. destruct (inv_done _ _ HI l w l' x Hf Hx); [by left|right].
    by eapply closes_mono.
  - intros w. destruct (decide (w = v)) as [->|].
    + intros _. by apply edge_in_nodes in Huv as [_ ?].
    + rewrite lookup_insert_ne by done. apply (inv_nodes _ _ HI).
Qed.

(** The innermost node is finished. *)
Lemma dfs_retreat finished_ d u stack rpath cycles' seen' :
  DfsInv finished_ d → rev (dfs_path d) = u :: rpath →
  frames finished_ (dfs_cycles d) (Some u) rpath stack →
  (∀ w, edge u w → w ∈ finished_ ∨ closes cycles' u w) →
  scan_result finished_ (dfs_state d) u (dfs_cycles d) [] None cycles' seen' →
  DfsInv (u :: finished_)
    (MkDfs (<[u := finished]> (dfs_state d)) (removelast (dfs_path d)) stack cycles' seen').
Proof.
  intros HI Hrev Hfr Hedges (Hsub & Hcy & Hcn & Hseen & _).
  destruct (rev_last _ _ _ Hrev) as [Hpath Hlast].
  pose proof (inv_path_NoDup _ _ HI) as Hnd. pose proof (inv_links _ _ HI) as Hl.
  pose proof (inv_path _ _ HI) as Hon. rewrite Hpath in Hnd, Hl, Hon.
  apply NoDup_app in Hnd as (Hnd & Hdis & _). apply links_app in Hl as (Hl & _ & _).
  assert (Hup : u ∉ rev rpath) by (intros Hx; apply (Hdis u Hx); by left).
  assert (removelast (dfs_path d) = rev rpath) as -> by (rewrite Hpath; apply removelast_last).
  constructor; cbn [dfs_state dfs_path dfs_stack dfs_cycles dfs_seen]; try done.
  - intros w. rewrite elem_of_cons. destruct (decide (w = u)) as [->|].
    + rewrite lookup_insert_eq. tauto.
    + rewrite lookup_insert_ne, (inv_finished _ _ HI) by done. tauto.
  - intros w. destruct (decide (w = u)) as [->|].
    + rewrite lookup_insert_eq. split; [done|]. by intros.
    + rewrite lookup_insert_ne, Hon, elem_of_app, list_elem_of_singleton by done. tauto.
  - rewrite rev_involutive. eapply frames_mono; [| |  |exact Hfr].
    + intros w Hw. by right.
    + done.
    + intros w [= ->]. left. by left.
  - intros l w l' x Hf Hx. destruct l as [|y l]; injection Hf as -> Hf.
    + subst l'. auto.
    + destruct (inv_done _ _ HI l w l' x Hf Hx); [by left|right]. by eapply closes_mono.
  - intros w. destruct (decide (w = u)) as [->|].
    + intros _. apply (inv_nodes _ _ HI). exists on_stack. apply (inv_path _ _ HI).
      rewrite Hpath. apply elem_of_app. right. by left.
    + rewrite lookup_insert_ne by done. apply (inv_nodes _ _ HI).
Qed.

(** Unvisited nodes count twice, nodes on the stack once. *)
Definition dfs_measure (d : Dfs) : nat :=
  2 * size (edge_nodes edges ∖ dom (dfs_state d)) + length (dfs_stack d).

Lemma dfs_measure_advance (state : gmap UUID Status) v :
  state !! v = None → v ∈ edge_nodes edges →
  size (edge_nodes edges ∖ dom state)
  = S (size (edge_nodes edges ∖ dom (<[v := on_stack]> state))).
Proof.
  intros Hv Hin. assert (Hnd : v ∉ dom state) by by apply not_elem_of_dom.
  rewrite dom_insert_L.
  assert (edge_nodes edges ∖ dom state
    = {[v]} ∪ edge_nodes edges ∖ ({[v]} ∪ dom state)) as Heq.
  { apply set_eq. intros w. rewrite elem_of_union, !elem_of_difference, elem_of_union,
      elem_of_singleton. destruct (decide (w = v)) as [->|]; naive_solver. }
  rewrite Heq at 1. rewrite size_union, size_singleton by set_solver. done.
Qed.

Lemma dfs_step_inv finished_ d :
  DfsInv finished_ d → dfs_stack d ≠ [] →
  ∃ finished', DfsInv finished' (dfs_step edges d) ∧
    (∀ u, u ∈ finished_ → u ∈ finished') ∧
    (∀ u, is_Some (dfs_state d !! u) → is_Some (dfs_state (dfs_step edges d) !! u)) ∧
    S (dfs_measure (dfs_step edges d)) = dfs_measure d.
Proof.
  intros HI Hne. unfold dfs_step, dfs_measure.
  pose proof (inv_frames _ _ HI) as Hfr.
  destruct (dfs_stack d) as [|nbrs stack] eqn:Hst; [done|].
  destruct (rev (dfs_path d)) as [|u rpath] eqn:Hrev; [done|].
  destruct Hfr as (Hn & He & Hfr). destruct (rev_last _ _ _ Hrev) as [Hpath Hlast].
  destruct (dfs_scan (dfs_state d) (dfs_path d) nbrs (dfs_cycles d) (dfs_seen d))
    as [next [cycles' seen']] eqn:Hs.
  apply (dfs_scan_spec finished_ _ _ u) in Hs; [|first [done|by apply HI]..].
  destruct Hs as (Hsub & Hcy & Hcn & Hseen & Hres). destruct next as [[v rest]|].
  - destruct Hres as (Hv & Huv & Hrest & Hall). exists finished_. split_and!.
    + apply (dfs_advance finished_ d u v rest stack rpath); try done.
      * intros w Hw. destruct (He w Hw) as [Hin|[?|[Hc|?]]]; [|by auto| |done].
        { destruct (Hall w Hin) as [->|[?|[?|?]]]; auto. }
        right; right; left. by eapply closes_mono.
      * split_and!; try done. intros w Hw. by right; left.
    + done.
    + intros w Hw. cbn. destruct (decide (w = v)) as [->|];
        [by rewrite lookup_insert_eq|by rewrite lookup_insert_ne].
    + cbn [dfs_state dfs_stack length].
      rewrite (dfs_measure_advance (dfs_state d) v Hv)
        by (by apply edge_in_nodes in Huv as [_ ?]). lia.
  - rewrite Hlast. exists (u :: finished_). split_and!.
    + apply (dfs_retreat finished_ d u stack rpath); try done.
      2: { split_and!; try done. by intros ? ?%not_elem_of_nil. }
      intros w Hw. destruct (He w Hw) as [Hin|[?|[Hc|?]]]; [by apply Hres|by left| |done].
      right. by eapply closes_mono.
    + intros w Hw. by right.
    + intros w Hw. cbn. destruct (decide (w = u)) as [->|];
        [by rewrite lookup_insert_eq|by rewrite lookup_insert_ne].
    + cbn [dfs_state dfs_stack length]. rewrite dom_insert_lookup_L; [lia|].
      exists on_stack. apply (inv_path _ _ HI). rewrite Hpath. apply elem_of_app. right. by left.
Qed.

Lemma dfs_loop_inv fuel : ∀ finished_ d,
  DfsInv finished_ d → dfs_measure d ≤ fuel →
  ∃ finished', DfsInv finished' (dfs_loop fuel edges d) ∧
    dfs_stack (dfs_loop fuel edges d) = [] ∧
    (∀ u, is_Some (dfs_state d !! u) → is_Some (dfs_state (dfs_loop fuel edges d) !! u)).
Proof.
  induction fuel as [|fuel IH]; intros finished_ d HI Hm.
  { exists finished_. split_and!; [done| |done]. unfold dfs_measure in Hm. cbn.
    destruct (dfs_stack d); [done|cbn in Hm; lia]. }
  cbn [dfs_loop]. destruct (dfs_stack d) as [|nbrs stack] eqn:Hst; [by exists finished_|].
  destruct (dfs_step_inv finished_ d HI) as (f1 & HI1 & _ & Hkeep & Hm1); [by rewrite Hst|].
  destruct (IH f1 (dfs_step edges d) HI1) as (f2 & HI2 & Hst2 & Hkeep2); [lia|].
  exists f2. split_and!; [done|done|auto].
Qed.

(** *** The roots *)

(** Between two roots the stack is empty: every node visited is finished. *)
Lemma dfs_root_inv finished_ d root :
  DfsInv finished_ d → dfs_stack d = [] → root ∈ edge_nodes edges →
  ∃ finished', DfsInv finished' (dfs_root edges d root) ∧
    dfs_stack (dfs_root edges d root) = [] ∧
    (∀ u, is_Some (dfs_state d !! u) ∨ u = root →
      is_Some (dfs_state (dfs_root edges d root) !! u)).
Proof.
  intros HI Hst Hroot. unfold dfs_root.
  destruct (dfs_state d !! root) as [s|] eqn:Hs.
  { exists finished_. split_and!; [done|done|]. intros u [?| ->]; [done|by rewrite Hs]. }
  pose proof (inv_frames _ _ HI) as Hfr. rewrite Hst in Hfr.
  destruct (rev (dfs_path d)) as [|x xs] eqn:Hrev; [|done].
  assert (Hp : dfs_path d = []) by (by rewrite <-(rev_involutive (dfs_path d)), Hrev).
  set (d1 := MkDfs _ _ _ _ _).
  assert (HI1 : DfsInv finished_ d1).
  { destruct HI. constructor; cbn [d1 dfs_state dfs_path dfs_stack dfs_cycles dfs_seen]; try done.
    - intros u. destruct (decide (u = root)) as [->|]; [|by rewrite lookup_insert_ne].
      rewrite lookup_insert_eq, <-inv_finished0. by rewrite Hs.
    - intros u. rewrite list_elem_of_singleton.
      destruct (decide (u = root)) as [->|]; [by rewrite lookup_insert_eq|].
      rewrite lookup_insert_ne, inv_path0, Hp by done. set_solver.
    - apply NoDup_singleton.
    - cbn. split_and!; [intros w; apply elem_of_neighbours| |done].
      intros w Hw. left. by apply elem_of_neighbours.
    - intros u. destruct (decide (u = root)) as [->|]; [done|].
      rewrite lookup_insert_ne by done. apply inv_nodes0. }
  destruct (dfs_loop_inv (2 * size (edge_nodes edges)) finished_ d1 HI1) as (f & HIf & Hstf & Hk).
  { unfold dfs_measure. cbn [d1 dfs_state dfs_stack length].
    pose proof (dfs_measure_advance (dfs_state d) root Hs Hroot).
    assert (size (edge_nodes edges ∖ dom (dfs_state d)) ≤ size (edge_nodes edges)); [|lia].
    apply subseteq_size. set_solver. }
  exists f. split_and!; [done|done|]. intros u Hu. apply Hk. cbn [d1 dfs_state].
  destruct (decide (u = root)) as [->|]; [by rewrite lookup_insert_eq|].
  rewrite lookup_insert_ne by done. by destruct Hu.
Qed.

Lemma dfs_roots_inv roots : ∀ finished_ d,
  DfsInv finished_ d → dfs_stack d = [] → (∀ u, u ∈ roots → u ∈ edge_nodes edges) →
  ∃ finished', DfsInv finished' (foldl (dfs_root edges) d roots) ∧
    dfs_stack (foldl (dfs_root edges) d roots) = [] ∧
    (∀ u, is_Some (dfs_state d !! u) ∨ u ∈ roots →
      is_Some (dfs_state (foldl (dfs_root edges) d roots) !! u)).
Proof.
  induction roots as [|r roots IH]; intros finished_ d HI Hst Hin; cbn [foldl].
  { exists finished_. split_and!; [done|done|]. by intros u [?|?%not_elem_of_nil]. }
  destruct (dfs_root_inv finished_ d r HI Hst) as (f1 & HI1 & Hst1 & Hk1); [apply Hin; by left|].
  destruct (IH f1 (dfs_root edges d r) HI1 Hst1) as (f2 & HI2 & Hst2 & Hk2).
  { intros u Hu. apply Hin. by right. }
  exists f2. split_and!; [done|done|]. intros u [Hu|[->|Hu]%elem_of_cons]; auto.
Qed.

Lemma dfs_empty_inv : DfsInv [] (MkDfs ∅ [] [] [] []).
Proof.
  constructor; cbn; try done.
  - intros u. rewrite lookup_empty. split; [done|]. by intros ?%not_elem_of_nil.
  - intros u. rewrite lookup_empty. split; [done|]. by intros ?%not_elem_of_nil.
  - constructor.
  - intros [|] ???; done.
  - by intros ? ?%not_elem_of_nil.
  - constructor.
  - intros u [? Hu]. by rewrite lookup_empty in Hu.
Qed.

(** Every node is finished, the one before the other along every edge that
    closes no reported cycle. *)
Lemma find_cycles_inv :
  (∀ c, c ∈ find_cycles edges → reported_form c) ∧ NoDup (find_cycles edges) ∧
  ∃ finished_, (∀ u, u ∈ edge_nodes edges → u ∈ finished_) ∧
    ∀ l u l' w, finished_ = l ++ u :: l' → edge u w →
      w ∈ l' ∨ closes (find_cycles edges) u w.
Proof.
  unfold find_cycles.
  destruct (dfs_roots_inv (sorted_uuids (edge_nodes edges)) [] _ dfs_empty_inv eq_refl)
    as (f & HI & Hst & Hall). { intros u. apply elem_of_sorted_uuids. }
  set (d := foldl _ _ _) in *. split_and!; [apply (inv_cycles _ _ HI)|apply HI|].
  exists f. split; [|by intros; eapply (inv_done _ _ HI)].
  intros u Hu. apply (inv_finished _ _ HI).
  destruct (Hall u) as [[|] Hs]; [right; by apply elem_of_sorted_uuids| |done].
  apply (inv_path _ _ HI) in Hs. pose proof (inv_frames _ _ HI) as Hfr. rewrite Hst in Hfr.
  destruct (rev (dfs_path d)) as [|x xs] eqn:Hrev; [|done].
  rewrite <-(rev_involutive (dfs_path d)), Hrev in Hs. by apply not_elem_of_nil in Hs.
Qed.

(** ** Every cycle is caught *)

(** The last element of [f] that [l] has. *)
Lemma last_common (l f : list UUID) :
  (∃ u, u ∈ l ∧ u ∈ f) →
  ∃ a u b, f = a ++ u :: b ∧ u ∈ l ∧ ∀ w, w ∈ l → w ∉ b.
Proof.
  induction f as [|x f IH]; intros (u & Hl & Hf); [by apply not_elem_of_nil in Hf|].
  destruct (decide (Exists (λ w, w ∈ f) l)) as [Hex|Hno].
  - apply Exists_exists in Hex as (v & Hv & Hvf).
    destruct IH as (a & w & b & -> & Hw & Hb); [eauto|].
    by exists (x :: a), w, b.
  - rewrite Exists_exists in Hno.
    apply elem_of_cons in Hf as [->|Hf]; [|destruct Hno; eauto].
    exists [], x, f. split_and!; [done|done|]. intros w Hw Hwf. destruct Hno. eauto.
Qed.

(** The step a cycle takes from one of its nodes. *)
Lemma cycle_step c u :
  closed edges c → u ∈ c →
  ∃ w c0, edge u w ∧ w ∈ c ∧ rotation c c0 ∧ head c0 = Some w ∧ last c0 = Some u.
Proof.
  intros Hc (a & b & ->)%list_elem_of_split.
  assert (Hrot : rotation (a ++ u :: b) (b ++ (a ++ [u]))).
  { exists (a ++ [u]), b. by rewrite <-app_assoc. }
  pose proof (closed_rotation _ _ _ Hrot Hc) as (_ & u' & w & Hu' & Hw & He).
  assert (last (b ++ (a ++ [u])) = Some u) as Hl by (rewrite app_assoc; apply last_snoc).
  rewrite Hl in Hu'. injection Hu' as <-.
  exists w, (b ++ (a ++ [u])). split_and!; try done.
  rewrite (rotation_Permutation _ _ Hrot).
  destruct (b ++ (a ++ [u])); [done|]. injection Hw as ->. by left.
Qed.

Lemma closed_nodes c u : closed edges c → u ∈ c → u ∈ edge_nodes edges.
Proof.
  intros Hc Hu. destruct (cycle_step c u Hc Hu) as (w & _ & He & _).
  by apply edge_in_nodes in He as [? _].
Qed.

Lemma find_cycles_catches c :
  closed edges c →
  ∃ u w c0, rotation c c0 ∧ head c0 = Some w ∧ last c0 = Some u ∧
    closes (find_cycles edges) u w.
Proof.
  intros Hc. destruct find_cycles_inv as (_ & _ & f & Hall & Hdone).
  destruct (last_common c f) as (a & u & b & Hf & Hu & Hb).
  { pose proof Hc as (_ & u & v & Hu & _). apply last_Some_elem_of in Hu. exists u.
    split; [done|]. apply Hall. by eapply closed_nodes. }
  destruct (cycle_step c u Hc Hu) as (w & c0 & He & Hw & Hrot & Hh & Hlast).
  exists u, w, c0. split_and!; try done.
  destruct (Hdone a u b w Hf He) as [Hin|]; [|done]. by destruct (Hb w Hw).
Qed.
End dfs.
