(* ===== verification/LearnValidation.v ===== *)
(** * What a validation without errors settles

    The checks only add issues, so an expression whose validation reports no
    error passed every one of them. *)

From S2P Require Import Prelude PyData PyTime LearnExpression LearnConditions.
From S2P Require Import LearnEvaluate LearnValidate LearnSyntax LearnSemantics.
From S2P Require Import LearnRules LearnFacts LearnCycles.
From stdpp Require Import base gmap strings pretty list.
From Stdlib Require Import ZArith NArith Ascii.

(** ** Checks only add *)

Definition checks_le (c c' : Checks) : Prop :=
  issues c ⊆ issues c' ∧ non_monotone_under_not c ⊆ non_monotone_under_not c'.

#[export] Instance checks_le_preorder : PreOrder checks_le.
Proof.
  split; [done|]. intros a b c [H1 H2] [H3 H4]. split; [by etrans|by etrans].
Qed.

Definition grows {A} (m : ST Checks req_error A) : Prop :=
  ∀ c r c', m c = (r, c') → checks_le c c'.

Definition no_errors (l : list ValidationIssue) : Prop :=
  ∀ i, i ∈ l → severity i = sev_warning.

Lemma no_errors_le c c' : checks_le c c' → no_errors (issues c') → no_errors (issues c).
Proof. intros [Hle _] Hn i Hi. by apply Hn, Hle. Qed.

Create HintDb checks discriminated.

Lemma grows_ret {A} (a : A) : grows (mret a).
Proof. intros c r c' [= <- <-]. done. Qed.
Lemma grows_raise {A} e : grows (A:=A) (raise e).
Proof. intros c r c' [= <- <-]. done. Qed.
Lemma grows_lift {A} (r : result req_error A) : grows (lift r).
Proof. intros c r' c' [= <- <-]. done. Qed.
Lemma grows_gets {A} (f : Checks → A) : grows (gets f).
Proof. intros c r' c' [= <- <-]. done. Qed.
Lemma grows_add sev code path msg : grows (add sev code path msg).
Proof. intros c r c' [= <- <-]. split; [|done]. cbn. set_solver. Qed.
Lemma grows_bind {A B} (m : ST Checks req_error A) (f : A → ST Checks req_error B) :
  grows m → (∀ a, grows (f a)) → grows (m ≫= f).
Proof.
  intros Hm Hf c r c' [(a & c1 & H1 & H2)|(e & H1 & ->)]%ST_bind_run.
  - etrans; [by eapply Hm|by eapply Hf].
  - by eapply Hm.
Qed.
Lemma grows_when b m : grows m → grows (when b m).
Proof. intros Hm. destruct b; [done|apply grows_ret]. Qed.
Lemma grows_for_each {A} (f : A → ST Checks req_error unit) l :
  (∀ x, grows (f x)) → grows (for_each f l).
Proof.
  intros Hf. induction l as [|x l IH]; cbn [for_each]; [apply grows_ret|].
  by apply grows_bind.
Qed.
#[export] Hint Resolve grows_ret grows_raise grows_lift grows_gets grows_add grows_bind
  grows_when grows_for_each : checks.

Ltac grows_tac :=
  repeat first
    [ progress intros | apply grows_bind | apply grows_when | apply grows_for_each
    | solve [eauto with checks] | case_match ].

Lemma grows_check_references refs path catalog target :
  grows (_check_references refs path catalog target).
Proof. unfold _check_references. grows_tac. Qed.
Lemma grows_check_thresholds params path catalog now :
  grows (_check_thresholds params path catalog now).
Proof. unfold _check_thresholds. grows_tac. Qed.
Lemma grows_check_certificate cb params path : grows (check_certificate cb params path).
Proof. unfold check_certificate. grows_tac. Qed.
Lemma grows_collect registry path node : grows (collect_negated registry path node).
Proof.
  unfold collect_negated. destruct node; try apply grows_ret.
  intros c r c' [= <- <-]. split; [done|]. cbn. set_solver.
Qed.
Lemma grows_check_depth nodes : grows (check_depth nodes).
Proof. induction nodes as [|[] nodes IH]; cbn [check_depth]; grows_tac. Qed.
#[export] Hint Resolve grows_check_references grows_check_thresholds grows_check_certificate
  grows_collect grows_check_depth : checks.

Section grows_node.
Context `{Pydantic}.
Lemma grows_check_cond registry target catalog now cb path kind fields :
  grows (check_cond registry target catalog now cb path kind fields).
Proof. unfold check_cond. grows_tac. Qed.
Lemma grows_check_node registry target catalog now cb item :
  grows (check_node registry target catalog now cb item).
Proof.
  unfold check_node.
  apply grows_bind; [by apply grows_when, grows_add|intros _].
  apply grows_bind; [apply grows_collect|intros _].
  destruct item.2; try apply grows_ret. apply grows_check_cond.
Qed.
Lemma grows_check_cycle target edges : grows (check_cycle target edges).
Proof. unfold check_cycle. grows_tac. Qed.
End grows_node.
#[export] Hint Resolve grows_check_cond grows_check_node grows_check_cycle : checks.

(** ** Running the checks of a clean expression *)

Lemma when_error (b : bool) code path msg c u c' :
  when b (add sev_error code path msg) c = (Ok u, c') → no_errors (issues c') → b = false.
Proof.
  destruct b; [|done]. intros [= _ <-] Hn. exfalso.
  specialize (Hn (MkIssue sev_error code path msg)). cbn in Hn.
  rewrite elem_of_app in Hn. discriminate Hn. right. by left.
Qed.

Lemma for_each_run {A} (f : A → ST Checks req_error unit) l c u c' :
  (∀ x, grows (f x)) → for_each f l c = (Ok u, c') →
  ∀ x, x ∈ l → ∃ c1 c2, f x c1 = (Ok tt, c2) ∧ checks_le c2 c'.
Proof.
  intros Hf. revert c. induction l as [|x l IH]; intros c Hrun y Hy;
    [by apply not_elem_of_nil in Hy|].
  cbn [for_each] in Hrun. apply ST_bind_Ok in Hrun as ([] & c1 & H1 & H2).
  apply elem_of_cons in Hy as [->|Hy]; [|by eapply IH].
  exists c, c1. split; [done|]. by eapply grows_for_each.
Qed.

Lemma check_depth_clean nodes c u c' :
  check_depth nodes c = (Ok u, c') → no_errors (issues c') →
  ∀ q x, (q, x) ∈ nodes → path_depth q ≤ MAX_DEPTH.
Proof.
  induction nodes as [|[p y] nodes IH]; cbn [check_depth]; intros Hrun Hn q x Hin;
    [by apply not_elem_of_nil in Hin|].
  destruct (Nat.ltb_spec MAX_DEPTH (path_depth p)) as [Hd|Hd].
  - exfalso. by apply (when_error true) in Hrun.
  - apply elem_of_cons in Hin as [[= -> ->]|Hin]; [done|]. by eapply IH.
Qed.

(** *** A leaf *)

(** What the checks settle about a leaf. *)
Record leaf_ok `{Pydantic} (registry : ConditionRegistry) (target : Target)
    (catalog : ReferenceCatalog) (now : datetime) (certificate_bearing : bool)
    (kind : string) (fields : list (string * json)) (s : ConditionSpec) (p : BaseModel)
    (refs : list Reference) : Prop := {
  leaf_spec : registry !! kind = Some s;
  leaf_target : target_kind target ∈ spec_targets s;
  leaf_model : model_validate (params_model s) fields = Some p;
  leaf_refs : spec_references s p = Ok refs;
  leaf_exists r : r ∈ refs →
    match ref_kind r with
    | ref_course => course_exists catalog (ref_id r) = true ∧
        ¬ (target_kind target = course_access ∧ ref_id r = target_id target)
    | ref_activity => activity_exists catalog (ref_id r) = true
    end;
  leaf_attempts u n limit : p = AttemptsAtLeastParams u n → activity_exists catalog u = true →
    activity_max_attempts catalog u = Some limit → (n ≤ limit)%Z;
  leaf_floor s' u pct : p = MinimumScoreParams s' u pct → certificate_bearing = true →
    (CERTIFICATE_FINAL_MIN_PCT ≤ pct)%Z;
}.

Lemma check_references_clean refs path catalog target c u c' :
  _check_references refs path catalog target c = (Ok u, c') → no_errors (issues c') →
  ∀ r, r ∈ refs →
    match ref_kind r with
    | ref_course => course_exists catalog (ref_id r) = true ∧
        ¬ (target_kind target = course_access ∧ ref_id r = target_id target)
    | ref_activity => activity_exists catalog (ref_id r) = true
    end.
Proof.
  unfold _check_references. intros Hrun Hn r Hr.
  eapply for_each_run in Hrun as (c1 & c2 & Hrun & Hle); [|intros; grows_tac|exact Hr].
  pose proof (no_errors_le _ _ Hle Hn) as Hn2. clear Hle Hn.
  apply ST_bind_Ok in Hrun as (ex & c3 & Hex & Hwhen).
  pose proof Hwhen as Hb. apply when_error in Hb; [|done]. apply negb_false_iff in Hb as ->.
  destruct (ref_kind r).
  - apply ST_bind_Ok in Hex as (u1 & c4 & Hself & Hret).
    injection Hret as Hex <-. split; [done|].
    apply when_error in Hself; [|eapply no_errors_le; [|done]; by eapply grows_when, Hwhen;
      apply grows_add].
    intros [H1 H2]. rewrite !bool_decide_true in Hself by done. done.
  - by injection Hex as -> _.
Qed.

Lemma check_thresholds_clean p path catalog now c u c' :
  _check_thresholds p path catalog now c = (Ok u, c') → no_errors (issues c') →
  ∀ a n limit, p = AttemptsAtLeastParams a n → activity_exists catalog a = true →
    activity_max_attempts catalog a = Some limit → (n ≤ limit)%Z.
Proof.
  intros Hrun Hn a n limit -> He Hm. cbn in Hrun. rewrite He, Hm in Hrun.
  apply when_error in Hrun; [|done]. by bool_to_prop.
Qed.

Lemma check_certificate_clean cb p path c u c' :
  check_certificate cb p path c = (Ok u, c') → no_errors (issues c') →
  ∀ s a pct, p = MinimumScoreParams s a pct → cb = true →
    (CERTIFICATE_FINAL_MIN_PCT ≤ pct)%Z.
Proof.
  intros Hrun Hn s a pct -> ->. cbn in Hrun. apply when_error in Hrun; [|done].
  by apply Z.ltb_ge in Hrun.
Qed.

Section clean.
Context `{Pydantic}.

Lemma check_cond_clean registry target catalog now cb path kind fields c u c' :
  check_cond registry target catalog now cb path kind fields c = (Ok u, c') →
  no_errors (issues c') →
  ∃ s p refs, leaf_ok registry target catalog now cb kind fields s p refs.
Proof.
  unfold check_cond, _parsed_params, registry_get. intros Hrun Hn.
  destruct (registry !! kind) as [s|] eqn:Hs; [|by apply (when_error true) in Hrun].
  apply ST_bind_Ok in Hrun as (u1 & c1 & Ht & Hrun).
  destruct (model_validate (params_model s) fields) as [p|] eqn:Hp;
    [|by apply (when_error true) in Hrun].
  apply ST_bind_Ok in Hrun as (refs & c2 & Hrefs & Hrun).
  apply lift_run in Hrefs as [Hrefs <-].
  apply ST_bind_Ok in Hrun as (u3 & c3 & Hcr & Hrun).
  apply ST_bind_Ok in Hrun as (u4 & c4 & Hct & Hcc).
  assert (Hn4 : no_errors (issues c4)).
  { eapply no_errors_le; [|done]. by eapply grows_check_certificate. }
  assert (Hn3 : no_errors (issues c3)).
  { eapply no_errors_le; [|done]. by eapply grows_check_thresholds. }
  assert (Hn1 : no_errors (issues c1)).
  { eapply no_errors_le; [|done]. by eapply grows_check_references. }
  apply when_error in Ht; [|done]. apply negb_false_iff, bool_decide_eq_true in Ht.
  exists s, p, refs. split; try done.
  - by eapply check_references_clean.
  - by eapply check_thresholds_clean.
  - by eapply check_certificate_clean.
Qed.

Lemma check_node_clean registry target catalog now cb item c u c' :
  check_node registry target catalog now cb item c = (Ok u, c') → no_errors (issues c') →
  item.2 ≠ Any [] ∧
  (∀ kind fields, item.2 = Cond kind fields →
    ∃ s p refs, leaf_ok registry target catalog now cb kind fields s p refs) ∧
  (∀ child, item.2 = Not child →
    negated_leaves registry item.1 child ⊆ non_monotone_under_not c').
Proof.
  unfold check_node. intros Hrun Hn.
  apply ST_bind_Ok in Hrun as (u1 & c1 & Hany & Hrun).
  apply ST_bind_Ok in Hrun as (u2 & c2 & Hneg & Hrun).
  assert (Hle2 : checks_le c2 c').
  { destruct item.2; try (injection Hrun as _ <-; done). by eapply grows_check_cond. }
  assert (Hn1 : no_errors (issues c1)).
  { eapply no_errors_le; [|by eapply no_errors_le]. by eapply grows_collect. }
  apply when_error in Hany; [|done]. split_and!.
  - intros E. by rewrite E in Hany.
  - intros kind fields E. rewrite E in Hrun. by eapply check_cond_clean.
  - intros child E. rewrite E in Hneg. injection Hneg as _ <-. cbn in Hle2.
    destruct Hle2 as [_ Hle2]. cbn in Hle2. set_solver.
Qed.

(** *** The whole expression *)

(** The course edges of a leaf. *)
Definition course_reference (registry : ConditionRegistry) (e : Expr) (v : UUID) : Prop :=
  ∃ n q kind fields s p refs, below "" e n q (Cond kind fields) ∧
    registry !! kind = Some s ∧ model_validate (params_model s) fields = Some p ∧
    spec_references s p = Ok refs ∧ MkReference ref_course v ∈ refs.

Lemma leaf_edges_spec target registry node own :
  leaf_edges target registry node = Ok own → ∀ u v,
  (u, v) ∈ own ↔ u = target_id target ∧
    ∃ kind fields s p refs, node = Cond kind fields ∧
      registry !! kind = Some s ∧ model_validate (params_model s) fields = Some p ∧
      spec_references s p = Ok refs ∧ MkReference ref_course v ∈ refs.
Proof.
  assert (Hnil : ∀ (P : Prop) (u v : UUID), ¬ P →
    (u, v) ∈ ([] : list (UUID * UUID)) ↔ u = target_id target ∧ P).
  { intros P u v HP. rewrite elem_of_nil. tauto. }
  destruct node as [kind fields|cs|cs|c]; cbn [leaf_edges];
    try (intros [= <-] u v; apply Hnil; by intros (? & ? & ? & ? & ? & [=] & _)).
  unfold _parsed_params, registry_get.
  destruct (registry !! kind) as [s|] eqn:Hs.
  2: { intros [= <-] u v. apply Hnil. intros (? & ? & ? & ? & ? & [= <- <-] & ? & _). congruence. }
  destruct (model_validate (params_model s) fields) as [p|] eqn:Hp.
  2: { intros [= <-] u v. apply Hnil.
    intros (? & ? & ? & ? & ? & [= <- <-] & Hs' & ? & _). congruence. }
  destruct (spec_references s p) as [refs|] eqn:Hr; [|done].
  intros [= <-] u v. unfold reference_edges. rewrite list_elem_of_fmap.
  setoid_rewrite list_elem_of_filter. split.
  - intros ([k w] & [= -> ->] & Hk & Hin). cbn in Hk. subst k. split; [done|]. eauto 10.
  - intros (-> & ? & ? & s' & p' & refs' & [= <- <-] & Hs' & Hp' & Hr' & Hin).
    assert (s' = s) as -> by congruence. assert (p' = p) as -> by congruence.
    assert (refs' = refs) as -> by congruence. by exists (MkReference ref_course v).
Qed.

Lemma dependency_edges_spec target e registry own :
  target_kind target = course_access → dependency_edges target e registry = Ok own →
  ∀ u v, (u, v) ∈ own ↔ u = target_id target ∧ course_reference registry e v.
Proof.
  intros Hk. unfold dependency_edges. rewrite bool_decide_true by done. cbn [negb].
  intros (each & Heach & [= <-])%result_bind_Ok u v.
  apply map_result_Ok in Heach. rewrite list_elem_of_In, in_concat.
  setoid_rewrite <-list_elem_of_In. split.
  - intros (own & [i Hi]%list_elem_of_lookup & Hin).
    destruct (Forall2_lookup_r _ _ _ _ _ Heach Hi) as (item & Hq & Hown).
    destruct item as [q x].
    destruct (proj1 (leaf_edges_spec _ _ _ _ Hown u v) Hin)
      as (Hu & kind & fields & s & p & refs & Hx & Hrest).
    split; [done|]. cbn in Hx. subst x.
    apply list_elem_of_lookup_2, elem_of_walk in Hq as [n Hq].
    by exists n, q, kind, fields, s, p, refs.
  - intros (-> & n & q & kind & fields & s & p & refs & Hb & Hrest).
    assert ((q, Cond kind fields) ∈ walk e) as [i Hi]%list_elem_of_lookup
      by (apply elem_of_walk; eauto).
    destruct (Forall2_lookup_l _ _ _ _ _ Heach Hi) as (own & Hown & Hl).
    exists own. split; [by eapply list_elem_of_lookup_2|].
    apply (leaf_edges_spec _ _ _ _ Hl). split; [done|]. eauto 10.
Qed.

Lemma all_edges_spec own : ∀ extra u v,
  edge (all_edges extra own) u v ↔ edge extra u v ∨ (u, v) ∈ own.
Proof.
  unfold all_edges. induction own as [|[x y] own IH]; intros extra u v; cbn [foldl].
  { rewrite elem_of_nil. tauto. }
  rewrite IH, elem_of_cons. unfold edge. cbn [fst snd].
  destruct (decide (u = x)) as [->|Hne].
  - rewrite lookup_insert_eq. cbn. rewrite elem_of_union, elem_of_singleton. naive_solver.
  - rewrite lookup_insert_ne by done. naive_solver.
Qed.

(** No leaf below a negation may stop being satisfied. *)
Lemma negated_leaves_empty registry path child :
  negated_leaves registry path child = ∅ →
  ∀ n q kind fields s, below "" child n q (Cond kind fields) → registry !! kind = Some s →
    monotone s = true.
Proof.
  intros Hempty n q kind fields s Hb Hs. destruct (monotone s) eqn:Hm; [done|exfalso].
  assert (_join path "not" q ∈ negated_leaves registry path child) as Hin;
    [|rewrite Hempty in Hin; set_solver].
  apply elem_of_list_to_set, list_elem_of_fmap. exists (q, Cond kind fields).
  split; [done|]. apply list_elem_of_filter. split; [|apply elem_of_walk; eauto].
  cbn. unfold registry_get. by rewrite Hs, Hm.
Qed.

Lemma sorted_strings_empty (s : gset string) :
  (sort_keys ((λ k, (k, tt)) <$> elements s)).*1 = [] → s = ∅.
Proof.
  assert (Hlen : ∀ (kv : string * unit) l, insert_key kv l ≠ []).
  { intros kv [|kv' l]; cbn [insert_key]; [done|]. by case_match. }
  intros Hs%fmap_nil_inv. unfold sort_keys in Hs.
  destruct (elements s) as [|x xs] eqn:E; [|by apply Hlen in Hs].
  apply elements_empty_inv in E. by apply leibniz_equiv.
Qed.

Lemma for_each_error_nil {A} (l : list A) code path msg c u c' :
  for_each (λ x, add sev_error code (path x) (msg x)) l c = (Ok u, c') →
  no_errors (issues c') → l = [].
Proof.
  destruct l as [|x l]; [done|]. intros Hrun Hn. exfalso.
  eapply for_each_run in Hrun as (c1 & c2 & Hadd & Hle); [|intros; apply grows_add|by left].
  cbn beta in Hadd. apply (when_error true) in Hadd; [done|]. by eapply no_errors_le.
Qed.

Record validated (e : Expr) (registry : ConditionRegistry) (target : Target)
    (catalog : ReferenceCatalog) (now : datetime) (extra : Edges) (cb : bool) : Prop := {
  validated_nodes : length (walk e) ≤ MAX_NODES;
  validated_depth q x : (q, x) ∈ walk e → path_depth q ≤ MAX_DEPTH;
  validated_any q x : (q, x) ∈ walk e → x ≠ Any [];
  validated_leaf q kind fields : (q, Cond kind fields) ∈ walk e →
    ∃ s p refs, leaf_ok registry target catalog now cb kind fields s p refs;
  validated_negated q child : (q, Not child) ∈ walk e →
    ∀ n q' kind fields s, below "" child n q' (Cond kind fields) →
      registry !! kind = Some s → monotone s = true;
  validated_cycle : target_kind target = course_access →
    ∃ own res, dependency_edges target e registry = Ok own ∧
      _cycle_through (target_id target) (all_edges extra own) = Ok res ∧
      ∀ c, res = Some c → length c ≤ 1;
}.

Lemma validate_validated e registry target catalog now extra cb l :
  validate e registry target catalog now extra cb = Ok l → no_errors l →
  validated e registry target catalog now (default ∅ extra) cb.
Proof.
  unfold validate. destruct (validate_checks _ _ _ _ _ _ _ _) as [[u|] c7] eqn:Hrun; [|done].
  intros [= <-] Hn7. unfold validate_checks in Hrun.
  apply ST_bind_Ok in Hrun as (u1 & c1 & Hnodes & Hrun).
  apply ST_bind_Ok in Hrun as (u2 & c2 & Hdepth & Hrun).
  apply ST_bind_Ok in Hrun as (u3 & c3 & Heach & Hrun).
  apply ST_bind_Ok in Hrun as (negated & c3' & Hgets & Hrun).
  apply gets_run in Hgets as [[= ->] <-].
  apply ST_bind_Ok in Hrun as (u4 & c4 & Hneg & Hrun).
  apply ST_bind_Ok in Hrun as (u5 & c5 & Hconst & Hrun).
  apply ST_bind_Ok in Hrun as (own & c6 & Hown & Hcyc).
  apply lift_run in Hown as [Hown <-].
  assert (Hn5 : no_errors (issues c5)).
  { eapply no_errors_le; [|done]. by eapply grows_check_cycle. }
  assert (Hn4 : no_errors (issues c4)).
  { eapply no_errors_le; [|done].
    destruct (_constant e); [by eapply grows_add|by eapply grows_ret]. }
  assert (Hn3 : no_errors (issues c3)).
  { eapply no_errors_le; [|done]. eapply grows_for_each, Hneg. intros. apply grows_add. }
  assert (Hgn : ∀ item, grows (check_node registry target catalog now cb item))
    by (intros; apply grows_check_node).
  assert (Hn2 : no_errors (issues c2)).
  { eapply no_errors_le; [|done]. by eapply grows_for_each. }
  assert (Hn1 : no_errors (issues c1)).
  { eapply no_errors_le; [|done]. by eapply grows_check_depth. }
  apply for_each_error_nil in Hneg; [|done]. apply sorted_strings_empty in Hneg.
  assert (Hitem : ∀ item, item ∈ walk e → ∃ cb1, checks_le cb1 c3 ∧ item.2 ≠ Any [] ∧
    (∀ kind fields, item.2 = Cond kind fields →
      ∃ s p refs, leaf_ok registry target catalog now cb kind fields s p refs) ∧
    (∀ child, item.2 = Not child →
      negated_leaves registry item.1 child ⊆ non_monotone_under_not cb1)).
  { intros item Hin. destruct (for_each_run _ _ _ _ _ Hgn Heach item Hin) as (ca & cb1 & Hrun & Hle).
    exists cb1. split; [done|]. eapply check_node_clean; [done|]. by eapply no_errors_le. }
  split.
  - apply when_error in Hnodes; [|done]. by apply Nat.ltb_ge in Hnodes.
  - by eapply check_depth_clean.
  - intros q x Hin. by destruct (Hitem _ Hin) as (? & ? & ? & _).
  - intros q kind fields Hin. destruct (Hitem _ Hin) as (? & ? & _ & Hl & _). by eapply Hl.
  - intros q child Hin. destruct (Hitem _ Hin) as (cb1 & [_ Hle] & _ & _ & Hc).
    apply (negated_leaves_empty registry q). specialize (Hc child eq_refl). cbn in Hc.
    rewrite Hneg in Hle. set_solver.
  - intros Hk. unfold check_cycle in Hcyc. rewrite bool_decide_true in Hcyc by done.
    apply ST_bind_Ok in Hcyc as (res & c8 & Hres & Hcyc). apply lift_run in Hres as [Hres <-].
    exists own, res. split_and!; [done|done|]. intros c ->.
    apply when_error in Hcyc; [|done]. by apply Nat.ltb_ge in Hcyc.
Qed.
End clean.
