(* ===== verification/LearnLegacyRule.v ===== *)
(** * The compiled course access rule

    Evaluating the expression [compile_course_access] builds and mapping the
    result back gives the state of the rule it was compiled from. *)

From S2P Require Import Prelude PyData PyTime LearnExpression LearnConditions.
From S2P Require Import LearnEvaluate LearnValidate LearnLegacy LearnSyntax.
From S2P Require Import LearnSemantics LearnRules LearnFacts.
From stdpp Require Import base gmap strings pretty list.
From Stdlib Require Import ZArith NArith Ascii.

(** ** The rule over the routes *)

Definition route_blocks (completed : gset UUID) (route : Route) : bool :=
  bool_decide (is_Some (route_blocker completed route)).

Lemma route_blocks_false completed route :
  route_blocks completed route = false ↔ route_blocker completed route = None.
Proof. unfold route_blocks. by rewrite bool_decide_eq_false, <-eq_None_not_Some. Qed.

Lemma fold_routes completed routes :
  routes ≠ [] →
  foldl (route_state completed) None routes =
    Some (if forallb (route_blocks completed) routes
          then last routes ≫= route_blocker completed else None).
Proof.
  induction routes as [|r routes IH] using rev_ind; [done|intros _].
  rewrite foldl_app, forallb_app, last_snoc. cbn [foldl forallb].
  rewrite andb_true_r. destruct routes as [|r0 routes]; cbn [foldl forallb andb].
  { cbn. f_equal. destruct (route_blocks completed r) eqn:Hb; [done|].
    by apply route_blocks_false. }
  specialize (IH ltac:(done)). cbn [foldl forallb] in IH. rewrite IH.
  destruct (route_blocks completed r0 && forallb (route_blocks completed) routes) eqn:Hall;
    cbn [andb]; [|done].
  assert (Hl : ∃ p, last (r0 :: routes) ≫= route_blocker completed = Some p).
  { destruct (last (r0 :: routes)) as [rl|] eqn:Hl; [|by apply last_None in Hl].
    cbn. assert (route_blocks completed rl = true) as Hb.
    { assert (forallb (route_blocks completed) (r0 :: routes) = true) as Hf by exact Hall.
      apply forallb_Forall in Hf. rewrite Forall_forall in Hf.
      apply Hf. by apply last_Some_elem_of. }
    apply bool_decide_eq_true in Hb as [p Hp]. eauto. }
  destruct Hl as [p ->]. cbn. f_equal.
  destruct (route_blocks completed r) eqn:Hb; [done|]. by apply route_blocks_false.
Qed.

(** What the condition of a route answers: another route of the same track may
    be open. *)
Definition route_passes (completed : gset UUID) (routes : list Route) (route : Route) : bool :=
  match track_id route, predecessor_course_id route with
  | Some track, Some _ =>
      existsb (route_open completed) (filter (λ r, track_id r = Some track) routes)
  | _, _ => true
  end.

Lemma route_open_unblocked completed route t :
  track_id route = Some t → route_open completed route = negb (route_blocks completed route).
Proof.
  intros Ht. unfold route_open, route_blocks, route_blocker. rewrite Ht.
  destruct (predecessor_course_id route) as [p|]; [|done].
  destruct (decide (p ∈ completed)) as [Hp|Hp].
  - rewrite bool_decide_true by done. by rewrite bool_decide_false by (by intros [? [=]]).
  - rewrite bool_decide_false by done. by rewrite bool_decide_true by eauto.
Qed.

Lemma any_route_passes completed routes :
  existsb (route_passes completed routes) routes =
    negb (forallb (route_blocks completed) routes).
Proof.
  apply eq_true_iff_eq. rewrite negb_true_iff, <-not_true_iff_false, forallb_Forall,
    existsb_true. split.
  - intros (r & Hr & Hp) Hall. rewrite Forall_forall in Hall. pose proof (Hall r Hr) as Hb.
    unfold route_passes in Hp.
    destruct (track_id r) as [t|] eqn:Ht, (predecessor_course_id r) as [p|] eqn:Hpr;
      try (unfold route_blocks, route_blocker in Hb; rewrite Ht, ?Hpr in Hb; done).
    apply existsb_true in Hp as (r' & [Ht' Hr']%list_elem_of_filter & Ho).
    rewrite (route_open_unblocked _ _ t Ht'), (Hall r' Hr') in Ho. done.
  - intros Hn. apply not_Forall_Exists in Hn; [|apply _].
    apply Exists_exists in Hn as (r & Hr & Hb). apply not_true_is_false in Hb.
    exists r. split; [done|]. unfold route_passes.
    destruct (track_id r) as [t|] eqn:Ht; [|done].
    destruct (predecessor_course_id r) as [p|]; [|done].
    apply existsb_true. exists r. split; [by apply list_elem_of_filter|].
    by rewrite (route_open_unblocked _ _ t Ht), Hb.
Qed.

(** ** The compiled expression *)

Section compiled.
Context `{P : Pydantic} `{!PydanticLaws P}.
Context (registry : ConditionRegistry) (Hreg : default_registry = Ok registry).
Context (facts : LearnerFacts) (course : UUID) (routes : list Route).
Context (Hroutes : routes_by_course facts !! course = Some routes).
Let target := MkTarget course_access course.
Let completed := completed_course_ids facts.

(** A child with a decided result. *)
Definition decides (item : string * Expr) (b : bool) (r : NodeResult) : Prop :=
  _eval item.2 item.1 facts registry target = Ok r ∧ nr_passed r = b ∧ nr_indeterminate r = false.

Lemma builtin_lookup s : s ∈ BUILTIN_CONDITIONS → registry !! spec_kind s = Some s.
Proof. intros Hs. by apply (from_specs_lookup _ _ _ _ Hreg). Qed.

Lemma eval_spec s fields p path leaf :
  s ∈ BUILTIN_CONDITIONS → target_kind target ∈ spec_targets s →
  model_validate (params_model s) fields = Some p →
  spec_evaluate s p (MkLeafContext facts target path) = Ok leaf →
  leaf_indeterminate leaf = false →
  ∃ r, decides (path, Cond (spec_kind s) fields) (leaf_passed leaf) r.
Proof.
  intros Hs Ht Hp Hl Hi. unfold decides. cbn [fst snd _eval]. unfold _eval_cond, registry_require.
  rewrite (builtin_lookup s Hs). cbn. rewrite bool_decide_true by done. cbn.
  rewrite Hp, Hl. cbn. destruct (leaf_passed leaf); eexists; split_and!; done.
Qed.

Lemma prerequisite_decides path required :
  ∃ r, decides (path, Cond "course_completed" [("course_id", JStr (str_uuid required))])
         (bool_decide (required ∈ completed)) r.
Proof.
  destruct (eval_spec (MkConditionSpec "course_completed" CourseModel ALL_TARGETS _course_refs
    true _course_completed) [("course_id", JStr (str_uuid required))] (CourseParams required)
    path _ ltac:(unfold BUILTIN_CONDITIONS; set_solver) ltac:(cbn; set_solver)
    (validate_course required) eq_refl) as [r Hr]; [by case_bool_decide|].
  exists r. revert Hr. cbn. subst completed. by case_bool_decide.
Qed.

Lemma route_decides path route :
  route ∈ routes → ∃ r, decides (path, _route_expr route) (route_passes completed routes route) r.
Proof.
  intros Hin. unfold _route_expr, route_passes.
  destruct (track_id route) as [t|] eqn:Ht; [|by eexists].
  destruct (predecessor_course_id route) as [p|] eqn:Hp; [|by eexists].
  destruct (eval_spec (MkConditionSpec "track_position" TrackPositionModel [course_access]
    _no_refs true _track_position) [("track_id", JStr (str_uuid t))] (TrackPositionParams t)
    path (track_loop completed [("track_id", JStr (str_uuid t))] None
      (filter (λ r, track_id r = Some t) routes))
    ltac:(unfold BUILTIN_CONDITIONS; set_solver) ltac:(cbn; set_solver) (validate_track t))
    as [r Hr].
  - cbn. unfold target. cbn. rewrite Hroutes.
    assert (route ∈ filter (λ r, track_id r = Some t) routes) as Hf
      by (by apply list_elem_of_filter).
    destruct (filter _ routes); [by inversion Hf|done].
  - generalize (filter (λ r, track_id r = Some t) routes) as l, (@None UUID). intros l.
    induction l as [|x l IH]; intros o; [done|]. cbn [track_loop].
    destruct (predecessor_course_id x); [|done]. case_bool_decide; [done|apply IH].
  - exists r. by rewrite track_loop_passed in Hr.
Qed.

(** Children with decided results. *)
Lemma eval_nodes_decides (nodes : list (string * Expr)) (f : Expr → bool) :
  (∀ q x, (q, x) ∈ nodes → ∃ r, decides (q, x) (f x) r) →
  ∃ rs, eval_nodes facts registry target nodes = Ok rs ∧
    Forall2 (λ item r, nr_passed r = f item.2 ∧ nr_indeterminate r = false) nodes rs.
Proof.
  intros Hn. induction nodes as [|[q x] nodes IH].
  { exists []. by split; [|constructor]. }
  destruct (Hn q x ltac:(by left)) as (r & Hr & Hp & Hi).
  destruct IH as (rs & Hrs & Hall); [intros; apply Hn; by right|].
  exists (r :: rs). split; [|by constructor].
  unfold eval_nodes in *. cbn [map_result fst snd] in *. by rewrite Hr, Hrs.
Qed.

Lemma decided_all path (rs : list NodeResult) :
  Forall (λ r, nr_indeterminate r = false) rs →
  nr_passed (eval_all path rs) = forallb nr_passed rs ∧
  nr_indeterminate (eval_all path rs) = false ∧ nr_children (eval_all path rs) = rs.
Proof.
  intros Hi. unfold eval_all, group_unknown.
  assert (existsb nr_indeterminate rs = false) as ->.
  { apply existsb_false. by rewrite Forall_forall in Hi. }
  assert (existsb (λ c, negb (nr_passed c) && negb (nr_indeterminate c)) rs
    = negb (forallb nr_passed rs)) as ->.
  { clear -Hi. induction Hi as [|r rs Hr _ IH]; [done|]. cbn. rewrite IH, Hr.
    by destruct (nr_passed r). }
  by destruct (forallb nr_passed rs).
Qed.

Lemma decided_any path (rs : list NodeResult) :
  Forall (λ r, nr_indeterminate r = false) rs →
  nr_passed (eval_any path rs) = existsb nr_passed rs ∧
  nr_indeterminate (eval_any path rs) = false.
Proof.
  intros Hi. unfold eval_any, group_unknown. destruct rs as [|r rs]; [done|].
  assert (existsb nr_indeterminate (r :: rs) = false) as ->.
  { apply existsb_false. by rewrite Forall_forall in Hi. }
  by destruct (existsb nr_passed (r :: rs)).
Qed.

Lemma Forall2_passed (nodes : list (string * Expr)) rs (f : Expr → bool) :
  Forall2 (λ item r, nr_passed r = f item.2 ∧ nr_indeterminate r = false) nodes rs →
  Forall (λ r, nr_indeterminate r = false) rs ∧ map nr_passed rs = map (λ item, f item.2) nodes.
Proof.
  induction 1 as [|item r nodes rs [Hp Hi] _ [IHi IHp]]; [by split; constructor|].
  split; [by constructor|]. cbn. by rewrite Hp, IHp.
Qed.

(** The two groups of the compiled expression. *)
Lemma forallb_map {A B} (f : A → B) (p : B → bool) l : forallb p (map f l) = forallb (λ x, p (f x)) l.
Proof. induction l as [|x l IH]; [done|]. cbn. by rewrite IH. Qed.
Lemma existsb_map {A B} (f : A → B) (p : B → bool) l : existsb p (map f l) = existsb (λ x, p (f x)) l.
Proof. induction l as [|x l IH]; [done|]. cbn. by rewrite IH. Qed.

(** The decision on a child made from a source element. *)
Lemma eval_group {A} (mk : A → Expr) (g : A → bool) (xs : list A) path e :
  node_children e = map mk xs →
  (∀ q x, x ∈ xs → ∃ r, decides (q, mk x) (g x) r) →
  ∃ rs, eval_nodes facts registry target (child_nodes path e) = Ok rs ∧
    Forall (λ r, nr_indeterminate r = false) rs ∧ map nr_passed rs = map g xs.
Proof.
  unfold child_nodes. intros -> Hg.
  assert (Hf : ∀ f : nat → Expr → string * Expr, (∀ i c, (f i c).2 = c) →
    ∃ rs, eval_nodes facts registry target (imap f (map mk xs)) = Ok rs ∧
      Forall (λ r, nr_indeterminate r = false) rs ∧ map nr_passed rs = map g xs);
    [|by apply Hf].
  induction xs as [|x xs IH]; intros f Hf; [by exists []|].
  destruct (Hg (f 0 (mk x)).1 x ltac:(by left)) as (r & Hr & Hp & Hi).
  destruct (IH ltac:(intros; apply Hg; by right) (f ∘ S)) as (rs & Hrs & Hind & Hmap).
  { intros i c. apply Hf. }
  exists (r :: rs). cbn [map]. rewrite Hmap, Hp. split_and!; [|by constructor|done].
  cbn [imap]. unfold eval_nodes in *. cbn [map_result]. cbn [fst snd] in Hr.
  rewrite Hf, Hr. cbn. by rewrite Hrs.
Qed.

Lemma evaluate_compiled prerequisite_ids :
  routes ≠ [] →
  ∃ e res route_group prerequisite_group,
    compile_course_access course routes prerequisite_ids = Ok e ∧
    evaluate e facts registry target = Ok res ∧
    nr_children (er_root res) = [route_group; prerequisite_group] ∧
    er_passed res = nr_passed route_group && nr_passed prerequisite_group ∧
    nr_passed route_group = negb (forallb (route_blocks completed) routes) ∧
    map nr_passed (nr_children prerequisite_group)
      = map (λ u, bool_decide (u ∈ completed)) prerequisite_ids ∧
    nr_passed prerequisite_group = forallb (λ u, bool_decide (u ∈ completed)) prerequisite_ids.
Proof.
  intros Hne.
  set (mk := λ required : UUID,
    Cond "course_completed" [("course_id", JStr (str_uuid required))]).
  set (anys := Any (map _route_expr routes)). set (alls := All (map mk prerequisite_ids)).
  destruct (eval_group _route_expr (route_passes completed routes) routes "all/0" anys)
    as (rs & Hrs & Hri & Hrp); [done|intros; by apply route_decides|].
  destruct (eval_group mk (λ u, bool_decide (u ∈ completed)) prerequisite_ids "all/1" alls)
    as (ps & Hps & Hpi & Hpp); [done|intros; apply prerequisite_decides|].
  destruct (decided_any "all/0" rs Hri) as [Hap Hai].
  destruct (decided_all "all/1" ps Hpi) as (Hlp & Hli & Hlc).
  exists (All [anys; alls]). destruct (decided_all "" [eval_any "all/0" rs; eval_all "all/1" ps])
    as (Hp & Hi & Hc); [by repeat constructor|].
  assert (He : _eval (All [anys; alls]) "" facts registry target
    = Ok (eval_all "" [eval_any "all/0" rs; eval_all "all/1" ps])).
  { rewrite eval_unfold by done. unfold eval_nodes.
    change (child_nodes "" (All [anys; alls])) with [("all/0", anys); ("all/1", alls)].
    cbn [map_result fst snd]. rewrite (eval_unfold facts registry target "all/0" anys),
      (eval_unfold facts registry target "all/1" alls), Hrs, Hps by done. done. }
  eexists _, (eval_any "all/0" rs), (eval_all "all/1" ps). split; [by destruct routes|].
  split; [unfold evaluate; by rewrite He|]. cbn [er_root er_passed].
  rewrite Hp, Hc, Hap, Hlp, Hlc. cbn [forallb]. rewrite andb_true_r.
  assert (Hany : existsb nr_passed rs = negb (forallb (route_blocks completed) routes)).
  { rewrite <-any_route_passes, <-(existsb_map nr_passed id), Hrp.
    by rewrite (existsb_map (route_passes completed routes) id). }
  assert (Hall : forallb nr_passed ps = forallb (λ u, bool_decide (u ∈ completed)) prerequisite_ids).
  { rewrite <-(forallb_map nr_passed id), Hpp. by rewrite (forallb_map _ id). }
  rewrite Hlp, Hall, Hap, Hany. split_and!; done.
Qed.

(** The loop over the prerequisites finds the first not completed. *)
Lemma prerequisite_loop_spec titles ids nodes :
  map nr_passed nodes = map (λ u, bool_decide (u ∈ completed)) ids →
  prerequisite_loop course titles ids nodes =
    match filter (λ u, u ∉ completed) ids with
    | u :: _ => Ok (locked_on course u titles PREREQUISITE_FALLBACK)
    | [] => Raise (ValueError "evaluation failed but no prerequisite is unmet")
    end.
Proof.
  revert nodes. induction ids as [|u ids IH]; intros [|r nodes]; cbn [map]; try done.
  intros [= Hr Hmap]. cbn [prerequisite_loop]. rewrite Hr.
  case_bool_decide as Hu; cbn [negb].
  - rewrite filter_cons_False by (by intros ?). by apply IH.
  - by rewrite filter_cons_True.
Qed.

Lemma filter_incomplete ids :
  forallb (λ u, bool_decide (u ∈ completed)) ids = true ↔ filter (λ u, u ∉ completed) ids = [].
Proof.
  induction ids as [|u ids IH]; [done|]. cbn [forallb]. case_bool_decide as Hu; cbn [andb].
  - by rewrite filter_cons_False by (by intros ?).
  - by rewrite filter_cons_True.
Qed.

Lemma to_state_compiled prerequisite_ids titles :
  routes ≠ [] →
  ∃ e res,
    compile_course_access course routes prerequisite_ids = Ok e ∧
    evaluate e facts registry target = Ok res ∧
    to_course_access_state course res routes prerequisite_ids titles =
      Ok (legacy_access course routes prerequisite_ids titles completed).
Proof.
  intros Hne.
  destruct (evaluate_compiled prerequisite_ids Hne)
    as (e & res & rg & pg & He & Hr & Hch & Hp & Hrg & Hmap & Hpg).
  exists e, res. split_and!; [done|done|].
  unfold to_course_access_state, legacy_access. rewrite fold_routes by done.
  rewrite Hp, Hch, Hrg, Hpg. destruct (forallb (route_blocks completed) routes) eqn:Hb; cbn [negb andb].
  - destruct (last routes) as [rl|] eqn:Hl; [|by apply last_None in Hl].
    assert (route_blocks completed rl = true) as Hrl.
    { apply forallb_Forall in Hb. rewrite Forall_forall in Hb.
      apply Hb. by apply last_Some_elem_of. }
    apply bool_decide_eq_true in Hrl as [p Hrl]. cbn. rewrite Hrl.
    unfold route_blocker in Hrl. destruct (track_id rl), (predecessor_course_id rl); try done.
    destruct (decide _); [done|]. by injection Hrl as ->.
  - destruct (forallb (λ u, bool_decide (u ∈ completed)) prerequisite_ids) eqn:Ha.
    + by apply filter_incomplete in Ha as ->.
    + rewrite prerequisite_loop_spec by done.
      destruct (filter _ prerequisite_ids) eqn:Hf; [|done].
      apply filter_incomplete in Hf. congruence.
Qed.
End compiled.

(** A course is locked exactly when some prerequisite is unmet. *)
Lemma legacy_unmet_iff course routes prerequisite_ids titles completed :
  let state := legacy_access course routes prerequisite_ids titles completed in
  legacy_unmet_prerequisites state prerequisite_ids completed = [] ↔ locked state = false.
Proof.
  intros state. subst state. unfold legacy_unmet_prerequisites, legacy_access.
  destruct (foldl (route_state completed) None routes) as [[p|]|] eqn:Hf; cbn [locked locked_on].
  - split; [|done]. intros Hnil. exfalso.
    assert (p ∉ completed) as Hp.
    { destruct (decide (routes = [])) as [->|Hne]; [done|].
      rewrite fold_routes in Hf by done. injection Hf as Hf.
      destruct (forallb _ _); [|done]. destruct (last routes) as [r|]; [|done].
      cbn in Hf. unfold route_blocker in Hf.
      destruct (track_id r), (predecessor_course_id r); try done.
      destruct (decide _); [done|]. by injection Hf as <-. }
    cbn in Hnil. rewrite filter_app, filter_cons_True in Hnil by done.
    by apply app_eq_nil in Hnil as [_ ?].
  - destruct (filter (λ u, u ∉ completed) prerequisite_ids) as [|u us] eqn:Hfi; cbn; [done|].
    split; [|done]. rewrite filter_app, Hfi. done.
  - destruct (filter (λ u, u ∉ completed) prerequisite_ids) as [|u us] eqn:Hfi; cbn; [done|].
    split; [|done]. rewrite filter_app, Hfi. done.
Qed.
