(* ===== verification/LearnExample.v ===== *)
(** * Concrete learners and expressions

    A pydantic that reads the parameters of the built-in conditions and keeps
    the laws, and the learner, courses and expressions the witnesses use. *)

From S2P Require Import Prelude PyData PyTime LearnExpression LearnConditions.
From S2P Require Import LearnEvaluate LearnValidate LearnSyntax LearnFacts.
From stdpp Require Import base gmap strings pretty list.
From Stdlib Require Import ZArith NArith Ascii SpecFloat.

(** ** Reading a UUID *)

Definition hex_val (c : ascii) : option N :=
  let n := N_of_ascii c in
  if ((48 <=? n) && (n <=? 57))%N then Some (n - 48)%N
  else if ((97 <=? n) && (n <=? 102))%N then Some (n - 87)%N else None.

Fixpoint hex_number (acc : N) (s : string) : option N :=
  match s with
  | EmptyString => Some acc
  | String c s => d ← hex_val c; hex_number (16 * acc + d) s
  end.

Definition uuid_of_str (s : string) : option UUID :=
  n ← hex_number 0 (drop_char "-" s); uuid_of_N n.

Lemma hex_val_char n : (n < 16)%N → hex_val (hex_char n) = Some n.
Proof.
  intros Hn. unfold hex_val, hex_char.
  destruct (N.ltb_spec n 10).
  - rewrite N_ascii_embedding by lia.
    rewrite (proj2 (N.leb_le _ _)), (proj2 (N.leb_le _ _)) by lia. cbn [andb]. f_equal. lia.
  - rewrite N_ascii_embedding by lia.
    rewrite (proj2 (N.leb_le 48 _)), (proj2 (N.leb_gt _ 57)) by lia. cbn [andb].
    rewrite (proj2 (N.leb_le _ _)), (proj2 (N.leb_le _ _)) by lia. cbn [andb]. f_equal. lia.
Qed.

Lemma hex_number_app acc a b :
  hex_number acc (a +:+ b) = hex_number acc a ≫= λ m, hex_number m b.
Proof.
  revert acc. induction a as [|c a IH]; intros acc; [done|].
  rewrite string_app_cons. cbn [hex_number]. destruct (hex_val c); [|done]. apply IH.
Qed.

Lemma hex_number_digits w n : (n < 16 ^ N.of_nat w)%N → hex_number 0 (hex_digits w n) = Some n.
Proof.
  revert n. induction w as [|w IH]; intros n Hn.
  { cbn in Hn. by replace n with 0%N by lia. }
  cbn [hex_digits]. rewrite hex_number_app, IH.
  - cbn [mbind option_bind hex_number].
    assert (Hm : (n mod 16 < 16)%N) by (apply N.mod_lt; lia).
    rewrite hex_val_char by done. cbn. f_equal.
    pose proof (N.div_mod n 16 ltac:(lia)). lia.
  - apply N.Div0.div_lt_upper_bound. rewrite Nat2N.inj_succ, N.pow_succ_r' in Hn. lia.
Qed.

Lemma uuid_of_str_uuid u : uuid_of_str (str_uuid u) = Some u.
Proof.
  unfold uuid_of_str. rewrite drop_dash_str_uuid, hex_number_digits.
  - cbn. unfold uuid_of_N. destruct (decide _) as [H|H]; [by apply (f_equal Some), UUID_eq|].
    by destruct u.
  - pose proof (uuid_bound u) as Hb. apply N.ltb_lt in Hb. exact Hb.
Qed.

(** ** A pydantic *)

Definition example_validate (m : ParamsModel) (fields : list (string * json)) :
    option BaseModel :=
  match m, fields with
  | CourseModel, [("course_id", JStr s)] => CourseParams <$> uuid_of_str s
  | TrackPositionModel, [("track_id", JStr s)] => TrackPositionParams <$> uuid_of_str s
  | MinimumScoreModel, [("subject", JStr subject); ("ref_id", JStr s); ("min_pct", JInt n)] =>
      subject ← (if String.eqb subject "activity" then Some subject_activity
                 else if String.eqb subject "course_final" then Some subject_course_final
                 else if String.eqb subject "course_grade" then Some subject_course_grade
                 else None);
      u ← uuid_of_str s;
      if ((1 <=? n) && (n <=? 100))%Z then Some (MinimumScoreParams subject u n) else None
  | AttemptsAtLeastModel, [("activity_id", JStr s); ("n", JInt n)] =>
      u ← uuid_of_str s; if (1 <=? n)%Z then Some (AttemptsAtLeastParams u n) else None
  | EnrolledBeforeModel, [("at", JInt seconds)] =>
      Some (EnrolledBeforeParams (utc_of (seconds * us_per_second)))
  | ManualApprovalModel, [("approver_permission", JStr s)] =>
      if str_truthy s then Some (ManualApprovalParams s) else None
  | ProductModel model, fields => Some (ProductParams model fields)
  | _, _ => None
  end.

Definition example_pydantic : Pydantic := {| model_validate := example_validate |}.

Ltac split_validate H :=
  repeat match type of H with
  | context [match ?x with _ => _ end] => destruct x eqn:?; try discriminate H
  end.

Lemma example_pydantic_laws : PydanticLaws example_pydantic.
Proof.
  split; cbn [model_validate example_pydantic].
  - intros m fields v H. unfold example_validate, mbind, option_bind, fmap, option_fmap,
      option_map in H. split_validate H; by injection H as <-.
  - intros m fields v H. unfold example_validate, mbind, option_bind, fmap, option_fmap,
      option_map in H. split_validate H; injection H as <-; cbn; bool_to_prop; done.
  - intros u. cbn [example_validate]. by rewrite uuid_of_str_uuid.
  - intros u. cbn [example_validate]. by rewrite uuid_of_str_uuid.
Qed.

(** ** A learner *)

Definition uid (n : N) : UUID :=
  match uuid_of_N n with Some u => u | None => MkUUID 0 eq_refl end.

Definition algebra : UUID := uid 1.
Definition geometry : UUID := uid 2.
Definition topology : UUID := uid 3.
Definition quiz : UUID := uid 10.
Definition track : UUID := uid 20.
Definition noon : datetime := utc_of 1792488000000000.

(** One half, three quarters. *)
Definition one_half : spec_float := S754_finite false 4503599627370496 (-53).
Definition three_quarters : spec_float := S754_finite false 6755399441055744 (-53).

Definition learner (completed : gset UUID) (scores : gmap UUID spec_float) : LearnerFacts :=
  {| facts_tenant_id := uid 100; facts_person_id := uid 101; facts_now := noon;
     completed_course_ids := completed; certificate_course_ids := ∅;
     best_fraction_by_activity := scores; course_final_fraction := ∅;
     course_grade_fraction := ∅; attempts_by_activity := ∅; enrolled_at_by_target := ∅;
     approvals := ∅;
     routes_by_course := {[ topology := [MkRoute (Some track) (Some geometry)] ]};
     product_facts := ∅ |}.

Lemma learner_aware completed scores : facts_aware (learner completed scores).
Proof. intros t d. cbn. by rewrite lookup_empty. Qed.

Definition to_topology : Target := MkTarget course_access topology.

Definition requires_course (u : UUID) : Expr :=
  Cond "course_completed" [("course_id", JStr (str_uuid u))].
Definition requires_score (u : UUID) (pct : Z) : Expr :=
  Cond "minimum_score" [("subject", JStr "activity"); ("ref_id", JStr (str_uuid u));
                        ("min_pct", JInt pct)].

(** [all(course(algebra), any(score(quiz, 70), not(course(geometry))))]. *)
Definition example_expr : Expr :=
  All [requires_course algebra; Any [requires_score quiz 70; Not (requires_course geometry)]].

(** The built-in registry. *)
Definition builtin_registry : ConditionRegistry :=
  match default_registry with Ok r => r | Raise _ => ∅ end.

Lemma builtin_registry_ok : default_registry = Ok builtin_registry.
Proof. reflexivity. Qed.

Definition open_catalog : ReferenceCatalog := {|
  course_exists _ := true; activity_exists _ := true;
  activity_max_attempts _ := None; activity_gradable _ := true
|}.

(** [all(course(algebra), any(score(quiz, 70), course(geometry)))]. *)
Definition positive_expr : Expr :=
  All [requires_course algebra; Any [requires_score quiz 70; requires_course geometry]].

(** [{"params": {"course_id": ...}, "cond": "course_completed"}] under [not]. *)
Definition example_document : json :=
  JObj [("not", JObj [("params", JObj [("course_id", JStr (str_uuid algebra))]);
                      ("cond", JStr "course_completed")])].

(** A decoder that refuses every text. *)
Definition no_text : JsonText := {| json_loads _ := Raise "Expecting value" |}.
