(* ===== verification/LearnTheorems.v ===== *)
(** * Properties of the requirements engine

    What parsing, evaluating and validating a requirement guarantee, each with an
    instance on the example learner. *)

From S2P Require Import Prelude PyData PyTime LearnExpression LearnConditions.
From S2P Require Import LearnEvaluate LearnValidate LearnLegacy LearnSyntax.
From S2P Require Import LearnSemantics LearnRules LearnFacts LearnCycles.
From S2P Require Import LearnFindCycles LearnValidation LearnLegacyRule LearnExample.
From stdpp Require Import base gmap strings pretty list.
From Stdlib Require Import ZArith NArith Ascii SpecFloat.

(** ** Evaluation *)

Section evaluation.
Context `{P : Pydantic}.

Lemma evaluate_Ok e facts registry target res :
  evaluate e facts registry target = Ok res →
  ∃ r, _eval e "" facts registry target = Ok r ∧
    res = MkEvaluationResult (nr_passed r) r (if negb (nr_passed r) then nr_reasons r else [])
            (_dedupe (nr_evidence r)) (nr_indeterminate r).
Proof. unfold evaluate. intros (r & Hr & [= <-])%result_bind_Ok. eauto. Qed.

Lemma evaluate_verdict e facts registry target res :
  evaluate e facts registry target = Ok res →
  let v := kleene (leaf_verdict facts registry target) "" e in
  er_passed res = bool_decide (v = Some true) ∧
  er_indeterminate res = bool_decide (v = None).
Proof.
  intros (r & Hr & ->)%evaluate_Ok v. apply eval_kleene in Hr as [Hv Hfc].
  cbn [er_passed er_indeterminate]. subst v. rewrite <-Hv. split.
  - destruct (nr_passed r) eqn:Hp; symmetry.
    + apply bool_decide_eq_true. by apply verdict_true.
    + apply bool_decide_eq_false. rewrite verdict_true by done. congruence.
  - destruct (nr_indeterminate r) eqn:Hi; symmetry.
    + apply bool_decide_eq_true. by apply verdict_none.
    + apply bool_decide_eq_false. rewrite verdict_none. congruence.
Qed.

Lemma evaluate_is_ok e facts registry target :
  is_ok (evaluate e facts registry target) = is_ok (_eval e "" facts registry target).
Proof. unfold evaluate. by destruct (_eval _ _ _ _ _). Qed.

(** C30. Evaluation computes Kleene's three-valued logic: when it returns, the
    result passes exactly when the expression is true, and is indeterminate
    exactly when it is unknown, under the verdicts of its own leaves — never
    both — and every leaf was evaluated; when it raises, some leaf of the
    expression raised that exception. *)
Theorem evaluate_is_kleene e facts registry target :
  match evaluate e facts registry target with
  | Ok res =>
      let v := kleene (leaf_verdict facts registry target) "" e in
      er_passed res = bool_decide (v = Some true) ∧
      er_indeterminate res = bool_decide (v = None) ∧
      ∀ n q kind fields, below "" e n q (Cond kind fields) →
        is_ok (_eval_cond kind fields q facts registry target) = true
  | Raise exc =>
      ∃ n q kind fields, below "" e n q (Cond kind fields) ∧
        _eval_cond kind fields q facts registry target = Raise exc
  end.
Proof.
  destruct (evaluate e facts registry target) as [res|exc] eqn:E.
  - destruct (evaluate_verdict _ _ _ _ _ E) as [Hp Hi]. split_and!; [done|done|].
    apply eval_ok_iff. by rewrite <-evaluate_is_ok, E.
  - unfold evaluate in E. apply result_bind_Raise in E as [E|(? & _ & [=])].
    by apply eval_raises in E.
Qed.

(** *** Facts that grow *)

Context `{!PydanticLaws P} (registry : ConditionRegistry) `{!ConditionLaws registry}.

(** A leaf that can be evaluated at all can be evaluated on any facts with
    aware instants. *)
Lemma leaf_ok_facts kind fields q facts facts' target :
  facts_aware facts' →
  is_ok (_eval_cond kind fields q facts registry target) = true →
  is_ok (_eval_cond kind fields q facts' registry target) = true.
Proof.
  intros Ha. unfold _eval_cond, registry_require.
  destruct (registry !! kind) as [s|] eqn:Hs; [|done]. cbn.
  destruct (negb _); [done|].
  destruct (model_validate _ _) as [p|] eqn:Hp; [|done]. intros _.
  destruct (law_total kind s Hs p (MkLeafContext facts' target q)) as [Hok _].
  - by eapply validate_type.
  - by eapply validate_valid.
  - done.
  - by destruct (spec_evaluate _ _ _).
Qed.

Lemma evaluate_ok_facts e facts facts' target :
  facts_aware facts' → is_ok (evaluate e facts registry target) = true →
  is_ok (evaluate e facts' registry target) = true.
Proof.
  intros Ha. rewrite !evaluate_is_ok, !eval_ok_iff. intros Hl n q kind fields Hb.
  by apply (leaf_ok_facts kind fields q facts), Hl with n.
Qed.

Lemma leaf_verdict_refines kind fields q facts facts' target :
  facts_extend facts facts' →
  is_ok (_eval_cond kind fields q facts registry target) = true →
  refines (leaf_verdict facts registry target q kind fields)
          (leaf_verdict facts' registry target q kind fields).
Proof.
  intros Hx Hok. unfold leaf_verdict, _eval_cond, registry_require in *.
  destruct (registry !! kind) as [s|] eqn:Hs; [|done]. cbn in *.
  destruct (negb _); [by left|].
  destruct (model_validate _ _) as [p|]; [|by left].
  destruct (spec_evaluate s p (MkLeafContext facts target q)) as [leaf|] eqn:Hl; [|done].
  destruct (decide (leaf_passed leaf = true ∨ leaf_indeterminate leaf = false)) as [Hd|Hd].
  - right. by rewrite (law_stable kind s Hs p facts facts' target q leaf Hx Hl Hd).
  - left. cbn. destruct (leaf_passed leaf); [tauto|]. cbn. unfold verdict_of. cbn.
    destruct (leaf_indeterminate leaf); tauto.
Qed.

(** Learning more never overturns a decision: where the facts only gain
    entries that were unknown (scores, attempts, enrollments, routes), an
    expression that was decided keeps its answer. *)
Theorem new_facts_keep_decisions e facts facts' target res :
  facts_extend facts facts' → facts_aware facts' →
  evaluate e facts registry target = Ok res → er_indeterminate res = false →
  ∃ res', evaluate e facts' registry target = Ok res' ∧
    er_passed res' = er_passed res ∧ er_indeterminate res' = false.
Proof.
  intros Hx Ha He Hi.
  assert (Hok : is_ok (evaluate e facts registry target) = true) by by rewrite He.
  pose proof (evaluate_ok_facts e facts facts' target Ha Hok) as Hok'.
  destruct (evaluate e facts' registry target) as [res'|] eqn:He'; [|done].
  exists res'. split; [done|].
  destruct (evaluate_verdict _ _ _ _ _ He) as [-> Hi1].
  destruct (evaluate_verdict _ _ _ _ _ He') as [-> ->].
  rewrite Hi in Hi1. symmetry in Hi1. apply bool_decide_eq_false in Hi1.
  destruct (kleene_refines (leaf_verdict facts registry target)
    (leaf_verdict facts' registry target) e "") as [?|<-]; [|done|].
  - intros n q kind fields Hb. apply leaf_verdict_refines; [done|].
    rewrite evaluate_is_ok, eval_ok_iff in Hok. by eapply Hok.
  - split; [done|]. by apply bool_decide_eq_false.
Qed.

(** C31. What a learner has earned stays earned: an expression without
    negations over kinds declared monotone, once passed, still passes after
    any progress (more completions, certificates and attempts, scores no
    lower, enrollments no later). *)
Theorem progress_keeps_passing e facts facts' target res :
  (∀ n q x, below "" e n q x →
    match x with
    | Not _ => False
    | Cond kind _ => ∀ s, registry !! kind = Some s → monotone s = true
    | _ => True
    end) →
  facts_progress facts facts' → facts_aware facts' →
  evaluate e facts registry target = Ok res → er_passed res = true →
  ∃ res', evaluate e facts' registry target = Ok res' ∧ er_passed res' = true.
Proof.
  intros Hpos Hx Ha He Hp.
  assert (Hok : is_ok (evaluate e facts registry target) = true) by by rewrite He.
  pose proof (evaluate_ok_facts e facts facts' target Ha Hok) as Hok'.
  destruct (evaluate e facts' registry target) as [res'|] eqn:He'; [|done].
  exists res'. split; [done|].
  destruct (evaluate_verdict _ _ _ _ _ He) as [Hv _].
  destruct (evaluate_verdict _ _ _ _ _ He') as [-> _].
  rewrite Hp in Hv. symmetry in Hv. apply bool_decide_eq_true in Hv.
  apply bool_decide_eq_true. revert Hv. apply kleene_keeps_passing.
  intros n q x Hb. specialize (Hpos n q x Hb). destruct x as [kind fields| | |]; try done.
  unfold keeps_passing, leaf_verdict, _eval_cond, registry_require.
  destruct (registry !! kind) as [s|] eqn:Hs; [|done]. cbn.
  destruct (negb _); [done|]. destruct (model_validate _ _) as [p|]; [|done].
  destruct (spec_evaluate s p (MkLeafContext facts target q)) as [leaf|] eqn:Hl; [|done]. cbn.
  destruct (leaf_passed leaf) eqn:Hlp; cbn; unfold verdict_of; cbn;
    [|by destruct (leaf_indeterminate leaf)].
  intros _. destruct (law_keeps_passing kind s Hs (Hpos s eq_refl) p facts facts' target q leaf
    Hx Hl Hlp) as (leaf' & -> & Hlp'). cbn. by rewrite Hlp'.
Qed.
End evaluation.

#[local] Existing Instance example_pydantic.
#[local] Existing Instance no_text.
#[local] Existing Instance example_pydantic_laws.

#[local] Instance builtin_registry_laws : ConditionLaws builtin_registry :=
  default_registry_laws builtin_registry builtin_registry_ok.

(** The quiz has no score yet; the expression is decided without it. A score
    below the threshold arrives. *)
Lemma new_facts_keep_decisions_witness :
  ∃ res', evaluate example_expr (learner {[algebra]} {[quiz := one_half]}) builtin_registry
      to_topology = Ok res' ∧ er_passed res' = true ∧ er_indeterminate res' = false.
Proof.
  assert (H : ∃ res, evaluate example_expr (learner {[algebra]} ∅) builtin_registry to_topology
      = Ok res ∧ er_passed res = true ∧ er_indeterminate res = false).
  { eexists. split; [vm_compute; reflexivity|]. split; vm_compute; reflexivity. }
  destruct H as (res & He & Hp & Hi).
  destruct (new_facts_keep_decisions builtin_registry example_expr (learner {[algebra]} ∅)
    (learner {[algebra]} {[quiz := one_half]}) to_topology res) as (res' & He' & Hp' & Hi').
  - split; try reflexivity; cbn; try done. apply map_empty_subseteq.
  - apply learner_aware.
  - exact He.
  - exact Hi.
  - exists res'. split; [exact He'|]. split; [congruence|exact Hi'].
Defined.

(** The learner completes another course, and no longer has the score alone. *)
Lemma progress_keeps_passing_witness :
  ∃ res', evaluate positive_expr (learner {[algebra; geometry]} {[quiz := three_quarters]})
      builtin_registry to_topology = Ok res' ∧ er_passed res' = true.
Proof.
  assert (H : ∃ res, evaluate positive_expr (learner {[algebra]} {[quiz := three_quarters]})
      builtin_registry to_topology = Ok res ∧ er_passed res = true).
  { eexists. split; vm_compute; reflexivity. }
  destruct H as (res & He & Hp).
  apply (progress_keeps_passing builtin_registry positive_expr
    (learner {[algebra]} {[quiz := three_quarters]})
    (learner {[algebra; geometry]} {[quiz := three_quarters]}) to_topology res).
  - intros n q x Hb.
    assert (Hin : (q, x) ∈ walk positive_expr) by (apply elem_of_walk; exists n; exact Hb).
    clear Hb. rename Hin into Hb.
    assert (Hw : walk positive_expr = [("", positive_expr); ("all/0", requires_course algebra);
      ("all/1", Any [requires_score quiz 70; requires_course geometry]);
      ("all/1/any/0", requires_score quiz 70); ("all/1/any/1", requires_course geometry)])
      by (vm_compute; reflexivity).
    rewrite Hw in Hb.
    assert (Hm : ∀ kind s, kind = "course_completed" ∨ kind = "minimum_score" →
      builtin_registry !! kind = Some s → monotone s = true).
    { intros kind s Hkind Hs.
      assert (Hk : monotone <$> builtin_registry !! kind = Some true)
        by (destruct Hkind as [-> | ->]; vm_compute; reflexivity).
      rewrite Hs in Hk. injection Hk as Hk. exact Hk. }
    repeat (apply elem_of_cons in Hb as [[= -> ->]|Hb];
      [first [done|intros s; apply Hm; by left|intros s; apply Hm; by right]|]).
    by apply not_elem_of_nil in Hb.
  - split; cbn; try done; try (intros u ? Hu; rewrite lookup_empty in Hu; discriminate Hu).
    + set_solver.
    + intros u x Hu. exists x. by split.
  - apply learner_aware.
  - exact He.
  - exact Hp.
Defined.

(** ** Documents *)

Lemma parse_document `{JsonText} d e :
  parse d = Ok e ↔ ∃ v, document_of d v ∧ parse_decoded v = Ok e.
Proof.
  unfold parse, document_of. destruct d as [| | | |s| |]; try (split; [by eauto|by intros (? & -> & ?)]).
  destruct (json_loads s) as [v|]; [|by split; [|intros (? & ? & _)]].
  split; [by eauto|]. by intros (? & [= ->] & ?).
Qed.

(** C32. The parser implements the grammar: a document is accepted with an
    expression exactly when it denotes that expression and the expression
    keeps within the two safety bounds (64 levels, 10,000 nodes); every other
    document is refused with [ExpressionError]. *)
Theorem parse_exact `{JsonText} d :
  (∀ v, document_of d v → is_decoded v) →
  (∀ e, parse d = Ok e ↔ ∃ v, document_of d v ∧ denotes v e ∧ within_bounds e) ∧
  (∀ exc, parse d = Raise exc → ∃ msg, exc = ExpressionError msg).
Proof.
  intros Hdec. split.
  - intros e. rewrite parse_document. split.
    + intros (v & Hv & Hp). exists v. split; [done|]. by apply parse_decoded_iff, Hp; auto.
    + intros (v & Hv & Hp). exists v. split; [done|]. by apply parse_decoded_iff; auto.
  - intros exc.
    assert (Herr : ∀ v, parse_decoded v = Raise exc → ∃ msg, exc = ExpressionError msg).
    { intros v. unfold parse_decoded.
      destruct (_parse_node v "" 1 HARD_MAX_NODES) as [[e|exc'] b] eqn:E; [done|].
      cbn. intros [= ->]. by eapply (proj1 (parse_node_error v)). }
    unfold parse. destruct d; try apply Herr. destruct (json_loads s) as [v|exc']; [apply Herr|].
    intros [= <-]. eauto.
Qed.

Lemma example_document_decoded v : document_of example_document v → is_decoded v.
Proof.
  cbn. intros ->. cbn. repeat split; repeat constructor; set_solver.
Qed.

Lemma parse_exact_witness :
  denotes example_document (Not (requires_course algebra)) ∧
  parse (JStr "{") = Raise (ExpressionError "malformed JSON: Expecting value").
Proof.
  split; [|reflexivity].
  assert (Hp : parse example_document = Ok (Not (requires_course algebra)))
    by (vm_compute; reflexivity).
  apply (proj1 (parse_exact example_document example_document_decoded)) in Hp
    as (v & Hv & Hd & _).
  cbn in Hv. rewrite Hv in Hd. exact Hd.
Defined.

(** C33. The JSON form is faithful: the form of an accepted document's
    expression is accepted with the same expression, and its canonical text
    and content hash are those of the document, whatever the order of its
    keys; conversely the form of any expression with named conditions and
    finite parameters within the bounds is accepted with that expression. *)
Theorem parse_round_trip `{JsonText} `{Runtime} v e :
  is_decoded v → parse_decoded v = Ok e →
  parse (to_data e) = Ok e ∧ to_json e = json_dumps v ∧
  content_hash e = sha256_hexdigest (json_dumps v) ∧
  (∀ e', is_decoded (to_data e') → conds_ok e' = true → within_bounds e' →
    parse (to_data e') = Ok e').
Proof.
  intros Hdec [Hd Hb]%parse_decoded_iff; [|done].
  assert (Hform : ∀ e', is_decoded (to_data e') → conds_ok e' = true → within_bounds e' →
    parse (to_data e') = Ok e').
  { intros e' Hdec' Hok Hb'. apply parse_document. exists (to_data e'). split.
    - by destruct e'.
    - apply parse_decoded_iff; [done|]. split; [by apply to_data_denotes|done]. }
  pose proof (denotes_dumps e v Hd) as Ht. split_and!; [|done| |done].
  - apply Hform; [by eapply denotes_decoded|by eapply denotes_conds_ok|done].
  - unfold content_hash. by rewrite Ht.
Qed.

Lemma parse_round_trip_witness :
  is_decoded example_document ∧
  @content_hash toy_runtime (Not (requires_course algebra))
    = @sha256_hexdigest toy_runtime (@json_dumps toy_runtime example_document).
Proof.
  assert (Hd : is_decoded example_document) by (by apply example_document_decoded).
  split; [exact Hd|].
  assert (Hp : parse_decoded example_document = Ok (Not (requires_course algebra)))
    by (vm_compute; reflexivity).
  exact (proj1 (proj2 (proj2 (@parse_round_trip no_text toy_runtime _ _ Hd Hp)))).
Defined.

(** [walk] yields every node once, in preorder, under a path that names it
    alone and that tells how deep it lies. *)
Theorem walk_names_nodes e :
  walk e = preorder_nodes "" e ∧ NoDup (walk e).*1 ∧ length (walk e) = expr_nodes e ∧
  ∀ q x, (q, x) ∈ walk e ↔ ∃ n, below "" e n q x ∧ path_depth q = S n.
Proof.
  split_and!; [apply walk_preorder|apply walk_paths_NoDup| |].
  - rewrite walk_preorder. generalize "". induction e as [e IH] using Expr_children_ind.
    intros path. rewrite preorder_unfold, expr_nodes_unfold. cbn [length]. f_equal.
    rewrite <-(child_nodes_snd path e). apply (Forall_child_nodes _ path) in IH.
    induction IH as [|[q c] items Hc _ IHi]; [done|].
    rewrite bind_cons, length_app, IHi. cbn in *. by rewrite Hc.
  - intros q x. rewrite elem_of_walk. split; [|by intros (n & ? & _); eauto].
    intros (n & Hb). exists n. split; [done|]. unfold path_depth.
    inversion Hb as [|i c n' q' x' Hi Hb']; subst; [done|].
    apply below_slash in Hb' as [Ht Hs]; [|apply child_path_truthy]. rewrite Ht, Hs.
    rewrite child_path_slash. cbn [str_truthy].
    replace (1 + 2 * n' + 1) with ((1 + n') * 2) by lia. rewrite Nat.div_mul by done. lia.
Qed.

(** ** Explanations and constants *)

(** Every refusal is explained: a failed evaluation gives at least one
    reason unless the expression is constantly false, a passed one gives none,
    and each reason names a leaf of the expression or an [any] without
    children. *)
Theorem refusals_are_explained `{Pydantic} e facts registry target res :
  evaluate e facts registry target = Ok res →
  (er_passed res = true → er_reasons res = []) ∧
  (er_passed res = false → _constant e ≠ Some false → er_reasons res ≠ []) ∧
  (∀ reason, reason ∈ er_reasons res →
    ∃ n x, below "" e n (reason_path reason) x ∧ explains x).
Proof.
  intros (r & Hr & ->)%evaluate_Ok. apply eval_explained in Hr.
  cbn [er_passed er_reasons]. destruct (nr_passed r) eqn:Hp; cbn [negb]; split_and!; try done.
  - by intros reason ?%not_elem_of_nil.
  - intros _ Hc Hn. apply Hc. by eapply explained_failed.
  - intros reason Hin. eapply explained_paths; [done|]. apply elem_of_app. by left.
Qed.

Lemma refusals_are_explained_witness :
  ∃ res, evaluate example_expr (learner ∅ ∅) builtin_registry to_topology = Ok res ∧
    er_passed res = false ∧ er_reasons res ≠ [].
Proof.
  assert (H : ∃ res, evaluate example_expr (learner ∅ ∅) builtin_registry to_topology
      = Ok res ∧ er_passed res = false).
  { eexists. split; vm_compute; reflexivity. }
  destruct H as (res & He & Hp). exists res. split; [exact He|]. split; [exact Hp|].
  apply (proj1 (proj2 (refusals_are_explained _ _ _ _ _ He))); [exact Hp|].
  vm_compute. discriminate.
Defined.

(** The constant test is exact: it answers a truth value exactly when the
    expression has that value under every assignment of verdicts to its
    leaves. *)
Theorem constant_exact e b :
  _constant e = Some b ↔ ∀ leaf, kleene leaf "" e = Some b.
Proof.
  split; [intros; by apply constant_sound|].
  intros Hall. destruct (_constant e) as [b'|] eqn:Hc.
  - rewrite <-(Hall (λ _ _ _, None)). symmetry. by apply constant_sound.
  - destruct (constant_complete e "" (negb b)) as [leaf Hleaf]; [congruence|].
    rewrite Hall in Hleaf. by destruct b.
Qed.

(** ** Cycles *)

(** The breadth-first search always returns, with a shortest cycle
    through its start when there is one, and with nothing exactly when there
    is none. *)
Theorem cycle_through_shortest start edges :
  ∃ res, _cycle_through start edges = Ok res ∧
    match res with
    | Some c => head c = Some start ∧ closed edges c ∧
        ∀ c', closed edges c' → head c' = Some start → length c ≤ length c'
    | None => ∀ c', closed edges c' → head c' ≠ Some start
    end.
Proof. apply cycle_through_spec. Qed.

(** C34. The depth-first search reports each cycle once, in the rotation that
    starts at its smallest node, and only simple cycles of the graph; and it
    misses none of them entirely: every cycle of the graph has an edge that a
    reported cycle runs through, so nothing is reported exactly when the graph
    is acyclic. *)
Theorem find_cycles_exact edges :
  NoDup (find_cycles edges) ∧
  (∀ c, c ∈ find_cycles edges →
    closed edges c ∧ NoDup c ∧ ∃ m, head c = Some m ∧ ∀ y, y ∈ c → uuid_leb m y = true) ∧
  (∀ c, closed edges c → ∃ u w c0 c1 c2, rotation c c0 ∧ head c0 = Some w ∧ last c0 = Some u ∧
    c1 ∈ find_cycles edges ∧ rotation c1 c2 ∧ head c2 = Some w ∧ last c2 = Some u) ∧
  (find_cycles edges = [] ↔ ∀ c, ¬ closed edges c).
Proof.
  destruct (find_cycles_inv edges) as (Hform & Hnd & _).
  assert (Hcatch : ∀ c, closed edges c → ∃ u w c0 c1 c2,
    rotation c c0 ∧ head c0 = Some w ∧ last c0 = Some u ∧
    c1 ∈ find_cycles edges ∧ rotation c1 c2 ∧ head c2 = Some w ∧ last c2 = Some u).
  { intros c Hc. destruct (find_cycles_catches edges c Hc)
      as (u & w & c0 & ? & ? & ? & c1 & c2 & ? & ? & ? & ?). by exists u, w, c0, c1, c2. }
  split_and!; [done|exact Hform|done|]. split.
  - intros Hnil c Hc. destruct (Hcatch c Hc) as (_ & _ & _ & c1 & _ & _ & _ & _ & Hin & _).
    rewrite Hnil in Hin. by apply not_elem_of_nil in Hin.
  - intros Hno. destruct (find_cycles edges) as [|c cs]; [done|].
    destruct (Hform c ltac:(by left)) as [Hc _]. by destruct (Hno c).
Qed.

(** ** Validation *)

(** C35. An expression validated without errors is safe to evaluate: it has at
    most 64 nodes and depth 6, no leaf under a negation may stop being
    satisfied, and for every learner whose instants are aware it evaluates
    without an exception, each leaf being answered by the evaluator of its
    kind rather than refused as misplaced or malformed. *)
Theorem validated_is_evaluable `{P : Pydantic} `{!PydanticLaws P} registry
    `{!ConditionLaws registry} e target catalog now extra cb l :
  validate e registry target catalog now extra cb = Ok l → no_errors l →
  (length (walk e) ≤ MAX_NODES ∧ ∀ n q x, below "" e n q x → n < MAX_DEPTH) ∧
  (∀ n q child m q' kind fields s, below "" e n q (Not child) →
    below "" child m q' (Cond kind fields) → registry !! kind = Some s → monotone s = true) ∧
  ∀ facts, facts_aware facts →
    is_ok (evaluate e facts registry target) = true ∧
    ∀ n q kind fields, below "" e n q (Cond kind fields) →
      ∃ s p leaf, registry !! kind = Some s ∧
        model_validate (params_model s) fields = Some p ∧
        spec_evaluate s p (MkLeafContext facts target q) = Ok leaf ∧
        leaf_verdict facts registry target q kind fields =
          if leaf_passed leaf then Some true
          else if leaf_indeterminate leaf then None else Some false.
Proof.
  intros Hv Hn. apply validate_validated in Hv; [|done]. split_and!.
  - apply (validated_nodes _ _ _ _ _ _ _ Hv).
  - intros n q x Hb.
    assert (Hw : (q, x) ∈ walk e) by (apply elem_of_walk; eauto).
    apply (validated_depth _ _ _ _ _ _ _ Hv) in Hw. revert Hw. unfold path_depth.
    inversion Hb as [|i c n' q' x' Hi Hb']; subst; [cbn; unfold MAX_DEPTH; lia|].
    apply below_slash in Hb' as [Ht Hs]; [|apply child_path_truthy].
    rewrite Ht, Hs, child_path_slash. cbn [str_truthy].
    replace (1 + 2 * n' + 1) with ((1 + n') * 2) by lia. rewrite Nat.div_mul by done. lia.
  - intros n q child m q' kind fields s Hb Hb' Hs.
    eapply (validated_negated _ _ _ _ _ _ _ Hv); [apply elem_of_walk; eauto|done|done].
  - intros facts Ha.
    assert (Hleaf : ∀ n q kind fields, below "" e n q (Cond kind fields) →
      ∃ s p leaf, registry !! kind = Some s ∧ target_kind target ∈ spec_targets s ∧
        model_validate (params_model s) fields = Some p ∧
        spec_evaluate s p (MkLeafContext facts target q) = Ok leaf).
    { intros n q kind fields Hb.
      destruct (validated_leaf _ _ _ _ _ _ _ Hv q kind fields) as (s & p & refs & Hl);
        [apply elem_of_walk; eauto|].
      destruct (law_total kind s (leaf_spec _ _ _ _ _ _ _ _ _ _ Hl) p (MkLeafContext facts target q))
        as [[leaf Hleaf]%is_ok_true _].
      - eapply validate_type, leaf_model; done.
      - eapply validate_valid, leaf_model; done.
      - done.
      - exists s, p, leaf. destruct Hl. done. }
    split.
    + rewrite evaluate_is_ok. apply eval_ok_iff. intros n q kind fields Hb.
      destruct (Hleaf n q kind fields Hb) as (s & p & leaf & Hs & Ht & Hp & Hl).
      unfold _eval_cond, registry_require. rewrite Hs. cbn.
      rewrite bool_decide_true by done. cbn. by rewrite Hp, Hl.
    + intros n q kind fields Hb.
      destruct (Hleaf n q kind fields Hb) as (s & p & leaf & Hs & Ht & Hp & Hl).
      exists s, p, leaf. split_and!; try done.
      unfold leaf_verdict, _eval_cond, registry_require. rewrite Hs. cbn.
      rewrite bool_decide_true by done. cbn. rewrite Hp, Hl. cbn.
      by destruct (leaf_passed leaf), (leaf_indeterminate leaf).
Qed.

Lemma validated_is_evaluable_witness :
  is_ok (evaluate example_expr (learner ∅ ∅) builtin_registry to_topology) = true.
Proof.
  assert (Hv : validate example_expr builtin_registry to_topology open_catalog noon None false
      = Ok []) by (vm_compute; reflexivity).
  assert (Hn : no_errors []) by (intros i Hi; by apply not_elem_of_nil in Hi).
  exact (proj1 (proj2 (proj2 (validated_is_evaluable builtin_registry _ _ _ _ _ _ _ Hv Hn))
    (learner ∅ ∅) (learner_aware ∅ ∅))).
Defined.

(** Publishing a validated course requirement creates no dependency cycle:
    in the graph of the caller's edges and the expression's own course
    references, no cycle runs through the target course, provided the caller's
    edges do not already link the course to itself. *)
Theorem validated_is_acyclic `{Pydantic} registry e target catalog now extra cb l graph :
  validate e registry target catalog now (Some extra) cb = Ok l → no_errors l →
  target_kind target = course_access →
  ¬ edge extra (target_id target) (target_id target) →
  (∀ u v, edge graph u v ↔
    edge extra u v ∨ (u = target_id target ∧ course_reference registry e v)) →
  ∀ c, closed graph c → target_id target ∉ c.
Proof.
  intros Hv Hn Hk Hself Hgraph c Hc Hin.
  apply validate_validated in Hv; [|done]. cbn in Hv.
  destruct (validated_cycle _ _ _ _ _ _ _ Hv Hk) as (own & res & Hown & Hres & Hlen).
  destruct (cycle_through_spec (all_edges extra own) (target_id target)) as (res' & Hres' & Hspec).
  assert (res' = res) as -> by congruence. clear Hres'.
  assert (Hedges : ∀ u v, edge (all_edges extra own) u v ↔ edge graph u v).
  { intros u v. rewrite all_edges_spec, Hgraph, (dependency_edges_spec _ _ _ _ Hk Hown). done. }
  assert (Hlinks : ∀ l, links graph l → links (all_edges extra own) l).
  { clear -Hedges. induction l as [|u [|v l] IH]; cbn [links]; try done.
    intros [He Hl]. split; [by apply Hedges|by apply IH]. }
  apply list_elem_of_split in Hin as (a & b & ->).
  assert (Hrot : rotation (a ++ target_id target :: b) ((target_id target :: b) ++ a)).
  { by exists a, (target_id target :: b). }
  apply (closed_rotation _ _ _ Hrot) in Hc as (Hl & x & y & Hx & Hy & He).
  assert (Hc : closed (all_edges extra own) ((target_id target :: b) ++ a)).
  { split; [by apply Hlinks|]. exists x, y. split_and!; [done|done|by apply Hedges]. }
  destruct res as [c0|]; [|by destruct (Hspec _ Hc)].
  destruct Hspec as (Hh & (Hl0 & u & v & Hu & Hv' & He0) & _).
  specialize (Hlen c0 eq_refl). destruct c0 as [|z [|]]; [done| |cbn in Hlen; lia].
  cbn in Hh, Hu, Hv'. injection Hh as ->. injection Hu as <-. injection Hv' as <-.
  apply Hedges, Hgraph in He0 as [He0|(_ & n & q & kind & fields & s & p & refs & Hb & Hs & Hp & Hr & Hin)];
    [done|].
  destruct (validated_leaf _ _ _ _ _ _ _ Hv q kind fields) as (s' & p' & refs' & Hleaf);
    [apply elem_of_walk; eauto|].
  destruct Hleaf as [? _ ? ? Hex _ _]. assert (s' = s) as -> by congruence. assert (p' = p) as -> by congruence.
  assert (refs' = refs) as -> by congruence.
  destruct (Hex _ Hin) as [_ Hns]. by apply Hns.
Qed.

(** Geometry requires algebra; topology is to require geometry. *)
Lemma validated_is_acyclic_witness :
  validate (requires_course geometry) builtin_registry to_topology open_catalog noon
    (Some {[geometry := {[algebra]}]}) false = Ok [] ∧
  ∀ c, closed (<[topology := {[geometry]}]> {[geometry := {[algebra]}]}) c → topology ∉ c.
Proof.
  assert (Hv : validate (requires_course geometry) builtin_registry to_topology open_catalog noon
      (Some {[geometry := {[algebra]}]}) false = Ok []) by (vm_compute; reflexivity).
  split; [exact Hv|].
  assert (Hn : no_errors []) by (intros i Hi; by apply not_elem_of_nil in Hi).
  assert (Hg : ∀ v, course_reference builtin_registry (requires_course geometry) v ↔ v = geometry).
  { intros v.
    assert (Hown : dependency_edges to_topology (requires_course geometry) builtin_registry
      = Ok [(topology, geometry)]) by (vm_compute; reflexivity).
    pose proof (dependency_edges_spec to_topology _ _ _ eq_refl Hown topology v) as Hd. cbn [to_topology target_id] in Hd.
    rewrite list_elem_of_singleton in Hd. split.
    - intros Hc. destruct Hd as [_ Hd]. specialize (Hd (conj eq_refl Hc)). congruence.
    - intros ->. by destruct Hd as [[_ Hd] _]. }
  apply (validated_is_acyclic builtin_registry (requires_course geometry) to_topology open_catalog
    noon {[geometry := {[algebra]}]} false [] _ Hv Hn eq_refl).
  - unfold edge. cbn [to_topology target_id]. rewrite lookup_singleton_ne by done.
    apply not_elem_of_empty.
  - intros u v. rewrite Hg. unfold edge. cbn [to_topology target_id].
    destruct (decide (u = topology)) as [->|Hu].
    + rewrite lookup_insert_eq, lookup_singleton_ne by done. cbn. set_solver.
    + rewrite lookup_insert_ne by done. naive_solver.
Defined.

(** The side condition is needed: once the caller's edges link the course to
    itself, the search stops at that one-element cycle, and the two-element
    cycle the new requirement closes through geometry is published. *)
Example self_edge_hides_cycle :
  let extra : Edges := {[topology := {[topology]}; geometry := {[topology]}]} in
  validate (requires_course geometry) builtin_registry to_topology open_catalog noon
    (Some extra) false = Ok [] ∧
  (∃ msg, validate (requires_course geometry) builtin_registry to_topology open_catalog noon
    (Some {[geometry := {[topology]}]}) false = Ok [MkIssue sev_error "cycle" "" msg]).
Proof. split; [vm_compute; reflexivity|]. eexists. vm_compute. reflexivity. Qed.

(** ** The course access rule *)

(** C36. The compiled expression is the rule: for a learner whose routes to the
    course are known, it evaluates, and the state read back is the one the rule
    gives — locked on the last route's predecessor when no route is open, else
    on the first prerequisite not completed, else unlocked — and a course is
    locked exactly when a prerequisite is reported unmet. *)
Theorem course_access_rule `{P : Pydantic} `{!PydanticLaws P} registry facts course routes
    prerequisite_ids titles :
  default_registry = Ok registry → routes ≠ [] →
  routes_by_course facts !! course = Some routes →
  ∃ e res,
    compile_course_access course routes prerequisite_ids = Ok e ∧
    evaluate e facts registry (MkTarget course_access course) = Ok res ∧
    let state := legacy_access course routes prerequisite_ids titles (completed_course_ids facts) in
    to_course_access_state course res routes prerequisite_ids titles = Ok state ∧
    (legacy_unmet_prerequisites state prerequisite_ids (completed_course_ids facts) = []
       ↔ locked state = false).
Proof.
  intros Hreg Hne Hr.
  destruct (to_state_compiled registry Hreg facts course routes Hr prerequisite_ids titles Hne)
    as (e & res & He & Hev & Hst).
  exists e, res. split; [exact He|]. split; [exact Hev|].
  split; [exact Hst|]. apply legacy_unmet_iff.
Qed.

Lemma course_access_rule_witness :
  ∃ e res,
    compile_course_access topology [MkRoute (Some track) (Some geometry)] [algebra] = Ok e ∧
    evaluate e (learner {[algebra]} ∅) builtin_registry (MkTarget course_access topology)
      = Ok res ∧
    to_course_access_state topology res [MkRoute (Some track) (Some geometry)] [algebra] ∅
      = Ok (locked_on topology geometry ∅ PREVIOUS_COURSE_FALLBACK).
Proof.
  destruct (course_access_rule builtin_registry (learner {[algebra]} ∅) topology
    [MkRoute (Some track) (Some geometry)] [algebra] ∅ builtin_registry_ok
    ltac:(discriminate) ltac:(apply lookup_singleton_eq)) as (e & res & He & Hr & Hs & _).
  exists e, res. split; [exact He|]. split; [exact Hr|]. rewrite Hs.
  vm_compute. reflexivity.
Defined.
