(* ===== verification/ConfigDocument.v ===== *)
(** * Layer documents

    [dotmac_config_layers/document.py], and [parse_spec_pointer] of [fields.py]:
    canonical JSON, JSON pointers, and the directives a layer document may hold.
    A document is a decoded JSON value; [Mapping] is [JObj], a list or a tuple
    is [JList]. *)

From S2P Require Import Prelude PyData PyTime.
From stdpp Require Import base gmap strings pretty list.
From Stdlib Require Import ZArith NArith Ascii SpecFloat.

(** ** Errors of the composition engine *)

(** [MergeError] is a [DocumentError]; [PyError] is an exception of the
    language that no handler of the engine names, with its class. *)
Inductive config_error : Type :=
  | DocumentError (path message : string)
  | MergeError (path message : string)
  | LayerError (issues : list string)
  | PluginError (message : string)
  | DerivationCycleError (message : string)
  | PyError (cls message : string).

(** [str(exc)] of a [DocumentError]. *)
Definition document_error_text (path message : string) : string :=
  (if str_truthy path then path else "/") +:+ ": " +:+ message.

(** ** Dicts and equality of values *)

Definition dict : Type := list (string * json).

Fixpoint assoc_set {A} (k : string) (a : A) (l : list (string * A)) : list (string * A) :=
  match l with
  | [] => [(k, a)]
  | (k', a') :: l => if String.eqb k k' then (k', a) :: l else (k', a') :: assoc_set k a l
  end.

Fixpoint assoc_del {A} (k : string) (l : list (string * A)) : list (string * A) :=
  match l with
  | [] => []
  | (k', a') :: l => if String.eqb k k' then l else (k', a') :: assoc_del k l
  end.

Definition assoc_mem {A} (k : string) (l : list (string * A)) : bool :=
  match assoc_get k l with Some _ => true | None => false end.

(** The value of a number, as [m * 2 ** e] with [e <= 0] or [m * 2 ** 0]. *)
Inductive number : Type := Finite (m : Z) (e : Z) | Infinite (negative : bool) | NaN.

Definition number_of (j : json) : option number :=
  match j with
  | JBool b => Some (Finite (if b then 1 else 0) 0)
  | JInt z => Some (Finite z 0)
  | JFloat (S754_zero _) => Some (Finite 0 0)
  | JFloat (S754_finite s m e) => Some (Finite (if s then Z.neg m else Z.pos m) e)
  | JFloat (S754_infinity s) => Some (Infinite s)
  | JFloat S754_nan => Some NaN
  | _ => None
  end.

(** [==] of two numbers: exact, whatever their types. *)
Definition number_eqb (a b : number) : bool :=
  match a, b with
  | Finite m e, Finite n f =>
      let low := Z.min e f in (Z.shiftl m (e - low) =? Z.shiftl n (f - low))%Z
  | Infinite s, Infinite t => Bool.eqb s t
  | _, _ => false
  end.

(** [==] of two decoded values. Two dicts are equal when they have the same
    keys with equal values, in any order. *)
Fixpoint py_eq (a b : json) : bool :=
  match number_of a, number_of b with
  | Some x, Some y => number_eqb x y
  | None, None =>
      match a, b with
      | JNull, JNull => true
      | JStr s, JStr t => String.eqb s t
      | JList l, JList k =>
          (fix go l k := match l, k with
             | [], [] => true
             | x :: l, y :: k => py_eq x y && go l k
             | _, _ => false
             end) l k
      | JObj fs, JObj gs =>
          (length fs =? length gs)%nat &&
          (fix go fs := match fs with
             | [] => true
             | (k, x) :: fs =>
                 match assoc_get k gs with Some y => py_eq x y | None => false end && go fs
             end) fs
      | _, _ => false
      end
  | _, _ => false
  end.

(** The number of values in a document. *)
Fixpoint json_size (j : json) : nat :=
  match j with
  | JList l => S (foldr (λ x n, json_size x + n) 0 l)
  | JObj fs => S (foldr (λ kv n, json_size kv.2 + n) 0 fs)
  | _ => 1
  end.

(** [x in l] of a list. *)
Definition py_in (x : json) (l : list json) : bool := existsb (λ y, py_eq y x) l.

Example py_eq_1 : py_eq (JBool true) (JFloat (S754_finite false 4503599627370496 (-52))) = true.
Proof. reflexivity. Qed.
Example py_eq_2 :
  py_eq (JObj [("a", JInt 1); ("b", JNull)]) (JObj [("b", JNull); ("a", JInt 1)]) = true.
Proof. reflexivity. Qed.

(** ** Canonical JSON *)

(** The string literal of [json.dumps] without [ensure_ascii]. *)
Definition canonical_char (c : ascii) : string :=
  let n := N_of_ascii c in
  if Ascii.eqb c quote_char || Ascii.eqb c backslash_char then
    String backslash_char (String c "")
  else if (n =? 8)%N then "\b" else if (n =? 9)%N then "\t"
  else if (n =? 10)%N then "\n" else if (n =? 12)%N then "\f"
  else if (n =? 13)%N then "\r"
  else if (n <? 32)%N then "\u" +:+ hex_digits 4 n
  else String c "".
Definition canonical_str (s : string) : string :=
  String quote_char (str_flat_map canonical_char s +:+ String quote_char "").

Section canonical.
Context `{Runtime}.

Fixpoint canonical_json (j : json) : string :=
  match j with
  | JNull => "null"
  | JBool b => if b then "true" else "false"
  | JInt z => pretty z
  | JFloat f => float_repr f
  | JStr s => canonical_str s
  | JList l => "[" +:+ str_join "," (map canonical_json l) +:+ "]"
  | JObj fs =>
      "{" +:+ str_join ","
        (map (λ kv : string * string, canonical_str kv.1 +:+ ":" +:+ kv.2)
           (sort_keys (map (λ kv, (kv.1, canonical_json kv.2)) fs))) +:+ "}"
  end.
End canonical.

(** ** Pointers *)

(** A path is the tuple of its segments. *)
Definition Path : Type := list string.

Definition escape_char (c : ascii) : string :=
  if Ascii.eqb c "~" then "~0" else if Ascii.eqb c "/" then "~1" else String c "".

(** [segment.replace("~", "~0").replace("/", "~1")]. *)
Definition escape_segment (segment : string) : string := str_flat_map escape_char segment.

Definition pointer (parts : Path) : string :=
  foldr (λ part rest, "/" +:+ escape_segment part +:+ rest) "" parts.

(** [s.replace(xy, new)] for a two-character pattern. *)
Fixpoint replace_pair (x y : ascii) (new : string) (s : string) : string :=
  match s with
  | String c t =>
      match t with
      | String d u =>
          if Ascii.eqb c x && Ascii.eqb d y then new +:+ replace_pair x y new u
          else String c (replace_pair x y new t)
      | EmptyString => s
      end
  | EmptyString => EmptyString
  end.

(** [s.split(c)]: one part more than the separators. *)
Fixpoint str_split (c : ascii) (s : string) : list string :=
  match s with
  | EmptyString => [""]
  | String d s =>
      match str_split c s with
      | part :: parts => if Ascii.eqb d c then "" :: part :: parts else String d part :: parts
      | [] => []
      end
  end.

Definition unescape_segment (part : string) : string :=
  replace_pair "~" "0" "~" (replace_pair "~" "1" "/" part).

Definition parse_spec_pointer (text : string) : result config_error Path :=
  match text with
  | EmptyString => Ok []
  | String c rest =>
      if Ascii.eqb c "/" then Ok (unescape_segment <$> str_split "/" rest)
      else Raise (PyError "ValueError" ("spec pointer must start with '/': " +:+ py_repr_str text))
  end.

(** [urllib.parse.quote(text, safe="")]: everything but letters, digits and
    [_.-~] as an upper-case percent escape. *)
Definition upper_hex_char (n : N) : ascii :=
  if (n <? 10)%N then ascii_of_N (48 + n) else ascii_of_N (55 + n).
Definition is_unreserved (c : ascii) : bool :=
  let n := N_of_ascii c in
  ((48 <=? n) && (n <=? 57) || (65 <=? n) && (n <=? 90) || (97 <=? n) && (n <=? 122)
   || (n =? 95) || (n =? 46) || (n =? 45) || (n =? 126))%N.
Definition quote_ascii (c : ascii) : string :=
  let n := N_of_ascii c in
  if is_unreserved c then String c ""
  else String "%" (String (upper_hex_char (n / 16)) (String (upper_hex_char (n mod 16)) "")).
Definition element_segment (canonical_element : string) : string :=
  str_flat_map quote_ascii canonical_element.

Example element_segment_1 : element_segment "10.0.0.0/8" = "10.0.0.0%2F8".
Proof. reflexivity. Qed.

(** ** Directives *)

Definition DELETE : string := "$delete".
Definition ADD : string := "$add".
Definition REMOVE : string := "$remove".
Definition REPLACE : string := "$replace".

Definition is_delete (value : json) : result config_error bool :=
  match value with
  | JObj fields =>
      match assoc_get DELETE fields with
      | None => Ok false
      | Some flag =>
          match flag, fields with
          | JBool true, [_] => Ok true
          | _, _ => Raise (DocumentError "" ("$delete must be exactly {" +:+ String quote_char
                      (DELETE +:+ String quote_char ": true}")))
          end
      end
  | _ => Ok false
  end.

Fixpoint check_directive_keys (value : dict) (allowed : list string) (path : string)
    : result config_error unit :=
  match value with
  | [] => Ok tt
  | (key, _) :: value =>
      _ ← raise_if (startswith "$" key && bool_decide (key ∉ allowed))
            (DocumentError path ("directive " +:+ key +:+ " is not valid here"));
      check_directive_keys value allowed path
  end.

Record UnionPatch : Type := MkUnionPatch {
  up_add : list json;
  up_remove : list json;
  up_replace : option (list json);
}.

(** [tuple(value[key])] of a key known to hold a list. *)
Definition list_at (key : string) (value : dict) : option (list json) :=
  match assoc_get key value with Some (JList l) => Some l | _ => None end.

Fixpoint check_lists (value : dict) (path : string) : result config_error unit :=
  match value with
  | [] => Ok tt
  | (key, JList _) :: value => check_lists value path
  | (key, _) :: _ => Raise (DocumentError path (key +:+ " needs a list"))
  end.

Definition parse_union_patch (value : json) (path : string) : result config_error UnionPatch :=
  match value with
  | JList l => Ok (MkUnionPatch l [] None)
  | JObj fields =>
      _ ← check_directive_keys fields [ADD; REMOVE; REPLACE] path;
      _ ← raise_if (bool_decide (length fields = 0) || existsb (λ k, negb (startswith "$" k)) fields.*1)
            (DocumentError path "a union patch holds only $add/$remove/$replace");
      _ ← raise_if (assoc_mem REPLACE fields && (assoc_mem ADD fields || assoc_mem REMOVE fields))
            (DocumentError path "$replace cannot be combined with $add/$remove");
      _ ← check_lists fields path;
      Ok (MkUnionPatch (default [] (list_at ADD fields)) (default [] (list_at REMOVE fields))
            (list_at REPLACE fields))
  | _ => Raise (DocumentError path "a union field takes a list or a directive object")
  end.
