(* ===== verification/ConfigFields.v ===== *)
(** * Field specifications

    [dotmac_config_layers/fields.py] without the introspection of pydantic
    models: the kinds, strategies and access classes of a field, its
    canonicaliser, its security ranking, and the lookup of a specification by
    path with wildcard segments.

    The texts of IP networks and addresses are read and written by [ipaddress],
    a parameter here; the other canonicalisers are computed. *)

From S2P Require Import Prelude PyData PyTime ConfigDocument.
From stdpp Require Import base gmap strings pretty list.
From Stdlib Require Import ZArith NArith Ascii.

(** ** Vocabularies *)

Inductive Kind : Type := kind_object | kind_map | kind_scalar | kind_list.
Inductive Strategy : Type := strategy_replace | strategy_union | strategy_keyed.
Inductive AccessKind : Type := neutral | allow_list | deny_list | secure_bool | ordered.
Inductive Tie : Type := tie_error | tie_restrictive.

#[export] Instance Kind_eq_dec : EqDecision Kind.
Proof. solve_decision. Defined.
#[export] Instance Strategy_eq_dec : EqDecision Strategy.
Proof. solve_decision. Defined.
#[export] Instance AccessKind_eq_dec : EqDecision AccessKind.
Proof. solve_decision. Defined.
#[export] Instance Tie_eq_dec : EqDecision Tie.
Proof. solve_decision. Defined.

Inductive FieldDefault : Type := REQUIRED | OPTIONAL_UNMANAGED | DefaultValue (value : json).

(** ** Canonicalisers *)

(** [str(ipaddress.ip_network(text, strict=False))] and
    [str(ipaddress.ip_address(text))], or the message of the [ValueError]. *)
Class IpText : Type := {
  ip_network_text : string → result string string;
  ip_address_text : string → result string string;
}.

Definition is_digit (c : ascii) : bool :=
  match digit_val c with Some _ => true | None => false end.
Definition is_host_char (c : ascii) : bool :=
  let n := N_of_ascii c in is_digit c || ((97 <=? n) && (n <=? 122))%N.

(** [[a-z0-9]([a-z0-9-]{0,61}[a-z0-9])?]. *)
Definition host_label (s : string) : bool :=
  let at_end s := match s with String c _ => is_host_char c | EmptyString => false end in
  (1 <=? str_len s)%Z && (str_len s <=? 63)%Z && at_end s && at_end (String.rev s)
  && str_all (λ c, is_host_char c || Ascii.eqb c "-") s.

(** [_HOST_RE.match]: the final [$] also matches before one newline. *)
Definition host_match (text : string) : bool :=
  let body := match String.rev text with
              | String c s => if (N_of_ascii c =? 10)%N then String.rev s else text
              | EmptyString => text
              end in
  forallb host_label (str_split "." body).

(** [re.fullmatch(r"\d+(\.\d+)*", text)], and its parts as numbers. *)
Definition version_parts (text : string) : option (list Z) :=
  mapM (λ part, if str_all is_digit part then digits_val 0 false part else None)
    (str_split "." text).

Section canonicalisers.
Context `{IpText}.

Definition canon_text (value : json) : result string string :=
  match value with JStr s => Ok (strip s) | _ => Raise "a string is required" end.

Definition canon_lower (value : json) : result string string :=
  s ← canon_text value; Ok (str_lower s).

Definition canon_cidr (value : json) : result string string :=
  match value with
  | JStr s => ip_network_text (strip s)
  | _ => Raise "a CIDR string is required"
  end.

Definition canon_ip (value : json) : result string string :=
  match value with
  | JStr s => ip_address_text (strip s)
  | _ => Raise "an IP address string is required"
  end.

Definition canon_host (value : json) : result string string :=
  match value with
  | JStr s =>
      let text := strip s in
      match ip_address_text text with
      | Ok address => Ok address
      | Raise _ =>
          let text := str_lower (rstrip_char "." text) in
          _ ← raise_if (negb (host_match text)) "not an IP address or host name";
          Ok text
      end
  | _ => Raise "a host string is required"
  end.

Definition canon_version (value : json) : result string string :=
  match value with
  | JStr s =>
      match version_parts (strip s) with
      | Some parts => Ok (str_join "." (pretty <$> parts))
      | None => Raise "a dotted version is required"
      end
  | _ => Raise "a dotted version is required"
  end.

(** [CANONICALISERS]. *)
Definition canonicaliser (name : string) : option (json → result string json) :=
  let text f := Some (λ v, s ← f v; Ok (JStr s)) in
  if String.eqb name "none" then Some Ok
  else if String.eqb name "cidr" then text canon_cidr
  else if String.eqb name "ip" then text canon_ip
  else if String.eqb name "host" then text canon_host
  else if String.eqb name "text" then text canon_text
  else if String.eqb name "lower" then text canon_lower
  else if String.eqb name "version" then text canon_version
  else None.
End canonicalisers.

(** ** The specification of a field *)

Record FieldSpec : Type := MkFieldSpec {
  fs_kind : Kind;
  fs_strategy : option Strategy;
  fs_key : option string;
  fs_order : option string;
  fs_access : AccessKind;
  fs_secure : option bool;
  fs_ranking : list json;
  fs_tie : Tie;
  fs_derived : bool;
  fs_discoverable : bool;
  fs_secret : bool;
  fs_nullable : bool;
  fs_default : FieldDefault;
  fs_canon : string;
}.

(** [FieldSpec(kind=kind)]: every other field at its default. *)
Definition FieldSpec_of_kind (kind : Kind) : FieldSpec :=
  MkFieldSpec kind None None None neutral None [] tie_error false false false false
    REQUIRED "none".

Definition opt_str_truthy (s : option string) : bool :=
  match s with Some s => str_truthy s | None => false end.

Section field_spec.
Context `{IpText}.

Definition FieldSpec_check (spec : FieldSpec) : result string FieldSpec :=
  _ ← raise_if (bool_decide (¬ is_Some (canonicaliser (fs_canon spec))))
        ("unknown canonicaliser " +:+ py_repr_str (fs_canon spec));
  _ ← (if bool_decide (fs_kind spec = kind_list) then
         _ ← raise_if (bool_decide (fs_strategy spec = None)) "a list field must declare a strategy";
         raise_if (bool_decide (fs_strategy spec = Some strategy_keyed)
                   && negb (opt_str_truthy (fs_key spec))) "a keyed list must name its key field"
       else raise_if (bool_decide (fs_strategy spec ≠ None)) "only list fields declare a strategy");
  _ ← raise_if (bool_decide (fs_access spec = secure_bool) && bool_decide (fs_secure spec = None))
        "secure_bool needs the secure value";
  _ ← raise_if (bool_decide (fs_access spec = ordered) && bool_decide (length (fs_ranking spec) = 0))
        "ordered needs a ranking, most secure first";
  _ ← raise_if (bool_decide (fs_access spec ∈ [allow_list; deny_list])
                && bool_decide (fs_kind spec ≠ kind_list))
        "allow_list/deny_list apply to list fields";
  _ ← raise_if (bool_decide (fs_access spec = secure_bool) && bool_decide (fs_kind spec ≠ kind_scalar))
        "secure_bool applies to scalar fields";
  _ ← (if bool_decide (fs_tie spec = tie_restrictive) then
         _ ← raise_if (bool_decide (fs_access spec = neutral))
               "tie=restrictive needs non-neutral access";
         raise_if (bool_decide (fs_kind spec = kind_list)
                   && bool_decide (fs_strategy spec ≠ Some strategy_union))
           "tie=restrictive on lists needs the union strategy"
       else Ok tt);
  _ ← raise_if (fs_derived spec && match fs_default spec with OPTIONAL_UNMANAGED => false | _ => true end)
        "a derived field must be optional_unmanaged";
  Ok spec.

Definition has_value_default (spec : FieldSpec) : bool :=
  match fs_default spec with DefaultValue _ => true | _ => false end.

Definition canonicalise (spec : FieldSpec) (value : json) : result config_error json :=
  match canonicaliser (fs_canon spec) with
  | Some f =>
      match f value with
      | Ok v => Ok v
      | Raise message => Raise (PyError "ValueError" message)
      end
  | None => Raise (PyError "KeyError" (py_repr_str (fs_canon spec)))
  end.
End field_spec.

(** [ranking.index(value)], and [len(ranking)] when it is not there. *)
Fixpoint rank_of (ranking : list json) (value : json) : nat :=
  match ranking with
  | [] => 0
  | r :: ranking => if py_eq r value then 0 else S (rank_of ranking value)
  end.

Definition security_rank (spec : FieldSpec) (value : json) : result config_error nat :=
  match fs_access spec with
  | secure_bool =>
      let secure := match fs_secure spec with Some b => JBool b | None => JNull end in
      Ok (if py_eq value secure then 0 else 1)
  | ordered => Ok (rank_of (fs_ranking spec) value)
  | _ => Raise (PyError "ValueError" "field has no security ordering")
  end.

(** ** The index of a module's specifications *)

Abbreviation SpecIndex := (gmap Path FieldSpec).

(** [SpecIndex(specs)]. *)
Fixpoint SpecIndex_new (specs : list (string * FieldSpec)) (index : SpecIndex)
    : result config_error SpecIndex :=
  match specs with
  | [] => Ok index
  | (text, spec) :: specs =>
      path ← parse_spec_pointer text;
      SpecIndex_new specs (<[path := spec]> index)
  end.

Definition WILDCARD : string := "*".

(** Each segment of the path, or the wildcard where the index has no such
    path. *)
Definition resolve (specs : SpecIndex) (path : Path) : Path :=
  foldl (λ resolved segment,
    let candidate := resolved ++ [segment] in
    if bool_decide (is_Some (specs !! candidate)) then candidate else resolved ++ [WILDCARD])
    [] path.

Definition lookup_spec (specs : SpecIndex) (path : Path) : option FieldSpec :=
  specs !! resolve specs path.

(** [SpecIndex.has_default_below]. *)
Definition has_default_below (specs : SpecIndex) (path : Path) : bool :=
  existsb (λ entry : Path * FieldSpec,
    let '(spec_path, spec) := entry in
    bool_decide (take (length path) spec_path = path) && (length path <? length spec_path)%nat
    && (has_value_default spec || match fs_default spec with REQUIRED => true | _ => false end)
    && bool_decide (fs_kind spec ∈ [kind_scalar; kind_list])) (map_to_list specs).
