(* ===== verification/ConfigSchema.v ===== *)
(** * The schema of a module's parameters

    The introspection of [dotmac_config_layers/fields.py]: the fields of a
    pydantic model as pointer paths, and the check that the field
    specifications of a module cover exactly them. An annotation is what
    [typing.get_origin] and [get_args] say of it; a model is its name and its
    [model_fields]. A model that contains itself has no such annotation. *)

From S2P Require Import Prelude PyData ConfigDocument ConfigFields.
From stdpp Require Import base gmap strings pretty list sorting.
From Stdlib Require Import ZArith Ascii.

Inductive Annotation : Type :=
  | ann_union (args : list Annotation)
  | ann_none
  | ann_model (name : string) (fields : list (string * Annotation))
  | ann_dict (key value : Annotation)
  | ann_list (element : Annotation)
  | ann_other (name : string).

Record SchemaLeaf : Type := MkSchemaLeaf {
  sl_path : Path;
  sl_kind : Kind;
  sl_annotation : Annotation;
  sl_element : option Annotation;
}.

Definition is_none_type (annotation : Annotation) : bool :=
  match annotation with ann_none => true | _ => false end.

Definition _unwrap_optional (annotation : Annotation) : Annotation :=
  match annotation with
  | ann_union args =>
      match filter (λ a, is_none_type a = false) args with [arg] => arg | _ => annotation end
  | _ => annotation
  end.

Definition _is_model (annotation : Annotation) : bool :=
  match annotation with ann_model _ _ => true | _ => false end.

(** The leaves of one field, its annotation already unwrapped. [walk_args]
    finds the one member of a union that is not [None]. *)
Fixpoint walk_annotation (path : Path) (annotation : Annotation) {struct annotation} : list SchemaLeaf :=
  let fix walk_args (whole : Annotation) (path : Path) (args : list Annotation) : list SchemaLeaf :=
    match args with
    | [] => [MkSchemaLeaf path kind_scalar whole None]
    | arg :: args =>
        if is_none_type arg then walk_args whole path args
        else if forallb is_none_type args then walk_annotation path arg
        else [MkSchemaLeaf path kind_scalar whole None]
    end in
  let fix walk_fields (prefix : Path) (fields : list (string * Annotation)) : list SchemaLeaf :=
    match fields with
    | [] => []
    | (name, field) :: fields =>
        (match field with
         | ann_union args => walk_args field (prefix ++ [name]) args
         | _ => walk_annotation (prefix ++ [name]) field
         end) ++ walk_fields prefix fields
    end in
  match annotation with
  | ann_model _ fields =>
      MkSchemaLeaf path kind_object annotation None :: walk_fields path fields
  | ann_dict _ value =>
      MkSchemaLeaf path kind_map annotation None ::
      (match value with
       | ann_model _ fields => walk_fields (path ++ [WILDCARD]) fields
       | _ => [MkSchemaLeaf (path ++ [WILDCARD]) kind_scalar value None]
       end)
  | ann_list element =>
      MkSchemaLeaf path kind_list annotation (Some element) ::
      (match element with
       | ann_model _ fields => walk_fields (path ++ [WILDCARD]) fields
       | _ => []
       end)
  | _ => [MkSchemaLeaf path kind_scalar annotation None]
  end.

Definition walk_schema (fields : list (string * Annotation)) (prefix : Path) : list SchemaLeaf :=
  fields ≫= λ field, walk_annotation (prefix ++ [field.1]) (_unwrap_optional field.2).

(** The walk of a nested model is the walk of its fields. *)
Lemma walk_model path name fields :
  walk_annotation path (ann_model name fields)
  = MkSchemaLeaf path kind_object (ann_model name fields) None :: walk_schema fields path.
Proof.
  cbn [walk_annotation]. f_equal.
  set (walk_args := fix walk_args (whole : Annotation) (path : Path) (args : list Annotation) :=
    match args with
    | [] => [MkSchemaLeaf path kind_scalar whole None]
    | arg :: args =>
        if is_none_type arg then walk_args whole path args
        else if forallb is_none_type args then walk_annotation path arg
        else [MkSchemaLeaf path kind_scalar whole None]
    end).
  assert (forall args path whole_args, walk_args (ann_union whole_args) path args =
    walk_annotation path (match filter (λ a, is_none_type a = false) args with
                          | [arg] => arg | _ => ann_union whole_args end)) as Hargs.
  { induction args as [|arg args IH]; intros p whole; [done|].
    cbn [walk_args]. fold walk_args. rewrite filter_cons.
    destruct (is_none_type arg) eqn:Harg; [by rewrite decide_False by done|].
    rewrite decide_True by done. destruct (forallb is_none_type args) eqn:Hall.
    - replace (filter _ args) with (@nil Annotation); [done|]. symmetry.
      rewrite forallb_forall in Hall. clear -Hall. induction args as [|a args IH]; [done|].
      rewrite filter_cons, decide_False; [apply IH; intros; apply Hall; by right|].
      by rewrite (Hall a (or_introl eq_refl)).
    - destruct (filter _ args) eqn:Hf; [|done]. exfalso.
      assert (forallb is_none_type args = true); [|congruence].
      apply forallb_forall. intros a Ha%list_elem_of_In.
      destruct (is_none_type a) eqn:He; [done|].
      assert (a ∈ filter (λ a, is_none_type a = false) args) as Hin by (by apply list_elem_of_filter).
      rewrite Hf in Hin. by apply not_elem_of_nil in Hin. }
  induction fields as [|[n field] fields IH]; [done|].
  cbn [walk_schema mbind list_bind fst snd]. unfold walk_schema in *. cbn [mbind list_bind].
  f_equal; [|exact IH]. destruct field; done.
Qed.

(** ** Schema and specifications *)

(** The order of paths, as tuples. *)
Fixpoint path_leb (p q : Path) : bool :=
  match p, q with
  | [], _ => true
  | _, [] => false
  | a :: p, b :: q => if String.eqb a b then path_leb p q else String.leb a b
  end.

Definition kind_value (kind : Kind) : string :=
  match kind with
  | kind_object => "object"
  | kind_map => "map"
  | kind_scalar => "scalar"
  | kind_list => "list"
  end.

(** [{leaf.path: leaf for leaf in walk_schema(model)}]. *)
Definition schema_leaves (fields : list (string * Annotation)) : gmap Path SchemaLeaf :=
  foldl (λ leaves leaf, <[sl_path leaf := leaf]> leaves) ∅ (walk_schema fields []).

(** ["/" + "/".join(path)]. *)
Definition plain_pointer (path : Path) : string := "/" +:+ str_join "/" path.

(** The problems of one leaf. *)
Definition leaf_problems (specs : SpecIndex) (leaf : SchemaLeaf) : list string :=
  match specs !! sl_path leaf with
  | None => [plain_pointer (sl_path leaf) +:+ ": no FieldSpec"]
  | Some spec =>
      (if bool_decide (fs_kind spec = sl_kind leaf) then []
       else [plain_pointer (sl_path leaf) +:+ ": spec kind " +:+ kind_value (fs_kind spec)
               +:+ " != schema kind " +:+ kind_value (sl_kind leaf)])
      ++ (if bool_decide (sl_kind leaf = kind_list) && bool_decide (fs_strategy spec = None)
          then [plain_pointer (sl_path leaf) +:+ ": list without strategy"] else [])
  end.

Definition schema_problems (fields : list (string * Annotation)) (specs : list (string * FieldSpec))
    : result config_error (list string) :=
  index ← SpecIndex_new specs ∅;
  let leaves := schema_leaves fields in
  Ok ((py_sorted (leb_on fst path_leb) (map_to_list leaves) ≫= λ entry, leaf_problems index entry.2)
      ++ ((λ path, plain_pointer path +:+ ": spec for a field the schema does not have") <$>
            py_sorted path_leb (filter (λ path, leaves !! path = None) (map_to_list index).*1))).

(** A specification of the index covers a leaf. *)
Definition covers_leaf (specs : SpecIndex) (path : Path) (leaf : SchemaLeaf) : Prop :=
  ∃ spec, specs !! path = Some spec ∧ fs_kind spec = sl_kind leaf ∧
    (sl_kind leaf = kind_list → fs_strategy spec ≠ None).

Lemma leaf_problems_nil specs leaf :
  leaf_problems specs leaf = [] ↔ covers_leaf specs (sl_path leaf) leaf.
Proof.
  unfold leaf_problems, covers_leaf. destruct (specs !! sl_path leaf) as [spec|]; [|naive_solver].
  destruct (bool_decide_reflect (fs_kind spec = sl_kind leaf)),
    (bool_decide_reflect (sl_kind leaf = kind_list)), (bool_decide_reflect (fs_strategy spec = None));
    cbn; naive_solver.
Qed.

Lemma schema_leaves_path fields path leaf : schema_leaves fields !! path = Some leaf → sl_path leaf = path.
Proof.
  unfold schema_leaves. generalize (walk_schema fields []). intros l.
  assert (∀ l (m : gmap Path SchemaLeaf), (∀ p s, m !! p = Some s → sl_path s = p) →
    ∀ p s, foldl (λ leaves leaf, <[sl_path leaf := leaf]> leaves) m l !! p = Some s → sl_path s = p) as Hl.
  { clear. induction l as [|s l IH]; intros m Hm; [done|]. cbn. apply IH.
    intros p s' Hp. apply lookup_insert_Some in Hp as [[? ?]|[? ?]]; [congruence|by apply Hm]. }
  apply Hl. set_solver.
Qed.

(** Guard 10: no problem is found exactly when the specifications and the
    schema have the same paths, with the same kinds, every list with a
    strategy. *)
Lemma schema_problems_nil fields specs index : SpecIndex_new specs ∅ = Ok index →
  schema_problems fields specs = Ok [] ↔
  ∀ path, match schema_leaves fields !! path with
          | Some leaf => covers_leaf index path leaf
          | None => index !! path = None
          end.
Proof.
  intros Hi. unfold schema_problems. rewrite Hi. cbn [mbind result_bind]. split.
  - intros [= [Hl Hs]%app_eq_nil] path. apply fmap_nil_inv in Hs.
    destruct (schema_leaves fields !! path) as [leaf|] eqn:Hp.
    + rewrite <-(schema_leaves_path _ _ _ Hp) at 1. apply leaf_problems_nil, elem_of_nil_inv.
      intros x Hx. apply (not_elem_of_nil x). rewrite <-Hl. apply list_elem_of_bind.
      exists (path, leaf). split; [done|]. by rewrite elem_of_py_sorted, elem_of_map_to_list.
    + destruct (index !! path) as [spec|] eqn:Hx; [|done]. exfalso.
      apply (not_elem_of_nil path). rewrite <-Hs, elem_of_py_sorted. apply list_elem_of_filter.
      split; [done|]. apply list_elem_of_fmap. exists (path, spec). by rewrite elem_of_map_to_list.
  - intros Hall. do 2 f_equal. apply app_nil. split.
    + apply elem_of_nil_inv. intros x ([path leaf] & Hx & Hin)%list_elem_of_bind.
      rewrite elem_of_py_sorted, elem_of_map_to_list in Hin. specialize (Hall path).
      rewrite Hin in Hall. rewrite <-(schema_leaves_path _ _ _ Hin) in Hall at 1.
      apply leaf_problems_nil in Hall. cbn in Hx. rewrite Hall in Hx. by apply not_elem_of_nil in Hx.
    + apply elem_of_nil_inv. intros x (path & -> & Hin)%list_elem_of_fmap.
      rewrite elem_of_py_sorted in Hin. apply list_elem_of_filter in Hin as [Hn Hin].
      apply list_elem_of_fmap in Hin as ([p spec] & -> & Hin). rewrite elem_of_map_to_list in Hin.
      specialize (Hall p). cbn in Hn. rewrite Hn in Hall. congruence.
Qed.
