(* ===== verification/ConfigMerge.v ===== *)
(** * Merging the patches of layers

    [dotmac_config_layers/merge.py]: the [Merger] of one module. Every patch is
    merged in layer order into the values; every value keeps its provenance,
    every deletion a tombstone, and every write is logged under its path, rank
    and weight, so that writes of equal rank that disagree are found.

    A nested dict that the source updates in place is an argument and a result
    here. An operation that raises leaves the logs as they were at that moment
    and its container unchanged: both callers of [merge_patch] drop the merger
    when it raises. *)

From S2P Require Import Prelude PyData PyTime ConfigDocument ConfigFields.
From stdpp Require Import base gmap strings pretty list sorting.
From Stdlib Require Import ZArith NArith Ascii.

(** ** Origins, writes, provenance *)

Definition MODE_POINTER : string := "/$mode".
Definition DELETED_VALUE : json := JStr "$delete".

Record Origin : Type := MkOrigin {
  o_tier : string;
  o_rank : Z;
  o_layer_id : string;
  o_layer_name : string;
  o_revision : Z;
  o_weight : Z;
  o_op : string;
  o_at : option string;
  o_detail : dict;
}.

(** [(rank, weight)]: the writes of one group are of equal rank. *)
Definition group (o : Origin) : Z * Z := (o_rank o, o_weight o).

Definition with_op (op : string) (o : Origin) : Origin :=
  MkOrigin (o_tier o) (o_rank o) (o_layer_id o) (o_layer_name o) (o_revision o) (o_weight o)
    op (o_at o) (o_detail o).

Record Shadow : Type := MkShadow { sh_origin : Origin; sh_value : json }.

Record Provenance : Type := MkProvenance {
  pv_origin : Origin;
  pv_value : json;
  pv_shadowed : list Shadow;
  pv_contributors : list Origin;
}.

Record Tombstone : Type := MkTombstone {
  deleted_by : Origin;
  tb_shadowed : list Shadow;
}.

Record Conflict : Type := MkConflict {
  cf_path : string;
  cf_layers : list string;
  cf_values : list json;
}.

Inductive WriteKind : Type := w_set | w_delete | w_replace | w_relative | w_merge.

#[export] Instance WriteKind_eq_dec : EqDecision WriteKind.
Proof. solve_decision. Defined.

Record Write : Type := MkWrite {
  w_origin : Origin;
  w_kind : WriteKind;
  w_value : json;
  w_add : list json;
  w_remove : list json;
}.

Definition Write_of (o : Origin) (kind : WriteKind) (value : json) : Write :=
  MkWrite o kind value [] [].

(** ** The merger *)

Record Merger : Type := MkMerger {
  m_values : dict;
  m_meta : dict;
  m_prov : gmap string Provenance;
  m_tombs : gmap string Tombstone;
  m_conflicts : gmap string Conflict;
  m_lints : list string;
  m_log : gmap (string * (Z * Z)) (list Write);
  m_before : gmap (string * (Z * Z)) (list json);
}.

Definition Merger_new : Merger := MkMerger [] [] ∅ ∅ ∅ [] ∅ ∅.

Definition with_values (v : dict) (m : Merger) : Merger :=
  MkMerger v (m_meta m) (m_prov m) (m_tombs m) (m_conflicts m) (m_lints m) (m_log m) (m_before m).
Definition with_meta (v : dict) (m : Merger) : Merger :=
  MkMerger (m_values m) v (m_prov m) (m_tombs m) (m_conflicts m) (m_lints m) (m_log m) (m_before m).
Definition with_prov (f : gmap string Provenance → gmap string Provenance) (m : Merger) : Merger :=
  MkMerger (m_values m) (m_meta m) (f (m_prov m)) (m_tombs m) (m_conflicts m) (m_lints m)
    (m_log m) (m_before m).
Definition with_tombs (f : gmap string Tombstone → gmap string Tombstone) (m : Merger) : Merger :=
  MkMerger (m_values m) (m_meta m) (m_prov m) (f (m_tombs m)) (m_conflicts m) (m_lints m)
    (m_log m) (m_before m).
Definition with_conflicts (f : gmap string Conflict → gmap string Conflict) (m : Merger) : Merger :=
  MkMerger (m_values m) (m_meta m) (m_prov m) (m_tombs m) (f (m_conflicts m)) (m_lints m)
    (m_log m) (m_before m).
Definition with_lint (lint : string) (m : Merger) : Merger :=
  MkMerger (m_values m) (m_meta m) (m_prov m) (m_tombs m) (m_conflicts m) (m_lints m ++ [lint])
    (m_log m) (m_before m).
Definition with_log (f : gmap (string * (Z * Z)) (list Write) → gmap (string * (Z * Z)) (list Write))
    (m : Merger) : Merger :=
  MkMerger (m_values m) (m_meta m) (m_prov m) (m_tombs m) (m_conflicts m) (m_lints m)
    (f (m_log m)) (m_before m).
Definition with_before (f : gmap (string * (Z * Z)) (list json) → gmap (string * (Z * Z)) (list json))
    (m : Merger) : Merger :=
  MkMerger (m_values m) (m_meta m) (m_prov m) (m_tombs m) (m_conflicts m) (m_lints m) (m_log m)
    (f (m_before m)).

Abbreviation MergeST A := (ST Merger config_error A).

(** ** The write log *)

Definition _all_group_writes (ptr : string) (o : Origin) (m : Merger) : list Write :=
  default [] (m_log m !! (ptr, group o)).

Definition _others (ptr : string) (o : Origin) (m : Merger) : list Write :=
  filter (λ w, o_layer_id (w_origin w) ≠ o_layer_id o) (_all_group_writes ptr o m).

Definition _record (ptr : string) (own : Write) (m : Merger) : Merger :=
  with_log <[(ptr, group (w_origin own)) := _all_group_writes ptr (w_origin own) m ++ [own]]> m.

Definition write_label (w : Write) : string :=
  o_tier (w_origin w) +:+ ":" +:+ o_layer_name (w_origin w).

Definition shown_value (w : Write) : json :=
  if bool_decide (w_kind w = w_delete) then DELETED_VALUE else w_value w.

(** The layers of a conflict, each with the first value it wrote. *)
Fixpoint add_writes (writes : list Write) (layers : list string) (values : list json) :
    list string * list json :=
  match writes with
  | [] => (layers, values)
  | w :: writes =>
      if bool_decide (write_label w ∈ layers) then add_writes writes layers values
      else add_writes writes (layers ++ [write_label w]) (values ++ [shown_value w])
  end.

Definition _flag (ptr : string) (writes : list Write) (m : Merger) : Merger :=
  let existing := m_conflicts m !! ptr in
  let '(layers, values) :=
    add_writes writes (default [] (cf_layers <$> existing)) (default [] (cf_values <$> existing)) in
  with_conflicts <[ptr := MkConflict ptr layers values]> m.

(** [ptr.rsplit("/", 1)[0]]. *)
Fixpoint before_last (c : ascii) (s : string) : option string :=
  match s with
  | EmptyString => None
  | String d s =>
      match before_last c s with
      | Some rest => Some (String d rest)
      | None => if Ascii.eqb d c then Some EmptyString else None
      end
  end.
Definition rsplit_parent (ptr : string) : string :=
  match before_last "/" ptr with Some parent => parent | None => ptr end.

(** The pointer and its ancestors, nearest first, without the document root. A
    pointer is no shorter than its ancestors are many. *)
Fixpoint ancestors_loop (fuel : nat) (ptr : string) : list string :=
  match fuel, ptr with
  | S fuel, String _ _ => ptr :: ancestors_loop fuel (rsplit_parent ptr)
  | _, _ => []
  end.
Definition _ancestors (ptr : string) : list string := ancestors_loop (String.length ptr) ptr.

Definition clash_at (own : Write) (m : Merger) (scope : string) : Merger :=
  match filter (λ w, w_kind w = w_delete) (_others scope (w_origin own) m) with
  | [] => m
  | deletes => _flag scope (deletes ++ [own]) m
  end.

Definition _delete_clash (ptr : string) (own : Write) (m : Merger) : Merger :=
  foldl (clash_at own) m (_ancestors ptr).

(** The pointer or one below it. *)
Definition at_or_below (ptr path : string) : bool :=
  String.eqb path ptr || startswith (ptr +:+ "/") path.

(** The log of one group at or below a pointer, in the order of its paths. *)
Definition writes_below (ptr : string) (o : Origin) (m : Merger) : list (string * list Write) :=
  sort_keys ((λ kw, (kw.1.1, kw.2)) <$>
    filter (λ kw, kw.1.2 = group o ∧ at_or_below ptr kw.1.1 = true) (map_to_list (m_log m))).

Definition clash_below (ptr : string) (own : Write) (m : Merger) (entry : string * list Write)
    : Merger :=
  match filter (λ w, o_layer_id (w_origin w) ≠ o_layer_id (w_origin own) ∧ w_kind w ≠ w_delete)
          entry.2 with
  | [] => m
  | hits => _flag ptr (hits ++ [own]) m
  end.

Definition _write_clash (ptr : string) (own : Write) (m : Merger) : Merger :=
  foldl (clash_below ptr own) m (writes_below ptr (w_origin own) m).

(** ** Provenance *)

Definition _note (ptr : string) (o : Origin) (value : json) (keep_contributors : bool) (m : Merger)
    : Merger :=
  let current := m_prov m !! ptr in
  let shadowed := match current with
                  | Some p => pv_shadowed p ++ [MkShadow (pv_origin p) (pv_value p)]
                  | None => []
                  end in
  let contributors := match current with
                      | Some p => if keep_contributors then pv_contributors p else []
                      | None => []
                      end in
  with_tombs (delete ptr)
    (with_prov <[ptr := MkProvenance o value shadowed (contributors ++ [o])]> m).

Definition tombstone_of (o : Origin) (p : Provenance) : Tombstone :=
  MkTombstone (with_op "delete" o) (pv_shadowed p ++ [MkShadow (pv_origin p) (pv_value p)]).

(** [tombs.setdefault(ptr, tombstone)]. *)
Definition set_default_tomb (ptr : string) (o : Origin) (tombs : gmap string Tombstone) :=
  match tombs !! ptr with
  | Some _ => tombs
  | None => <[ptr := MkTombstone (with_op "delete" o) []]> tombs
  end.

(** Everything at or below the path leaves the provenance for the tombstones. *)
Definition _tombstone (path : Path) (o : Origin) (m : Merger) : Merger :=
  let ptr := pointer path in
  let gone := filter (λ kp, at_or_below ptr kp.1 = true) (m_prov m) in
  with_prov (filter (λ kp, at_or_below ptr kp.1 = false))
    (with_tombs (λ tombs, set_default_tomb ptr o ((tombstone_of o <$> gone) ∪ tombs)) m).

Definition element_pointer `{Runtime} (ptr : string) (item : json) : string :=
  ptr +:+ "/" +:+ element_segment (py_str item).

Definition _tombstone_element `{Runtime} (ptr : string) (item : json) (o : Origin) (m : Merger)
    : Merger :=
  let element_ptr := element_pointer ptr item in
  let current := m_prov m !! element_ptr in
  with_tombs <[element_ptr := match current with
                              | Some p => tombstone_of o p
                              | None => MkTombstone (with_op "delete" o) []
                              end]>
    (with_prov (delete element_ptr) m).

(** [self.prov[element_ptr] = Provenance(origin.with_op("add"), item, (origin,))]. *)
Definition add_element_prov `{Runtime} (ptr : string) (o : Origin) (m : Merger) (item : json)
    : Merger :=
  with_prov <[element_pointer ptr item := MkProvenance (with_op "add" o) item [] [o]]> m.

(** One more contributor of an element whose provenance is known. *)
Definition contribute `{Runtime} (ptr : string) (o : Origin) (item : json) (m : Merger) : Merger :=
  with_prov (alter (λ p, MkProvenance (pv_origin p) (pv_value p) (pv_shadowed p)
                           (pv_contributors p ++ [o])) (element_pointer ptr item)) m.

(** ** Containers *)

(** [list(base.get(key, []))]: a container's list, or the keys of a dict, the
    characters of a text. *)
Definition py_list (value : json) : result config_error (list json) :=
  match value with
  | JList l => Ok l
  | JObj fields => Ok (JStr <$> fields.*1)
  | JStr s => Ok ((λ c, JStr (String c "")) <$> String.list_ascii_of_string s)
  | _ => Raise (PyError "TypeError" "object is not iterable")
  end.

Definition list_in (base : dict) (key : string) : result config_error (list json) :=
  match assoc_get key base with Some value => py_list value | None => Ok [] end.

Section operations.
Context `{Runtime} `{IpText}.

Definition _canon_value (spec : FieldSpec) (value : json) : result config_error json :=
  match canonicalise spec value with
  | Raise (PyError "ValueError" exc) | Raise (PyError "TypeError" exc) =>
      Raise (MergeError "" ("invalid value " +:+ py_repr value +:+ ": " +:+ exc))
  | r => r
  end.

(** Elements of [before] first, then the rest in the order of their text. *)
Definition text_leb : json → json → bool := leb_on py_str String.leb.
Definition by_text (l : list json) : list json := py_sorted text_leb l.
Definition _stable (items before : list json) : list json :=
  filter (λ item, py_in item items = true) before
    ++ by_text (filter (λ item, py_in item before = false) items).

(** [set(map(str, a)) & set(map(str, b))]. *)
Definition texts_meet (a b : list json) : bool :=
  existsb (λ x, existsb (λ y, String.eqb (py_str x) (py_str y)) b) a.

(** ** Scalars *)

(** The incumbent keeps a restrictive field when it is at least as secure. *)
Definition incumbent_stays (spec : FieldSpec) (old new : json) : result config_error bool :=
  if String.eqb (canonical_json old) (canonical_json new) then Ok false
  else
    old_rank ← security_rank spec old;
    new_rank ← security_rank spec new;
    Ok (old_rank <=? new_rank)%nat.

Definition is_restrictive_scalar (spec : FieldSpec) : bool :=
  bool_decide (fs_tie spec = tie_restrictive)
  && bool_decide (fs_access spec ∈ [secure_bool; ordered]).

Definition same_group (p : option Provenance) (o : Origin) : bool :=
  match p with Some p => bool_decide (group (pv_origin p) = group o) | None => false end.

Definition _assign (base : dict) (key ptr : string) (spec : FieldSpec) (value : json) (o : Origin)
    : MergeST dict :=
  new ← (match value with
         | JNull =>
             if fs_nullable spec then mret JNull
             else raise (MergeError ptr "null is not allowed on a non-nullable field")
         | _ => lift (_canon_value spec value)
         end);
  let own := Write_of o w_set new in
  _ ← modify (_delete_clash ptr own);
  others ← gets (λ m, filter (λ w, w_kind w = w_set) (_others ptr o m));
  _ ← modify (_record ptr own);
  current ← gets (λ m, m_prov m !! ptr);
  stays ← (if negb (bool_decide (length others = 0)) && same_group current o then
             if is_restrictive_scalar spec then
               lift (incumbent_stays spec (default JNull (assoc_get key base)) new)
             else
               _ ← (if existsb (λ w, negb (String.eqb (canonical_json (w_value w))
                                             (canonical_json new))) others
                    then modify (_flag ptr (others ++ [own])) else mret tt);
               mret false
           else mret false);
  if (stays : bool) then
    _ ← modify (with_prov (alter (λ p, MkProvenance (pv_origin p) (pv_value p)
           (pv_shadowed p ++ [MkShadow o new]) (pv_contributors p ++ [o])) ptr));
    mret base
  else
    _ ← modify (_note ptr o new false);
    mret (assoc_set key new base).

Definition _delete (base : dict) (key : string) (path : Path) (o : Origin) : MergeST dict :=
  let ptr := pointer path in
  let own := Write_of o w_delete DELETED_VALUE in
  _ ← modify (_write_clash ptr own);
  _ ← modify (_record ptr own);
  if assoc_mem key base then
    _ ← modify (_tombstone path o);
    mret (assoc_del key base)
  else
    _ ← modify (with_lint ("noop_delete " +:+ ptr));
    _ ← modify (with_tombs (set_default_tomb ptr o));
    mret base.

(** ** Lists *)

Definition list_mix_clash (own other : Write) : bool :=
  match w_kind own, w_kind other with
  | w_replace, w_replace =>
      negb (String.eqb (canonical_json (w_value own)) (canonical_json (w_value other)))
  | k, k' =>
      if bool_decide (k ≠ k') then true
      else texts_meet (w_add own) (w_remove other) || texts_meet (w_remove own) (w_add other)
  end.

(** Equal-rank mixes: only additions with additions, and removals with
    removals, agree. *)
Definition _flag_list_mix (ptr : string) (others : list Write) (own : Write) (m : Merger) : Merger :=
  if existsb (list_mix_clash own) others then _flag ptr (others ++ [own]) m else m.

Definition strictly_below (ptr path : string) : bool := startswith (ptr +:+ "/") path.

Definition _apply_replace (base : dict) (key ptr : string) (spec : FieldSpec) (new : list json)
    (o : Origin) : MergeST dict :=
  _ ← modify (with_prov (filter (λ kp, strictly_below ptr kp.1 = false)));
  _ ← modify (_note ptr (with_op "set" o) (JList new) false);
  _ ← (if bool_decide (fs_strategy spec = Some strategy_union)
       then modify (λ m, foldl (add_element_prov ptr o) m new) else mret tt);
  mret (assoc_set key (JList new) base).

(** [l.remove(x)]: the first element equal to [x]. *)
Fixpoint remove_first (x : json) (l : list json) : list json :=
  match l with
  | [] => []
  | y :: l => if py_eq y x then l else y :: remove_first x l
  end.

Definition relative_remove (ptr : string) (o : Origin) (st : list json * Merger) (item : json)
    : list json * Merger :=
  let '(current, m) := st in
  if py_in item current then (remove_first item current, _tombstone_element ptr item o m)
  else (current, with_lint ("noop_remove " +:+ element_pointer ptr item) m).

Definition relative_add (ptr : string) (o : Origin) (st : list json * Merger) (item : json)
    : list json * Merger :=
  let '(current, m) := st in
  if py_in item current then (current, contribute ptr o item m)
  else (current ++ [item],
        add_element_prov ptr o (with_tombs (delete (element_pointer ptr item)) m) item).

Definition _apply_relative (base : dict) (key ptr : string) (o : Origin) (add remove : list json)
    : MergeST dict :=
  current ← lift (list_in base key);
  m ← gets (λ m : Merger, m);
  let '(current, m) := foldl (relative_remove ptr o) (current, m) remove in
  let '(current, m) := foldl (relative_add ptr o) (current, m) add in
  _ ← modify (λ _, _note ptr (with_op "merge" o) (JList current) true m);
  mret (assoc_set key (JList current) base).

(** The elements a replacing write holds. *)
Definition write_list (w : Write) : list json :=
  match w_value w with JList l => l | _ => [] end.

Fixpoint dedupe (items unique : list json) : list json :=
  match items with
  | [] => unique
  | item :: items =>
      if py_in item unique then dedupe items unique else dedupe items (unique ++ [item])
  end.

(** [[e for e in adds if e not in view and ...]], the view being fixed. *)
Definition restrictive_view (access : AccessKind) (before adds removes : list json) : list json :=
  match access with
  | allow_list =>
      let view := filter (λ e, py_in e removes = false) before in
      view ++ filter (λ e, py_in e view = false ∧ py_in e removes = false) adds
  | _ =>
      let view := filter (λ e, negb (py_in e removes) || py_in e adds = true) before in
      view ++ filter (λ e, py_in e view = false) adds
  end.

(** The list a group of equal-rank writes leaves in a restrictive field. *)
Definition restrictive_result (access : AccessKind) (before : list json) (writes : list Write)
    : list json :=
  let writes := filter (λ w, w_kind w ≠ w_delete) writes in
  let replaces := write_list <$> filter (λ w, w_kind w = w_replace) writes in
  let relative := filter (λ w, w_kind w = w_relative) writes in
  let view := restrictive_view access before (relative ≫= w_add) (relative ≫= w_remove) in
  let views := (match relative with [] => [] | _ => [view] end) ++ replaces in
  let result :=
    match access with
    | allow_list => filter (λ e, forallb (py_in e) (drop 1 views) = true) (default [] (head views))
    | _ => concat views
    end in
  _stable (dedupe result []) before.

Definition settle_element (ptr : string) (o : Origin) (previous contributed : list json)
    (m : Merger) (item : json) : Merger :=
  if negb (py_in item previous) then
    add_element_prov ptr o (with_tombs (delete (element_pointer ptr item)) m) item
  else if py_in item contributed then contribute ptr o item m
  else m.

Definition drop_element (ptr : string) (o : Origin) (final : list json) (m : Merger) (item : json)
    : Merger :=
  if py_in item final then m else _tombstone_element ptr item o m.

Definition _resolve_restrictive (base : dict) (key ptr : string) (spec : FieldSpec) (o : Origin)
    (own : Write) : MergeST dict :=
  writes ← gets (_all_group_writes ptr o);
  before ← gets (λ m, default [] (m_before m !! (ptr, group o)));
  let final := restrictive_result (fs_access spec) before writes in
  previous ← lift (list_in base key);
  _ ← modify (λ m, foldl (drop_element ptr o final) m previous);
  let contributed :=
    if bool_decide (w_kind own = w_replace) then w_add own ++ write_list own else w_add own in
  _ ← modify (λ m, foldl (settle_element ptr o previous contributed) m final);
  _ ← modify (_note ptr (with_op "merge" o) (JList final) true);
  mret (assoc_set key (JList final) base).

(** One layer's whole-list write ([Some] replacement), or its [$add] and
    [$remove]. *)
Definition list_write (o : Origin) (replacement : option (list json)) (add remove : list json)
    : Write :=
  match replacement with
  | Some new => MkWrite o w_replace (JList new) add remove
  | None => MkWrite o w_relative (JObj [("$add", JList add); ("$remove", JList remove)]) add remove
  end.

Definition is_restrictive_list (spec : FieldSpec) : bool :=
  bool_decide (fs_tie spec = tie_restrictive)
  && bool_decide (fs_access spec ∈ [allow_list; deny_list]).

(** The list as it stood before the first write of the group. *)
Definition remember_before (base : dict) (key ptr : string) (o : Origin) : MergeST unit :=
  known ← gets (λ m, m_before m !! (ptr, group o));
  match known with
  | Some _ => mret tt
  | None =>
      before ← lift (list_in base key);
      modify (with_before <[(ptr, group o) := before]>)
  end.

Definition _list_op (base : dict) (key ptr : string) (spec : FieldSpec) (o : Origin)
    (replacement : option (list json)) (add remove : list json) : MergeST dict :=
  let own := list_write o replacement add remove in
  _ ← modify (_delete_clash ptr own);
  others ← gets (λ m, filter (λ w, w_kind w ≠ w_delete) (_others ptr o m));
  _ ← remember_before base key ptr o;
  _ ← modify (_record ptr own);
  if negb (bool_decide (length others = 0)) && is_restrictive_list spec then
    _resolve_restrictive base key ptr spec o own
  else
    _ ← modify (if bool_decide (length others = 0) then id else _flag_list_mix ptr others own);
    match replacement with
    | Some new => _apply_replace base key ptr spec new o
    | None => _apply_relative base key ptr o add remove
    end.

Definition _replace_list (base : dict) (key ptr : string) (spec : FieldSpec) (value : json)
    (o : Origin) : MergeST dict :=
  match value with
  | JObj fields =>
      _ ← lift (check_directive_keys fields [] ptr);
      raise (MergeError ptr "a replace list takes a plain list")
  | JList l =>
      new ← lift (map_result (_canon_value spec) l);
      _list_op base key ptr spec o (Some new) [] []
  | _ => raise (MergeError ptr "a list is required")
  end.

(** The canonical elements of a [$replace], without repetition. *)
Fixpoint canon_unique (spec : FieldSpec) (items acc : list json) : result config_error (list json) :=
  match items with
  | [] => Ok acc
  | item :: items =>
      canon ← _canon_value spec item;
      canon_unique spec items (if py_in canon acc then acc else acc ++ [canon])
  end.

Definition _union_list (base : dict) (key ptr : string) (spec : FieldSpec) (value : json)
    (o : Origin) : MergeST dict :=
  patch ← lift (parse_union_patch value ptr);
  add ← lift (map_result (_canon_value spec) (up_add patch));
  remove ← lift (map_result (_canon_value spec) (up_remove patch));
  _ ← lift (raise_if (texts_meet add remove)
        (MergeError ptr "the same element is in $add and $remove"));
  match up_replace patch with
  | Some items =>
      replacement ← lift (canon_unique spec items []);
      _list_op base key ptr spec o (Some replacement) [] []
  | None => _list_op base key ptr spec o None add remove
  end.

(** ** Keyed lists *)

(** [x[k]] of an element. *)
Definition py_getitem (x : json) (k : string) : result config_error json :=
  match x with
  | JObj fields =>
      match assoc_get k fields with
      | Some v => Ok v
      | None => Raise (PyError "KeyError" (py_repr_str k))
      end
  | _ => Raise (PyError "TypeError" "object is not subscriptable by a key")
  end.

(** [elements[str(existing[spec.key])] = existing], over the current list. *)
Fixpoint index_elements (field : string) (l : list json) (elements : dict)
    : result config_error dict :=
  match l with
  | [] => Ok elements
  | x :: l =>
      k ← py_getitem x field;
      index_elements field l (assoc_set (py_str k) x elements)
  end.

(** The items of a keyed patch, and whether they replace the list. *)
Definition keyed_items (value : json) (ptr : string) : result config_error (list json * bool) :=
  match value with
  | JObj fields =>
      _ ← check_directive_keys fields [REPLACE] ptr;
      match fields with
      | [(_, JList items)] =>
          _ ← raise_if (negb (assoc_mem REPLACE fields))
                (MergeError ptr ("a keyed patch is a list or {" +:+ String quote_char
                   ("$replace" +:+ String quote_char ": [...]}")));
          Ok (items, true)
      | _ => Raise (MergeError ptr ("a keyed patch is a list or {" +:+ String quote_char
                   ("$replace" +:+ String quote_char ": [...]}")))
      end
  | JList items => Ok (items, false)
  | _ => Raise (MergeError ptr "a keyed field takes a list of objects")
  end.

(** The canonical keys of the items, in order and without repetition. *)
Fixpoint canon_keys (key_spec : FieldSpec) (field ptr : string) (items : list json)
    (seen : list string) : result config_error (list string) :=
  match items with
  | [] => Ok seen
  | item :: items =>
      raw ← (match item with
             | JObj fields => Ok (assoc_get field fields)
             | _ => Ok None
             end);
      match raw with
      | None => Raise (MergeError ptr ("every element needs its key field " +:+ py_repr_str field))
      | Some raw =>
          canon ← _canon_value key_spec raw;
          _ ← raise_if (bool_decide (py_str canon ∈ seen))
                (MergeError ptr ("duplicate key " +:+ py_repr_str (py_str canon) +:+ " in one patch"));
          canon_keys key_spec field ptr items (seen ++ [py_str canon])
      end
  end.

(** [canonical_json(sorted(keys))]. *)
Definition sorted_keys_text (value : json) : string :=
  match value with JList l => canonical_json (JList (by_text l)) | _ => canonical_json value end.

Definition keyed_clash (own other : Write) : bool :=
  (bool_decide (w_kind own = w_replace) || bool_decide (w_kind other = w_replace))
  && (bool_decide (w_kind own ≠ w_kind other)
      || negb (String.eqb (sorted_keys_text (w_value other)) (sorted_keys_text (w_value own)))).

(** [item.get("$delete") is True and len(item) == 2]. *)
Definition is_element_delete (item : dict) : bool :=
  match assoc_get DELETE item with Some (JBool true) => (length item =? 2)%nat | _ => false end.

Definition delete_element (path : Path) (canon_key : string) (o : Origin) (elements : dict)
    : MergeST dict :=
  let element_path := path ++ [canon_key] in
  let own := Write_of o w_delete DELETED_VALUE in
  _ ← modify (_write_clash (pointer element_path) own);
  _ ← modify (_record (pointer element_path) own);
  if assoc_mem canon_key elements then
    _ ← modify (_tombstone element_path o);
    mret (assoc_del canon_key elements)
  else
    _ ← modify (with_lint ("noop_delete " +:+ pointer element_path));
    mret elements.

(** A new element of a keyed list, recorded and noted. *)
Definition create_element (path : Path) (field canon_key : string) (o : Origin) : MergeST dict :=
  let element_path := path ++ [canon_key] in
  let element_ptr := pointer element_path in
  let own := Write_of o w_set (JStr canon_key) in
  _ ← modify (_delete_clash element_ptr own);
  _ ← modify (_record element_ptr own);
  _ ← modify (_note element_ptr (with_op "add" o) (JStr canon_key) false);
  _ ← modify (_note (pointer (element_path ++ [field])) (with_op "add" o) (JStr canon_key) false);
  _ ← modify (with_tombs (delete element_ptr));
  mret [(field, JStr canon_key)].

(** [(e.get(field) is None, str(e.get(field, "")))], ascending and stable. *)
Definition order_key (field : string) (e : json) : bool * string :=
  match e with
  | JObj fields =>
      match assoc_get field fields with
      | None => (true, "")
      | Some JNull => (true, py_str JNull)
      | Some v => (false, py_str v)
      end
  | _ => (true, "")
  end.
Definition order_key_leb (a b : bool * string) : bool :=
  if Bool.eqb a.1 b.1 then String.leb a.2 b.2 else b.1.
Definition sort_elements (order : option string) (l : list json) : list json :=
  match order with
  | Some field =>
      if str_truthy field then py_sorted (leb_on (order_key field) order_key_leb) l else l
  | None => l
  end.

(** The merge of one element of a keyed patch; [merge_fields] merges the fields
    of the item other than its key into the element. *)
Definition keyed_element (merge_fields : json → dict → Path → MergeST dict) (field : string)
    (path : Path) (o : Origin) (elements : dict) (item : json) (canon_key : string) : MergeST dict :=
  match item with
  | JObj fields =>
      let element_path := path ++ [canon_key] in
      if is_element_delete fields then delete_element path canon_key o elements
      else if existsb (λ k, negb (String.eqb k field) && startswith "$" k) fields.*1 then
        raise (MergeError (pointer element_path) "only {key, $delete: true} is a directive here")
      else
        element ← (match assoc_get canon_key elements with
                   | Some (JObj element) => mret element
                   | Some _ => raise (PyError "TypeError" "object does not support item assignment")
                   | None => create_element path field canon_key o
                   end);
        element ← merge_fields item element element_path;
        mret (assoc_set canon_key (JObj element) elements)
  | _ => raise (PyError "TypeError" "object is not a mapping")
  end.

(** The elements of a patch with their canonical keys, one by one. *)
Definition keyed_loop (merge_fields : json → dict → Path → MergeST dict) (field : string)
    (path : Path) (o : Origin) :=
  fix go (items : list json) (keys : list string) (elements : dict) : MergeST dict :=
    match items, keys with
    | item :: items, canon_key :: keys =>
        elements ← keyed_element merge_fields field path o elements item canon_key;
        go items keys elements
    | _, _ => mret elements
    end.

Definition _keyed_list (specs : SpecIndex) (merge_fields : string → json → dict → Path → MergeST dict)
    (base : dict) (key : string) (path : Path) (spec : FieldSpec) (value : json) (o : Origin)
    : MergeST dict :=
  let ptr := pointer path in
  match fs_key spec with
  | None => raise (PyError "AssertionError" "")
  | Some field =>
      match lookup_spec specs (path ++ [WILDCARD; field]) with
      | None => raise (MergeError ptr ("no field spec for the key field " +:+ field))
      | Some key_spec =>
          current ← lift (list_in base key);
          elements ← lift (index_elements field current []);
          parsed ← lift (keyed_items value ptr);
          keys_now ← lift (canon_keys key_spec field ptr parsed.1 []);
          let own := Write_of o (if (parsed.2 : bool) then w_replace else w_merge)
                       (JList (JStr <$> keys_now)) in
          _ ← modify (_delete_clash ptr own);
          others ← gets (λ m, filter (λ w, w_kind w ≠ w_delete) (_others ptr o m));
          _ ← modify (_record ptr own);
          elements ← (if (parsed.2 : bool) then
                        _ ← modify (λ m, foldl (λ m k, _tombstone (path ++ [k]) o m) m elements.*1);
                        mret []
                      else mret elements);
          _ ← modify (if existsb (keyed_clash own) others then _flag ptr (others ++ [own]) else id);
          elements ←
            match value with
            | JList items | JObj [(_, JList items)] =>
                keyed_loop (merge_fields field) field path o items keys_now elements
            | _ => mret elements
            end;
          let ordered := sort_elements (fs_order spec) elements.*2 in
          shown ← lift (map_result (λ e, py_getitem e field) ordered);
          _ ← modify (_note ptr (with_op "merge" o) (JList shown) true);
          mret (assoc_set key (JList ordered) base)
      end
  end.

(** ** Objects *)

Definition is_mapping (value : json) : bool := match value with JObj _ => true | _ => false end.
Definition is_sequence (value : json) : bool := match value with JList _ => true | _ => false end.

(** The dict under a key, or a new one. *)
Definition sub_dict (base : dict) (key : string) : dict :=
  match assoc_get key base with Some (JObj sub) => sub | _ => [] end.

(** One key of a patch; [merge_fields skip] merges the fields of a nested
    object, other than [skip]. *)
Definition merge_entry (specs : SpecIndex)
    (merge_fields : option string → json → dict → Path → MergeST dict)
    (base : dict) (path : Path) (o : Origin) (key : string) (value : json) : MergeST dict :=
  let child := path ++ [key] in
  let ptr := pointer child in
  _ ← lift (raise_if (startswith "$" key)
        (MergeError ptr ("directive " +:+ key +:+ " is not valid here")));
  match lookup_spec specs child with
  | None => raise (MergeError ptr "no field spec for this path")
  | Some spec =>
      deleted ← lift (is_delete value);
      if (deleted : bool) then _delete base key child o
      else match fs_kind spec with
      | kind_object | kind_map =>
          if negb (is_mapping value) then raise (MergeError ptr "an object is required")
          else if negb (py_truthy value) then mret base
          else
            sub ← merge_fields None value (sub_dict base key) child;
            mret (assoc_set key (JObj sub) base)
      | kind_scalar =>
          if is_mapping value || is_sequence value then raise (MergeError ptr "a scalar is required")
          else _assign base key ptr spec value o
      | kind_list =>
          match fs_strategy spec with
          | None => raise (PyError "AssertionError" "")
          | Some strategy_replace => _replace_list base key ptr spec value o
          | Some strategy_union => _union_list base key ptr spec value o
          | Some strategy_keyed =>
              _keyed_list specs (λ field, merge_fields (Some field)) base key child spec value o
          end
      end
  end.

(** The loop over the keys of a patch, other than [skip]: the key field of an
    element of a keyed list. *)
Fixpoint _merge_object (specs : SpecIndex) (o : Origin) (skip : option string) (patch : json)
    (base : dict) (path : Path) {struct patch} : MergeST dict :=
  match patch with
  | JObj fields =>
      (fix go (fields : dict) (base : dict) : MergeST dict :=
         match fields with
         | [] => mret base
         | (key, value) :: fields =>
             base ← (if bool_decide (skip = Some key) then mret base
                     else merge_entry specs (_merge_object specs o) base path o key value);
             go fields base
         end) fields base
  | _ => raise (PyError "AttributeError" "items")
  end.

(** ** The public operations *)

Definition merge_patch (specs : SpecIndex) (patch : json) (o : Origin) : MergeST unit :=
  _ ← lift (raise_if (negb (is_mapping patch)) (MergeError "" "params must be an object"));
  values ← gets m_values;
  values ← _merge_object specs o None patch values [];
  modify (with_values values).

Definition set_mode (mode : string) (o : Origin) : MergeST unit :=
  meta ← gets m_meta;
  meta ← _assign meta "mode" MODE_POINTER (FieldSpec_of_kind kind_scalar) (JStr mode) o;
  modify (with_meta meta).

Definition mode (m : Merger) : option string :=
  match assoc_get "mode" (m_meta m) with Some (JStr s) => Some s | _ => None end.

(** [setdefault] down the path, then the assignment. *)
Fixpoint set_path (container : dict) (path : Path) (value : json) : result config_error dict :=
  match path with
  | [] => Raise (PyError "IndexError" "tuple index out of range")
  | [segment] => Ok (assoc_set segment value container)
  | segment :: path =>
      sub ← (match assoc_get segment container with
             | None => Ok []
             | Some (JObj sub) => Ok sub
             | Some _ => Raise (PyError "AttributeError" "setdefault")
             end);
      sub ← set_path sub path value;
      Ok (assoc_set segment (JObj sub) container)
  end.

Definition set_derived (path : Path) (value : json) (o : Origin) : MergeST unit :=
  values ← gets m_values;
  values ← lift (set_path values path value);
  _ ← modify (with_values values);
  modify (_note (pointer path) o value false).

Fixpoint origin_loop (fuel : nat) (prov : gmap string Provenance) (ptr : string) : option Origin :=
  match prov !! ptr with
  | Some p => Some (pv_origin p)
  | None =>
      match fuel, ptr with
      | S fuel, String _ _ => origin_loop fuel prov (rsplit_parent ptr)
      | _, _ => None
      end
  end.
Definition origin_for (ptr : string) (m : Merger) : option Origin :=
  origin_loop (String.length ptr) (m_prov m) ptr.

(** [merge_all]: the patches in order into a new merger. *)
Fixpoint merge_patches (specs : SpecIndex) (patches : list (json * Origin)) : MergeST unit :=
  match patches with
  | [] => mret tt
  | (patch, o) :: patches =>
      _ ← merge_patch specs patch o;
      merge_patches specs patches
  end.
Definition merge_all (specs : SpecIndex) (patches : list (json * Origin))
    : result config_error unit * Merger :=
  merge_patches specs patches Merger_new.
End operations.
