(* ===== verification/ConfigLayers.v ===== *)
(** * Layers, exceptions, and the order they are composed in

    [dotmac_config_layers/layers.py] and [exceptions.py], the first and fourth
    steps of [compose] in [compose.py] (which layers and exceptions apply, in
    which order), [mode_widening] of [widening.py], and the order of derived
    rules of [derive.py]. *)

From S2P Require Import Prelude PyData PyTime ConfigDocument.
From stdpp Require Import base gmap strings pretty list sorting.
From Stdlib Require Import ZArith NArith Ascii.

(** ** Tiers, layers and subjects *)

Record TierSpec : Type := MkTierSpec {
  ts_name : string;
  ts_rank : Z;
  ts_weight_band : Z * Z;
  ts_allowed_dims : list string;
  ts_require_any : list string;
  ts_kind_bands : list (string * (Z * Z));
}.

Record Layer : Type := MkLayer {
  ly_id : string;
  ly_tier : string;
  ly_name : string;
  ly_weight : Z;
  ly_criteria : list (string * list string);
  ly_active : bool;
  ly_kind : option string;
}.

Record LayerRevision : Type := MkLayerRevision {
  lr_layer : Layer;
  lr_revision : Z;
  lr_document : json;
  lr_activated_at : option string;
}.

Record Subject : Type := MkSubject {
  su_key : string;
  su_dims : gmap string (gset string);
  su_facts : dict;
}.

(** [repr] of a list of strings and of a pair of integers. *)
Definition repr_strs (l : list string) : string := "[" +:+ str_join ", " (py_repr_str <$> l) +:+ "]".
Definition repr_band (band : Z * Z) : string :=
  "(" +:+ pretty band.1 +:+ ", " +:+ pretty band.2 +:+ ")".

(** [sorted] of the distinct elements of a list of strings. *)
Definition sorted_strs (l : list string) : list string :=
  py_sorted String.leb (elements (list_to_set l : gset string)).

Definition validate_layer_meta (tier : TierSpec) (layer : Layer) : list string :=
  let where_ := "layer " +:+ ly_name layer +:+ ": " in
  let '(band, kind_issues) :=
    match ts_kind_bands tier with
    | [] => (ts_weight_band tier, [])
    | bands =>
        match ly_kind layer ≫= λ kind, assoc_get kind bands with
        | Some band => (band, [])
        | None => (ts_weight_band tier,
                   [where_ +:+ "kind must be one of " +:+ repr_strs (sorted_strs bands.*1)])
        end
    end in
  let used := (filter (λ c, length c.2 ≠ 0) (ly_criteria layer)).*1 in
  let stray := sorted_strs (filter (λ d, d ∉ ts_allowed_dims tier) (ly_criteria layer).*1) in
  kind_issues
  ++ (if ((band.1 <=? ly_weight layer) && (ly_weight layer <=? band.2))%Z then []
      else [where_ +:+ "weight " +:+ pretty (ly_weight layer) +:+ " outside " +:+ repr_band band])
  ++ (match stray with
      | [] => []
      | _ => [where_ +:+ "criteria " +:+ repr_strs stray +:+ " not allowed at tier " +:+ ts_name tier]
      end)
  ++ (match ts_allowed_dims tier, used with
      | [], _ :: _ => [where_ +:+ "tier " +:+ ts_name tier +:+ " takes no criteria"]
      | _, _ => []
      end)
  ++ (match ts_require_any tier with
      | [] => []
      | required =>
          if existsb (λ d, bool_decide (d ∈ required)) used then []
          else [where_ +:+ "tier " +:+ ts_name tier +:+ " needs one of " +:+ repr_strs required]
      end).

(** One criterion: open, or some wanted value is among the subject's. *)
Definition criterion_met (dims : gmap string (gset string)) (criterion : string * list string)
    : bool :=
  match criterion.2 with
  | [] => true
  | wanted => existsb (λ v, bool_decide (v ∈ default ∅ (dims !! criterion.1))) wanted
  end.

Definition layer_applies (layer : Layer) (subject : Subject) : bool :=
  ly_active layer && forallb (criterion_met (su_dims subject)) (ly_criteria layer).

(** [(tier.rank, layer.weight, layer.name, layer.id)], lexicographically. *)
Definition sort_key_leb : TierSpec * Layer → TierSpec * Layer → bool :=
  leb_then (leb_on (λ k, ts_rank k.1) Z.leb)
    (leb_then (leb_on (λ k, ly_weight k.2) Z.leb)
       (leb_then (leb_on (λ k, ly_name k.2) String.leb) (leb_on (λ k, ly_id k.2) String.leb))).

(** ** The layers that apply, in order *)

(** [plugin.tier(name)]. *)
Fixpoint plugin_tier (tiers : list TierSpec) (name : string) : result config_error TierSpec :=
  match tiers with
  | [] => Raise (PluginError ("unknown tier " +:+ py_repr_str name))
  | tier :: tiers => if String.eqb (ts_name tier) name then Ok tier else plugin_tier tiers name
  end.

(** The applicable revisions, each with its tier, in input order. *)
Fixpoint choose_loop (tiers : list TierSpec) (subject : Subject) (revisions : list LayerRevision)
    (seen_layers : list string) (chosen : list (TierSpec * LayerRevision))
    : result config_error (list (TierSpec * LayerRevision)) :=
  match revisions with
  | [] => Ok chosen
  | revision :: revisions =>
      let layer := lr_layer revision in
      tier ← plugin_tier tiers (ly_tier layer);
      if layer_applies layer subject then
        _ ← raise_if (bool_decide (ly_id layer ∈ seen_layers))
              (LayerError ["layer " +:+ ly_name layer +:+ ": more than one active revision"]);
        choose_loop tiers subject revisions (seen_layers ++ [ly_id layer])
          (chosen ++ [(tier, revision)])
      else choose_loop tiers subject revisions seen_layers chosen
  end.

Definition revision_leb : TierSpec * LayerRevision → TierSpec * LayerRevision → bool :=
  leb_on (λ r, (r.1, lr_layer r.2)) sort_key_leb.

Definition choose_layers (tiers : list TierSpec) (subject : Subject)
    (revisions : list LayerRevision) : result config_error (list (TierSpec * LayerRevision)) :=
  chosen ← choose_loop tiers subject revisions [] [];
  Ok (py_sorted revision_leb chosen).

(** ** Dated exceptions *)

Definition LAPSE_REPORT_DAYS : Z := 7.
Definition MAX_EXCEPTION_DAYS : Z := 180.
Definition MIN_REASON_CHARS : Z := 10.

Inductive ExceptionKind : Type := ex_override | ex_mode_override | ex_suppress | ex_annotation.
Inductive ExceptionState : Type :=
  | ex_active | ex_pending_approval | ex_revoked | ex_lapsed | ex_expired.

#[export] Instance ExceptionKind_eq_dec : EqDecision ExceptionKind.
Proof. solve_decision. Defined.
#[export] Instance ExceptionState_eq_dec : EqDecision ExceptionState.
Proof. solve_decision. Defined.

(** A [date] is its day number, counted from 1970-01-01. *)
Definition date : Type := Z.
Definition DATE_MIN : date := (-719162)%Z.
Definition DATE_MAX : date := 2932896%Z.

Definition date_isoformat (d : date) : string :=
  let '(y, m, day) := civil_of_days d in zpad 4 y +:+ "-" +:+ zpad 2 m +:+ "-" +:+ zpad 2 day.

(** [d + timedelta(days=n)]. *)
Definition date_add (d : date) (n : Z) : result config_error date :=
  if ((DATE_MIN <=? d + n) && (d + n <=? DATE_MAX))%Z then Ok (d + n)%Z
  else Raise (PyError "OverflowError" "date value out of range").

Record ExceptionSpec : Type := MkExceptionSpec {
  ex_id : string;
  ex_module_key : string;
  ex_kind : ExceptionKind;
  ex_reason : string;
  ex_created_on : date;
  ex_until : option date;
  ex_subject_key : option string;
  ex_criteria : list (string * list string);
  ex_path : string;
  ex_patch : option json;
  ex_scope : option string;
  ex_mode : option string;
  ex_approved : bool;
  ex_is_revoked : bool;
  ex_permanent : bool;
}.

(** [(created_on.isoformat(), id)]. *)
Definition exception_leb : ExceptionSpec → ExceptionSpec → bool :=
  leb_then (leb_on (λ e, date_isoformat (ex_created_on e)) String.leb) (leb_on ex_id String.leb).

Definition exception_state (exc : ExceptionSpec) (today : date) (widening : bool)
    (lapse_report_days : Z) : result config_error ExceptionState :=
  let live := if widening && negb (ex_approved exc) then ex_pending_approval else ex_active in
  if ex_is_revoked exc then Ok ex_revoked
  else match ex_until exc with
       | Some until =>
           if (until <? today)%Z then
             limit ← date_add until lapse_report_days;
             Ok (if (today <=? limit)%Z then ex_lapsed else ex_expired)
           else Ok live
       | None => Ok live
       end.

Definition exception_applies (exc : ExceptionSpec) (subject_key : string)
    (dims : gmap string (gset string)) : bool :=
  match ex_subject_key exc with
  | Some key => String.eqb key subject_key
  | None =>
      forallb (criterion_met dims) (ex_criteria exc)
      && negb (bool_decide (length (ex_criteria exc) = 0))
  end.

Definition MODES : list string := ["enforce"; "observe"; "off"].

Definition basic_exception_issues (exc : ExceptionSpec) : result config_error (list string) :=
  let issue text := "exception " +:+ ex_id exc +:+ ": " +:+ text in
  dates ←
    (if ex_permanent exc then
       Ok [issue "permanent is only for adoption-mapping kinds, which do not exist yet"]
     else match ex_until exc with
          | None => Ok [issue "until is required"]
          | Some until =>
              limit ← date_add (ex_created_on exc) MAX_EXCEPTION_DAYS;
              Ok (if (limit <? until)%Z then
                    [issue ("until is more than " +:+ pretty MAX_EXCEPTION_DAYS +:+ " days out")]
                  else if (until <? ex_created_on exc)%Z then [issue "until precedes its creation"]
                  else [])
          end);
  Ok ((if (str_len (strip (ex_reason exc)) <? MIN_REASON_CHARS)%Z
       then [issue ("reason needs at least " +:+ pretty MIN_REASON_CHARS +:+ " characters")] else [])
      ++ (if Bool.eqb (bool_decide (ex_subject_key exc = None))
               (bool_decide (length (ex_criteria exc) = 0))
          then [issue "exactly one of subject or criteria is required"] else [])
      ++ dates
      ++ (if bool_decide (ex_kind exc = ex_override) && bool_decide (¬ is_Some (ex_patch exc))
          then [issue "override needs a patch"] else [])
      ++ (if bool_decide (ex_kind exc = ex_mode_override)
             && negb (match ex_mode exc with Some m => bool_decide (m ∈ MODES) | None => false end)
          then [issue "mode_override needs a valid mode"] else [])
      ++ (if bool_decide (ex_kind exc = ex_suppress)
             && negb (match ex_scope exc with Some s => str_truthy s | None => false end)
          then [issue "suppress needs a scope"] else [])).

Definition order_exceptions (exceptions : list ExceptionSpec) : list ExceptionSpec :=
  py_sorted exception_leb exceptions.

(** [rank(mode)] of [mode_widening]: lower is more secure. *)
Fixpoint index_of (x : string) (l : list string) : nat :=
  match l with
  | [] => 0
  | y :: l => if String.eqb y x then 0 else S (index_of x l)
  end.
Definition mode_rank (mode : string) : nat := index_of mode MODES.

Definition mode_widening (before after : option string) : bool :=
  match before, after with
  | Some before, Some after => (mode_rank before <? mode_rank after)%nat
  | _, _ => false
  end.
