(* ===== verification/ConfigDerive.v ===== *)
(** * The order of derived rules

    [dotmac_config_layers/derive.py]: derived values are computed after the
    values they read. [order_rules] is a depth-first search over the rules that
    write what a rule reads, in the order of their names. *)

From S2P Require Import Prelude PyData PyTime ConfigDocument ConfigLayers.
From stdpp Require Import base gmap strings pretty list sorting.
From Stdlib Require Import ZArith Ascii.

(** A rule input: a module with a pointer, or a subject fact (no module). *)
Record Ref : Type := MkRef { ref_module : option string; ref_path : string }.

(** [dr_fn] answers [None] where the source returns [NOT_DERIVED]. *)
Record DerivedRule : Type := MkDerivedRule {
  dr_name : string;
  dr_module : string;
  dr_target : string;
  dr_reads : list Ref;
  dr_fn : dict → option json;
}.

Definition _overlaps (a b : string) : bool :=
  String.eqb a b || startswith (b +:+ "/") a || startswith (a +:+ "/") b
  || String.eqb a "" || String.eqb b "".

(** The rule writes what the input reads. *)
Definition feeds (ref : Ref) (other : DerivedRule) : bool :=
  match ref_module ref with
  | None => false
  | Some m => String.eqb (dr_module other) m && _overlaps (ref_path ref) (dr_target other)
  end.

(** The rules whose targets a rule reads. *)
Definition sources (rules : list DerivedRule) (rule : DerivedRule) : list DerivedRule :=
  dr_reads rule ≫= λ ref, filter (λ other, feeds ref other = true) rules.

(** [deps[rule.name]] of every rule; a rule that reads its own target is an
    error. *)
Fixpoint collect_deps (all rules : list DerivedRule) (deps : gmap string (gset string))
    : result config_error (gmap string (gset string)) :=
  match rules with
  | [] => Ok deps
  | rule :: rules =>
      let names := dr_name <$> sources all rule in
      _ ← raise_if (bool_decide (dr_name rule ∈ names))
            (DerivationCycleError ("rule " +:+ dr_name rule +:+ " reads its own target"));
      collect_deps all rules (<[dr_name rule := list_to_set names]> deps)
  end.

Inductive VisitState : Type := visiting | visited.

Record Visit : Type := MkVisit {
  vs_state : gmap string VisitState;
  vs_ordered : list string;
}.

Definition ordered_set (s : gset string) : list string := py_sorted String.leb (elements s).

(** [visit(dep, stack)] for each of a list of names, in order. *)
Definition visit_all (visit : string → Visit → result config_error Visit) :=
  fix go (names : list string) (st : Visit) : result config_error Visit :=
    match names with
    | [] => Ok st
    | name :: names => st ← visit name st; go names st
    end.

(** The stack never holds a name twice, so it is no longer than the rules are
    many: [fuel] bounds its length. *)
Fixpoint visit (fuel : nat) (deps : gmap string (gset string)) (stack : list string)
    (name : string) (st : Visit) : result config_error Visit :=
  match vs_state st !! name with
  | Some visited => Ok st
  | Some visiting =>
      Raise (DerivationCycleError
        ("derived-field cycle: " +:+ str_join " -> " (stack ++ [name])))
  | None =>
      match fuel with
      | O => Raise (PyError "RecursionError" "maximum recursion depth exceeded")
      | S fuel =>
          let st := MkVisit (<[name := visiting]> (vs_state st)) (vs_ordered st) in
          st ← visit_all (visit fuel deps (stack ++ [name]))
                 (ordered_set (default ∅ (deps !! name))) st;
          Ok (MkVisit (<[name := visited]> (vs_state st)) (vs_ordered st ++ [name]))
      end
  end.

(** [by_name[name]]. *)
Fixpoint rule_named (rules : list DerivedRule) (name : string) : option DerivedRule :=
  match rules with
  | [] => None
  | rule :: rules => if String.eqb (dr_name rule) name then Some rule else rule_named rules name
  end.

Definition order_rules (rules : list DerivedRule) : result config_error (list DerivedRule) :=
  _ ← raise_if (bool_decide (¬ NoDup (dr_name <$> rules)))
        (DerivationCycleError "duplicate derived rule name");
  deps ← collect_deps rules rules ∅;
  st ← visit_all (visit (length rules) deps [])
         (ordered_set (list_to_set (dr_name <$> rules))) (MkVisit ∅ []);
  Ok (omap (rule_named rules) (vs_ordered st)).
