(* ===== verification/ConfigDefaults.v ===== *)
(** * Loosening a security posture; defaults, and the origin of every value

    [dotmac_config_layers/widening.py]: which changes of a field, of a mode or of
    a module's parameters grant more than before ([mode_widening] is in
    [ConfigLayers]). The tree utilities of [merge.py] and the defaults of
    [compose.py]: which values of a module must have a provenance, and the
    schema defaults that complete the merged values. *)

From S2P Require Import Prelude PyTime PyData ConfigDocument ConfigFields ConfigMerge ConfigLayers.
From stdpp Require Import base gmap strings pretty list.
From Stdlib Require Import ZArith Ascii.

(** [ipaddress.ip_network(text, strict=False)], [None] for a [ValueError], and
    [a.subnet_of(b)] of two networks of one version. *)
Class IpNetworks : Type := {
  network : Type;
  ip_network : string → option network;
  net_version : network → Z;
  subnet_of : network → network → bool;
}.

(** What [ipaddress] documents of networks of one version: containment. *)
Class IpNetworksLaws `(N : IpNetworks) : Prop := {
  subnet_refl a : subnet_of a a = true;
  subnet_trans a b c : net_version a = net_version b → net_version b = net_version c →
    subnet_of a b = true → subnet_of b c = true → subnet_of a c = true;
}.

(** [list(value or [])]. *)
Definition list_or_empty (value : json) : result config_error (list json) :=
  if py_truthy value then py_list value else Ok [].

Record WideningItem : Type := MkWideningItem {
  wi_path : string;
  wi_before : json;
  wi_after : json;
}.

Section widening.
Context `{Runtime} `{IpNetworks}.

Definition _network (value : json) : option network := ip_network (py_str value).

Definition _covers (outer inner : json) : bool :=
  match _network outer, _network inner with
  | Some a, Some b => (net_version a =? net_version b)%Z && subnet_of b a
  | _, _ => String.eqb (py_str outer) (py_str inner)
  end.

Definition _covered_by_any (element : json) (pool : list json) : bool :=
  existsb (λ candidate, _covers candidate element) pool.

(** [spec.secure], [None] when the field declares none. *)
Definition secure_value (spec : FieldSpec) : json :=
  match fs_secure spec with Some b => JBool b | None => JNull end.

Definition widening (spec : FieldSpec) (before after : json) : result config_error bool :=
  match fs_access spec with
  | neutral => Ok false
  | allow_list =>
      old ← list_or_empty before;
      new ← list_or_empty after;
      Ok (existsb (λ item, negb (_covered_by_any item old)) new)
  | deny_list =>
      old ← list_or_empty before;
      new ← list_or_empty after;
      Ok (existsb (λ item, negb (_covered_by_any item new)) old)
  | secure_bool =>
      Ok (py_eq before (secure_value spec) && negb (py_eq after (secure_value spec)))
  | ordered =>
      after_rank ← security_rank spec after;
      before_rank ← security_rank spec before;
      Ok (before_rank <? after_rank)%nat
  end.

Definition _fresh_before (spec : FieldSpec) : json :=
  match fs_access spec, fs_ranking spec with
  | secure_bool, _ => secure_value spec
  | ordered, most_secure :: _ => most_secure
  | _, _ => JNull
  end.

(** ** Two documents *)

Definition is_none (value : json) : bool := match value with JNull => true | _ => false end.
Definition as_map (value : json) : dict := match value with JObj fields => fields | _ => [] end.
(** [d.get(name)]. *)
Definition get_or_none (name : string) (fields : dict) : json :=
  default JNull (assoc_get name fields).
(** [(value or {}).get(name)]. *)
Definition member_of (value : json) (name : string) : result config_error json :=
  match value with
  | JObj fields => Ok (get_or_none name fields)
  | _ => if py_truthy value then Raise (PyError "AttributeError" "get") else Ok JNull
  end.

(** [{str(e[key]): e for e in value or []}]. *)
Definition elements_by_key (field : string) (value : json) : result config_error dict :=
  elements ← list_or_empty value;
  index_elements field elements [].

Definition key_union (a b : dict) : list string := sorted_strs (a.*1 ++ b.*1).

(** [concat] of the results of a loop that appends to one list. *)
Definition gather {A B} (f : A → result config_error (list B)) (l : list A)
    : result config_error (list B) :=
  parts ← map_result f l; Ok (concat parts).

(** What an unset field is compared as. *)
Definition standing_before (spec : FieldSpec) (old_v : json) (fresh : bool) : json :=
  if fresh then _fresh_before spec
  else if is_none old_v then
    match fs_default spec with DefaultValue d => d | _ => _fresh_before spec end
  else old_v.

(** One field of the two containers; [walk] goes into nested ones. *)
Definition walk_field (specs : SpecIndex)
    (walk : json → json → Path → bool → bool → result config_error (list WideningItem))
    (old_map new_map : dict) (path : Path) (fresh gone : bool) (name : string)
    : result config_error (list WideningItem) :=
  let child := path ++ [name] in
  match lookup_spec specs child with
  | None => Ok []
  | Some spec =>
      let old_v := get_or_none name old_map in
      let new_v := get_or_none name new_map in
      if is_none old_v && is_none new_v then Ok []
      else match fs_kind spec, fs_strategy spec with
      | kind_map, _ =>
          gather (λ member,
            member_old ← member_of old_v member;
            member_new ← member_of new_v member;
            walk member_old member_new (child ++ [member]) (fresh || is_none member_old)
              (gone || is_none member_new)) (key_union (as_map old_v) (as_map new_v))
      | kind_object, _ => walk old_v new_v child (fresh || is_none old_v) gone
      | kind_list, Some strategy_keyed =>
          match fs_key spec with
          | None => Raise (PyError "AssertionError" "")
          | Some field =>
              olds ← elements_by_key field old_v;
              news ← elements_by_key field new_v;
              gather (λ element,
                walk (get_or_none element olds) (get_or_none element news) (child ++ [element])
                  (fresh || negb (assoc_mem element olds)) (gone || negb (assoc_mem element news)))
                (key_union olds news)
          end
      | _, _ =>
          let before := standing_before spec old_v fresh in
          let after := if gone && is_none new_v then _fresh_before spec else new_v in
          wider ← widening spec before after;
          Ok (if (wider : bool) then [MkWideningItem (pointer child) before after] else [])
      end
  end.

(** The nested call is on values nested in the old or the new container, so
    [fuel] bounds the depth. *)
Fixpoint walk (fuel : nat) (specs : SpecIndex) (old new : json) (path : Path) (fresh gone : bool)
    : result config_error (list WideningItem) :=
  match fuel with
  | O => Raise (PyError "RecursionError" "maximum recursion depth exceeded")
  | S fuel =>
      gather (walk_field specs (walk fuel specs) (as_map old) (as_map new) path fresh gone)
        (key_union (as_map old) (as_map new))
  end.

Definition params_widening (specs : SpecIndex) (before after : dict)
    : result config_error (list WideningItem) :=
  walk (json_size (JObj before) + json_size (JObj after)) specs (JObj before) (JObj after) []
    false false.
End widening.

(** [SpecIndex.children]: the specifications one segment below a path, by
    name. *)
Definition child_spec (path : Path) (entry : Path * FieldSpec) : option (string * FieldSpec) :=
  if bool_decide (length entry.1 = S (length path)) && bool_decide (take (length path) entry.1 = path)
  then name ← last entry.1; Some (name, entry.2)
  else None.
Definition children (specs : SpecIndex) (path : Path) : list (string * FieldSpec) :=
  sort_keys (omap (child_spec path) (map_to_list specs)).

(** The number of segments of the longest path of the index. *)
Definition spec_depth (specs : SpecIndex) : nat :=
  foldr Nat.max 0 (length ∘ fst <$> map_to_list specs).

Definition _default_origin (module_key : string) (version : Z) : Origin :=
  MkOrigin "default" (-1) ("default:" +:+ module_key) (module_key +:+ "@" +:+ pretty version)
    version 0 "default" None [].

Fixpoint _get_path (values : json) (path : Path) : json :=
  match path with
  | [] => values
  | segment :: path =>
      match values with
      | JObj fields =>
          match assoc_get segment fields with Some value => _get_path value path | None => JNull end
      | _ => JNull
      end
  end.

(** The provenance of the merger and the missing required fields. *)
Definition Filling : Type := gmap string Provenance * list string.
Abbreviation FillST A := (ST Filling config_error A).

Section leaves.
Context `{Runtime}.

(** The elements a loop over a keyed list meets: each must have its key. *)
Definition keyed_elements (value : json) : result config_error (list json) :=
  match value with
  | JList l => Ok l
  | _ =>
      elements ← py_list value;
      match elements with
      | [] => Ok []
      | _ => Raise (PyError "TypeError" "string indices must be integers")
      end
  end.

(** [leaf_pointers.walk]. *)
Fixpoint leaf_walk (specs : SpecIndex) (container : json) (path : Path)
    : result config_error (list string) :=
  match container with
  | JObj fields =>
      (fix go (fields : dict) : result config_error (list string) :=
         match fields with
         | [] => Ok []
         | (name, value) :: fields =>
             let child := path ++ [name] in
             here ← (match lookup_spec specs child with
               | None => Ok []
               | Some spec =>
                   match fs_kind spec, fs_strategy spec with
                   | (kind_object | kind_map), _ =>
                       match value with JObj _ => leaf_walk specs value child | _ => Ok [] end
                   | kind_scalar, _ | kind_list, Some strategy_replace => Ok [pointer child]
                   | kind_list, Some strategy_union =>
                       items ← py_list value;
                       Ok (map (element_pointer (pointer child)) items)
                   | kind_list, _ =>
                       match fs_key spec, value with
                       | None, _ => Raise (PyError "AssertionError" "")
                       | Some field, JList elements =>
                           (fix walk_all (elements : list json) : result config_error (list string) :=
                              match elements with
                              | [] => Ok []
                              | element :: elements =>
                                  k ← py_getitem element field;
                                  first ← leaf_walk specs element (child ++ [py_str k]);
                                  rest ← walk_all elements;
                                  Ok (first ++ rest)
                              end) elements
                       | Some _, _ => _ ← keyed_elements value; Ok []
                       end
                   end
               end);
             rest ← go fields;
             Ok (here ++ rest)
         end) fields
  | _ => Raise (PyError "AttributeError" "items")
  end.

Definition leaf_pointers (specs : SpecIndex) (values : dict) : result config_error (list string) :=
  leaf_walk specs (JObj values) [].

(** [flatten_leaves]: the same walk, a row per leaf. *)
Fixpoint flatten_walk (specs : SpecIndex) (container : json) (path : Path)
    : result config_error (list (string * json)) :=
  match container with
  | JObj fields =>
      (fix go (fields : dict) : result config_error (list (string * json)) :=
         match fields with
         | [] => Ok []
         | (name, value) :: fields =>
             let child := path ++ [name] in
             here ← (match lookup_spec specs child with
               | None => Ok []
               | Some spec =>
                   match fs_kind spec, fs_strategy spec with
                   | (kind_object | kind_map), _ =>
                       match value with JObj _ => flatten_walk specs value child | _ => Ok [] end
                   | kind_scalar, _ | kind_list, Some strategy_replace => Ok [(pointer child, value)]
                   | kind_list, Some strategy_union =>
                       items ← py_list value;
                       Ok (map (λ item, (element_pointer (pointer child) item, item)) items)
                   | kind_list, _ =>
                       match fs_key spec, value with
                       | None, _ => Raise (PyError "AssertionError" "")
                       | Some field, JList elements =>
                           (fix walk_all (elements : list json)
                              : result config_error (list (string * json)) :=
                              match elements with
                              | [] => Ok []
                              | element :: elements =>
                                  k ← py_getitem element field;
                                  first ← flatten_walk specs element (child ++ [py_str k]);
                                  rest ← walk_all elements;
                                  Ok (first ++ rest)
                              end) elements
                       | Some _, _ => _ ← keyed_elements value; Ok []
                       end
                   end
               end);
             rest ← go fields;
             Ok (here ++ rest)
         end) fields
  | _ => Raise (PyError "AttributeError" "items")
  end.

Definition flatten_leaves (specs : SpecIndex) (values : dict) : result config_error (list (string * json)) :=
  flatten_walk specs (JObj values) [].

(** [provenance_gaps]: the leaves of a module's parameters without an origin. *)
Definition provenance_gaps (specs : SpecIndex) (params : dict) (provenance : gmap string Provenance)
    : result config_error (list string) :=
  leaves ← leaf_pointers specs params;
  Ok (filter (λ ptr, provenance !! ptr = None) leaves).

(** ** Defaults *)

Definition default_provenance (o : Origin) (value : json) : Provenance :=
  MkProvenance o value [] [o].

Definition set_default_prov (spec : FieldSpec) (ptr : string) (o : Origin) (value : json)
    (items : list json) (prov : gmap string Provenance) : gmap string Provenance :=
  foldl (λ prov item, <[element_pointer ptr item := default_provenance o item]> prov)
    (<[ptr := default_provenance o value]> prov) items.

(** One loop over the values of a dict, each filled in place. *)
Fixpoint fill_members (fill : dict → Path → FillST dict) (path : Path) (members : dict) : FillST dict :=
  match members with
  | [] => mret []
  | (key, value) :: members =>
      value ← (match value with
               | JObj sub => sub ← fill sub (path ++ [key]); mret (JObj sub)
               | _ => mret value
               end);
      members ← fill_members fill path members;
      mret ((key, value) :: members)
  end.

Fixpoint fill_elements (fill : dict → Path → FillST dict) (field : string) (path : Path)
    (elements : list json) : FillST (list json) :=
  match elements with
  | [] => mret []
  | element :: elements =>
      k ← lift (py_getitem element field);
      element ← (match element with
                 | JObj sub => sub ← fill sub (path ++ [py_str k]); mret (JObj sub)
                 | _ => mret element
                 end);
      elements ← fill_elements fill field path elements;
      mret (element :: elements)
  end.

(** One declared field of a container. *)
Definition fill_field (fill : dict → Path → FillST dict) (o : Origin) (path : Path)
    (container : dict) (name : string) (spec : FieldSpec) : FillST dict :=
  let child := path ++ [name] in
  let ptr := pointer child in
  let existing := assoc_get name container in
  if String.eqb name WILDCARD || fs_derived spec then mret container
  else match fs_kind spec with
  | kind_object =>
      match existing, fs_default spec with
      | (None | Some JNull), OPTIONAL_UNMANAGED => mret container
      | Some (JObj sub), _ =>
          sub ← fill sub child;
          mret (assoc_set name (JObj sub) container)
      | _, _ =>
          sub ← fill [] child;
          mret (match sub with [] => container | _ => assoc_set name (JObj sub) container end)
      end
  | kind_map =>
      match existing with
      | Some (JObj members) =>
          members ← fill_members fill child members;
          mret (assoc_set name (JObj members) container)
      | _ => mret container
      end
  | kind_scalar | kind_list =>
      match existing with
      | Some value =>
          match fs_kind spec, fs_strategy spec, fs_key spec with
          | kind_list, Some strategy_keyed, Some field =>
              if str_truthy field then
                elements ← lift (keyed_elements value);
                match value with
                | JList _ =>
                    elements ← fill_elements fill field child elements;
                    mret (assoc_set name (JList elements) container)
                | _ => mret container
                end
              else mret container
          | _, _, _ => mret container
          end
      | None =>
          match fs_default spec with
          | DefaultValue value =>
              items ← lift (match fs_kind spec, fs_strategy spec with
                            | kind_list, Some strategy_union => py_list value
                            | _, _ => Ok []
                            end);
              _ ← modify (prod_map (set_default_prov spec ptr o value items) id);
              mret (assoc_set name value container)
          | REQUIRED =>
              _ ← modify (prod_map id (λ missing, missing ++ [ptr]));
              mret container
          | OPTIONAL_UNMANAGED => mret container
          end
      end
  end.

Fixpoint fill_fields (fill : dict → Path → FillST dict) (o : Origin) (path : Path)
    (fields : list (string * FieldSpec)) (container : dict) : FillST dict :=
  match fields with
  | [] => mret container
  | (name, spec) :: fields =>
      container ← fill_field fill o path container name spec;
      fill_fields fill o path fields container
  end.

(** Every nested call is one or two segments further down the index. *)
Fixpoint fill_loop (fuel : nat) (specs : SpecIndex) (o : Origin) (container : dict) (path : Path)
    : FillST dict :=
  match fuel with
  | O => raise (PyError "RecursionError" "maximum recursion depth exceeded")
  | S fuel =>
      fill_fields (fill_loop fuel specs o) o path (children specs (resolve specs path)) container
  end.

Definition _fill_defaults (specs : SpecIndex) (container : dict) (path : Path) (o : Origin)
    : FillST dict :=
  fill_loop (2 + spec_depth specs) specs o container path.
End leaves.
