(* ===== verification/ConfigCompose.v ===== *)
(** * Composing the effective configuration of a subject

    [dotmac_config_layers/compose.py], with the plug-in of [plugin.py]: layers
    are validated, chosen and merged, dated exceptions applied, values derived
    and defaulted, and the modules checked. What a module's own code does (its
    schema, invariants and claims) is a field of [Module_]; what pydantic says
    of a value is the interface [ParamsModels]. *)

From S2P Require Import Prelude PyData PyTime ConfigDocument ConfigFields ConfigMerge.
From S2P Require Import ConfigSchema ConfigLayers ConfigDerive ConfigDefaults.
From stdpp Require Import base gmap strings pretty list.
From Stdlib Require Import ZArith Ascii.

(** ** Plug-ins *)

Record Invalid : Type := MkInvalid {
  iv_code : string;
  iv_path : string;
  iv_detail : string;
  iv_origin : option Origin;
}.

(** [params_schema.model_validate] of a model: the locations and messages of
    the errors; [TypeAdapter(annotation)]: whether it rejects a value. *)
Class ParamsModels : Type := {
  validate_model : string → list (string * Annotation) → dict → list (Path * string);
  _type_issue : Annotation → json → bool;
}.

Record Module_ : Type := MkModule {
  md_key : string;
  md_version : Z;
  (** [params_schema]: its name and fields. *)
  md_schema_name : string;
  md_schema : list (string * Annotation);
  md_field_specs : list (string * FieldSpec);
  md_derives : list DerivedRule;
  md_mode_ordered : bool;
  md_invariants : dict → dict → list Invalid;
  md_claims : dict → gset string;
}.

Record DomainPlugin : Type := MkDomainPlugin {
  pl_tiers : list TierSpec;
  pl_modules : gmap string Module_;
}.

Definition pl_module (plugin : DomainPlugin) (key : string) : result config_error Module_ :=
  match pl_modules plugin !! key with
  | Some module => Ok module
  | None => Raise (PyError "KeyError" (py_repr_str key))
  end.

Definition pl_tier (plugin : DomainPlugin) : string → result config_error TierSpec :=
  plugin_tier (pl_tiers plugin).

Definition pl_specs (plugin : DomainPlugin) (key : string) : result config_error SpecIndex :=
  module ← pl_module plugin key; SpecIndex_new (md_field_specs module) ∅.

(** The keys of a map with string keys, in order. *)
Definition sorted_keys {A} (m : gmap string A) : list string := py_sorted String.leb (map_to_list m).*1.

Definition all_rules (plugin : DomainPlugin) : result config_error (list DerivedRule) :=
  order_rules (sorted_keys (pl_modules plugin) ≫= λ key,
    match pl_modules plugin !! key with Some module => md_derives module | None => [] end).

(** The annotation of each path of the schema, of a list that of its
    elements. *)
Definition leaf_annotations (module : Module_) : gmap Path Annotation :=
  omap (λ leaf, match sl_kind leaf with kind_list => sl_element leaf | _ => Some (sl_annotation leaf) end)
    (schema_leaves (md_schema module)).

(** ** The check of a plug-in *)

Definition not_derived_target (rule : DerivedRule) : string :=
  "rule " +:+ dr_name rule +:+ ": target " +:+ dr_target rule +:+ " is not a derived field".

Definition rule_problems (key : string) (index : SpecIndex) (rule : DerivedRule)
    : result config_error (list string) :=
  path ← parse_spec_pointer (dr_target rule);
  Ok ((if String.eqb (dr_module rule) key then []
       else ["rule " +:+ dr_name rule +:+ ": belongs to " +:+ py_repr_str (dr_module rule)
               +:+ ", not " +:+ py_repr_str key])
      ++ (match index !! path with
          | Some spec =>
              if fs_derived spec && negb (bool_decide (fs_kind spec = kind_object)) then []
              else [not_derived_target rule]
          | None => [not_derived_target rule]
          end)).

Definition module_problems (entry : string * Module_) : result config_error (list string) :=
  let '(key, module) := entry in
  schema ← schema_problems (md_schema module) (md_field_specs module);
  index ← SpecIndex_new (md_field_specs module) ∅;
  rules ← gather (rule_problems key index) (md_derives module);
  Ok ((if String.eqb (md_key module) key then []
       else ["module registered as " +:+ py_repr_str key +:+ " declares key "
               +:+ py_repr_str (md_key module)])
      ++ ((λ problem, key +:+ ": " +:+ problem) <$> schema) ++ rules
      ++ omap (λ ts : string * FieldSpec,
           if fs_derived ts.2 && negb (existsb (λ r, String.eqb (dr_target r) ts.1) (md_derives module))
           then Some (key +:+ ": derived field " +:+ ts.1 +:+ " has no rule") else None)
           (md_field_specs module)).

(** [sorted(plugin.modules.items())]. *)
Definition sorted_modules (plugin : DomainPlugin) : list (string * Module_) :=
  sort_keys (map_to_list (pl_modules plugin)).

Definition unknown_reads (plugin : DomainPlugin) (rule : DerivedRule) : list string :=
  omap (λ ref, m ← ref_module ref;
    match pl_modules plugin !! m with
    | Some _ => None
    | None => Some ("rule " +:+ dr_name rule +:+ ": reads unknown module " +:+ py_repr_str m)
    end) (dr_reads rule).

Definition plugin_problems (plugin : DomainPlugin) : result config_error (list string) :=
  let names := ts_name <$> pl_tiers plugin in
  let ranks := ts_rank <$> pl_tiers plugin in
  modules ← gather module_problems (sorted_modules plugin);
  let rules := sorted_modules plugin ≫= λ entry, md_derives entry.2 in
  cycle ← (match order_rules rules with
           | Ok _ => Ok []
           | Raise (DerivationCycleError message) => Ok [message]
           | Raise e => Raise e
           end);
  Ok ((if bool_decide (NoDup names) then [] else ["duplicate tier names"])
      ++ (if bool_decide (ranks = py_sorted Z.leb ranks) && bool_decide (NoDup ranks) then []
          else ["tiers must be listed by strictly increasing rank"])
      ++ modules ++ (rules ≫= unknown_reads plugin) ++ cycle).

(** The constructor: a plug-in with problems is refused. *)
Definition DomainPlugin_new (tiers : list TierSpec) (modules : gmap string Module_)
    : result config_error DomainPlugin :=
  let plugin := MkDomainPlugin tiers modules in
  problems ← plugin_problems plugin;
  _ ← raise_if (negb (bool_decide (length problems = 0))) (PluginError (str_join "; " problems));
  Ok plugin.

(** ** Results *)

Record AppliedLayer : Type := MkAppliedLayer {
  al_tier : string;
  al_name : string;
  al_layer_id : string;
  al_revision : Z;
  al_weight : Z;
}.

Record LapsedException : Type := MkLapsedException {
  lx_id : string;
  lx_module : string;
  lx_until : option date;
  lx_reason : string;
  lx_state : ExceptionState;
}.

Record ExceptionStatus : Type := MkExceptionStatus {
  xt_id : string;
  xt_module : string;
  xt_kind : ExceptionKind;
  xt_state : ExceptionState;
  xt_widening : bool;
  xt_approved : bool;
}.

Record Suppression : Type := MkSuppression {
  sp_exception_id : string;
  sp_module : string;
  sp_scope : string;
  sp_reason : string;
  sp_until : option string;
}.

Record ModuleResult : Type := MkModuleResult {
  mr_key : string;
  mr_version : Z;
  mr_mode : string;
  mr_params : dict;
  mr_status : string;
  mr_reasons : list Invalid;
  mr_conflicts : list Conflict;
  mr_provenance : gmap string Provenance;
  mr_tombstones : gmap string Tombstone;
  mr_suppressions : list Suppression;
  mr_effective_hash : string;
  mr_lints : list string;
}.

Definition mr_ok (r : ModuleResult) : bool := String.eqb (mr_status r) "ok".
Definition mr_blocked (r : ModuleResult) : bool :=
  negb (mr_ok r) || negb (bool_decide (length (mr_conflicts r) = 0)).

Record Effective : Type := MkEffective {
  ef_subject_key : string;
  ef_today : date;
  ef_layers : list AppliedLayer;
  ef_modules : list (string * ModuleResult);
  ef_inert : list string;
  ef_lapsed : list LapsedException;
  ef_annotations : list (string * string * string);
  ef_subject_hash : string;
  ef_exceptions : list ExceptionStatus;
}.

Definition SCHEMA_VERSION : Z := 1.
Definition _BLOCK_KEYS : list string := ["module_version"; "mode"; "params"].

Abbreviation Mergers := (gmap string Merger).

Section compose.
Context `{Runtime} `{IpText} `{IpNetworks} `{ParamsModels}.

(** A call on one merger, without the merger it leaves when it raises. *)
Definition run_merger (c : MergeST unit) (m : Merger) : result config_error Merger :=
  match c m with (Ok _, m') => Ok m' | (Raise e, _) => Raise e end.

Definition hash_of (value : json) : string := sha256_hexdigest (canonical_json value).

(** [str(err)] of a [DocumentError] that a handler catches. *)
Definition document_error (e : config_error) : option string :=
  match e with
  | DocumentError path message | MergeError path message => Some (document_error_text path message)
  | _ => None
  end.

(** ** Validation of documents *)

Definition is_delete_safe (value : json) : bool :=
  match value with
  | JObj fields => match assoc_get DELETE fields with Some (JBool true) => true | _ => false end
  | _ => false
  end.

(** The paths a patch names, with their specifications; [skip] holds the keys
    left out of the body of an element. *)
Fixpoint _walk_patch (specs : SpecIndex) (skip : list string) (patch : json) (path : Path)
    : list (Path * option FieldSpec * json) :=
  match patch with
  | JObj fields =>
      (fix go (fields : dict) : list (Path * option FieldSpec * json) :=
         match fields with
         | [] => []
         | (key, value) :: fields =>
             (if bool_decide (key ∈ skip) then []
              else
                let child := path ++ [key] in
                let elements field :=
                  fix each (items : list json) : list (Path * option FieldSpec * json) :=
                    match items with
                    | [] => []
                    | element :: items =>
                        (match element with
                         | JObj body =>
                             match assoc_get field body with
                             | Some k => _walk_patch specs [field; DELETE] element (child ++ [py_str k])
                             | None => []
                             end
                         | _ => []
                         end) ++ each items
                    end in
                (child, lookup_spec specs child, value) ::
                match lookup_spec specs child with
                | None => []
                | Some spec =>
                    match fs_kind spec, fs_strategy spec, fs_key spec, value with
                    | (kind_object | kind_map), _, _, JObj _ =>
                        if is_delete_safe value then [] else _walk_patch specs [] value child
                    | kind_list, Some strategy_keyed, Some field, JList items => elements field items
                    | kind_list, Some strategy_keyed, Some field, JObj directives =>
                        (fix find (directives : dict) : list (Path * option FieldSpec * json) :=
                           match directives with
                           | [] => []
                           | (name, items) :: directives =>
                               if String.eqb REPLACE name then
                                 match items with JList items => elements field items | _ => [] end
                               else find directives
                           end) directives
                    | _, _, _, _ => []
                    end
                end)
             ++ go fields
         end) fields
  | _ => []
  end.

Definition _list_elements (value : json) : result config_error (list json) :=
  match value with
  | JObj fields =>
      gather (λ key, list_or_empty (default (JList []) (assoc_get key fields))) [ADD; REMOVE; REPLACE]
  | JList l => Ok l
  | _ => Ok []
  end.

Definition _canon_for_check (spec : FieldSpec) (value : json) : result config_error json :=
  match canonicalise spec value with
  | Raise (PyError ("ValueError" | "TypeError") _) => Ok value
  | r => r
  end.

(** The annotation of the path, when the schema has one, rejects the value. *)
Definition wrong_type (module : Module_) (path : Path) (value : json) : bool :=
  match leaf_annotations module !! path with
  | Some annotation => _type_issue annotation value
  | None => false
  end.

(** The issues of one path of a patch. *)
Definition check_path (module : Module_) (specs : SpecIndex) (where_ key : string) (rank : Z)
    (item : Path * option FieldSpec * json) : result config_error (list string) :=
  let '(path, spec, value) := item in
  match spec with
  | None => Ok []
  | Some spec =>
      let ptr := "module " +:+ key +:+ pointer path in
      let derived := if fs_derived spec then [where_ +:+ ": " +:+ ptr +:+ " is derived and cannot be set"]
                     else [] in
      rest ←
        (if is_delete_safe value then
           Ok (if (rank =? 0)%Z && match fs_default spec with REQUIRED => true | _ => false end
               then [where_ +:+ ": " +:+ ptr +:+ " is required at the global tier and cannot be deleted"]
               else [])
         else if fs_secret spec then
           Ok (if match value with JObj fields => assoc_mem "secret_ref" fields | _ => false end then []
               else [where_ +:+ ": " +:+ ptr +:+ " accepts only a secret reference"])
         else match fs_kind spec, fs_strategy spec with
         | kind_scalar, _ =>
             if is_none value then Ok []
             else
               checked ← _canon_for_check spec value;
               Ok (if wrong_type module (resolve specs path) checked
                   then [where_ +:+ ": " +:+ ptr +:+ " has the wrong type"] else [])
         | kind_list, Some strategy_keyed => Ok []
         | kind_list, _ =>
             elements ← _list_elements value;
             checked ← map_result (_canon_for_check spec) elements;
             Ok (if existsb (wrong_type module (resolve specs path)) checked
                 then [where_ +:+ ": " +:+ ptr +:+ " has an element of the wrong type"] else [])
         | _, _ => Ok []
         end);
      Ok (derived ++ rest)
  end.

(** The issues of the block of one module. *)
Definition check_block (plugin : DomainPlugin) (layer : Layer) (rank : Z) (where_ : string)
    (entry : string * json) : result config_error (list string) :=
  let '(key, block) := entry in
  let issue text := where_ +:+ ": " +:+ text in
  match pl_modules plugin !! key with
  | None => Ok [issue ("unknown module " +:+ py_repr_str key)]
  | Some module =>
      match block with
      | JObj fields =>
          if is_delete_safe block then
            Ok [issue ("module " +:+ key +:+ " cannot be deleted; use mode: off (M7)")]
          else
            let stray := sorted_strs (filter (λ k, k ∉ _BLOCK_KEYS) fields.*1) in
            let version := get_or_none "module_version" fields in
            let head :=
              (match stray with
               | [] => []
               | _ => [issue ("module " +:+ key +:+ ": unknown keys " +:+ repr_strs stray)]
               end)
              ++ (match version with
                  | JInt _ | JBool _ => []
                  | _ => [issue ("module " +:+ key +:+ ": module_version is required")]
                  end)
              ++ (match get_or_none "mode" fields with
                  | JNull => []
                  | m => if existsb (λ x, py_eq m (JStr x)) MODES then []
                         else [issue ("module " +:+ key +:+ ": mode must be one of " +:+ repr_strs MODES)]
                  end) in
            if negb (py_eq version (JInt (md_version module))) then Ok head
            else match default (JObj []) (assoc_get "params" fields) with
            | JObj params =>
                specs ← pl_specs plugin key;
                let origin := MkOrigin "probe" rank (ly_id layer) (ly_name layer) 0 (ly_weight layer)
                                "set" None [] in
                match run_merger (merge_patch specs (JObj params) origin) Merger_new with
                | Ok _ =>
                    tail ← gather (check_path module specs where_ key rank)
                             (_walk_patch specs [] (JObj params) []);
                    Ok (head ++ tail)
                | Raise e =>
                    match document_error e with
                    | Some text => Ok (head ++ [issue ("module " +:+ key +:+ ": " +:+ text)])
                    | None => Raise e
                    end
                end
            | _ => Ok (head ++ [issue ("module " +:+ key +:+ ": params must be an object")])
            end
      | _ => Ok [issue ("module " +:+ key +:+ " must be an object")]
      end
  end.

Definition validate_layer_document (plugin : DomainPlugin) (layer : Layer) (document : json)
    : result config_error (list string) :=
  tier ← pl_tier plugin (ly_tier layer);
  let issues := validate_layer_meta tier layer in
  let where_ := "layer " +:+ ly_name layer in
  match document with
  | JObj fields =>
      let issues := issues
        ++ (if py_eq (get_or_none "schema" fields) (JInt SCHEMA_VERSION) then []
            else [where_ +:+ ": schema must be " +:+ pretty SCHEMA_VERSION])
        ++ (match sorted_strs (filter (λ k, k ∉ ["schema"; "modules"]) fields.*1) with
            | [] => []
            | extra => [where_ +:+ ": unknown top-level keys " +:+ repr_strs extra]
            end) in
      match default (JObj []) (assoc_get "modules" fields) with
      | JObj modules =>
          blocks ← gather (check_block plugin layer (ts_rank tier) where_) (sort_keys modules);
          Ok (issues ++ blocks)
      | _ => Ok (issues ++ [where_ +:+ ": modules must be an object"])
      end
  | _ => Ok (issues ++ [where_ +:+ ": document must be an object"])
  end.

(** The patch under its path. *)
Definition _nest (path : Path) (patch : json) : result config_error json :=
  match patch with
  | JObj _ => Ok (foldr (λ segment nested, JObj [(segment, nested)]) patch path)
  | _ => Raise (DocumentError (pointer path) "an override patch must be an object")
  end.

Definition validate_exception (plugin : DomainPlugin) (exc : ExceptionSpec)
    : result config_error (list string) :=
  issues ← basic_exception_issues exc;
  let issue text := "exception " +:+ ex_id exc +:+ ": " +:+ text in
  match pl_modules plugin !! ex_module_key exc with
  | None => Ok (issues ++ [issue ("unknown module " +:+ py_repr_str (ex_module_key exc))])
  | Some _ =>
      specs ← pl_specs plugin (ex_module_key exc);
      match ex_kind exc, ex_patch exc with
      | ex_override, Some patch =>
          match (base_path ← parse_spec_pointer (ex_path exc); _nest base_path patch) with
          | Raise (PyError "ValueError" text) => Ok (issues ++ [issue text])
          | Raise e =>
              match document_error e with
              | Some text => Ok (issues ++ [issue text])
              | None => Raise e
              end
          | Ok nested =>
              let probe := MkOrigin "probe" 0 (ex_id exc) (ex_id exc) 0 0 "set" None [] in
              match run_merger (merge_patch specs nested probe) Merger_new with
              | Raise e =>
                  match document_error e with
                  | Some text => Ok (issues ++ [issue text])
                  | None => Raise e
                  end
              | Ok _ =>
                  Ok (issues ++ omap (λ item,
                    match item.1.2 with
                    | Some spec =>
                        if fs_derived spec then
                          Some (issue (pointer item.1.1
                            +:+ " is derived; override its source instead (X3)"))
                        else None
                    | None => None
                    end) (_walk_patch specs [] nested []))
              end
          end
      | _, _ => Ok issues
      end
  end.

(** ** Composition *)

Definition top_rank (plugin : DomainPlugin) : result config_error Z :=
  match ts_rank <$> pl_tiers plugin with
  | [] => Raise (PyError "ValueError" "max() iterable argument is empty")
  | rank :: ranks => Ok (foldl Z.max rank ranks)
  end.

(** Step 1: the applicable layers in order, their documents checked. *)
Definition select_layers (plugin : DomainPlugin) (subject : Subject) (revisions : list LayerRevision)
    : result config_error (list (TierSpec * LayerRevision)) :=
  chosen ← choose_layers (pl_tiers plugin) subject revisions;
  issues ← gather (λ tr, validate_layer_document plugin (lr_layer tr.2) (lr_document tr.2)) chosen;
  _ ← raise_if (negb (bool_decide (length issues = 0))) (LayerError issues);
  Ok chosen.

Definition origin_of (chosen : TierSpec * LayerRevision) : Origin :=
  let layer := lr_layer chosen.2 in
  MkOrigin (ly_tier layer) (ts_rank chosen.1) (ly_id layer) (ly_name layer) (lr_revision chosen.2)
    (ly_weight layer) "set" (lr_activated_at chosen.2) [].

(** [sorted(document.get("modules", {}).items())], the blocks being mappings. *)
Definition blocks_of (document : json) : result config_error (list (string * dict)) :=
  match document with
  | JObj fields =>
      match default (JObj []) (assoc_get "modules" fields) with
      | JObj modules =>
          map_result (λ kb : string * json,
            match kb.2 with
            | JObj block => Ok (kb.1, block)
            | _ => Raise (PyError "AttributeError" "get")
            end) (sort_keys modules)
      | _ => Raise (PyError "AttributeError" "items")
      end
  | _ => Raise (PyError "AttributeError" "get")
  end.

(** Steps 2 and 3 go through the blocks of every layer in turn. *)
Definition layer_blocks (chosen : list (TierSpec * LayerRevision))
    : result config_error (list (TierSpec * LayerRevision * (string * dict))) :=
  gather (λ tr, blocks ← blocks_of (lr_document tr.2); Ok (map (pair tr) blocks)) chosen.

(** A mode that is not text cannot be enrolled: the document check of
    [check_block] refuses it before. *)
Definition enrol_block (plugin : DomainPlugin) (mergers : Mergers)
    (entry : TierSpec * LayerRevision * (string * dict)) : result config_error Mergers :=
  let '(tr, (key, block)) := entry in
  match get_or_none "mode" block with
  | JNull => Ok mergers
  | JStr mode =>
      _ ← pl_specs plugin key;
      merger ← run_merger (set_mode mode (origin_of tr)) (default Merger_new (mergers !! key));
      Ok (<[key := merger]> mergers)
  | _ => Raise (PyError "TypeError" "mode")
  end.

(** [_patch_pointers]. *)
Fixpoint _patch_pointers (params : json) (prefix : Path) : result config_error (list string) :=
  match params with
  | JObj fields =>
      (fix go (fields : dict) : result config_error (list string) :=
         match fields with
         | [] => Ok []
         | (key, value) :: fields =>
             let child := prefix ++ [key] in
             here ← (match value with
                     | JObj sub =>
                         if py_truthy value && negb (existsb (startswith "$") sub.*1)
                         then _patch_pointers value child else Ok [pointer child]
                     | _ => Ok [pointer child]
                     end);
             rest ← go fields;
             Ok (here ++ rest)
         end) fields
  | _ => Raise (PyError "AttributeError" "items")
  end.

Record LayersState : Type := MkLayersState {
  ls_mergers : Mergers;
  ls_stale : gmap string (list Invalid);
  ls_inert : list string;
}.

(** [block.get("params") or {}]. *)
Definition params_of (block : dict) : json :=
  let params := get_or_none "params" block in if py_truthy params then params else JObj [].

Definition merge_block (plugin : DomainPlugin) (st : LayersState)
    (entry : TierSpec * LayerRevision * (string * dict)) : result config_error LayersState :=
  let '(tr, (key, block)) := entry in
  let params := params_of block in
  match ls_mergers st !! key with
  | None =>
      pointers ← _patch_pointers params [];
      Ok (MkLayersState (ls_mergers st) (ls_stale st)
            (ls_inert st ++ ((λ p, "/" +:+ key +:+ p) <$> pointers)))
  | Some merger =>
      module ← pl_module plugin key;
      let version := get_or_none "module_version" block in
      if negb (py_eq version (JInt (md_version module))) then
        let reason := MkInvalid "stale_layer" ("/" +:+ key)
          ("layer block is version " +:+ py_str version +:+ ", module is "
             +:+ pretty (md_version module)) (Some (origin_of tr)) in
        Ok (MkLayersState (ls_mergers st)
              (<[key := default [] (ls_stale st !! key) ++ [reason]]> (ls_stale st)) (ls_inert st))
      else
        specs ← pl_specs plugin key;
        match run_merger (merge_patch specs params (origin_of tr)) merger with
        | Ok merger => Ok (MkLayersState (<[key := merger]> (ls_mergers st)) (ls_stale st) (ls_inert st))
        | Raise e =>
            match document_error e with
            | Some text =>
                Raise (LayerError ["layer " +:+ ly_name (lr_layer tr.2) +:+ ": module " +:+ key
                                     +:+ ": " +:+ text])
            | None => Raise e
            end
        end
  end.

Definition merge_layers (plugin : DomainPlugin) (chosen : list (TierSpec * LayerRevision))
    : result config_error LayersState :=
  blocks ← layer_blocks chosen;
  mergers ← fold_result (enrol_block plugin) ∅ blocks;
  fold_result (merge_block plugin) (MkLayersState mergers ∅ []) blocks.

(** ** Step 4: exceptions *)

Record ExceptionsState : Type := MkExceptionsState {
  xs_mergers : Mergers;
  xs_lapsed : list LapsedException;
  xs_annotations : list (string * string * string);
  xs_suppressions : gmap string (list Suppression);
  xs_statuses : list ExceptionStatus;
}.

Definition with_mergers (mergers : Mergers) (st : ExceptionsState) : ExceptionsState :=
  MkExceptionsState mergers (xs_lapsed st) (xs_annotations st) (xs_suppressions st) (xs_statuses st).
Definition add_status (status : ExceptionStatus) (st : ExceptionsState) : ExceptionsState :=
  MkExceptionsState (xs_mergers st) (xs_lapsed st) (xs_annotations st) (xs_suppressions st)
    (xs_statuses st ++ [status]).

Definition is_override (exc : ExceptionSpec) : bool :=
  bool_decide (ex_kind exc ∈ [ex_override; ex_mode_override]).

Definition _apply_exception (specs : SpecIndex) (merger : Merger) (exc : ExceptionSpec) (o : Origin)
    : result config_error Merger :=
  match ex_kind exc with
  | ex_override =>
      match ex_patch exc with
      | None => Raise (PyError "AssertionError" "")
      | Some patch =>
          path ← parse_spec_pointer (ex_path exc);
          nested ← _nest path patch;
          run_merger (merge_patch specs nested o) merger
      end
  | ex_mode_override =>
      match ex_mode exc with
      | None => Raise (PyError "AssertionError" "")
      | Some mode => run_merger (set_mode mode o) merger
      end
  | _ => Ok merger
  end.

(** The values of a merger with the defaults of its module. *)
Definition filled (module : Module_) (key : string) (specs : SpecIndex) (m : Merger)
    : result config_error (dict * Filling) :=
  match _fill_defaults specs (m_values m) [] (_default_origin key (md_version module)) (m_prov m, []) with
  | (Ok values, filling) => Ok (values, filling)
  | (Raise e, _) => Raise e
  end.

Definition _exception_widens (module : Module_) (key : string) (specs : SpecIndex)
    (before after : Merger) : result config_error bool :=
  old ← filled module key specs before;
  new ← filled module key specs after;
  items ← params_widening specs old.1 new.1;
  Ok (negb (bool_decide (length items = 0))
      || md_mode_ordered module && mode_widening (mode before) (mode after)).

Definition exception_origin (rank : Z) (exc : ExceptionSpec) : Origin :=
  MkOrigin "exception" (rank + 1) ("exception:" +:+ ex_id exc) (ex_id exc) 0 0 "exception" None
    [("reason", JStr (ex_reason exc));
     ("until", match ex_until exc with Some d => JStr (date_isoformat d) | None => JNull end)].

(** [exc.scope or "*"]. *)
Definition suppress_scope (exc : ExceptionSpec) : string :=
  match ex_scope exc with Some s => if str_truthy s then s else "*" | None => "*" end.

(** An exception to an enrolled module that time leaves active. *)
Definition enact_exception (plugin : DomainPlugin) (rank : Z) (today : date) (lapse_report_days : Z)
    (st : ExceptionsState) (exc : ExceptionSpec) (merger : Merger)
    : result config_error ExceptionsState :=
  let key := ex_module_key exc in
  let o := exception_origin rank exc in
  module ← pl_module plugin key;
  specs ← pl_specs plugin key;
  widened ←
    (if is_override exc then
       trial ← _apply_exception specs merger exc o;
       _exception_widens module key specs merger trial
     else Ok false);
  state ← exception_state exc today widened lapse_report_days;
  let st := add_status (MkExceptionStatus (ex_id exc) key (ex_kind exc) state widened (ex_approved exc)) st in
  if negb (bool_decide (state = ex_active)) then Ok st
  else match ex_kind exc with
  | ex_override | ex_mode_override =>
      merger ← _apply_exception specs merger exc o;
      Ok (with_mergers (<[key := merger]> (xs_mergers st)) st)
  | ex_suppress =>
      let suppression := MkSuppression (ex_id exc) key (suppress_scope exc) (ex_reason exc)
                           (date_isoformat <$> ex_until exc) in
      Ok (MkExceptionsState (xs_mergers st) (xs_lapsed st) (xs_annotations st)
            (<[key := default [] (xs_suppressions st !! key) ++ [suppression]]> (xs_suppressions st))
            (xs_statuses st))
  | ex_annotation =>
      Ok (MkExceptionsState (xs_mergers st) (xs_lapsed st)
            (xs_annotations st ++ [(key, ex_reason exc, ex_id exc)]) (xs_suppressions st)
            (xs_statuses st))
  end.

Definition exception_step (plugin : DomainPlugin) (rank : Z) (subject : Subject) (today : date)
    (lapse_report_days : Z) (st : ExceptionsState) (exc : ExceptionSpec)
    : result config_error ExceptionsState :=
  if negb (exception_applies exc (su_key subject) (su_dims subject)) then Ok st
  else
    state ← exception_state exc today false lapse_report_days;
    match state with
    | ex_lapsed =>
        Ok (MkExceptionsState (xs_mergers st)
              (xs_lapsed st ++ [MkLapsedException (ex_id exc) (ex_module_key exc) (ex_until exc)
                                  (ex_reason exc) state])
              (xs_annotations st) (xs_suppressions st) (xs_statuses st))
    | ex_active =>
        match xs_mergers st !! ex_module_key exc with
        | None => Ok st
        | Some merger => enact_exception plugin rank today lapse_report_days st exc merger
        end
    | _ =>
        Ok (add_status (MkExceptionStatus (ex_id exc) (ex_module_key exc) (ex_kind exc) state false
              (ex_approved exc)) st)
    end.

Definition apply_exceptions (plugin : DomainPlugin) (rank : Z) (subject : Subject) (today : date)
    (lapse_report_days : Z) (exceptions : list ExceptionSpec) (mergers : Mergers)
    : result config_error ExceptionsState :=
  let ordered := order_exceptions exceptions in
  issues ← gather (validate_exception plugin) ordered;
  _ ← raise_if (negb (bool_decide (length issues = 0))) (LayerError issues);
  fold_result (exception_step plugin rank subject today lapse_report_days)
    (MkExceptionsState mergers [] [] ∅ []) ordered.

(** ** Step 5: derived values *)

Definition ref_label (ref : Ref) : string :=
  match ref_module ref with
  | None => "fact:" +:+ ref_path ref
  | Some m => m +:+ ":" +:+ ref_path ref
  end.
Definition origin_label (o : Origin) : string :=
  o_tier o +:+ " " +:+ o_layer_name o +:+ " r" +:+ pretty (o_revision o).

(** The value and the described origin of one input. *)
Definition read_ref (subject : Subject) (mergers : Mergers) (ref : Ref)
    : result config_error (json * string) :=
  match ref_module ref with
  | None => Ok (get_or_none (ref_path ref) (su_facts subject), "subject fact")
  | Some m =>
      match mergers !! m with
      | None => Ok (JNull, "not enrolled")
      | Some source =>
          path ← parse_spec_pointer (ref_path ref);
          Ok (_get_path (JObj (m_values source)) path,
              match origin_for (ref_path ref) source with
              | Some o => origin_label o
              | None => "default"
              end)
      end
  end.

Definition derive_rule (subject : Subject) (rank : Z) (mergers : Mergers) (rule : DerivedRule)
    : result config_error Mergers :=
  match mergers !! dr_module rule with
  | None => Ok mergers
  | Some target =>
      read ← map_result (λ ref, vo ← read_ref subject mergers ref; Ok (ref_label ref, vo)) (dr_reads rule);
      let inputs := foldl (λ inputs lvo, assoc_set lvo.1 lvo.2.1 inputs) [] read in
      let described := (λ lvo : string * (json * string),
        JObj [("ref", JStr lvo.1); ("origin", JStr lvo.2.2)]) <$> read in
      match dr_fn rule inputs with
      | None => Ok mergers
      | Some value =>
          path ← parse_spec_pointer (dr_target rule);
          let o := MkOrigin "derived" (rank + 2) ("derived:" +:+ dr_name rule) (dr_name rule) 0 0
            "derived" None [("rule", JStr (dr_name rule)); ("inputs", JList described)] in
          target ← run_merger (set_derived path value o) target;
          Ok (<[dr_module rule := target]> mergers)
      end
  end.

(** ** Step 6: defaults, schemas, invariants, claims *)

Definition replace_origin (inv : Invalid) (merger : Merger) : Invalid :=
  match iv_origin inv with
  | Some _ => inv
  | None => if str_truthy (iv_path inv)
            then MkInvalid (iv_code inv) (iv_path inv) (iv_detail inv) (origin_for (iv_path inv) merger)
            else inv
  end.

Record Pending : Type := MkPending {
  pd_key : string;
  pd_module : Module_;
  pd_merger : Merger;
  pd_reasons : list Invalid;
  pd_schema_ok : bool;
}.

Definition check_module (plugin : DomainPlugin) (subject : Subject) (stale : gmap string (list Invalid))
    (entry : string * Merger) : result config_error Pending :=
  let '(key, merger) := entry in
  module ← pl_module plugin key;
  specs ← pl_specs plugin key;
  done_ ← filled module key specs merger;
  let '(values, (prov, missing)) := done_ in
  let merger := with_prov (λ _, prov) (with_values values merger) in
  let errors := match missing with [] => validate_model (md_schema_name module) (md_schema module) values | _ => [] end in
  let schema_ok := bool_decide (missing = []) && bool_decide (length errors = 0) in
  let reasons := default [] (stale !! key)
    ++ ((λ ptr, MkInvalid "missing_required" ptr "no layer sets this required field" None) <$> missing)
    ++ ((λ pm : Path * string, MkInvalid "schema" (pointer pm.1) pm.2 (origin_for (pointer pm.1) merger))
          <$> errors)
    ++ (if schema_ok
        then (λ inv, replace_origin inv merger) <$> md_invariants module values (su_facts subject)
        else []) in
  Ok (MkPending key module merger reasons schema_ok).

(** [claims[key]], of the modules whose schema holds. *)
Definition claims_of (p : Pending) : gset string :=
  if pd_schema_ok p then md_claims (pd_module p) (m_values (pd_merger p)) else ∅.

(** The modules that claim a surface, in order. *)
Definition owners_of (pending : list Pending) (claim : string) : list string :=
  pd_key <$> filter (λ p, claim ∈ claims_of p) pending.

(** The reasons of a module for the surfaces it claims with another. *)
Definition double_claims (pending : list Pending) (p : Pending) : list Invalid :=
  omap (λ claim,
    let owners := owners_of pending claim in
    if (1 <? length owners)%nat
    then Some (MkInvalid "double_claim" "" (claim +:+ " is claimed by " +:+ repr_strs owners) None)
    else None) (py_sorted String.leb (elements (claims_of p))).

Definition reason_leb : Invalid → Invalid → bool :=
  leb_then (leb_on iv_code String.leb) (leb_then (leb_on iv_path String.leb) (leb_on iv_detail String.leb)).
Definition conflict_leb : Conflict → Conflict → bool := leb_on cf_path String.leb.

Definition module_result (suppressions : gmap string (list Suppression)) (pending : list Pending)
    (p : Pending) : ModuleResult :=
  let merger := pd_merger p in
  let version := md_version (pd_module p) in
  let mode_ := match mode merger with
               | Some m => if str_truthy m then m else "off"
               | None => "off"
               end in
  let reasons := py_sorted reason_leb (pd_reasons p ++ double_claims pending p) in
  MkModuleResult (pd_key p) version mode_ (m_values merger)
    (match reasons with [] => "ok" | _ => "invalid_desired" end) reasons
    (py_sorted conflict_leb (map_to_list (m_conflicts merger)).*2)
    (m_prov merger) (m_tombs merger) (default [] (suppressions !! pd_key p))
    (hash_of (JObj [("module", JStr (pd_key p)); ("version", JInt version); ("mode", JStr mode_);
                    ("params", JObj (m_values merger))]))
    (m_lints merger).

Definition sorted_mergers (mergers : Mergers) : list (string * Merger) := sort_keys (map_to_list mergers).

Definition compose (plugin : DomainPlugin) (subject : Subject) (revisions : list LayerRevision)
    (exceptions : list ExceptionSpec) (today : date) (lapse_report_days : Z)
    : result config_error Effective :=
  rank ← top_rank plugin;
  chosen ← select_layers plugin subject revisions;
  layers ← merge_layers plugin chosen;
  exc ← apply_exceptions plugin rank subject today lapse_report_days exceptions (ls_mergers layers);
  rules ← all_rules plugin;
  mergers ← fold_result (derive_rule subject rank) (xs_mergers exc) rules;
  pending ← map_result (check_module plugin subject (ls_stale layers)) (sorted_mergers mergers);
  let results := (λ p, (pd_key p, module_result (xs_suppressions exc) pending p)) <$> pending in
  Ok (MkEffective (su_key subject) today
        ((λ tr : TierSpec * LayerRevision, let r := tr.2 in
           MkAppliedLayer (ly_tier (lr_layer r)) (ly_name (lr_layer r)) (ly_id (lr_layer r))
             (lr_revision r) (ly_weight (lr_layer r))) <$> chosen)
        results (sorted_strs (ls_inert layers)) (xs_lapsed exc) (xs_annotations exc)
        (hash_of (JObj ((λ kr : string * ModuleResult, (kr.1, JStr (mr_effective_hash kr.2))) <$> results)))
        (xs_statuses exc)).
End compose.
