(* ===== verification/ConfigEvaluate.v ===== *)
(** * Drift of a composed module

    [dotmac_config_layers/drift.py] and [evaluate.py]: what is said of a device
    once its module is composed. What a module's own code reads from an
    observation, compares and proposes is the record [Probe]; the observation
    and what is read from it are of any type. *)

From S2P Require Import Prelude PyData PyTime ConfigDocument ConfigFields ConfigMerge.
From S2P Require Import ConfigSchema ConfigLayers ConfigDerive ConfigDefaults.
From S2P Require Import ConfigCompose.
From stdpp Require Import base gmap strings pretty list.
From Stdlib Require Import ZArith Ascii.

(** ** Vocabulary *)

Inductive DriftStatus : Type :=
  | dr_ok | dr_missing | dr_drifted | dr_unexpected | dr_disabled | dr_duplicated | dr_misplaced
  | dr_unverifiable_secret | dr_not_applicable.

#[export] Instance DriftStatus_eq_dec : EqDecision DriftStatus.
Proof. solve_decision. Defined.

Definition NON_DRIFT : list DriftStatus := [dr_ok; dr_not_applicable].

Inductive ModuleStatus : Type :=
  | ms_conform | ms_drift | ms_excepted | ms_observe_only | ms_not_evaluated | ms_off.

#[export] Instance ModuleStatus_eq_dec : EqDecision ModuleStatus.
Proof. solve_decision. Defined.

Inductive NotEvaluated : Type :=
  | ne_no_snapshot | ne_stale | ne_unparseable | ne_invalid_desired | ne_blocked_by_version.

Record Unknown : Type := MkUnknown {
  un_reason : NotEvaluated;
  un_detail : option string;
}.

Record DriftItem : Type := MkDriftItem {
  di_module : string;
  di_path : string;
  di_status : DriftStatus;
  di_desired : json;
  di_observed : json;
  di_element : option string;
  di_severity : string;
  di_origin : option Origin;
  di_excepted : bool;
  di_note : option string;
}.

Record Proposal : Type := MkProposal {
  pp_module : string;
  pp_path : string;
  pp_op : string;
  pp_value : json;
  pp_widening : bool;
  pp_evidence : dict;
}.

Record ModuleEvaluation : Type := MkModuleEvaluation {
  me_module : string;
  me_mode : string;
  me_status : ModuleStatus;
  me_reason : option NotEvaluated;
  me_items : list DriftItem;
  me_proposals : list Proposal;
  me_detail : option string;
}.

Definition me_drifted (e : ModuleEvaluation) : bool := bool_decide (me_status e = ms_drift).

(** ** Evaluation *)

(** A module's own reading of observations; a value read may be unknown. *)
Record Probe (Observation Observed Desired : Type) : Type := MkProbe {
  pb_extract : Observation → Unknown + Observed;
  (** [params_schema.model_validate]. *)
  pb_model : dict → result config_error Desired;
  pb_compare : Desired → Observed → dict → list DriftItem;
  pb_propose : Desired → Observed → list Proposal;
}.
Arguments pb_extract {_ _ _}.
Arguments pb_model {_ _ _}.
Arguments pb_compare {_ _ _}.
Arguments pb_propose {_ _ _}.

(** [ModuleResult.origin_for]. *)
Definition mr_origin_for (r : ModuleResult) (ptr : string) : option Origin :=
  origin_loop (String.length ptr) (mr_provenance r) ptr.

(** The text of one NUL character, no scope of an exception. *)
Definition NUL : string := String "000" "".

Definition _matches (scope : string) (item : DriftItem) : bool :=
  bool_decide (scope ∈ ["*"; di_path item;
                        match di_element item with
                        | Some e => if str_truthy e then e else NUL
                        | None => NUL
                        end])
  || match di_element item with
     | Some e => String.eqb scope (di_path item +:+ "/" +:+ e)
     | None => false
     end.

Definition is_drift (item : DriftItem) : bool := bool_decide (di_status item ∉ NON_DRIFT).

(** [replace(item, origin=..., excepted=...)]. *)
Definition settle_item (r : ModuleResult) (item : DriftItem) : DriftItem :=
  let origin := match di_origin item with Some o => Some o | None => mr_origin_for r (di_path item) end in
  let excepted := existsb (λ s, _matches (sp_scope s) item) (mr_suppressions r) in
  MkDriftItem (di_module item) (di_path item) (di_status item) (di_desired item) (di_observed item)
    (di_element item) (di_severity item) origin excepted (di_note item).

Definition drift_status (mode : string) (items : list DriftItem) : ModuleStatus :=
  let drift := filter (λ i, is_drift i = true) items in
  if String.eqb mode "observe" then ms_observe_only
  else match drift with
  | [] => ms_conform
  | _ => if forallb di_excepted drift then ms_excepted else ms_drift
  end.

(** [f"{r.code} {r.path}".strip()] of each reason. *)
Definition reasons_detail (reasons : list Invalid) : string :=
  str_join "; " ((λ r, strip (iv_code r +:+ " " +:+ iv_path r)) <$> reasons).

Definition evaluate_module {Observation Observed Desired} (key : string)
    (probe : Probe Observation Observed Desired) (r : ModuleResult)
    (observation : Unknown + Observation) (facts : dict) : result config_error ModuleEvaluation :=
  let unevaluated reason detail :=
    Ok (MkModuleEvaluation key (mr_mode r) ms_not_evaluated (Some reason) [] [] detail) in
  if String.eqb (mr_mode r) "off" then
    Ok (MkModuleEvaluation key (mr_mode r) ms_off None [] [] None)
  else if negb (mr_ok r) then unevaluated ne_invalid_desired (Some (reasons_detail (mr_reasons r)))
  else match observation with
  | inl unknown => unevaluated (un_reason unknown) (un_detail unknown)
  | inr observation =>
      match pb_extract probe observation with
      | inl unknown => unevaluated (un_reason unknown) (un_detail unknown)
      | inr observed =>
          desired ← pb_model probe (mr_params r);
          let items := settle_item r <$> pb_compare probe desired observed facts in
          Ok (MkModuleEvaluation key (mr_mode r) (drift_status (mr_mode r) items) None items
                (pb_propose probe desired observed) None)
      end
  end.

(** ** Views *)

Definition text_or_null (s : option string) : json := match s with Some s => JStr s | None => JNull end.

Definition Origin_as_dict (o : Origin) : json :=
  JObj ([("tier", JStr (o_tier o)); ("layer_id", JStr (o_layer_id o)); ("layer", JStr (o_layer_name o));
         ("revision", JInt (o_revision o)); ("weight", JInt (o_weight o)); ("op", JStr (o_op o))]
        ++ (match o_at o with Some at_ => if str_truthy at_ then [("at", JStr at_)] else [] | None => [] end)
        ++ (match o_detail o with [] => [] | d => [("detail", JObj d)] end)).

Definition origin_or_null (o : option Origin) : json :=
  match o with Some o => Origin_as_dict o | None => JNull end.

Definition Invalid_as_dict (r : Invalid) : json :=
  JObj [("code", JStr (iv_code r)); ("path", JStr (iv_path r)); ("detail", JStr (iv_detail r));
        ("origin", origin_or_null (iv_origin r))].

Definition Conflict_as_dict (c : Conflict) : json :=
  JObj [("path", JStr (cf_path c)); ("layers", JList (JStr <$> cf_layers c));
        ("values", JList (cf_values c))].

Definition ExceptionState_value (s : ExceptionState) : string :=
  match s with
  | ex_active => "active"
  | ex_pending_approval => "pending_approval"
  | ex_lapsed => "lapsed"
  | ex_expired => "expired"
  | ex_revoked => "revoked"
  end.

Definition LapsedException_as_dict (x : LapsedException) : json :=
  JObj [("id", JStr (lx_id x)); ("module", JStr (lx_module x));
        ("until", text_or_null (date_isoformat <$> lx_until x)); ("reason", JStr (lx_reason x));
        ("state", JStr (ExceptionState_value (lx_state x))); ("finding", JStr "exception_lapsed")].

Definition ExceptionKind_value (k : ExceptionKind) : string :=
  match k with
  | ex_override => "override"
  | ex_mode_override => "mode_override"
  | ex_suppress => "suppress"
  | ex_annotation => "annotation"
  end.

Definition ExceptionStatus_as_dict (x : ExceptionStatus) : json :=
  JObj [("id", JStr (xt_id x)); ("module", JStr (xt_module x)); ("kind", JStr (ExceptionKind_value (xt_kind x)));
        ("state", JStr (ExceptionState_value (xt_state x))); ("widening", JBool (xt_widening x));
        ("approved", JBool (xt_approved x))].

(** [Effective.conflicts]. *)
Definition ef_conflicts (e : Effective) : list Conflict := ef_modules e ≫= λ kr, mr_conflicts kr.2.

Definition DriftStatus_value (s : DriftStatus) : string :=
  match s with
  | dr_ok => "ok"
  | dr_missing => "missing"
  | dr_drifted => "drifted"
  | dr_unexpected => "unexpected"
  | dr_disabled => "disabled"
  | dr_duplicated => "duplicated"
  | dr_misplaced => "misplaced"
  | dr_unverifiable_secret => "unverifiable_secret"
  | dr_not_applicable => "not_applicable"
  end.

Definition ModuleStatus_value (s : ModuleStatus) : string :=
  match s with
  | ms_conform => "conform"
  | ms_drift => "drift"
  | ms_excepted => "excepted"
  | ms_observe_only => "observe_only"
  | ms_not_evaluated => "not_evaluated"
  | ms_off => "off"
  end.

Definition NotEvaluated_value (r : NotEvaluated) : string :=
  match r with
  | ne_no_snapshot => "no_snapshot"
  | ne_stale => "stale"
  | ne_unparseable => "unparseable"
  | ne_invalid_desired => "invalid_desired"
  | ne_blocked_by_version => "blocked_by_version"
  end.

Definition DriftItem_as_dict (i : DriftItem) : json :=
  JObj [("module", JStr (di_module i)); ("path", JStr (di_path i));
        ("element", text_or_null (di_element i)); ("status", JStr (DriftStatus_value (di_status i)));
        ("severity", JStr (di_severity i)); ("desired", di_desired i); ("observed", di_observed i);
        ("origin", origin_or_null (di_origin i)); ("excepted", JBool (di_excepted i));
        ("note", text_or_null (di_note i))].

Definition Proposal_as_dict (p : Proposal) : json :=
  JObj [("module", JStr (pp_module p)); ("path", JStr (pp_path p)); ("op", JStr (pp_op p));
        ("value", pp_value p); ("widening", JBool (pp_widening p)); ("evidence", JObj (pp_evidence p))].

Definition ModuleEvaluation_as_dict (e : ModuleEvaluation) : json :=
  JObj [("module", JStr (me_module e)); ("mode", JStr (me_mode e));
        ("status", JStr (ModuleStatus_value (me_status e)));
        ("reason", text_or_null (NotEvaluated_value <$> me_reason e));
        ("detail", text_or_null (me_detail e)); ("items", JList (DriftItem_as_dict <$> me_items e));
        ("proposals", JList (Proposal_as_dict <$> me_proposals e))].
