(* ===== verification/ConfigOrder.v ===== *)
(** * Why the orders of the composition engine are what they are

    The depth-first search of the derived rules visits every name after its
    dependencies or finds a cycle; the choice and the sort of layers do not
    depend on the order of the input. *)

From S2P Require Import Prelude PyData PyTime ConfigDocument ConfigLayers ConfigDerive.
From stdpp Require Import base gmap strings pretty list sorting relations.
From Stdlib Require Import ZArith Ascii.

(** ** The search *)

Section search.
Context (deps : gmap string (gset string)) (names : gset string).
Context (Hclosed : ∀ n d, d ∈ default ∅ (deps !! n) → d ∈ names).

Definition depends (n d : string) : Prop := d ∈ default ∅ (deps !! n).

(** Each name of the stack depends on the next. *)
Fixpoint dep_chain (l : list string) : Prop :=
  match l with
  | n :: (d :: _) as l' => depends n d ∧ dep_chain l'
  | _ => True
  end.

Record SearchInv (stack : list string) (st : Visit) : Prop := {
  si_stack : NoDup stack;
  si_stack_names : ∀ n, n ∈ stack → n ∈ names;
  si_visiting n : vs_state st !! n = Some visiting ↔ n ∈ stack;
  si_visited n : vs_state st !! n = Some visited ↔ n ∈ vs_ordered st;
  si_ordered : NoDup (vs_ordered st);
  si_ordered_names : ∀ n, n ∈ vs_ordered st → n ∈ names;
  si_before i n d : vs_ordered st !! i = Some n → depends n d →
    ∃ j, j < i ∧ vs_ordered st !! j = Some d;
}.

(** The search from a name either visits it, extending the order, or raises
    because some name depends on itself. *)
Definition visit_result (stack : list string) (st : Visit) (goal : string → Prop)
    (r : result config_error Visit) : Prop :=
  match r with
  | Ok st' => SearchInv stack st' ∧ vs_ordered st `prefix_of` vs_ordered st' ∧
              ∀ n, goal n → n ∈ vs_ordered st'
  | Raise e => (∃ msg, e = DerivationCycleError msg) ∧ ∃ n, tc depends n n
  end.

Lemma dep_chain_tc stack n d :
  dep_chain (stack ++ [n]) → d ∈ stack → tc depends d n.
Proof.
  revert d. induction stack as [|x stack IH]; intros d Hc Hd; [by apply not_elem_of_nil in Hd|].
  destruct stack as [|y stack].
  - apply list_elem_of_singleton in Hd as ->. cbn in Hc. apply tc_once, Hc.
  - cbn in Hc, IH. destruct Hc as [Hxy Hc]. apply elem_of_cons in Hd as [->|Hd].
    + apply (tc_l _ _ y); [exact Hxy|]. apply IH; [done|]. by apply list_elem_of_here.
    + by apply IH.
Qed.

Lemma dep_chain_snoc stack n d :
  dep_chain (stack ++ [n]) → depends n d → dep_chain ((stack ++ [n]) ++ [d]).
Proof.
  intros Hc Hd. induction stack as [|x [|y stack] IH]; cbn in *; [done|naive_solver|].
  destruct Hc as [? Hc]. split; [done|]. by apply IH.
Qed.

Lemma visit_all_spec visit_one stack l :
  (∀ n st, n ∈ l → SearchInv stack st → visit_result stack st (eq n) (visit_one n st)) →
  ∀ st, SearchInv stack st → visit_result stack st (.∈ l) (visit_all visit_one l st).
Proof.
  induction l as [|n l IH]; intros Hone st HI; cbn [visit_all].
  { split_and!; [done|done|]. by intros n ?%not_elem_of_nil. }
  pose proof (Hone n st ltac:(by apply list_elem_of_here) HI) as Hn. destruct (visit_one n st) as [st1|e]; [|done].
  destruct Hn as (HI1 & Hp1 & Hn1). change (visit_result stack st (.∈ n :: l) (visit_all visit_one l st1)).
  pose proof (IH ltac:(intros; apply Hone; [by right|done]) st1 HI1) as H.
  destruct (visit_all visit_one l st1) as [st2|e]; [|done]. destruct H as (HI2 & Hp2 & Hl2).
  split_and!; [done|by etrans|]. intros m [->|Hm]%elem_of_cons; [|by apply Hl2].
  destruct Hp2 as [k ->]. apply elem_of_app. left. by apply Hn1.
Qed.

(** Entering a name, and leaving it once its dependencies are visited. *)
Lemma search_enter stack name st :
  SearchInv stack st → name ∈ names → vs_state st !! name = None →
  SearchInv (stack ++ [name]) (MkVisit (<[name := visiting]> (vs_state st)) (vs_ordered st)).
Proof.
  intros [Hs Hsn Hv Hd Ho Hon Hb] Hn Hnone.
  assert (Hns : name ∉ stack) by (intros ?%Hv; congruence).
  assert (Hno : name ∉ vs_ordered st) by (intros ?%Hd; congruence).
  split; cbn [vs_state vs_ordered]; [..|done|done|done].
  - apply NoDup_app. split_and!; [done|set_solver|apply NoDup_singleton].
  - set_solver.
  - intros n. rewrite elem_of_app, list_elem_of_singleton.
    destruct (decide (n = name)) as [->|]; [rewrite lookup_insert_eq; naive_solver|].
    rewrite lookup_insert_ne by done. rewrite Hv. naive_solver.
  - intros n. destruct (decide (n = name)) as [->|]; [rewrite lookup_insert_eq; naive_solver|].
    by rewrite lookup_insert_ne.
Qed.

Lemma search_leave stack name st :
  SearchInv (stack ++ [name]) st → (∀ d, depends name d → d ∈ vs_ordered st) →
  SearchInv stack (MkVisit (<[name := visited]> (vs_state st)) (vs_ordered st ++ [name])).
Proof.
  intros [Hs Hsn Hv Hd Ho Hon Hb] Hdeps.
  apply NoDup_app in Hs as (Hs & Hns & _).
  assert (Hname : vs_state st !! name = Some visiting) by (apply Hv; set_solver).
  assert (Hno : name ∉ vs_ordered st) by (intros ?%Hd; congruence).
  split; cbn [vs_state vs_ordered].
  - done.
  - set_solver.
  - intros n. destruct (decide (n = name)) as [->|].
    + rewrite lookup_insert_eq. split; [done|]. intros Hin. exfalso.
      apply (Hns name Hin). by apply list_elem_of_singleton.
    + rewrite lookup_insert_ne by done. rewrite Hv, elem_of_app, list_elem_of_singleton. naive_solver.
  - intros n. rewrite elem_of_app, list_elem_of_singleton.
    destruct (decide (n = name)) as [->|]; [rewrite lookup_insert_eq; naive_solver|].
    rewrite lookup_insert_ne by done. rewrite Hd. naive_solver.
  - apply NoDup_app. split_and!; [done|set_solver|apply NoDup_singleton].
  - set_solver.
  - intros i n d [Hi|Hi]%lookup_app_Some Hnd.
    + destruct (Hb i n d Hi Hnd) as (j & Hj & Hl). exists j. split; [done|]. by apply lookup_app_l_Some.
    + destruct Hi as [Hi [Hi0 <-]%list_lookup_singleton_Some].
      apply Hdeps, list_elem_of_lookup in Hnd as (j & Hj). exists j.
      split; [apply lookup_lt_Some in Hj; lia|]. by apply lookup_app_l_Some.
Qed.

Lemma visit_spec fuel : ∀ stack name st,
  SearchInv stack st → name ∈ names → dep_chain (stack ++ [name]) →
  size names < fuel + length stack + 1 →
  visit_result stack st (eq name) (visit fuel deps stack name st).
Proof.
  induction fuel as [|fuel IH]; intros stack name st HI Hn Hc Hf; cbn [visit];
    destruct (vs_state st !! name) as [[]|] eqn:Hst.
  - cbn. split; [by eexists|]. exists name. apply (dep_chain_tc stack); [done|].
    by apply (si_visiting _ _ HI).
  - split_and!; [done|done|]. intros ? <-. by apply (si_visited _ _ HI).
  - exfalso. assert (Hsub : list_to_set (stack ++ [name]) ⊆ names).
    { intros x. rewrite elem_of_list_to_set, elem_of_app, list_elem_of_singleton.
      intros [Hx| ->]; [by apply (si_stack_names _ _ HI)|done]. }
    apply subseteq_size in Hsub. rewrite size_list_to_set, length_app in Hsub; [cbn in Hsub; lia|].
    apply (si_stack _ _ (search_enter _ _ _ HI Hn Hst)).
  - cbn. split; [by eexists|]. exists name. apply (dep_chain_tc stack); [done|].
    by apply (si_visiting _ _ HI).
  - split_and!; [done|done|]. intros ? <-. by apply (si_visited _ _ HI).
  - pose proof (search_enter _ _ _ HI Hn Hst) as HI1.
    pose proof (visit_all_spec (visit fuel deps (stack ++ [name])) (stack ++ [name])
      (ordered_set (default ∅ (deps !! name)))) as Hall.
    match goal with |- visit_result _ _ _ (mbind _ (visit_all ?v ?l ?s)) =>
      specialize (Hall ltac:(intros d st1 Hd HI2; apply IH;
        [done|apply elem_of_py_sorted, elem_of_elements in Hd; by eapply Hclosed
        |apply elem_of_py_sorted, elem_of_elements in Hd; by apply dep_chain_snoc
        |rewrite length_app; cbn; lia]) s HI1);
      destruct (visit_all v l s) as [st2|e]; [|exact Hall] end.
    destruct Hall as (HI2 & Hp & Hl). cbn [mbind result_bind visit_result vs_ordered] in *.
    split_and!.
    + apply search_leave; [done|]. intros d Hd. apply Hl, elem_of_py_sorted, elem_of_elements. done.
    + by apply prefix_app_r.
    + intros ? <-. set_solver.
Qed.
End search.

(** ** The rules *)

(** A rule of the list, and a rule whose target it reads. *)
Definition reads (rules : list DerivedRule) (r s : DerivedRule) : Prop :=
  r ∈ rules ∧ s ∈ sources rules r.

Lemma elem_of_sources rules r s :
  s ∈ sources rules r ↔ s ∈ rules ∧ ∃ ref, ref ∈ dr_reads r ∧ feeds ref s = true.
Proof.
  unfold sources. rewrite list_elem_of_bind. setoid_rewrite list_elem_of_filter. naive_solver.
Qed.

Lemma rule_named_Some rules n r :
  NoDup (dr_name <$> rules) → rule_named rules n = Some r ↔ r ∈ rules ∧ dr_name r = n.
Proof.
  induction rules as [|x rules IH]; intros Hnd; cbn [rule_named].
  { split; [done|]. by intros [?%not_elem_of_nil _]. }
  apply NoDup_cons in Hnd as [Hx Hnd]. rewrite elem_of_cons.
  destruct (String.eqb_spec (dr_name x) n) as [<-|Hn].
  - split; [intros [= <-]; auto|]. intros [[->|Hr] Heq]; [done|].
    destruct Hx. rewrite <-Heq. by apply list_elem_of_fmap_2.
  - rewrite IH by done. naive_solver.
Qed.

Lemma collect_deps_spec all rules : ∀ deps,
  match collect_deps all rules deps with
  | Ok deps' =>
      (∀ r, r ∈ rules → r ∉ sources all r) ∧
      (NoDup (dr_name <$> rules) → ∀ n,
        deps' !! n = match rule_named rules n with
                     | Some r => Some (list_to_set (dr_name <$> sources all r))
                     | None => deps !! n
                     end)
  | Raise e => (∃ msg, e = DerivationCycleError msg) ∧
               ∃ r, r ∈ rules ∧ dr_name r ∈ (dr_name <$> sources all r)
  end.
Proof.
  induction rules as [|r rules IH]; intros deps; cbn [collect_deps].
  { split; [by intros ? ?%not_elem_of_nil|done]. }
  case_bool_decide as Hself; cbn [raise_if mbind result_bind].
  { split; [by eexists|]. exists r. split; [by apply list_elem_of_here|done]. }
  specialize (IH (<[dr_name r := list_to_set (dr_name <$> sources all r)]> deps)).
  destruct (collect_deps all rules _) as [deps'|e].
  - destruct IH as [Hns Hd]. split.
    + intros x [->|Hx]%elem_of_cons; [|by apply Hns]. intros Hr. apply Hself. by apply list_elem_of_fmap_2.
    + rewrite fmap_cons. intros [Hr Hnd]%NoDup_cons n. rewrite (Hd Hnd n). cbn [rule_named].
      destruct (String.eqb_spec (dr_name r) n) as [<-|Hne].
      * destruct (rule_named rules (dr_name r)) as [s|] eqn:Hs; [|by rewrite lookup_insert_eq].
        apply rule_named_Some in Hs as [Hs Heq]; [|done]. destruct Hr. rewrite <-Heq.
        by apply list_elem_of_fmap_2.
      * destruct (rule_named rules n); [done|]. by rewrite lookup_insert_ne.
  - destruct IH as [? (x & Hx & Hin)]. split; [done|]. exists x. split; [by right|done].
Qed.

Section rules.
Context (rules : list DerivedRule) (Hnd : NoDup (dr_name <$> rules)).
Context (deps : gmap string (gset string)).
Context (Hdeps : ∀ n, deps !! n = match rule_named rules n with
  | Some r => Some (list_to_set (dr_name <$> sources rules r)) | None => None end).

Lemma depends_spec r d :
  r ∈ rules → depends deps (dr_name r) d ↔ ∃ s, s ∈ sources rules r ∧ dr_name s = d.
Proof.
  intros Hr. unfold depends. rewrite Hdeps.
  assert (rule_named rules (dr_name r) = Some r) as -> by (by apply rule_named_Some).
  cbn. rewrite elem_of_list_to_set, list_elem_of_fmap. naive_solver.
Qed.

Lemma depends_rule n d :
  depends deps n d → ∃ r s, r ∈ rules ∧ dr_name r = n ∧ s ∈ sources rules r ∧ dr_name s = d.
Proof.
  intros Hd. destruct (rule_named rules n) as [r|] eqn:Hn.
  - apply rule_named_Some in Hn as [Hr <-]; [|done].
    apply depends_spec in Hd as (s & Hs & <-); [|done]. eauto 10.
  - unfold depends in Hd. rewrite Hdeps, Hn in Hd. cbn in Hd. set_solver.
Qed.

Lemma tc_depends_reads n d : tc (depends deps) n d →
  ∃ r s, dr_name r = n ∧ dr_name s = d ∧ s ∈ rules ∧ tc (reads rules) r s.
Proof.
  induction 1 as [n d Hd|n m d Hd _ IH].
  - apply depends_rule in Hd as (r & s & Hr & <- & Hs & <-). exists r, s.
    split_and!; [done..|by apply elem_of_sources in Hs as [? _]|]. by apply tc_once.
  - apply depends_rule in Hd as (r & s & Hr & <- & Hs & <-).
    destruct IH as (r' & s' & Heq & <- & Hs' & Htc). exists r, s'. split_and!; [done..|].
    assert (r' ∈ rules) as Hr' by (destruct Htc as [? ? []|? ? ? []]; done).
    assert (r' = s) as ->; [|by eapply tc_l].
    apply elem_of_sources in Hs as [Hs _]. by eapply (NoDup_key_eq dr_name).
Qed.

Definition rule_names : gset string := list_to_set (dr_name <$> rules).

Lemma elem_of_rule_names n : n ∈ ordered_set rule_names ↔ n ∈ dr_name <$> rules.
Proof.
  unfold ordered_set, rule_names. by rewrite elem_of_py_sorted, elem_of_elements, elem_of_list_to_set.
Qed.

Lemma search_start : SearchInv deps rule_names [] (MkVisit ∅ []).
Proof.
  split; cbn; try (intros; set_solver); try apply NoDup_nil_2.
Qed.

Lemma search_all :
  visit_result deps rule_names [] (MkVisit ∅ []) (.∈ ordered_set rule_names)
    (visit_all (visit (length rules) deps []) (ordered_set rule_names) (MkVisit ∅ [])).
Proof.
  apply visit_all_spec; [|apply search_start].
  intros n st Hn HI. apply visit_spec; [|done| |done|].
  - intros m d (r & s & _ & _ & Hs & <-)%depends_rule.
    apply elem_of_sources in Hs as [Hs _]. apply elem_of_list_to_set. by apply list_elem_of_fmap_2.
  - unfold rule_names. by rewrite elem_of_list_to_set, <-elem_of_rule_names.
  - unfold rule_names. rewrite size_list_to_set, length_fmap by done. cbn. lia.
Qed.
End rules.

(** The order of the input does not matter. *)
Section permuted.
Context (rules rules' : list DerivedRule) (Hp : rules ≡ₚ rules').
Context (Hnd : NoDup (dr_name <$> rules)).

Lemma NoDup_permuted : NoDup (dr_name <$> rules').
Proof. by rewrite <-Hp. Qed.

Lemma rule_named_perm n : rule_named rules n = rule_named rules' n.
Proof.
  apply option_eq. intros r.
  rewrite !rule_named_Some by auto using NoDup_permuted. by rewrite Hp.
Qed.

Lemma sources_perm r s : s ∈ sources rules r ↔ s ∈ sources rules' r.
Proof. by rewrite !elem_of_sources, Hp. Qed.

Lemma source_names_perm r :
  list_to_set (dr_name <$> sources rules r) =@{gset string}
  list_to_set (dr_name <$> sources rules' r).
Proof.
  apply set_eq. intros n. rewrite !elem_of_list_to_set, !list_elem_of_fmap.
  by setoid_rewrite sources_perm.
Qed.

Lemma collect_deps_perm deps :
  collect_deps rules rules ∅ = Ok deps → collect_deps rules' rules' ∅ = Ok deps.
Proof.
  intros Hd. pose proof (collect_deps_spec rules rules ∅) as H. rewrite Hd in H.
  destruct H as [Hself Hlk]. pose proof (collect_deps_spec rules' rules' ∅) as H.
  destruct (collect_deps rules' rules' ∅) as [deps'|e].
  - f_equal. apply map_eq. intros n. destruct H as [_ Hlk'].
    rewrite (Hlk' NoDup_permuted), (Hlk Hnd), rule_named_perm.
    by destruct (rule_named rules' n); [rewrite source_names_perm|].
  - destruct H as [_ (r & Hr & (s & Heq & Hs)%list_elem_of_fmap)]. exfalso.
    rewrite <-Hp in Hr. apply sources_perm in Hs.
    assert (r = s) as <-; [|by apply (Hself r)].
    apply elem_of_sources in Hs as [? _]. by apply (NoDup_key_eq dr_name rules).
Qed.

Lemma order_rules_perm l : order_rules rules = Ok l → order_rules rules' = Ok l.
Proof.
  unfold order_rules. rewrite !bool_decide_eq_false_2 by (pose proof NoDup_permuted; tauto).
  cbn [raise_if mbind result_bind]. intros H. apply result_bind_Ok in H as (deps & Hdeps & H).
  rewrite (collect_deps_perm _ Hdeps). cbn [mbind result_bind].
  assert (rule_names rules' = rule_names rules) as Hn.
  { apply set_eq. intros n. unfold rule_names. by rewrite !elem_of_list_to_set, Hp. }
  unfold rule_names in Hn. rewrite Hn, <-(Permutation_length Hp).
  destruct (visit_all _ _ _) as [st|e]; [|done]. cbn [mbind result_bind] in *.
  injection H as <-. f_equal. apply list_omap_ext, Forall_Forall2_diag, Forall_true.
  intros n. by rewrite rule_named_perm.
Qed.
End permuted.

Lemma omap_Forall2 {A B} (f : A → option B) (l : list A) :
  (∀ x, x ∈ l → is_Some (f x)) → Forall2 (λ x y, f x = Some y) l (omap f l).
Proof.
  induction l as [|x l IH]; intros Hl; [constructor|].
  destruct (Hl x ltac:(by apply list_elem_of_here)) as [y Hy]. cbn. rewrite Hy.
  constructor; [done|]. apply IH. intros z Hz. apply Hl. by right.
Qed.

(** What the search returns, read as rules. *)
Lemma order_rules_Ok rules l :
  order_rules rules = Ok l →
  NoDup (dr_name <$> rules) ∧ l ≡ₚ rules ∧
  ∀ i r s, l !! i = Some r → s ∈ sources rules r → ∃ j, j < i ∧ l !! j = Some s.
Proof.
  unfold order_rules. intros (_ & Hnd%raise_if_Ok & (deps & Hdeps & (st & Hst & [= <-])%result_bind_Ok)%result_bind_Ok)%result_bind_Ok.
  apply bool_decide_eq_false, dec_stable in Hnd. split; [done|].
  pose proof (collect_deps_spec rules rules ∅) as Hd. rewrite Hdeps in Hd.
  destruct Hd as [Hself Hlk]. specialize (Hlk Hnd).
  pose proof (search_all rules Hnd deps Hlk) as Hs. unfold rule_names in Hs.
  rewrite Hst in Hs. destruct Hs as (HI & _ & Hall).
  assert (Hl := omap_Forall2 (rule_named rules) (vs_ordered st)).
  specialize (Hl ltac:(intros n Hn; apply (si_ordered_names _ _ _ _ HI) in Hn;
    apply elem_of_list_to_set, list_elem_of_fmap in Hn as (r & -> & Hr); exists r;
    by apply rule_named_Some)).
  assert (Hlookup : ∀ i r, omap (rule_named rules) (vs_ordered st) !! i = Some r ↔
    vs_ordered st !! i = Some (dr_name r) ∧ r ∈ rules).
  { intros i r. split.
    - intros Hi. destruct (Forall2_lookup_r _ _ _ _ _ Hl Hi) as (n & Hn & Hr).
      apply rule_named_Some in Hr as [Hr <-]; [|done]. done.
    - intros [Hi Hr]. destruct (Forall2_lookup_l _ _ _ _ _ Hl Hi) as (r' & Hr' & Heq).
      rewrite Hr'. rewrite <-Heq. by apply rule_named_Some. }
  split.
  - apply NoDup_Permutation.
    + apply NoDup_alt. intros i j r [Hi _]%Hlookup [Hj _]%Hlookup.
      by eapply NoDup_lookup; [apply (si_ordered _ _ _ _ HI)|..].
    + by eapply NoDup_fmap_1.
    + intros r. rewrite list_elem_of_lookup. setoid_rewrite Hlookup. split; [naive_solver|].
      intros Hr. assert (dr_name r ∈ vs_ordered st) as (i & Hi)%list_elem_of_lookup; [|eauto].
      apply Hall, elem_of_rule_names. by apply list_elem_of_fmap_2.
  - intros i r s [Hi Hr]%Hlookup Hs. pose proof Hs as [Hs' _]%elem_of_sources.
    destruct (si_before _ _ _ _ HI i _ (dr_name s) Hi) as (j & Hj & Hjs).
    + apply (depends_spec rules Hnd deps Hlk); eauto.
    + exists j. split; [done|]. by apply Hlookup.
Qed.

Lemma order_rules_Raise rules e :
  order_rules rules = Raise e →
  (∃ msg, e = DerivationCycleError msg) ∧
  (¬ NoDup (dr_name <$> rules) ∨ ∃ r, tc (reads rules) r r).
Proof.
  unfold order_rules. case_bool_decide as Hnd; cbn [raise_if mbind result_bind].
  { intros [= <-]. split; [by eexists|by left]. }
  pose proof (collect_deps_spec rules rules ∅) as Hd.
  destruct (collect_deps rules rules ∅) as [deps|e']; cbn [mbind result_bind].
  - destruct Hd as [_ Hlk]. specialize (Hlk Hnd).
    pose proof (search_all rules Hnd deps Hlk) as Hs. unfold rule_names in Hs.
    destruct (visit_all _ _ _) as [st|e']; cbn [mbind result_bind]; [done|].
    intros [= <-]. destruct Hs as [? [n Hn]]. split; [done|]. right.
    apply (tc_depends_reads rules Hnd deps Hlk) in Hn as (r & s & <- & Heq & Hs & Htc).
    assert (r ∈ rules) as Hr by (destruct Htc as [? ? []|? ? ? []]; done).
    assert (s = r) as -> by (by eapply (NoDup_key_eq dr_name rules)). by exists r.
  - intros [= <-]. destruct Hd as [? (r & Hr & (s & Heq & Hs)%list_elem_of_fmap)].
    split; [done|]. right. exists r. apply tc_once. split; [done|].
    assert (r = s) as <-; [|done]. apply elem_of_sources in Hs as [? _].
    by eapply (NoDup_key_eq dr_name rules).
Qed.

(** Rules in an order that puts sources first do not read each other in a
    circle. *)
Lemma ordered_acyclic rules l :
  NoDup l → l ≡ₚ rules →
  (∀ i r s, l !! i = Some r → s ∈ sources rules r → ∃ j, j < i ∧ l !! j = Some s) →
  ∀ r, ¬ tc (reads rules) r r.
Proof.
  intros Hnd Hp Hord.
  assert (∀ r s, tc (reads rules) r s → ∃ i j, j < i ∧ l !! i = Some r ∧ l !! j = Some s) as Hlt.
  { induction 1 as [r s [Hr Hs]|r s t [Hr Hs] _ (i & j & Hj & Hi & Ht)];
      rewrite <-Hp in Hr; apply list_elem_of_lookup in Hr as [n Hn];
      destruct (Hord n r s Hn Hs) as (n' & Hn' & Hs').
    - by exists n, n'.
    - assert (n' = i) as -> by (by eapply NoDup_lookup). exists n, j. split_and!; [lia|done..]. }
  intros r (i & j & Hj & Hi & Hi')%Hlt. assert (i = j) by (by eapply NoDup_lookup). lia.
Qed.

(** ** The layers that apply *)

Section layers.
Context (tiers : list TierSpec) (subject : Subject).

Definition tier_of (r : LayerRevision) : result config_error TierSpec :=
  plugin_tier tiers (ly_tier (lr_layer r)).

(** The applicable revisions of known tiers, in input order. *)
Definition applicable (revisions : list LayerRevision) : list (TierSpec * LayerRevision) :=
  omap (λ r, if layer_applies (lr_layer r) subject then
               match tier_of r with Ok tier => Some (tier, r) | Raise _ => None end
             else None) revisions.

Definition layer_ids (l : list (TierSpec * LayerRevision)) : list string :=
  (λ tr, ly_id (lr_layer tr.2)) <$> l.

Lemma choose_loop_Ok revisions : ∀ chosen l,
  NoDup (layer_ids chosen) →
  choose_loop tiers subject revisions (layer_ids chosen) chosen = Ok l ↔
  (∀ r, r ∈ revisions → is_ok (tier_of r) = true) ∧
  NoDup (layer_ids (chosen ++ applicable revisions)) ∧ l = chosen ++ applicable revisions.
Proof.
  induction revisions as [|r revisions IH]; intros chosen l Hnd; cbn [choose_loop].
  { rewrite app_nil_r. split; [intros [= ->]|by intros (_ & _ & ->)].
    split_and!; [by intros ? ?%not_elem_of_nil|done..]. }
  assert (Hknown : ∀ P : Prop, (∀ x, x ∈ r :: revisions → is_ok (tier_of x) = true) ∧ P ↔
    is_ok (tier_of r) = true ∧ (∀ x, x ∈ revisions → is_ok (tier_of x) = true) ∧ P).
  { intros P. setoid_rewrite elem_of_cons. naive_solver. }
  rewrite Hknown. unfold applicable. cbn [omap list_omap]. fold (applicable revisions).
  change (plugin_tier tiers (ly_tier (lr_layer r))) with (tier_of r).
  destruct (tier_of r) as [tier|e]; cbn [mbind result_bind is_ok]; [|naive_solver].
  destruct (layer_applies (lr_layer r) subject); [|rewrite IH by done; naive_solver].
  case_bool_decide as Hin; cbn [raise_if mbind result_bind].
  - split; [done|]. intros (_ & _ & Hn & _). exfalso.
    unfold layer_ids in Hn, Hin. rewrite fmap_app in Hn. apply NoDup_app in Hn as (_ & Hn & _).
    apply (Hn _ Hin). cbn. by left.
  - assert (Hids : layer_ids (chosen ++ [(tier, r)]) = layer_ids chosen ++ [ly_id (lr_layer r)]).
    { unfold layer_ids. by rewrite fmap_app. }
    rewrite <-Hids, IH.
    + rewrite <-!(assoc_L (++)). cbn. naive_solver.
    + rewrite Hids. apply NoDup_app. split_and!; [done|set_solver|apply NoDup_singleton].
Qed.

Lemma choose_layers_Ok revisions l :
  choose_layers tiers subject revisions = Ok l ↔
  (∀ r, r ∈ revisions → is_ok (tier_of r) = true) ∧
  NoDup (layer_ids (applicable revisions)) ∧ l = py_sorted revision_leb (applicable revisions).
Proof.
  unfold choose_layers. rewrite result_bind_Ok.
  setoid_rewrite (choose_loop_Ok revisions [] _ ltac:(constructor)). cbn [app]. naive_solver.
Qed.

Lemma choose_loop_Raise revisions e : ∀ chosen,
  choose_loop tiers subject revisions (layer_ids chosen) chosen = Raise e →
  (∃ r, r ∈ revisions ∧ tier_of r = Raise e) ∨
  (∃ issues, e = LayerError issues) ∧ ¬ NoDup (layer_ids (chosen ++ applicable revisions)).
Proof.
  induction revisions as [|r revisions IH]; intros chosen; cbn [choose_loop]; [done|].
  unfold applicable. cbn [omap list_omap]. fold (applicable revisions).
  change (plugin_tier tiers (ly_tier (lr_layer r))) with (tier_of r).
  destruct (tier_of r) as [tier|e'] eqn:Ht; cbn [mbind result_bind].
  - destruct (layer_applies (lr_layer r) subject).
    + assert (Hids : layer_ids chosen ++ [ly_id (lr_layer r)] = layer_ids (chosen ++ [(tier, r)])).
      { unfold layer_ids. by rewrite fmap_app. }
      case_bool_decide as Hin; cbn [raise_if mbind result_bind].
      * intros [= <-]. right. split; [by eexists|]. unfold layer_ids in *. rewrite fmap_app.
        intros (_ & Hn & _)%NoDup_app. apply (Hn _ Hin). by left.
      * rewrite Hids. intros [(x & Hx & He)|Hd]%IH; [left; exists x; split; [by right|done]|right].
        by rewrite <-(assoc_L (++)) in Hd.
    + intros [(x & Hx & He)|Hd]%IH; [left; exists x; split; [by right|done]|by right].
  - intros [= <-]. left. exists r. split; [by left|done].
Qed.

(** Two chosen revisions that compare equal are one. *)
Lemma revision_leb_eq (l : list (TierSpec * LayerRevision)) x y :
  NoDup (layer_ids l) → x ∈ l → y ∈ l →
  revision_leb x y = true → revision_leb y x = true → x = y.
Proof.
  intros Hnd Hx Hy Hxy Hyx. apply (NoDup_key_eq (λ tr, ly_id (lr_layer tr.2)) l); [done..|].
  unfold revision_leb, sort_key_leb in *. unfold leb_on at 1 in Hxy. unfold leb_on at 1 in Hyx.
  do 3 (pose proof (leb_then_both _ _ _ _ Hxy Hyx) as (_ & Hxy' & Hyx');
        clear Hxy Hyx; rename Hxy' into Hxy, Hyx' into Hyx).
  by apply String.leb_antisym.
Qed.

Lemma applicable_perm revisions revisions' :
  revisions ≡ₚ revisions' → applicable revisions ≡ₚ applicable revisions'.
Proof. intros Hp. unfold applicable. by rewrite Hp. Qed.

Lemma choose_layers_perm revisions revisions' l :
  revisions ≡ₚ revisions' → choose_layers tiers subject revisions = Ok l →
  choose_layers tiers subject revisions' = Ok l.
Proof.
  rewrite !choose_layers_Ok. intros Hp (Hk & Hnd & ->). pose proof (applicable_perm _ _ Hp) as Ha.
  split_and!.
  - intros r. rewrite <-Hp. apply Hk.
  - unfold layer_ids. by rewrite <-Ha.
  - apply py_sorted_unique; [apply _|done|]. intros x y Hx Hy. by apply (revision_leb_eq (applicable revisions)).
Qed.
End layers.

Lemma order_exceptions_perm exceptions exceptions' :
  exceptions ≡ₚ exceptions' →
  NoDup ((λ e, (date_isoformat (ex_created_on e), ex_id e)) <$> exceptions) →
  order_exceptions exceptions = order_exceptions exceptions'.
Proof.
  intros Hp Hnd. apply py_sorted_unique; [apply _|done|].
  intros x y Hx Hy Hxy Hyx. apply (NoDup_key_eq _ _ _ _ Hnd Hx Hy).
  destruct (leb_then_both _ _ _ _ Hxy Hyx) as ([H1 H2] & H3 & H4).
  f_equal; by apply String.leb_antisym.
Qed.
