(* ===== verification/ConfigFrame.v ===== *)
(** * What merging one key leaves alone

    A pointer names one path. Merging the value of a key of a module's
    parameters reads and writes the logs at that key's pointer and below it
    only; what is recorded of every other key is left as it was. *)

From S2P Require Import Prelude PyData PyTime ConfigDocument ConfigFields ConfigMerge.
From stdpp Require Import base gmap strings pretty list sorting.
From Stdlib Require Import ZArith NArith Ascii Wf_nat.

(** ** Texts without a separator *)

Definition no_slash (s : string) : bool := str_all (λ c, negb (Ascii.eqb c "/")) s.

Lemma escape_no_slash s : no_slash (escape_segment s) = true.
Proof.
  unfold no_slash, escape_segment. induction s as [|c s IH]; [done|]. cbn [str_flat_map].
  rewrite str_all_app, IH, andb_true_r. unfold escape_char.
  destruct (Ascii.eqb_spec c "~"); [done|]. destruct (Ascii.eqb_spec c "/"); [done|].
  cbn. by rewrite (proj2 (Ascii.eqb_neq _ _)).
Qed.

Lemma escape_inj a b : escape_segment a = escape_segment b → a = b.
Proof.
  unfold escape_segment. revert b.
  induction a as [|c a IH]; intros [|d b]; cbn [str_flat_map]; [done|..].
  - unfold escape_char. destruct (Ascii.eqb d "~"), (Ascii.eqb d "/"); discriminate.
  - unfold escape_char. destruct (Ascii.eqb c "~"), (Ascii.eqb c "/"); discriminate.
  - unfold escape_char.
    destruct (Ascii.eqb_spec c "~"), (Ascii.eqb_spec d "~"), (Ascii.eqb_spec c "/"),
      (Ascii.eqb_spec d "/"); subst; cbn; intros H; try discriminate H; try congruence;
      rewrite ?string_app_cons in H; injection H; intros; subst; try congruence;
      f_equal; by apply IH.
Qed.

Lemma string_app_nil_l s : "" +:+ s = s.
Proof. done. Qed.

(** ** Pointers of paths *)

Lemma pointer_cons s path : pointer (s :: path) = "/" +:+ escape_segment s +:+ pointer path.
Proof. done. Qed.

Lemma pointer_app p q : pointer (p ++ q) = pointer p +:+ pointer q.
Proof.
  induction p as [|s p IH]; [done|]. cbn [app]. rewrite !pointer_cons, IH.
  by rewrite !string_app_assoc.
Qed.

Lemma before_last_app c a b :
  before_last c (a +:+ String c b) =
    match before_last c b with
    | Some rest => Some (a +:+ String c rest)
    | None => Some a
    end.
Proof.
  induction a as [|d a IH].
  - change ("" +:+ String c b) with (String c b). cbn [before_last].
    destruct (before_last c b); [done|]. by rewrite Ascii.eqb_refl.
  - rewrite string_app_cons. cbn [before_last]. rewrite IH. by destruct (before_last c b).
Qed.

Lemma before_last_none s : no_slash s = true → before_last "/" s = None.
Proof.
  induction s as [|c s IH]; [done|]. cbn. intros [Hc Hs]%andb_true_iff.
  unfold no_slash in IH. rewrite IH by done. by apply negb_true_iff in Hc as ->.
Qed.

Lemma rsplit_pointer path s : rsplit_parent (pointer (path ++ [s])) = pointer path.
Proof.
  unfold rsplit_parent. rewrite pointer_app, pointer_cons.
  change ("/" +:+ escape_segment s +:+ pointer []) with (String "/" (escape_segment s +:+ "")).
  rewrite before_last_app, before_last_none; [done|].
  unfold no_slash. rewrite str_all_app. apply andb_true_iff. split; [apply escape_no_slash|done].
Qed.

(** Everything at or below the pointer of a key. *)
Definition under (k : string) (p : string) : Prop := at_or_below (pointer [k]) p = true.

Lemma under_pointer k rest : under k (pointer (k :: rest)).
Proof.
  unfold under, at_or_below. change (k :: rest) with ([k] ++ rest). rewrite pointer_app.
  destruct rest as [|s rest]; apply orb_true_iff; [left|right].
  - apply String.eqb_eq. cbn [pointer foldr]. rewrite !string_app_assoc. done.
  - rewrite (pointer_cons s). apply startswith_spec.
    exists (escape_segment s +:+ pointer rest). by rewrite string_app_assoc.
Qed.

Lemma under_below k p q : under k p → at_or_below p q = true → under k q.
Proof.
  unfold under, at_or_below. rewrite !orb_true_iff, !String.eqb_eq.
  intros Hp [->|[a ->]%startswith_spec]; [done|].
  right. destruct Hp as [->|[b ->]%startswith_spec]; apply startswith_spec.
  - by exists a.
  - exists (b +:+ "/" +:+ a). by rewrite !string_app_assoc.
Qed.

Lemma under_element `{Runtime} k p item : under k p → under k (element_pointer p item).
Proof.
  intros Hp. eapply under_below; [exact Hp|]. unfold at_or_below, element_pointer.
  apply orb_true_iff. right. apply startswith_spec. eexists. by rewrite string_app_assoc.
Qed.

(** Two keys share no pointer. *)
Lemma same_first_segment a b x y :
  no_slash a = true → no_slash b = true →
  a +:+ String "/" x = b +:+ String "/" y → a = b.
Proof.
  revert b. induction a as [|c a IH]; intros [|d b]; cbn; [done|..].
  - intros _ [Hd _]%andb_true_iff [= <- _]. done.
  - intros [Hd _]%andb_true_iff _ [= -> _]. done.
  - intros [_ Ha]%andb_true_iff [_ Hb]%andb_true_iff [= -> H]. f_equal. by apply IH.
Qed.

Lemma under_tail k p : under k p → ∃ a, p +:+ "/" = "/" +:+ escape_segment k +:+ String "/" a.
Proof.
  unfold under, at_or_below. rewrite orb_true_iff, String.eqb_eq, pointer_cons.
  change (pointer []) with "". rewrite string_app_nil_r.
  intros [->|[a ->]%startswith_spec]; [exists ""|exists (a +:+ "/")]; by rewrite !string_app_assoc.
Qed.

Lemma under_one k k' p : under k p → under k' p → k = k'.
Proof.
  intros [a Ha]%under_tail [b Hb]%under_tail. rewrite Ha in Hb. injection Hb as Hb.
  apply escape_inj. apply (same_first_segment _ _ a b); [apply escape_no_slash..|].
  exact Hb.
Qed.

Lemma not_under k k' : k ≠ k' → ¬ under k' (pointer [k]).
Proof. intros Hne Hu. apply Hne. by apply (under_one _ _ (pointer [k])); [apply under_pointer|]. Qed.

Lemma ancestors_under k rest p : p ∈ _ancestors (pointer (k :: rest)) → under k p.
Proof.
  unfold _ancestors. generalize (String.length (pointer (k :: rest))) as n.
  intros n. revert rest. induction n as [|n IH]; intros rest; [by intros ?%not_elem_of_nil|].
  destruct (pointer (k :: rest)) as [|c s] eqn:Hp; [by intros ?%not_elem_of_nil|].
  cbn [ancestors_loop]. rewrite <-Hp. intros [->|Hin]%elem_of_cons; [apply under_pointer|].
  destruct rest as [|t rest _] using rev_ind.
  - change [k] with ([] ++ [k]) in Hin. rewrite rsplit_pointer in Hin.
    destruct n; by apply not_elem_of_nil in Hin.
  - rewrite app_comm_cons, rsplit_pointer in Hin. by apply (IH rest).
Qed.

(** ** Calls that stay under a key *)

(** What the logs hold outside the pointers [P] is unchanged. *)
Record untouched (P : string → Prop) (m m' : Merger) : Prop := {
  un_prov p : ¬ P p → m_prov m' !! p = m_prov m !! p;
  un_conflicts p : ¬ P p → m_conflicts m' !! p = m_conflicts m !! p;
  un_log p g : ¬ P p → m_log m' !! (p, g) = m_log m !! (p, g);
  un_before p g : ¬ P p → m_before m' !! (p, g) = m_before m !! (p, g);
}.

#[export] Instance untouched_refl P : Reflexive (untouched P).
Proof. by split. Qed.
#[export] Instance untouched_trans P : Transitive (untouched P).
Proof.
  intros m1 m2 m3 [H1 H2 H3 H4] [K1 K2 K3 K4].
  split; intros; [rewrite K1, H1|rewrite K2, H2|rewrite K3, H3|rewrite K4, H4]; done.
Qed.

(** Every return of a call relates the mergers before and after. *)
Definition within (R : relation Merger) {A} (c : MergeST A) : Prop :=
  ∀ m a m', c m = (Ok a, m') → R m m'.

Section within.
Context (R : relation Merger) `{!PreOrder R}.

Lemma within_ret {A} (a : A) : within R (mret a).
Proof. by intros m b m' [= _ <-]. Qed.
Lemma within_lift {A} (r : result config_error A) : within R (lift r).
Proof. by intros m b m' [= _ <-]. Qed.
Lemma within_raise {A} e : within R (raise e : MergeST A).
Proof. done. Qed.
Lemma within_gets {A} (f : Merger → A) : within R (gets f).
Proof. by intros m b m' [= _ <-]. Qed.
Lemma within_modify f : (∀ m, R m (f m)) → within R (modify f).
Proof. by intros Hf m b m' [= _ <-]. Qed.
Lemma within_bind {A B} (c : MergeST A) (f : A → MergeST B) :
  within R c → (∀ a, within R (f a)) → within R (c ≫= f).
Proof.
  intros Hc Hf m b m' (a & m1 & H1 & H2)%ST_bind_Ok.
  etrans; [by eapply Hc|by eapply Hf].
Qed.

Lemma within_foldl {B} (f : Merger → B → Merger) l m :
  (∀ m x, x ∈ l → R m (f m x)) → R m (foldl f m l).
Proof.
  revert m. induction l as [|x l IH]; intros m Hf; [done|]. cbn. etrans.
  - apply Hf. by apply list_elem_of_here.
  - apply IH. intros m' y Hy. apply Hf. by right.
Qed.

Lemma within_foldl_pair {B C} (f : C * Merger → B → C * Merger) l c m :
  (∀ c m x, x ∈ l → R m (f (c, m) x).2) → R m (foldl f (c, m) l).2.
Proof.
  revert c m. induction l as [|x l IH]; intros c m Hf; [done|]. cbn.
  destruct (f (c, m) x) as [c' m'] eqn:Hx. etrans.
  - pose proof (Hf c m x ltac:(by apply list_elem_of_here)) as H. by rewrite Hx in H.
  - apply IH. intros c0 m0 y Hy. apply Hf. by right.
Qed.
End within.

Abbreviation stays P := (within (untouched P)).

Lemma untouched_weaken (P Q : string → Prop) m m' :
  (∀ p, P p → Q p) → untouched P m m' → untouched Q m m'.
Proof. intros HPQ [H1 H2 H3 H4]. split; intros; [apply H1|apply H2|apply H3|apply H4]; naive_solver. Qed.

#[export] Instance untouched_pre P : PreOrder (untouched P).
Proof. split; apply _. Qed.

Create HintDb stays.
#[export] Hint Resolve within_ret within_lift within_raise within_gets untouched_pre : stays.

(** Take a stateful call apart down to its writes. *)
Ltac stays_step :=
  match goal with
  | |- within _ (mbind _ _) => apply within_bind; [apply _| |intros ?]
  | |- within _ (modify _) => apply within_modify; intros ?
  | |- within _ (match ?x with _ => _ end) => destruct x
  | |- within _ (let '(_, _) := ?x in _) => destruct x
  | |- within _ _ => solve [auto with stays]
  | |- ?R _ ((if ?b then _ else _) _) => destruct b
  | |- ?R _ _ => solve [auto with stays]
  end.
Ltac stays_tac := repeat stays_step.

(** ** The writes *)

Section writes.
Context (P : string → Prop).

Lemma untouched_prov f m : (∀ p, ¬ P p → f (m_prov m) !! p = m_prov m !! p) →
  untouched P m (with_prov f m).
Proof. intros Hf. by split. Qed.

Lemma untouched_tombs f m : untouched P m (with_tombs f m).
Proof. by split. Qed.
Lemma untouched_lint s m : untouched P m (with_lint s m).
Proof. by split. Qed.
Lemma untouched_id m : untouched P m (id m).
Proof. done. Qed.

Lemma untouched_note ptr o v keep m : P ptr → untouched P m (_note ptr o v keep m).
Proof.
  intros Hp. unfold _note. etrans; [apply untouched_prov|apply untouched_tombs].
  intros p Hnp. by rewrite lookup_insert_ne by (intros ->; done).
Qed.

Lemma untouched_record ptr w m : P ptr → untouched P m (_record ptr w m).
Proof.
  intros Hp. split; try done. intros p g Hnp. cbn.
  by rewrite lookup_insert_ne by (intros [= -> _]; done).
Qed.

Lemma untouched_before ptr g l m : P ptr → untouched P m (with_before <[(ptr, g) := l]> m).
Proof.
  intros Hp. split; try done. intros p g' Hnp. cbn.
  by rewrite lookup_insert_ne by (intros [= -> _]; done).
Qed.

Lemma untouched_flag ptr ws m : P ptr → untouched P m (_flag ptr ws m).
Proof.
  intros Hp. unfold _flag. destruct (add_writes _ _ _) as [ls vs]. split; try done.
  intros p Hnp. cbn. by rewrite lookup_insert_ne by (intros ->; done).
Qed.

Lemma untouched_delete_clash ptr w m :
  (∀ p, p ∈ _ancestors ptr → P p) → untouched P m (_delete_clash ptr w m).
Proof.
  intros Ha. apply (within_foldl _). intros m' p Hp. unfold clash_at.
  destruct (filter _ _); [done|]. by apply untouched_flag, Ha.
Qed.

Lemma untouched_write_clash ptr w m : P ptr → untouched P m (_write_clash ptr w m).
Proof.
  intros Hp. apply (within_foldl _). intros m' e _. unfold clash_below.
  destruct (filter _ _); [done|]. by apply untouched_flag.
Qed.

Lemma untouched_filter (Q : string → bool) m : (∀ p, Q p = true → P p) →
  untouched P m (with_prov (filter (λ kp, Q kp.1 = false)) m).
Proof.
  intros HQ. apply untouched_prov. intros p Hnp. apply option_eq. intros x.
  rewrite map_lookup_filter_Some. cbn. split; [by intros []|]. intros Hx. split; [done|].
  destruct (Q p) eqn:Hq; [by apply HQ in Hq|done].
Qed.

Lemma untouched_tombstone path o m :
  (∀ p, at_or_below (pointer path) p = true → P p) → untouched P m (_tombstone path o m).
Proof.
  intros Hp. unfold _tombstone. etrans; [apply untouched_tombs|by apply untouched_filter].
Qed.
End writes.

(** ** The operations on one key *)

Section one_key.
Context `{Runtime} `{IpText} (k : string).

Lemma untouched_element_prov ptr o m item :
  under k ptr → untouched (under k) m (add_element_prov ptr o m item).
Proof.
  intros Hp. apply untouched_prov. intros p Hnp.
  rewrite lookup_insert_ne; [done|]. intros <-. by apply Hnp, under_element.
Qed.

Lemma untouched_contribute ptr o m item :
  under k ptr → untouched (under k) m (contribute ptr o item m).
Proof.
  intros Hp. apply untouched_prov. intros p Hnp.
  rewrite lookup_alter_ne; [done|]. intros <-. by apply Hnp, under_element.
Qed.

Lemma untouched_tombstone_element ptr o m item :
  under k ptr → untouched (under k) m (_tombstone_element ptr item o m).
Proof.
  intros Hp. unfold _tombstone_element. etrans; [apply untouched_prov|apply untouched_tombs].
  intros p Hnp. rewrite lookup_delete_ne; [done|]. intros <-. by apply Hnp, under_element.
Qed.

Lemma untouched_path_tombstone rest o m : untouched (under k) m (_tombstone (k :: rest) o m).
Proof.
  apply untouched_tombstone. intros p. apply under_below, under_pointer.
Qed.

Lemma untouched_path_clash rest w m :
  untouched (under k) m (_delete_clash (pointer (k :: rest)) w m).
Proof. apply untouched_delete_clash. apply ancestors_under. Qed.

Lemma untouched_relative_remove ptr o c m x :
  under k ptr → untouched (under k) m (relative_remove ptr o (c, m) x).2.
Proof.
  intros Hp. cbn. destruct (py_in x c); [by apply untouched_tombstone_element|apply untouched_lint].
Qed.

Lemma untouched_relative_add ptr o c m x :
  under k ptr → untouched (under k) m (relative_add ptr o (c, m) x).2.
Proof.
  intros Hp. cbn. destruct (py_in x c); [by apply untouched_contribute|].
  etrans; [apply untouched_tombs|by apply untouched_element_prov].
Qed.

Hint Resolve under_pointer untouched_note untouched_record untouched_before untouched_flag
  untouched_path_clash untouched_tombs untouched_lint untouched_write_clash untouched_id
  untouched_path_tombstone : stays.

Lemma stays_assign base key rest spec value o :
  stays (under k) (_assign base key (pointer (k :: rest)) spec value o).
Proof.
  unfold _assign. stays_tac. apply untouched_prov. intros p Hnp.
  rewrite lookup_alter_ne; [done|]. intros <-. apply Hnp, under_pointer.
Qed.

Lemma stays_delete base key rest o : stays (under k) (_delete base key (k :: rest) o).
Proof. unfold _delete. stays_tac. Qed.

Lemma stays_apply_replace base key rest spec new o :
  stays (under k) (_apply_replace base key (pointer (k :: rest)) spec new o).
Proof.
  unfold _apply_replace. stays_tac.
  - apply untouched_filter. intros p Hp. eapply under_below; [apply (under_pointer k rest)|].
    unfold at_or_below. unfold strictly_below in Hp. by rewrite Hp, orb_true_r.
  - apply (within_foldl _). intros m' x _. apply untouched_element_prov, under_pointer.
Qed.

Lemma stays_apply_relative base key rest o add remove :
  stays (under k) (_apply_relative base key (pointer (k :: rest)) o add remove).
Proof.
  unfold _apply_relative. apply within_bind; [apply _|..]; [auto with stays|intros current].
  intros m a m' (? & ? & [= <- <-] & Hr)%ST_bind_Ok.
  destruct (foldl (relative_remove _ _) _ _) as [c1 m1] eqn:H1.
  destruct (foldl (relative_add _ _) _ _) as [c2 m2] eqn:H2.
  apply ST_bind_Ok in Hr as (? & ? & [= <- <-] & [= _ <-]). etrans; [|by apply untouched_note, under_pointer].
  etrans.
  - pose proof (within_foldl_pair (untouched (under k)) (relative_remove (pointer (k :: rest)) o) remove
      current m) as Hf. rewrite H1 in Hf. apply Hf.
    intros c0 m0 x _. apply untouched_relative_remove, under_pointer.
  - pose proof (within_foldl_pair (untouched (under k)) (relative_add (pointer (k :: rest)) o) add c1 m1) as Hf.
    rewrite H2 in Hf. apply Hf. intros c0 m0 x _. apply untouched_relative_add, under_pointer.
Qed.

Lemma stays_resolve_restrictive base key rest spec o own :
  stays (under k) (_resolve_restrictive base key (pointer (k :: rest)) spec o own).
Proof.
  unfold _resolve_restrictive. stays_tac.
  - apply (within_foldl _). intros m' x _. unfold drop_element.
    destruct (py_in x _); [done|]. apply untouched_tombstone_element, under_pointer.
  - apply (within_foldl _). intros m' x _. unfold settle_element.
    destruct (negb _); [|destruct (py_in x _); [|done]].
    + etrans; [apply untouched_tombs|apply untouched_element_prov, under_pointer].
    + apply untouched_contribute, under_pointer.
Qed.

Lemma untouched_list_mix rest others own m :
  untouched (under k) m (_flag_list_mix (pointer (k :: rest)) others own m).
Proof.
  unfold _flag_list_mix. destruct (existsb _ _); [apply untouched_flag, under_pointer|done].
Qed.

Hint Resolve untouched_list_mix stays_assign stays_delete stays_apply_replace
  stays_apply_relative stays_resolve_restrictive : stays.

Lemma stays_list_op base key rest spec o replacement add remove :
  stays (under k) (_list_op base key (pointer (k :: rest)) spec o replacement add remove).
Proof. unfold _list_op, remember_before. stays_tac. Qed.

Hint Resolve stays_list_op : stays.

Lemma stays_replace_list base key rest spec value o :
  stays (under k) (_replace_list base key (pointer (k :: rest)) spec value o).
Proof. unfold _replace_list. stays_tac. Qed.

Lemma stays_union_list base key rest spec value o :
  stays (under k) (_union_list base key (pointer (k :: rest)) spec value o).
Proof. unfold _union_list. stays_tac. Qed.

Lemma stays_delete_element rest canon_key o elements :
  stays (under k) (delete_element (k :: rest) canon_key o elements).
Proof. unfold delete_element. cbn [app]. stays_tac. Qed.

Lemma stays_create_element rest field canon_key o :
  stays (under k) (create_element (k :: rest) field canon_key o).
Proof. unfold create_element. cbn [app]. stays_tac. Qed.

Hint Resolve stays_replace_list stays_union_list stays_delete_element stays_create_element : stays.

Lemma stays_keyed_element merge_fields field rest o elements item canon_key :
  (∀ element rest, stays (under k) (merge_fields item element (k :: rest))) →
  stays (under k) (keyed_element merge_fields field (k :: rest) o elements item canon_key).
Proof. intros Hf. unfold keyed_element. cbn [app]. stays_tac. Qed.

Lemma stays_keyed_loop merge_fields field rest o items : ∀ keys elements,
  (∀ item element rest, item ∈ items → stays (under k) (merge_fields item element (k :: rest))) →
  stays (under k) (keyed_loop merge_fields field (k :: rest) o items keys elements).
Proof.
  induction items as [|item items IH]; intros [|canon_key keys] elements Hf;
    cbn [keyed_loop]; [auto with stays..|].
  apply within_bind; [apply _|..].
  - apply stays_keyed_element. intros element rest'. apply Hf. by apply list_elem_of_here.
  - intros elements'. apply (IH keys elements'). intros x element rest' Hx. apply Hf. by right.
Qed.

(** The items of a keyed patch. *)
Definition patch_items (value : json) : list json :=
  match value with JList items | JObj [(_, JList items)] => items | _ => [] end.

Lemma stays_keyed_list specs merge_fields base key rest spec value o :
  (∀ field item element rest, item ∈ patch_items value →
    stays (under k) (merge_fields field item element (k :: rest))) →
  stays (under k) (_keyed_list specs merge_fields base key (k :: rest) spec value o).
Proof.
  intros Hf. unfold _keyed_list. stays_tac;
    try (apply (within_foldl _); intros; cbn [app]; apply untouched_path_tombstone).
  all: apply stays_keyed_loop; intros; by apply Hf.
Qed.
End one_key.

(** ** Nested objects *)

Lemma size_item l x : x ∈ l → json_size x < json_size (JList l).
Proof.
  cbn. intros Hx. induction Hx as [x l|x y l _ IH]; cbn; lia.
Qed.

Lemma size_value fs k x : (k, x) ∈ fs → json_size x < json_size (JObj fs).
Proof.
  cbn. intros Hx. remember (k, x) as kx eqn:E.
  induction Hx as [y l|y z l _ IH]; subst; cbn; [lia|]. specialize (IH eq_refl). lia.
Qed.

Lemma size_patch_item value x : x ∈ patch_items value → json_size x < json_size value.
Proof.
  destruct value as [| | | | |l|fs]; try by intros ?%not_elem_of_nil.
  - apply size_item.
  - destruct fs as [|[k [| | | | |l|]] [|]]; try by intros ?%not_elem_of_nil.
    intros Hx%size_item. etrans; [exact Hx|]. apply (size_value _ k). by apply list_elem_of_here.
Qed.

(** The loop over the keys of a patch. *)
Definition entries_loop `{Runtime} `{IpText} specs (o : Origin) (skip : option string) (path : Path) :=
  fix go (fields : dict) (base : dict) : MergeST dict :=
    match fields with
    | [] => mret base
    | (key, value) :: fields =>
        base ← (if bool_decide (skip = Some key) then mret base
                else merge_entry specs (_merge_object specs o) base path o key value);
        go fields base
    end.

Lemma merge_object_unfold `{Runtime} `{IpText} specs o skip fields base path :
  _merge_object specs o skip (JObj fields) base path = entries_loop specs o skip path fields base.
Proof. reflexivity. Qed.

(** An object and everything nested in it, from one entry: [paths] are the
    paths the entries are merged at. *)
Section induction.
Context `{Runtime} `{IpText} (R : relation Merger) `{!PreOrder R}.
Context (specs : SpecIndex) (o : Origin) (paths : Path → Prop).

Definition object_within (patch : json) : Prop :=
  ∀ skip base path, paths path → within R (_merge_object specs o skip patch base path).

Lemma merge_object_within :
  (∀ base path key value, paths path → object_within value →
     (∀ item, item ∈ patch_items value → object_within item) →
     within R (merge_entry specs (_merge_object specs o) base path o key value)) →
  ∀ patch, object_within patch.
Proof.
  intros Hentry patch. induction patch as [patch IH] using (induction_ltof1 _ json_size).
  unfold ltof in IH. intros skip base path Hp.
  destruct patch as [| | | | | |fields]; try apply within_raise. rewrite merge_object_unfold.
  assert (Hall : ∀ key x, (key, x) ∈ fields → json_size x < json_size (JObj fields)) by apply size_value.
  revert IH Hall. generalize (json_size (JObj fields)) as n. intros n IH Hall. revert base.
  induction fields as [|[key value] fields IHf]; intros base; cbn [entries_loop]; [by apply within_ret|].
  assert (json_size value < n) as Hv by (apply (Hall key); by apply list_elem_of_here).
  apply within_bind; [apply _|..].
  - case_bool_decide; [by apply within_ret|]. apply Hentry; [done|by apply IH|].
    intros item Hi%size_patch_item. apply IH. lia.
  - intros base'. apply IHf. intros key' x Hx. apply (Hall key'). by right.
Qed.
End induction.

Section objects.
Context `{Runtime} `{IpText} (k : string) (specs : SpecIndex) (o : Origin).

(** The paths of a key and of what is nested in its value. *)
Definition below_key (path : Path) : Prop := ∃ rest, path = k :: rest.

Lemma stays_merge_object : ∀ patch,
  object_within (untouched (under k)) specs o below_key patch.
Proof.
  apply (merge_object_within _ specs o below_key). intros base path key value [rest ->] Hv Hi.
  unfold merge_entry. cbn [app].
  apply within_bind; [apply _|..]; [auto with stays|intros _]. destruct (lookup_spec _ _) as [spec|]; [|auto with stays].
  apply within_bind; [apply _|..]; [auto with stays|intros []]; [apply stays_delete|].
  destruct (fs_kind spec).
  1,2: stays_tac; apply Hv; by eexists.
  - destruct (_ || _); [auto with stays|apply stays_assign].
  - destruct (fs_strategy spec) as [[]|]; [apply stays_replace_list|apply stays_union_list| |auto with stays].
    apply stays_keyed_list. intros. apply Hi; [done|by eexists].
Qed.
End objects.

(** ** The top level *)

Section top.
Context `{Runtime} `{IpText} (specs : SpecIndex) (o : Origin).

(** Merging one key of a module's parameters leaves the logs of other keys. *)
Lemma stays_top_entry base key value :
  stays (under key) (merge_entry specs (_merge_object specs o) base [] o key value).
Proof.
  unfold merge_entry. cbn [app].
  apply within_bind; [apply _|..]; [auto with stays|intros _]. destruct (lookup_spec _ _) as [spec|]; [|auto with stays].
  apply within_bind; [apply _|..]; [auto with stays|intros []]; [apply stays_delete|].
  destruct (fs_kind spec).
  1,2: stays_tac; apply stays_merge_object; by eexists.
  - destruct (_ || _); [auto with stays|apply stays_assign].
  - destruct (fs_strategy spec) as [[]|]; [apply stays_replace_list|apply stays_union_list| |auto with stays].
    apply stays_keyed_list. intros. apply stays_merge_object. by eexists.
Qed.

(** Keys other than [k] leave everything at and below [k]. *)
Lemma stays_other_keys k fields : ∀ base, k ∉ fields.*1 →
  stays (λ p, ¬ under k p) (entries_loop specs o None [] fields base).
Proof.
  induction fields as [|[key value] fields IH]; intros base Hk; cbn [entries_loop].
  { apply within_ret, _. }
  rewrite bool_decide_eq_false_2 by done. apply within_bind; [apply _|..].
  - intros m b m' Hrun. eapply untouched_weaken; [|by eapply stays_top_entry].
    intros p Hp Hk'. apply Hk. rewrite (under_one k key p) by done. by left.
  - intros base'. apply IH. set_solver.
Qed.
End top.
