(* ===== verification/ConfigTies.v ===== *)
(** * The writes of equal rank to one key

    A module's parameters are merged patch by patch. Seen from one top-level
    key, a patch either writes it once or leaves it alone; this file follows
    one key through the patches of a group of layers of equal rank and weight,
    for a scalar field and for a restrictive list. *)

From S2P Require Import Prelude PyData PyTime ConfigDocument ConfigFields ConfigMerge.
From S2P Require Import ConfigFrame.
From stdpp Require Import base gmap strings pretty list sorting.
From Stdlib Require Import ZArith NArith Ascii.

(** ** Dicts *)

Section assoc.
Context {A : Type}.
Implicit Types (l : list (string * A)) (a : A).

Lemma assoc_get_set k k' a l :
  assoc_get k (assoc_set k' a l) = if decide (k = k') then Some a else assoc_get k l.
Proof.
  induction l as [|[x b] l IH]; cbn.
  - destruct (String.eqb_spec k k'), (decide (k = k')); congruence.
  - destruct (String.eqb_spec k' x) as [<-|Hx]; cbn.
    + destruct (String.eqb_spec k k'), (decide (k = k')); congruence.
    + rewrite IH. destruct (String.eqb_spec k x), (decide (k = k')); congruence.
Qed.

Lemma assoc_get_set_eq k a l : assoc_get k (assoc_set k a l) = Some a.
Proof. rewrite assoc_get_set. by rewrite decide_True. Qed.

Lemma assoc_get_set_ne k k' a l : k ≠ k' → assoc_get k (assoc_set k' a l) = assoc_get k l.
Proof. intros Hk. rewrite assoc_get_set. by rewrite decide_False. Qed.

Lemma assoc_get_del_ne k k' l : k ≠ k' → assoc_get k (assoc_del k' l) = assoc_get k l.
Proof.
  intros Hk. induction l as [|[x b] l IH]; [done|]. cbn.
  destruct (String.eqb_spec k' x) as [<-|Hx].
  - by rewrite (proj2 (String.eqb_neq k k')).
  - cbn. by rewrite IH.
Qed.

Lemma assoc_get_None k l : k ∉ l.*1 → assoc_get k l = None.
Proof.
  induction l as [|[x b] l IH]; [done|]. cbn. intros Hk.
  rewrite (proj2 (String.eqb_neq k x)) by set_solver. apply IH. set_solver.
Qed.
End assoc.

(** ** Calls that write one key of their container *)

Definition keeps (key : string) (base : dict) (c : MergeST dict) : Prop :=
  ∀ m b m', c m = (Ok b, m') → ∀ k, k ≠ key → assoc_get k b = assoc_get k base.

Section keeps.
Context (key : string) (base : dict).

Lemma keeps_ret b : (∀ k, k ≠ key → assoc_get k b = assoc_get k base) → keeps key base (mret b).
Proof. by intros Hb m b' m' [= <- _]. Qed.
Lemma keeps_raise e : keeps key base (raise e).
Proof. done. Qed.
Lemma keeps_bind {A} (c : MergeST A) f : (∀ a, keeps key base (f a)) → keeps key base (c ≫= f).
Proof. intros Hf m b m' (a & m1 & _ & H)%ST_bind_Ok. by eapply Hf. Qed.
End keeps.

Ltac keeps_step :=
  match goal with
  | |- keeps _ _ (mbind _ _) => apply keeps_bind; intros ?
  | |- keeps _ _ (raise _) => apply keeps_raise
  | |- keeps _ _ (mret _) => apply keeps_ret; intros; try done;
      rewrite ?assoc_get_set_ne, ?assoc_get_del_ne by done; try done
  | |- keeps _ _ (match ?x with _ => _ end) => destruct x
  | |- keeps _ _ (let '(_, _) := ?x in _) => destruct x
  end.
Ltac keeps_tac := repeat keeps_step.

Section operations.
Context `{Runtime} `{IpText}.

Lemma keeps_assign base key ptr spec value o : keeps key base (_assign base key ptr spec value o).
Proof. unfold _assign. keeps_tac. Qed.

Lemma keeps_delete base key path o : keeps key base (_delete base key path o).
Proof. unfold _delete. keeps_tac. Qed.

Lemma keeps_list_op base key ptr spec o replacement add remove :
  keeps key base (_list_op base key ptr spec o replacement add remove).
Proof.
  unfold _list_op, _resolve_restrictive, _apply_replace, _apply_relative. keeps_tac.
Qed.

Lemma keeps_keyed_list specs mf base key path spec value o :
  keeps key base (_keyed_list specs mf base key path spec value o).
Proof. unfold _keyed_list. keeps_tac. Qed.

Lemma keeps_entry specs mf base path o key value :
  keeps key base (merge_entry specs mf base path o key value).
Proof.
  unfold merge_entry, _replace_list, _union_list. keeps_tac;
    first [apply keeps_delete|apply keeps_assign|apply keeps_list_op|apply keeps_keyed_list].
Qed.
End operations.

(** ** One key seen through a patch *)

(** What is held and recorded of one key is the same. *)
Record same_key (k : string) (base : dict) (m : Merger) (base' : dict) (m' : Merger) : Prop := {
  sk_value : assoc_get k base' = assoc_get k base;
  sk_prov : m_prov m' !! pointer [k] = m_prov m !! pointer [k];
  sk_conflicts : m_conflicts m' !! pointer [k] = m_conflicts m !! pointer [k];
  sk_log g : m_log m' !! (pointer [k], g) = m_log m !! (pointer [k], g);
  sk_before g : m_before m' !! (pointer [k], g) = m_before m !! (pointer [k], g);
}.

Lemma same_key_refl k base m : same_key k base m base m.
Proof. by split. Qed.

Lemma same_key_trans k b1 m1 b2 m2 b3 m3 :
  same_key k b1 m1 b2 m2 → same_key k b2 m2 b3 m3 → same_key k b1 m1 b3 m3.
Proof.
  intros [H1 H2 H3 H4 H5] [K1 K2 K3 K4 K5].
  split; intros; [rewrite K1, H1|rewrite K2, H2|rewrite K3, H3|rewrite K4, H4|rewrite K5, H5]; done.
Qed.

Section top.
Context `{Runtime} `{IpText} (specs : SpecIndex) (o : Origin) (k : string).

Lemma entry_other base m key value base' m' :
  key ≠ k → merge_entry specs (_merge_object specs o) base [] o key value m = (Ok base', m') →
  same_key k base m base' m'.
Proof.
  intros Hk Hrun. pose proof (stays_top_entry specs o base key value _ _ _ Hrun) as [].
  pose proof (keeps_entry specs (_merge_object specs o) base [] o key value _ _ _ Hrun) as Hv.
  assert (¬ under key (pointer [k])) by (apply not_under; done). split; auto.
Qed.

(** A patch without the key leaves it alone; a patch with the key merges its
    entry once, between steps that leave it alone. *)
Lemma entries_without fields : ∀ base m base' m',
  k ∉ fields.*1 → entries_loop specs o None [] fields base m = (Ok base', m') →
  same_key k base m base' m'.
Proof.
  induction fields as [|[key value] fields IH]; intros base m base' m' Hk; cbn [entries_loop].
  { intros [= <- <-]. apply same_key_refl. }
  intros (b1 & m1 & H1 & H2)%ST_bind_Ok. rewrite bool_decide_eq_false_2 in H1 by done.
  eapply same_key_trans; [eapply entry_other; [|exact H1]; set_solver|].
  apply IH; [set_solver|done].
Qed.

Lemma entries_with fields v : ∀ base m base' m',
  NoDup fields.*1 → assoc_get k fields = Some v →
  entries_loop specs o None [] fields base m = (Ok base', m') →
  ∃ b1 m1 b2 m2, same_key k base m b1 m1 ∧
    merge_entry specs (_merge_object specs o) b1 [] o k v m1 = (Ok b2, m2) ∧
    same_key k b2 m2 base' m'.
Proof.
  induction fields as [|[key value] fields IH]; intros base m base' m' Hnd; cbn; [done|].
  apply NoDup_cons in Hnd as [Hk Hnd]. intros Hv (b1 & m1 & H1 & H2)%ST_bind_Ok.
  rewrite bool_decide_eq_false_2 in H1 by done. destruct (String.eqb_spec k key) as [<-|Hne].
  - injection Hv as ->. exists base, m, b1, m1. split_and!; [apply same_key_refl|done|].
    by apply (entries_without fields).
  - destruct (IH b1 m1 base' m' Hnd Hv H2) as (b2 & m2 & b3 & m3 & Hs & Hrun & Hs').
    exists b2, m2, b3, m3. split_and!; [|done..]. eapply same_key_trans; [|done].
    eapply entry_other; [|exact H1]. congruence.
Qed.
End top.

(** ** One write to a scalar key *)

Lemma pointer_nonempty k : ∃ c s, pointer [k] = String c s.
Proof. by exists "/"%char, (escape_segment k +:+ ""). Qed.

Lemma ancestors_top k : _ancestors (pointer [k]) = [pointer [k]].
Proof.
  unfold _ancestors. destruct (pointer_nonempty k) as (c & s & Hp). rewrite Hp. cbn [String.length ancestors_loop].
  f_equal. rewrite <-Hp. change [k] with ([] ++ [k]). rewrite rsplit_pointer. by destruct (String.length s).
Qed.

(** The log of the key in a group, as the writes of its layers. *)
Definition set_write (vo : json * Origin) : Write := Write_of vo.2 w_set vo.1.

Definition logged (k : string) (g : Z * Z) (W : list (json * Origin)) (m : Merger) : Prop :=
  default [] (m_log m !! (pointer [k], g)) = set_write <$> W.

Definition layer_id (vo : json * Origin) : string := o_layer_id vo.2.

Lemma filter_all {A} (P : A → Prop) `{∀ x, Decision (P x)} (l : list A) :
  (∀ x, x ∈ l → P x) → filter P l = l.
Proof.
  induction l as [|x l IH]; intros Hl; [done|].
  rewrite filter_cons_True by (apply Hl, list_elem_of_here). f_equal. apply IH. intros y Hy.
  apply Hl. by right.
Qed.

Section one_write.
Context `{Runtime} `{IpText} (k : string).

Lemma others_logged W o m :
  logged k (group o) W m → o_layer_id o ∉ (layer_id <$> W) →
  _others (pointer [k]) o m = set_write <$> W.
Proof.
  intros HW Ho. unfold _others, _all_group_writes. rewrite HW. apply filter_all.
  intros w ([v o'] & -> & Hw)%list_elem_of_fmap Heq. apply Ho. cbn in Heq. rewrite <-Heq.
  by apply (list_elem_of_fmap_2 layer_id _ (v, o')).
Qed.

Lemma delete_clash_logged W own m :
  logged k (group (w_origin own)) W m → o_layer_id (w_origin own) ∉ (layer_id <$> W) →
  _delete_clash (pointer [k]) own m = m.
Proof.
  intros HW Ho. unfold _delete_clash. rewrite ancestors_top. cbn [foldl]. unfold clash_at.
  rewrite (others_logged W) by done. rewrite filter_none; [done|].
  by intros w (vo & -> & _)%list_elem_of_fmap.
Qed.

Lemma sets_logged (W : list (json * Origin)) :
  filter (λ w, w_kind w = w_set) (set_write <$> W) = set_write <$> W.
Proof. apply filter_all. by intros w (vo & -> & _)%list_elem_of_fmap. Qed.

(** The value a write sets. *)
Definition canon_new (spec : FieldSpec) (value : json) : result config_error json :=
  match value with
  | JNull =>
      if fs_nullable spec then Ok JNull
      else Raise (MergeError (pointer [k]) "null is not allowed on a non-nullable field")
  | _ => _canon_value spec value
  end.

Definition differs (new : json) (W : list (json * Origin)) : bool :=
  existsb (λ vo, negb (String.eqb (canonical_json vo.1) (canonical_json new))) W.

(** What a write does, by what the group has written before. *)
Definition assign_outcome (spec : FieldSpec) (W : list (json * Origin)) (base : dict) (new : json)
    (o : Origin) (m : Merger) : result config_error dict * Merger :=
  let ptr := pointer [k] in
  let m := _record ptr (Write_of o w_set new) m in
  let set m := (Ok (assoc_set k new base), _note ptr o new false m) in
  if negb (bool_decide (length W = 0)) && same_group (m_prov m !! ptr) o then
    if is_restrictive_scalar spec then
      match incumbent_stays spec (default JNull (assoc_get k base)) new with
      | Ok true =>
          (Ok base, with_prov (alter (λ p, MkProvenance (pv_origin p) (pv_value p)
             (pv_shadowed p ++ [MkShadow o new]) (pv_contributors p ++ [o])) ptr) m)
      | Ok false => set m
      | Raise e => (Raise e, m)
      end
    else set (if differs new W then _flag ptr (set_write <$> (W ++ [(new, o)])) m else m)
  else set m.

Lemma differs_writes new W :
  existsb (λ w, negb (String.eqb (canonical_json (w_value w)) (canonical_json new)))
    (set_write <$> W) = differs new W.
Proof. unfold differs. induction W as [|vo W IH]; [done|]. cbn. by rewrite <-IH. Qed.

Lemma assign_run spec W base value o m :
  logged k (group o) W m → o_layer_id o ∉ (layer_id <$> W) →
  _assign base k (pointer [k]) spec value o m =
    match canon_new spec value with
    | Ok new => assign_outcome spec W base new o m
    | Raise e => (Raise e, m)
    end.
Proof.
  intros HW Ho. unfold _assign.
  assert (Hnew : (match value with
    | JNull => if fs_nullable spec then mret JNull
               else raise (MergeError (pointer [k]) "null is not allowed on a non-nullable field")
    | _ => lift (_canon_value spec value) end : MergeST json) = lift (canon_new spec value)).
  { unfold canon_new. destruct value; try done. by destruct (fs_nullable spec). }
  rewrite Hnew. destruct (canon_new spec value) as [new|e]; [|done].
  rewrite (lift_step _ _ _ new) by done. unfold assign_outcome.
  erewrite (ST_step (modify _)) by done. rewrite (delete_clash_logged W) by done.
  erewrite (ST_step (gets _)) by done. rewrite (others_logged W), sets_logged by done.
  erewrite (ST_step (modify _)) by done. erewrite (ST_step (gets _)) by done.
  rewrite length_fmap. destruct (negb _ && _); [|done].
  destruct (is_restrictive_scalar spec).
  - unfold lift. destruct (incumbent_stays _ _ _) as [[]|e]; reflexivity.
  - rewrite differs_writes. destruct (differs new W); [|reflexivity].
    by rewrite fmap_app.
Qed.
End one_write.

(** ** A group of writes to a scalar key *)

Lemma add_writes_labels writes : ∀ layers values lab,
  lab ∈ (add_writes writes layers values).1 ↔ lab ∈ layers ∨ ∃ w, w ∈ writes ∧ write_label w = lab.
Proof.
  induction writes as [|w writes IH]; intros layers values lab; cbn [add_writes].
  { split; [by left|]. intros [?|(w & []%not_elem_of_nil & _)]; done. }
  case_bool_decide as Hw; rewrite IH; setoid_rewrite elem_of_cons.
  - naive_solver.
  - rewrite elem_of_app, list_elem_of_singleton. naive_solver.
Qed.

Lemma flag_conflict ptr writes m :
  ∃ c, m_conflicts (_flag ptr writes m) !! ptr = Some c ∧
    ∀ w, w ∈ writes → write_label w ∈ cf_layers c.
Proof.
  unfold _flag. set (r := add_writes _ _ _). destruct r as [ls vs] eqn:E. subst r.
  eexists. split; [apply lookup_insert_eq|]. intros w Hw. cbn.
  pose proof (add_writes_labels writes (default [] (cf_layers <$> m_conflicts m !! ptr))
    (default [] (cf_values <$> m_conflicts m !! ptr)) (write_label w)) as Hl.
  rewrite E in Hl. apply Hl. eauto.
Qed.

Section scalar_group.
Context `{Runtime} `{IpText} (k : string) (spec : FieldSpec) (g : Z * Z).
Context (before : option json) (conflict : option Conflict).

(** The values of the group all have the same canonical text. *)
Definition agree (W : list (json * Origin)) : Prop :=
  ∀ x y, x ∈ W → y ∈ W → canonical_json x.1 = canonical_json y.1.

(** The canonical text tells the values apart. *)
Definition apart (W : list (json * Origin)) : Prop :=
  ∀ x y, x ∈ W → y ∈ W → canonical_json x.1 = canonical_json y.1 → x.1 = y.1.

Definition no_less_secure (v w : json) : Prop :=
  ∃ r s, security_rank spec v = Ok r ∧ security_rank spec w = Ok s ∧ r ≤ s.

(** What the writes of a group leave in a field, and of a conflict. *)
Definition scalar_settled (W : list (json * Origin)) (v : json) (c : option Conflict) : Prop :=
  if is_restrictive_scalar spec then
    c = conflict ∧ v ∈ W.*1 ∧ ∀ w, w ∈ W.*1 → no_less_secure v w
  else
    last W.*1 = Some v ∧
    (agree W ∧ c = conflict ∨
     ¬ agree W ∧ ∃ c', c = Some c' ∧ ∀ x, x ∈ W → write_label (set_write x) ∈ cf_layers c').

Record ScalarInv (W : list (json * Origin)) (base : dict) (m : Merger) : Prop := {
  sc_logged : logged k g W m;
  sc_start : W = [] → assoc_get k base = before ∧ m_conflicts m !! pointer [k] = conflict;
  sc_settled : W ≠ [] → ∃ p v, m_prov m !! pointer [k] = Some p ∧ group (pv_origin p) = g ∧
    assoc_get k base = Some v ∧ scalar_settled W v (m_conflicts m !! pointer [k]);
}.

Lemma rank_known : is_restrictive_scalar spec = true → ∀ v, ∃ r, security_rank spec v = Ok r.
Proof.
  unfold is_restrictive_scalar, security_rank. intros Hr v. bool_to_prop.
  destruct (fs_access spec); eauto; set_solver.
Qed.

Lemma no_less_secure_refl v : is_restrictive_scalar spec = true → no_less_secure v v.
Proof. intros Hr. destruct (rank_known Hr v) as [r Hv]. exists r, r. auto. Qed.

Lemma no_less_secure_trans u v w : no_less_secure u v → no_less_secure v w → no_less_secure u w.
Proof.
  intros (r & s & Hr & Hs & Hle) (s' & t & Hs' & Ht & Hle'). exists r, t.
  split_and!; [done..|]. assert (s = s') as -> by congruence. lia.
Qed.

Lemma differs_false new W :
  differs new W = false ↔ ∀ x, x ∈ W → canonical_json x.1 = canonical_json new.
Proof.
  unfold differs. rewrite existsb_false. setoid_rewrite negb_false_iff.
  by setoid_rewrite String.eqb_eq.
Qed.

Lemma agree_snoc W x :
  agree (W ++ [x]) ↔ agree W ∧ ∀ y, y ∈ W → canonical_json y.1 = canonical_json x.1.
Proof.
  unfold agree. setoid_rewrite elem_of_app. setoid_rewrite list_elem_of_singleton.
  split; [naive_solver|]. intros [Ha Hy] a b [| ->] [| ->]; auto; symmetry; auto.
Qed.

(** A write that is set outright. *)
Lemma scalar_set W base m new o m1 :
  ScalarInv W base m → group o = g →
  default [] (m_log m1 !! (pointer [k], g)) = set_write <$> (W ++ [(new, o)]) →
  scalar_settled (W ++ [(new, o)]) new (m_conflicts m1 !! pointer [k]) →
  ScalarInv (W ++ [(new, o)]) (assoc_set k new base) (_note (pointer [k]) o new false m1).
Proof.
  intros HI Hg Hlog Hset. split.
  - exact Hlog.
  - intros Hnil. by destruct W.
  - intros _. eexists _, new. split_and!; [apply lookup_insert_eq|done|apply assoc_get_set_eq|exact Hset].
Qed.

Lemma logged_record W m new o :
  logged k g W m → group o = g →
  default [] (m_log (_record (pointer [k]) (Write_of o w_set new) m) !! (pointer [k], g))
    = set_write <$> (W ++ [(new, o)]).
Proof.
  intros HW <-. cbn [_record with_log m_log]. unfold Write_of at 1. cbn [w_origin].
  rewrite lookup_insert_eq. cbn [default]. unfold _all_group_writes. rewrite HW.
  by rewrite fmap_app.
Qed.

Lemma stay_or_yield W new c v :
  is_restrictive_scalar spec = true → scalar_settled W v c →
  apart (W ++ [new]) →
  ∃ b, incumbent_stays spec v new.1 = Ok b ∧
    if (b : bool) then scalar_settled (W ++ [new]) v c
    else scalar_settled (W ++ [new]) new.1 c.
Proof.
  intros Hr Hset Hap. unfold incumbent_stays, scalar_settled in *. rewrite Hr in *.
  destruct Hset as (Hc & Hv & Hmin).
  assert (Hin : ∀ w, w ∈ (W ++ [new]).*1 ↔ w ∈ W.*1 ∨ w = new.1).
  { intros w. rewrite fmap_app, elem_of_app. cbn. by rewrite list_elem_of_singleton. }
  destruct (String.eqb_spec (canonical_json v) (canonical_json new.1)) as [Heq|Hne].
  - exists false. split; [done|]. split_and!; [done|apply Hin; by right|].
    apply list_elem_of_fmap in Hv as (x & -> & Hx).
    assert (x.1 = new.1) as Hx1 by (apply Hap; [set_solver..|done]).
    rewrite Hx1 in Hmin. intros w [Hw| ->]%Hin; [by apply Hmin|by apply no_less_secure_refl].
  - destruct (rank_known Hr v) as [r Hrv], (rank_known Hr new.1) as [s Hs].
    rewrite Hrv, Hs. cbn [mbind result_bind]. eexists. split; [done|].
    destruct (Nat.leb_spec r s).
    + split_and!; [done|apply Hin; by left|]. intros w [Hw| ->]%Hin; [by apply Hmin|]. by exists r, s.
    + split_and!; [done|apply Hin; by right|].
      intros w [Hw| ->]%Hin; [|by apply no_less_secure_refl].
      eapply no_less_secure_trans; [|by apply Hmin]. exists s, r. split_and!; [done..|lia].
Qed.

Lemma lookup_alter_prov f ptr m :
  m_prov (with_prov (alter f ptr) m) !! ptr = f <$> m_prov m !! ptr.
Proof. apply lookup_alter_eq. Qed.

(** One more write keeps the invariant. *)
Lemma scalar_step W base m value o base' m' :
  ScalarInv W base m → group o = g → o_layer_id o ∉ (layer_id <$> W) →
  (∀ new, canon_new k spec value = Ok new → is_restrictive_scalar spec = true →
    apart (W ++ [(new, o)])) →
  _assign base k (pointer [k]) spec value o m = (Ok base', m') →
  ∃ new, canon_new k spec value = Ok new ∧ ScalarInv (W ++ [(new, o)]) base' m'.
Proof.
  intros HI Hg Ho Hap Hrun. assert (logged k (group o) W m) by (rewrite Hg; apply HI).
  rewrite (assign_run k spec W) in Hrun by done.
  destruct (canon_new k spec value) as [new|]; [|done]. exists new. split; [done|].
  specialize (Hap new eq_refl). unfold assign_outcome in Hrun.
  pose proof (logged_record W m new o (sc_logged _ _ _ HI) Hg) as Hlog.
  change (m_prov (_record _ _ m)) with (m_prov m) in Hrun.
  destruct W as [|x W].
  - apply ok_pair in Hrun as [<- <-]. eapply scalar_set; [exact HI|done|exact Hlog|].
    destruct (sc_start _ _ _ HI eq_refl) as [_ Hc]. cbn [app m_conflicts _record with_log].
    unfold scalar_settled. destruct (is_restrictive_scalar spec) eqn:Hr; cbn.
    + split_and!; [done|by apply list_elem_of_singleton|].
      intros w ->%list_elem_of_singleton. by apply no_less_secure_refl.
    + split; [done|]. left. split; [|done].
      by intros y z ->%list_elem_of_singleton ->%list_elem_of_singleton.
  - destruct (sc_settled _ _ _ HI ltac:(done)) as (p & v & Hp & Hpg & Hv & Hset).
    rewrite Hp in Hrun. cbn [length same_group negb andb bool_decide] in Hrun.
    rewrite (bool_decide_eq_true_2 (group (pv_origin p) = group o)) in Hrun by congruence.
    rewrite bool_decide_eq_false_2 in Hrun by done. cbn [negb andb] in Hrun.
    rewrite Hv in Hrun. change (default JNull (Some v)) with v in Hrun.
    destruct (is_restrictive_scalar spec) eqn:Hr.
    + destruct (stay_or_yield (x :: W) (new, o) _ v Hr Hset (Hap eq_refl)) as ([] & Hb & Hset').
      * cbn [fst] in Hb. rewrite Hb in Hrun. apply ok_pair in Hrun as [<- <-]. split; [exact Hlog|done|].
        intros _. eexists _, v. rewrite lookup_alter_prov.
        rewrite (Hp : m_prov (_record _ _ m) !! _ = _).
        split_and!; [done|done|done|exact Hset'].
      * cbn [fst] in Hb. rewrite Hb in Hrun. apply ok_pair in Hrun as [<- <-]. by eapply scalar_set.
    + destruct (differs new (x :: W)) eqn:Hd; apply ok_pair in Hrun as [<- <-].
      * eapply scalar_set; [exact HI|done| |].
        -- unfold _flag. by destruct (add_writes _ _ _).
        -- unfold scalar_settled. rewrite Hr, fmap_app. split; [apply last_snoc|]. right. split.
           ++ intros [_ Ha]%agree_snoc. apply (differs_false new) in Ha. congruence.
           ++ destruct (flag_conflict (pointer [k]) (set_write <$> ((x :: W) ++ [(new, o)]))
                (_record (pointer [k]) (Write_of o w_set new) m)) as (c & Hc & Hl).
              exists c. split; [done|]. intros y Hy. apply Hl. by apply list_elem_of_fmap_2.
      * eapply scalar_set; [exact HI|done|exact Hlog|]. unfold scalar_settled in *. rewrite Hr in *.
        rewrite fmap_app. split; [apply last_snoc|].
        rewrite differs_false in Hd. destruct Hset as [_ [[Ha Hc]|[Hna _]]].
        -- left. split; [|done]. by apply agree_snoc.
        -- exfalso. apply Hna. intros y z Hy Hz. by rewrite (Hd y), (Hd z).
Qed.
End scalar_group.

(** ** The patches of a group, seen from one key *)

(** The value of the key in a patch. *)
Definition patch_value (k : string) (patch : json) : option json :=
  match patch with JObj fields => assoc_get k fields | _ => None end.

(** A decoded object has no key twice. *)
Definition is_dict (patch : json) : Prop :=
  match patch with JObj fields => NoDup fields.*1 | _ => False end.

(** What the patches say of the key, in order. *)
Definition key_values (k : string) (ps : list (json * Origin)) : list (json * Origin) :=
  omap (λ po, v ← patch_value k po.1; Some (v, po.2)) ps.

Section patches.
Context `{Runtime} `{IpText} (specs : SpecIndex) (k : string).

Lemma merge_patch_key patch o m u m' :
  is_dict patch → merge_patch specs patch o m = (Ok u, m') →
  match patch_value k patch with
  | None => same_key k (m_values m) m (m_values m') m'
  | Some v => ∃ b1 m1 b2 m2, same_key k (m_values m) m b1 m1 ∧
      merge_entry specs (_merge_object specs o) b1 [] o k v m1 = (Ok b2, m2) ∧
      same_key k b2 m2 (m_values m') m'
  end.
Proof.
  destruct patch as [| | | | | |fields]; try done. intros Hnd Hrun. cbn [is_dict] in Hnd.
  unfold merge_patch in Hrun. cbn [is_mapping negb raise_if] in Hrun.
  apply ST_bind_Ok in Hrun as (? & m0 & [= _ <-] & Hrun).
  apply ST_bind_Ok in Hrun as (? & m0 & [= <- <-] & Hrun).
  apply ST_bind_Ok in Hrun as (base' & m1 & Hobj & [= _ <-]).
  rewrite merge_object_unfold in Hobj. cbn [patch_value].
  assert (Hlast : same_key k base' m1 (m_values (with_values base' m1)) (with_values base' m1)) by by split.
  destruct (assoc_get k fields) as [v|] eqn:Hv.
  - destruct (entries_with specs o k fields v _ _ _ _ Hnd Hv Hobj)
      as (b1 & m1' & b2 & m2 & Hs & Hrun & Hs').
    exists b1, m1', b2, m2. split_and!; [done..|]. by eapply same_key_trans.
  - eapply same_key_trans; [|exact Hlast]. apply (entries_without specs o k fields); [|done].
    intros ([k' v] & Heq & Hin)%list_elem_of_fmap. cbn in Heq. subst k'.
    clear -Hv Hin. induction fields as [|[x b] fields IH]; [by apply not_elem_of_nil in Hin|].
    cbn in Hv. destruct (String.eqb_spec k x) as [->|Hne]; [done|].
    apply elem_of_cons in Hin as [[= -> ->]|Hin]; [done|]. by apply IH.
Qed.

(** The layers of a group write once each. *)
Record one_group (g : Z * Z) (ps : list (json * Origin)) : Prop := {
  og_group po : po ∈ ps → group po.2 = g;
  og_layers : NoDup (layer_id <$> ps);
  og_dicts po : po ∈ ps → is_dict po.1;
}.

Lemma one_group_cons g p ps :
  one_group g (p :: ps) ↔
  (group p.2 = g ∧ (layer_id p ∉ (layer_id <$> ps)) ∧ is_dict p.1) ∧ one_group g ps.
Proof.
  split.
  - intros [Hg Hl Hd]. rewrite fmap_cons in Hl. apply NoDup_cons in Hl as [Hl Hnd].
    split_and!; [by apply Hg, list_elem_of_here|done|by apply Hd, list_elem_of_here|].
    split; [intros; apply Hg; by right|done|intros; apply Hd; by right].
  - intros [(Hg & Hl & Hd) [Hg' Hl' Hd']]. split.
    + intros po [->|Hp]%elem_of_cons; auto.
    + rewrite fmap_cons. by apply NoDup_cons.
    + intros po [->|Hp]%elem_of_cons; auto.
Qed.

Lemma key_value_layers ps vo : vo ∈ key_values k ps → layer_id vo ∈ (layer_id <$> ps).
Proof.
  intros ([patch o] & Hp & Hv)%list_elem_of_omap. cbn in Hv.
  destruct (patch_value k patch); [|done]. injection Hv as <-.
  by apply (list_elem_of_fmap_2 layer_id _ (patch, o)).
Qed.
End patches.

Section scalar_patches.
Context `{Runtime} `{IpText} (specs : SpecIndex) (k : string) (spec : FieldSpec).
Context (Hspec : lookup_spec specs [k] = Some spec) (Hkind : fs_kind spec = kind_scalar).
Context (g : Z * Z) (before : option json) (conflict : option Conflict).

(** The canonical values the patches write. *)
Definition canon_values (l : list (json * Origin)) : list (json * Origin) :=
  omap (λ vo, match canon_new k spec vo.1 with Ok v => Some (v, vo.2) | Raise _ => None end) l.

Lemma scalar_entry mf base o v m base' m' :
  is_mapping v = false → merge_entry specs mf base [] o k v m = (Ok base', m') →
  _assign base k (pointer [k]) spec v o m = (Ok base', m').
Proof.
  intros Hv Hrun. unfold merge_entry in Hrun. cbn [app] in Hrun. rewrite Hspec in Hrun.
  apply ST_bind_Ok in Hrun as (? & m0 & [_ <-]%lift_run & Hrun).
  apply ST_bind_Ok in Hrun as (deleted & m0 & [Hd <-]%lift_run & Hrun).
  assert (deleted = false) as -> by (destruct v; cbn in *; congruence).
  rewrite Hkind, Hv in Hrun. by destruct (is_sequence v).
Qed.

Lemma scalar_same_key W base m base' m' :
  ScalarInv k spec g before conflict W base m → same_key k base m base' m' →
  ScalarInv k spec g before conflict W base' m'.
Proof.
  intros [Hl Hs Hw] [H1 H2 H3 H4 H5]. split.
  - unfold logged. by rewrite H4.
  - rewrite H1, H3. done.
  - rewrite H1, H2, H3. done.
Qed.

Lemma scalar_patches ps : ∀ W m m',
  one_group g ps → (∀ vo, vo ∈ key_values k ps → is_mapping vo.1 = false) →
  (∀ po, po ∈ ps → layer_id po ∉ (layer_id <$> W)) →
  (is_restrictive_scalar spec = true → apart (W ++ canon_values (key_values k ps))) →
  ScalarInv k spec g before conflict W (m_values m) m →
  merge_patches specs ps m = (Ok tt, m') →
  length (canon_values (key_values k ps)) = length (key_values k ps) ∧
  ScalarInv k spec g before conflict (W ++ canon_values (key_values k ps)) (m_values m') m'.
Proof.
  induction ps as [|[patch o] ps IH]; intros W m m' Hg Hmap Hids Hap HI; cbn [merge_patches].
  { intros [= <-]. by rewrite app_nil_r. }
  apply one_group_cons in Hg as [(Hgo & Hl & Hd) Hg]. cbn [fst snd] in *.
  intros (u & m1 & H1 & H2)%ST_bind_Ok.
  apply (merge_patch_key specs k) in H1; [|done]. unfold key_values in *. cbn [omap list_omap fst snd] in *.
  fold (key_values k ps) in *.
  destruct (patch_value k patch) as [v|]; cbn [mbind option_bind] in *.
  - destruct H1 as (b1 & m2 & b2 & m3 & Hs1 & Hrun & Hs2).
    apply scalar_entry in Hrun; [|apply (Hmap (v, o)), list_elem_of_here].
    apply (scalar_same_key _ _ _ _ _ HI) in Hs1. cbn [canon_values omap list_omap fst snd] in *.
    fold (canon_values (key_values k ps)) in *.
    destruct (scalar_step k spec g before conflict W b1 m2 v o b2 m3 Hs1 Hgo) as (new & Hnew & HI'); [..|done|].
    + apply (Hids (patch, o)), list_elem_of_here.
    + intros new Hnew Hr. rewrite Hnew in Hap. specialize (Hap Hr).
      intros x y Hx Hy. apply Hap; set_solver.
    + rewrite Hnew in *. apply (scalar_same_key _ _ _ _ _ HI') in Hs2.
      destruct (IH (W ++ [(new, o)]) m1 m' Hg) as [Hlen HI2]; [..|done|].
      * intros vo Hvo. apply Hmap. by right.
      * intros po Hpo. rewrite fmap_app, not_elem_of_app. split; [apply Hids; by right|].
        intros Heq%list_elem_of_singleton. apply Hl.
        rewrite <-(Heq : layer_id po = layer_id (patch, o)). by apply list_elem_of_fmap_2.
      * by rewrite <-(assoc_L (++)).
      * done.
      * rewrite <-(assoc_L (++)) in HI2. split; [cbn; lia|done].
  - apply (scalar_same_key _ _ _ _ _ HI) in H1. apply (IH W m1); try done.
    intros po Hpo. apply Hids. by right.
Qed.
End scalar_patches.
