(* ===== verification/ConfigLists.v ===== *)
(** * The writes of equal rank to a restrictive list

    What a group of writes leaves in an allow list or a deny list: which
    elements, in which order, whatever the order of the writes. *)

From S2P Require Import Prelude PyData PyTime ConfigDocument ConfigFields ConfigMerge.
From S2P Require Import ConfigFrame ConfigTies.
From stdpp Require Import base gmap strings pretty list sorting.
From Stdlib Require Import ZArith NArith Ascii.

(** ** Lists of texts *)

Definition is_text (e : json) : Prop := ∃ s, e = JStr s.
Definition texts (l : list json) : Prop := ∀ e, e ∈ l → is_text e.

Lemma py_eq_text a b : is_text a → is_text b → py_eq a b = true ↔ a = b.
Proof.
  intros [s ->] [t ->]. cbn. rewrite String.eqb_eq. split; [by intros ->|by intros [= ->]].
Qed.

Lemma py_in_text x l : is_text x → texts l → py_in x l = true ↔ x ∈ l.
Proof.
  intros Hx Hl. unfold py_in. rewrite existsb_true. split.
  - intros (y & Hy & Heq). apply py_eq_text in Heq as ->; auto.
  - intros Hin. exists x. split; [done|]. by apply py_eq_text.
Qed.

Lemma is_text_or_not x : is_text x ∨ ¬ is_text x.
Proof. destruct x; (left; by eexists) || (right; by intros [? ?]). Qed.

Lemma py_in_text_false x l : is_text x → texts l → py_in x l = false ↔ x ∉ l.
Proof.
  intros Hx Hl. rewrite <-(py_in_text x l) by done. by rewrite not_true_iff_false.
Qed.

Lemma text_in_or_not x l : is_text x → texts l → x ∈ l ∨ x ∉ l.
Proof.
  intros Hx Hl. destruct (py_in x l) eqn:Hin; [left|right].
  - by apply py_in_text in Hin.
  - by apply py_in_text_false in Hin.
Qed.

Section lists.
Context `{Runtime}.

Lemma text_leb_antisym a b : is_text a → is_text b →
  text_leb a b = true → text_leb b a = true → a = b.
Proof.
  intros [s ->] [t ->] Hab Hba. f_equal. by apply String.leb_antisym.
Qed.

Lemma dedupe_spec items : ∀ unique,
  texts items → texts unique → NoDup unique →
  NoDup (dedupe items unique) ∧ ∀ x, x ∈ dedupe items unique ↔ x ∈ unique ∨ x ∈ items.
Proof.
  induction items as [|y items IH]; intros unique Hi Hu Hnd; cbn [dedupe].
  { split; [done|]. intros x. split; [by left|]. by intros [?|?%not_elem_of_nil]. }
  assert (Hy : is_text y) by (apply Hi, list_elem_of_here).
  assert (Hi' : texts items) by (intros e He; apply Hi; by right).
  destruct (py_in y unique) eqn:Hin.
  - apply py_in_text in Hin; [|done..]. destruct (IH unique Hi' Hu Hnd) as [Hn Hm].
    split; [done|]. intros x. rewrite Hm, elem_of_cons. naive_solver.
  - apply py_in_text_false in Hin; [|done..].
    destruct (IH (unique ++ [y])) as [Hn Hm]; [done| | |].
    + intros e [?| ->%list_elem_of_singleton]%elem_of_app; auto.
    + apply NoDup_app. split_and!; [done|set_solver|apply NoDup_singleton].
    + split; [done|]. intros x. rewrite Hm, elem_of_app, list_elem_of_singleton, elem_of_cons.
      naive_solver.
Qed.

Lemma elem_of_stable x items before :
  texts items → texts before → x ∈ _stable items before ↔ x ∈ items.
Proof.
  intros Hi Hb. unfold _stable, by_text.
  rewrite elem_of_app, elem_of_py_sorted, !list_elem_of_filter.
  split.
  - intros [[Hin Hx]|[_ Hx]]; [|done]. by apply py_in_text in Hin; [|apply Hb|].
  - intros Hx. destruct (py_in x before) eqn:Hin; [left|by right].
    split; [by apply py_in_text; [apply Hi|..]|].
    apply py_in_text in Hin; [done|by apply Hi|done].
Qed.

Lemma filter_same {A} (P Q : A → Prop) `{∀ x, Decision (P x), ∀ x, Decision (Q x)} (l : list A) :
  (∀ x, x ∈ l → P x ↔ Q x) → filter P l = filter Q l.
Proof.
  induction l as [|x l IH]; intros Hl; [done|]. rewrite !filter_cons.
  rewrite IH by (intros; apply Hl; by right).
  pose proof (Hl x ltac:(by apply list_elem_of_here)) as Hx.
  destruct (decide (P x)), (decide (Q x)); tauto.
Qed.

(** The stable order depends on the elements only. *)
Lemma stable_same items items' before :
  NoDup items → NoDup items' → texts items → texts items' → texts before →
  (∀ x, x ∈ items ↔ x ∈ items') → _stable items before = _stable items' before.
Proof.
  intros Hn Hn' Hi Hi' Hb Hs. unfold _stable. f_equal.
  - apply filter_same. intros x Hx. rewrite !py_in_text by auto. apply Hs.
  - apply py_sorted_unique; [apply _| |].
    + apply NoDup_Permutation; [by apply NoDup_filter..|].
      intros x. rewrite !list_elem_of_filter. by rewrite Hs.
    + intros x y [_ Hx]%list_elem_of_filter [_ Hy]%list_elem_of_filter. apply text_leb_antisym; auto.
Qed.

Lemma elem_of_lists {A} (x : A) (ls : list (list A)) :
  x ∈ concat ls ↔ ∃ l, x ∈ l ∧ l ∈ ls.
Proof.
  rewrite list_elem_of_In, in_concat. setoid_rewrite <-list_elem_of_In. naive_solver.
Qed.

(** ** What a group of writes leaves *)

(** A write of a list: a whole list, or additions and removals. *)
Definition list_writes (W : list Write) : Prop :=
  ∀ w, w ∈ W → (w_kind w = w_replace ∧ texts (write_list w)) ∨
               (w_kind w = w_relative ∧ texts (w_add w) ∧ texts (w_remove w)).

Definition replacing (W : list Write) : list Write := filter (λ w, w_kind w = w_replace) W.
Definition adjusting (W : list Write) : list Write := filter (λ w, w_kind w = w_relative) W.

(** The elements of the list that the [$add] and [$remove] of the group give. *)
Definition adjusted (access : AccessKind) (before : list json) (W : list Write) (x : json) : Prop :=
  let added := ∃ w, w ∈ adjusting W ∧ x ∈ w_add w in
  let removed := ∃ w, w ∈ adjusting W ∧ x ∈ w_remove w in
  match access with
  | allow_list => (x ∈ before ∨ added) ∧ ¬ removed
  | _ => added ∨ (x ∈ before ∧ ¬ removed)
  end.

(** The elements a group of writes allows, or denies. *)
Definition restricted (access : AccessKind) (before : list json) (W : list Write) (x : json) : Prop :=
  match access with
  | allow_list =>
      (∀ w, w ∈ replacing W → x ∈ write_list w) ∧
      (adjusting W = [] ∨ adjusted access before W x)
  | _ =>
      (∃ w, w ∈ replacing W ∧ x ∈ write_list w) ∨
      (adjusting W ≠ [] ∧ adjusted access before W x)
  end.

Lemma no_deletes W : list_writes W → filter (λ w, w_kind w ≠ w_delete) W = W.
Proof. intros HW. apply filter_all. intros w Hw. destruct (HW w Hw) as [[-> _]|[-> _]]; done. Qed.

Section one_list.
Context (access : AccessKind) (before : list json) (W : list Write).
Context (HW : list_writes W) (Hb : texts before).

Lemma adds_texts : texts (adjusting W ≫= w_add).
Proof.
  intros e (w & He & [Hk Hw]%list_elem_of_filter)%list_elem_of_bind.
  destruct (HW w Hw) as [[Hk' _]|(_ & Ha & _)]; [congruence|by apply Ha].
Qed.

Lemma removes_texts : texts (adjusting W ≫= w_remove).
Proof.
  intros e (w & He & [Hk Hw]%list_elem_of_filter)%list_elem_of_bind.
  destruct (HW w Hw) as [[Hk' _]|(_ & _ & Ha)]; [congruence|by apply Ha].
Qed.

Lemma replaces_texts w : w ∈ replacing W → texts (write_list w).
Proof.
  intros [Hk Hw]%list_elem_of_filter. destruct (HW w Hw) as [[_ Ht]|[Hk' _]]; [done|congruence].
Qed.

Definition view : list json :=
  restrictive_view access before (adjusting W ≫= w_add) (adjusting W ≫= w_remove).

Lemma elem_of_view x : x ∈ view ↔ adjusted access before W x.
Proof.
  pose proof adds_texts as Ha. pose proof removes_texts as Hr.
  assert (Hx : x ∈ before ∨ x ∈ (adjusting W ≫= w_add) → is_text x) by (intros []; auto).
  unfold view, adjusted.
  assert (Hadd : (∃ w, w ∈ adjusting W ∧ x ∈ w_add w) ↔ x ∈ adjusting W ≫= w_add).
  { rewrite list_elem_of_bind. naive_solver. }
  assert (Hrem : (∃ w, w ∈ adjusting W ∧ x ∈ w_remove w) ↔ x ∈ adjusting W ≫= w_remove).
  { rewrite list_elem_of_bind. naive_solver. }
  destruct (is_text_or_not x) as [Ht|Ht].
  - pose proof (text_in_or_not x _ Ht Hb). pose proof (text_in_or_not x _ Ht Ha).
    pose proof (text_in_or_not x _ Ht Hr).
    assert (Hf : ∀ (p : json → bool), texts (filter (λ e, p e = true) before)).
    { intros p e [_ He]%list_elem_of_filter. auto. }
    assert (Hf' : ∀ (p : json → bool), texts (filter (λ e, p e = false) before)).
    { intros p e [_ He]%list_elem_of_filter. auto. }
    unfold restrictive_view. destruct access; rewrite Hadd, Hrem, elem_of_app, !list_elem_of_filter;
      rewrite ?orb_true_iff, ?negb_true_iff, ?py_in_text_false, ?py_in_text by auto;
      rewrite ?list_elem_of_filter, ?orb_true_iff, ?negb_true_iff;
      rewrite ?py_in_text_false, ?py_in_text by auto; tauto.
  - unfold restrictive_view.
    destruct access; rewrite Hadd, Hrem, elem_of_app, !list_elem_of_filter; tauto.
Qed.

(** The views of the group: the adjusted list, if any write adjusts it, then
    each replacing list. *)
Definition views : list (list json) :=
  (match adjusting W with [] => [] | _ => [view] end) ++ (write_list <$> replacing W).

Lemma view_texts : texts view.
Proof.
  intros e He. apply elem_of_view in He. pose proof adds_texts as Ha. unfold adjusted in He.
  assert ((∃ w, w ∈ adjusting W ∧ e ∈ w_add w) → is_text e).
  { intros (w & Hw & He'). apply Ha, list_elem_of_bind. eauto. }
  destruct access; naive_solver.
Qed.

Lemma elem_of_views l : l ∈ views ↔
  (adjusting W ≠ [] ∧ l = view) ∨ ∃ w, w ∈ replacing W ∧ l = write_list w.
Proof.
  unfold views. rewrite elem_of_app, list_elem_of_fmap.
  destruct (adjusting W) as [|w A].
  - split; [intros [?%not_elem_of_nil|(w & -> & Hw)]; [done|eauto]|].
    intros [[? _]|(w & Hw & ->)]; [done|]. right. eauto.
  - rewrite list_elem_of_singleton. naive_solver.
Qed.

Lemma views_texts l : l ∈ views → texts l.
Proof. intros [[_ ->]|(w & Hw & ->)]%elem_of_views; [apply view_texts|by apply replaces_texts]. Qed.

(** What the source keeps of the views, before sorting. *)
Definition merged : list json :=
  match access with
  | allow_list => filter (λ e, forallb (py_in e) (drop 1 views) = true) (default [] (head views))
  | _ => concat views
  end.

Lemma merged_texts : texts merged.
Proof.
  pose proof views_texts as Hv. unfold merged.
  assert (Hh : texts (default [] (head views))).
  { destruct views as [|l ls]; [by intros e ?%not_elem_of_nil|]. apply Hv, list_elem_of_here. }
  assert (Hc : texts (concat views)).
  { intros e (l & He & Hl)%elem_of_lists. by apply (Hv l). }
  destruct access; try done. intros e [_ He]%list_elem_of_filter. by apply Hh.
Qed.

Lemma merged_allowed x : access = allow_list → W ≠ [] → x ∈ merged ↔ ∀ l, l ∈ views → x ∈ l.
Proof.
  intros Ha Hne. pose proof views_texts as Hv. unfold merged. rewrite Ha.
  assert (Hnil : views ≠ []).
  { destruct W as [|w V] eqn:HWe; [done|].
    destruct (HW w ltac:(by apply list_elem_of_here)) as [[Hk _]|[Hk _]].
    - assert (write_list w ∈ views) as Hin; [|by intros E; rewrite E in Hin; apply not_elem_of_nil in Hin].
      apply elem_of_views. right. exists w. split; [|done].
      apply list_elem_of_filter. rewrite HWe. split; [done|apply list_elem_of_here].
    - assert (view ∈ views) as Hin; [|by intros E; rewrite E in Hin; apply not_elem_of_nil in Hin].
      apply elem_of_views. left. split; [|done]. intros E.
      assert (w ∈ adjusting W) as Hw; [|rewrite E in Hw; by apply not_elem_of_nil in Hw].
      apply list_elem_of_filter. rewrite HWe. split; [done|apply list_elem_of_here]. }
  destruct views as [|l ls]; [done|]. cbn [head default drop]. rewrite list_elem_of_filter, forallb_forall.
  setoid_rewrite <-list_elem_of_In. split.
  - intros [Hall Hx] l' [->|Hl]%elem_of_cons; [done|]. apply py_in_text; [|apply Hv; by right|by apply Hall].
    apply (Hv l); [apply list_elem_of_here|done].
  - intros Hall. assert (x ∈ l) as Hx by (apply Hall, list_elem_of_here). split; [|done].
    intros l' Hl. apply py_in_text; [|apply Hv; by right|apply Hall; by right].
    apply (Hv l); [apply list_elem_of_here|done].
Qed.

Lemma elem_of_merged x : W ≠ [] → x ∈ merged ↔ restricted access before W x.
Proof.
  intros Hne. destruct access eqn:Ha; unfold restricted.
  2: { rewrite (merged_allowed x Ha Hne). setoid_rewrite elem_of_views.
       pose proof (elem_of_view x) as Hx. rewrite Ha in Hx. split.
       - intros Hall. split; [intros w Hw; apply Hall; eauto|].
         destruct (adjusting W) as [|w A]; [by left|]. right. apply Hx, Hall. by left.
       - intros [Hr Hadj] l [[Hn ->]|(w & Hw & ->)]; [|by apply Hr]. apply Hx. naive_solver. }
  all: unfold merged; rewrite Ha, elem_of_lists; setoid_rewrite elem_of_views;
    pose proof (elem_of_view x) as Hx; rewrite Ha in Hx; naive_solver.
Qed.

Lemma restrictive_result_views : restrictive_result access before W = _stable (dedupe merged []) before.
Proof.
  unfold restrictive_result. rewrite (no_deletes W) by done. reflexivity.
Qed.

Lemma elem_of_restrictive x : W ≠ [] → x ∈ restrictive_result access before W ↔ restricted access before W x.
Proof.
  intros Hne. rewrite restrictive_result_views.
  destruct (dedupe_spec merged []) as [Hn Hm]; [apply merged_texts|by intros e ?%not_elem_of_nil|constructor|].
  rewrite elem_of_stable; [|intros e [?%not_elem_of_nil|He]%Hm; [done|by apply merged_texts]|done].
  rewrite Hm, elem_of_merged by done. split; [|by right]. by intros [?%not_elem_of_nil|?].
Qed.
End one_list.

(** The order of the writes does not matter. *)
Lemma restricted_perm access before W W' x :
  W ≡ₚ W' → restricted access before W x ↔ restricted access before W' x.
Proof.
  intros Hp. assert (Ha : adjusting W ≡ₚ adjusting W') by (unfold adjusting; by rewrite Hp).
  assert (Hr : replacing W ≡ₚ replacing W') by (unfold replacing; by rewrite Hp).
  assert (Hn : adjusting W = [] ↔ adjusting W' = []).
  { split; intros E; rewrite E in Ha; [by apply Permutation_nil_l in Ha|by apply Permutation_nil_r in Ha]. }
  assert (Hae : ∀ w, w ∈ adjusting W ↔ w ∈ adjusting W') by (intros w; by rewrite Ha).
  assert (Hre : ∀ w, w ∈ replacing W ↔ w ∈ replacing W') by (intros w; by rewrite Hr).
  clear Ha Hr. unfold restricted, adjusted.
  destruct access; setoid_rewrite Hae; setoid_rewrite Hre; by rewrite Hn.
Qed.

Lemma restrictive_result_perm access before W W' :
  W ≡ₚ W' → W ≠ [] → list_writes W → texts before →
  restrictive_result access before W = restrictive_result access before W'.
Proof.
  intros Hp Hne HW Hb.
  assert (HW' : list_writes W') by (intros w Hw; apply HW; by rewrite Hp).
  assert (Hne' : W' ≠ []) by (intros ->; apply Permutation_nil_r in Hp; done).
  rewrite !restrictive_result_views by done.
  destruct (dedupe_spec (merged access before W) []) as [Hn Hm];
    [by apply merged_texts|by intros e ?%not_elem_of_nil|constructor|].
  destruct (dedupe_spec (merged access before W') []) as [Hn' Hm'];
    [by apply merged_texts|by intros e ?%not_elem_of_nil|constructor|].
  apply stable_same; [done|done| | |done|].
  - intros e [?%not_elem_of_nil|He]%Hm; [done|]. by eapply merged_texts; [exact HW|..].
  - intros e [?%not_elem_of_nil|He]%Hm'; [done|]. by eapply merged_texts; [exact HW'|..].
  - intros x. rewrite Hm, Hm', !elem_of_merged by done. by rewrite (restricted_perm _ _ W W').
Qed.
End lists.

(** ** Applying a write keeps the logs *)

Definition logs_kept (m m' : Merger) : Prop := m_log m' = m_log m ∧ m_before m' = m_before m.

#[export] Instance logs_kept_pre : PreOrder logs_kept.
Proof.
  split; [done|]. intros m1 m2 m3 [H1 H2] [K1 K2]. split; [by rewrite K1|by rewrite K2].
Qed.

Section logs.
Context `{Runtime} `{IpText}.

Lemma kept_note ptr o v keep m : logs_kept m (_note ptr o v keep m).
Proof. done. Qed.
Lemma kept_prov f m : logs_kept m (with_prov f m).
Proof. done. Qed.
Hint Resolve logs_kept_pre kept_note kept_prov : stays.

Lemma kept_apply_replace base key ptr spec new o :
  within logs_kept (_apply_replace base key ptr spec new o).
Proof.
  unfold _apply_replace. stays_tac. by apply (within_foldl _).
Qed.

Lemma kept_apply_relative base key ptr o add remove :
  within logs_kept (_apply_relative base key ptr o add remove).
Proof.
  unfold _apply_relative. apply within_bind; [apply _|..]; [auto with stays|intros current].
  intros m a m' (? & ? & [= <- <-] & Hr)%ST_bind_Ok.
  destruct (foldl (relative_remove _ _) _ _) as [c1 m1] eqn:H1.
  destruct (foldl (relative_add _ _) _ _) as [c2 m2] eqn:H2.
  apply ST_bind_Ok in Hr as (? & ? & [= <- <-] & [= _ <-]). etrans; [|by apply kept_note].
  etrans.
  - pose proof (within_foldl_pair logs_kept (relative_remove ptr o) remove current m) as Hf.
    rewrite H1 in Hf. apply Hf. intros c0 m0 x _. cbn. by destruct (py_in x c0).
  - pose proof (within_foldl_pair logs_kept (relative_add ptr o) add c1 m1) as Hf.
    rewrite H2 in Hf. apply Hf. intros c0 m0 x _. cbn. by destruct (py_in x c0).
Qed.

Lemma kept_resolve base key ptr spec o own :
  within logs_kept (_resolve_restrictive base key ptr spec o own).
Proof.
  unfold _resolve_restrictive. stays_tac.
  - apply (within_foldl _). intros m' x _. unfold drop_element. by destruct (py_in x _).
  - apply (within_foldl _). intros m' x _. unfold settle_element.
    by destruct (negb _); [|destruct (py_in x _)].
Qed.
End logs.

(** ** One write to a restrictive list key *)

Section list_group.
Context `{Runtime} `{IpText} (k : string) (spec : FieldSpec) (g : Z * Z).
Context (Hlist : is_restrictive_list spec = true) (before : list json).

(** The write a value of a patch asks for. *)
Definition union_write (value : json) (o : Origin) : result config_error Write :=
  patch ← parse_union_patch value (pointer [k]);
  add ← map_result (_canon_value spec) (up_add patch);
  remove ← map_result (_canon_value spec) (up_remove patch);
  _ ← raise_if (texts_meet add remove)
        (MergeError (pointer [k]) "the same element is in $add and $remove");
  match up_replace patch with
  | Some items =>
      replacement ← canon_unique spec items [];
      Ok (list_write o (Some replacement) [] [])
  | None => Ok (list_write o None add remove)
  end.

(** [_list_op], from the write it records. *)
Definition list_op_of (base : dict) (w : Write) : MergeST dict :=
  _list_op base k (pointer [k]) spec (w_origin w)
    (if bool_decide (w_kind w = w_replace) then Some (write_list w) else None) (w_add w) (w_remove w).

Lemma union_list_run base value o m :
  _union_list base k (pointer [k]) spec value o m =
    match union_write value o with
    | Ok w => list_op_of base w m
    | Raise e => (Raise e, m)
    end.
Proof.
  unfold _union_list, union_write.
  destruct (parse_union_patch _ _) as [patch|]; [|done]. rewrite (lift_step _ _ _ patch) by done.
  cbn [mbind result_bind].
  destruct (map_result _ (up_add patch)) as [add|]; [|done]. rewrite (lift_step _ _ _ add) by done.
  cbn [mbind result_bind].
  destruct (map_result _ (up_remove patch)) as [remove|]; [|done]. rewrite (lift_step _ _ _ remove) by done.
  cbn [mbind result_bind].
  destruct (texts_meet add remove); [done|]. rewrite (lift_step _ _ _ tt) by done.
  cbn [raise_if mbind result_bind].
  destruct (up_replace patch) as [items|]; [|done].
  by destruct (canon_unique spec items []).
Qed.

(** The key through the writes of its group. *)
Record ListInv (W : list Write) (base : dict) (m : Merger) : Prop := {
  li_log : default [] (m_log m !! (pointer [k], g)) = W;
  li_kinds w : w ∈ W → w_kind w = w_replace ∨ w_kind w = w_relative;
  li_start : W = [] → list_in base k = Ok before ∧ m_before m !! (pointer [k], g) = None;
  li_before : W ≠ [] → m_before m !! (pointer [k], g) = Some before;
  li_result : 2 ≤ length W →
    assoc_get k base = Some (JList (restrictive_result (fs_access spec) before W));
}.

Definition write_layer (w : Write) : string := o_layer_id (w_origin w).

Lemma list_others W base o m :
  ListInv W base m → group o = g → o_layer_id o ∉ (write_layer <$> W) →
  _others (pointer [k]) o m = W ∧ filter (λ w, w_kind w ≠ w_delete) W = W ∧
  filter (λ w, w_kind w = w_delete) W = [].
Proof.
  intros HI Hg Ho. split_and!.
  - unfold _others, _all_group_writes. rewrite Hg, (li_log _ _ _ HI). apply filter_all.
    intros w Hw Heq. apply Ho. rewrite <-Heq. by apply (list_elem_of_fmap_2 write_layer).
  - apply filter_all. intros w Hw. destruct (li_kinds _ _ _ HI w Hw) as [-> | ->]; done.
  - apply filter_none. intros w Hw. destruct (li_kinds _ _ _ HI w Hw) as [-> | ->]; done.
Qed.

(** What the write does once it is logged. *)
Definition settle_write (W : list Write) (base : dict) (w : Write) : MergeST dict :=
  if negb (bool_decide (length W = 0)) then
    _resolve_restrictive base k (pointer [k]) spec (w_origin w) w
  else
    match w_kind w with
    | w_replace => _apply_replace base k (pointer [k]) spec (write_list w) (w_origin w)
    | _ => _apply_relative base k (pointer [k]) (w_origin w) (w_add w) (w_remove w)
    end.

(** A write of [_list_op]: a whole list, or additions and removals. *)
Definition is_list_write (w : Write) : Prop :=
  (w_kind w = w_replace ∨ w_kind w = w_relative) ∧
  list_write (w_origin w) (if bool_decide (w_kind w = w_replace) then Some (write_list w) else None)
    (w_add w) (w_remove w) = w.

Lemma list_op_run W base m w base' m' :
  ListInv W base m → group (w_origin w) = g → write_layer w ∉ (write_layer <$> W) →
  is_list_write w → list_op_of base w m = (Ok base', m') →
  ∃ m1, m_before m1 !! (pointer [k], g) = Some before ∧ m_log m1 = m_log m ∧
    settle_write W base w (_record (pointer [k]) w m1) = (Ok base', m').
Proof.
  intros HI Hg Ho [Hk Hw] Hrun. unfold list_op_of, _list_op in Hrun. rewrite Hw in Hrun.
  destruct (list_others W base (w_origin w) m HI Hg Ho) as (Hoth & Hnd & Hd).
  erewrite (ST_step (modify _)) in Hrun by done.
  assert (_delete_clash (pointer [k]) w m = m) as Hclash.
  { unfold _delete_clash. rewrite ancestors_top. cbn [foldl]. unfold clash_at. by rewrite Hoth, Hd. }
  rewrite Hclash in Hrun. erewrite (ST_step (gets _)) in Hrun by done.
  rewrite Hoth, Hnd, Hlist, andb_true_r in Hrun.
  apply ST_bind_Ok in Hrun as (? & m1 & Hrem & Hrun).
  erewrite (ST_step (modify _)) in Hrun by done. exists m1.
  assert (settle_write W base w (_record (pointer [k]) w m1) = (Ok base', m')) as Hset.
  { rewrite <-Hrun. unfold settle_write. destruct (negb _) eqn:Hn; [done|].
    apply negb_false_iff in Hn. rewrite Hn. erewrite (ST_step (modify _)) by done.
    destruct Hk as [Hk|Hk]; by rewrite Hk. }
  unfold remember_before in Hrem. erewrite (ST_step (gets _)) in Hrem by done. rewrite Hg in Hrem.
  destruct W as [|w0 W].
  - destruct (li_start _ _ _ HI eq_refl) as [Hin Hnone]. rewrite Hnone, Hin in Hrem.
    rewrite (lift_step _ _ _ before) in Hrem by done. apply ok_pair in Hrem as [_ <-].
    split_and!; [apply lookup_insert_eq|done|exact Hset].
  - rewrite (li_before _ _ _ HI) in Hrem by done. apply ok_pair in Hrem as [_ <-].
    split_and!; [by apply (li_before _ _ _ HI)|done|exact Hset].
Qed.

Lemma kept_settle_write W base w : within logs_kept (settle_write W base w).
Proof.
  unfold settle_write. destruct (negb _); [apply kept_resolve|].
  destruct (w_kind w); (apply kept_apply_replace || apply kept_apply_relative).
Qed.

Lemma settled_list W base w m base' m' :
  W ≠ [] → group (w_origin w) = g → m_before m !! (pointer [k], g) = Some before →
  settle_write W base w m = (Ok base', m') →
  assoc_get k base' = Some (JList (restrictive_result (fs_access spec) before
    (default [] (m_log m !! (pointer [k], g))))).
Proof.
  intros HW Hg Hb Hrun. unfold settle_write in Hrun.
  rewrite bool_decide_eq_false_2 in Hrun by (by destruct W). cbn [negb] in Hrun.
  unfold _resolve_restrictive in Hrun. erewrite (ST_step (gets _)) in Hrun by done.
  erewrite (ST_step (gets _)) in Hrun by done.
  unfold _all_group_writes in Hrun. rewrite Hg, Hb in Hrun. cbn [default] in Hrun.
  apply ST_bind_Ok in Hrun as (previous & m1 & _ & Hrun).
  erewrite (ST_step (modify _)) in Hrun by done. erewrite (ST_step (modify _)) in Hrun by done.
  erewrite (ST_step (modify _)) in Hrun by done. apply ok_pair in Hrun as [<- _].
  apply assoc_get_set_eq.
Qed.

Lemma list_step W base m w base' m' :
  ListInv W base m → group (w_origin w) = g → write_layer w ∉ (write_layer <$> W) →
  is_list_write w → list_op_of base w m = (Ok base', m') → ListInv (W ++ [w]) base' m'.
Proof.
  intros HI Hg Ho Hw Hrun.
  destruct (list_op_run W base m w base' m' HI Hg Ho Hw Hrun) as (m1 & Hbef & Hlog & Hset).
  set (m2 := _record (pointer [k]) w m1) in *.
  assert (Hlog2 : default [] (m_log m2 !! (pointer [k], g)) = W ++ [w]).
  { unfold m2, _record. cbn [with_log m_log]. rewrite <-Hg, lookup_insert_eq. cbn [default].
    unfold _all_group_writes. by rewrite Hlog, Hg, (li_log _ _ _ HI). }
  destruct (kept_settle_write W base w m2 _ _ Hset) as [Hl Hb]. split.
  - by rewrite Hl.
  - intros x [Hx| ->%list_elem_of_singleton]%elem_of_app; [by apply (li_kinds _ _ _ HI)|apply Hw].
  - intros Hnil. by destruct W.
  - intros _. by rewrite Hb.
  - rewrite length_app. cbn. intros Hlen. rewrite <-Hlog2. eapply settled_list; [|exact Hg| |exact Hset].
    + destruct W; [cbn in Hlen; lia|done].
    + exact Hbef.
Qed.

Lemma union_write_is value o w : union_write value o = Ok w → is_list_write w ∧ w_origin w = o.
Proof.
  unfold union_write. intros Hw.
  apply result_bind_Ok in Hw as (patch & _ & Hw). apply result_bind_Ok in Hw as (add & _ & Hw).
  apply result_bind_Ok in Hw as (remove & _ & Hw). apply result_bind_Ok in Hw as (? & _ & Hw).
  destruct (up_replace patch) as [items|].
  - apply result_bind_Ok in Hw as (r & _ & [= <-]). split; [|done]. split; [by left|done].
  - injection Hw as <-. split; [|done]. split; [by right|done].
Qed.

Lemma list_same_key W base m base' m' :
  ListInv W base m → same_key k base m base' m' → ListInv W base' m'.
Proof.
  intros [H1 H2 H3 H4 H5] [K1 K2 K3 K4 K5].
  split; rewrite ?K4, ?K5, ?K1; try done. unfold list_in in *. by rewrite K1.
Qed.
End list_group.

(** ** The patches of a group *)

Section list_patches.
Context `{Runtime} `{IpText} (specs : SpecIndex) (k : string) (spec : FieldSpec).
Context (Hspec : lookup_spec specs [k] = Some spec) (Hkind : fs_kind spec = kind_list).
Context (Hunion : fs_strategy spec = Some strategy_union) (Hlist : is_restrictive_list spec = true).
Context (g : Z * Z) (before : list json).

(** The writes the values of the patches ask for. *)
Definition union_writes (l : list (json * Origin)) : list Write :=
  omap (λ vo, match union_write k spec vo.1 vo.2 with Ok w => Some w | Raise _ => None end) l.

Lemma list_entry mf base o v m base' m' :
  is_delete v = Ok false → merge_entry specs mf base [] o k v m = (Ok base', m') →
  _union_list base k (pointer [k]) spec v o m = (Ok base', m').
Proof.
  intros Hv Hrun. unfold merge_entry in Hrun. cbn [app] in Hrun. rewrite Hspec in Hrun.
  apply ST_bind_Ok in Hrun as (? & m0 & [_ <-]%lift_run & Hrun).
  rewrite (lift_step _ _ _ false) in Hrun by done. by rewrite Hkind, Hunion in Hrun.
Qed.

Lemma list_patches ps : ∀ W m m',
  one_group g ps → (∀ vo, vo ∈ key_values k ps → is_delete vo.1 = Ok false) →
  (∀ po, po ∈ ps → layer_id po ∉ (write_layer <$> W)) →
  ListInv k spec g before W (m_values m) m →
  merge_patches specs ps m = (Ok tt, m') →
  length (union_writes (key_values k ps)) = length (key_values k ps) ∧
  ListInv k spec g before (W ++ union_writes (key_values k ps)) (m_values m') m'.
Proof.
  induction ps as [|[patch o] ps IH]; intros W m m' Hg Hdel Hids HI; cbn [merge_patches].
  { intros [= <-]. by rewrite app_nil_r. }
  apply one_group_cons in Hg as [(Hgo & Hl & Hd) Hg]. cbn [fst snd] in *.
  intros (u & m1 & H1 & H2)%ST_bind_Ok.
  apply (merge_patch_key specs k) in H1; [|done]. unfold key_values in *. cbn [omap list_omap fst snd] in *.
  fold (key_values k ps) in *.
  destruct (patch_value k patch) as [v|]; cbn [mbind option_bind] in *.
  - destruct H1 as (b1 & m2 & b2 & m3 & Hs1 & Hrun & Hs2).
    apply list_entry in Hrun; [|apply (Hdel (v, o)), list_elem_of_here].
    apply (list_same_key _ _ _ _ _ _ _ _ _ HI) in Hs1.
    cbn [union_writes omap list_omap fst snd] in *. fold (union_writes (key_values k ps)) in *.
    rewrite union_list_run in Hrun. destruct (union_write k spec v o) as [w|] eqn:Hw; [|done].
    destruct (union_write_is _ _ _ _ _ Hw) as [Hkw Ho]. subst o.
    apply (list_step k spec g Hlist before W b1 m2 w b2 m3 Hs1) in Hrun;
      [|done|apply (Hids (patch, w_origin w)), list_elem_of_here|done].
    apply (list_same_key _ _ _ _ _ _ _ _ _ Hrun) in Hs2.
    destruct (IH (W ++ [w]) m1 m' Hg) as [Hlen HI2]; [..|done|].
    + intros vo Hvo. apply Hdel. by right.
    + intros po Hpo. rewrite fmap_app, not_elem_of_app. split; [apply Hids; by right|].
      intros Heq%list_elem_of_singleton. apply Hl.
      rewrite <-(Heq : layer_id po = layer_id (patch, w_origin w)). by apply list_elem_of_fmap_2.
    + done.
    + rewrite <-(assoc_L (++)) in HI2. split; [cbn; lia|done].
  - apply (list_same_key _ _ _ _ _ _ _ _ _ HI) in H1. apply (IH W m1); try done.
    intros po Hpo. apply Hids. by right.
Qed.
End list_patches.
