(* ===== verification/ConfigGroups.v ===== *)
(** * Groups of layers do not mix

    The merger logs every write under its path and the rank and weight of its
    layer. Merging the patch of a layer leaves the log of every other rank and
    weight as it was, so the writes of one group can be followed from a merger
    the groups before it have filled. *)

From S2P Require Import Prelude PyData PyTime ConfigDocument ConfigFields ConfigMerge.
From S2P Require Import ConfigFrame.
From stdpp Require Import base gmap strings pretty list sorting.
From Stdlib Require Import ZArith NArith Ascii.

(** The log of a group is as it was, and so is the mode of the module. *)
Record group_kept (g : Z * Z) (m m' : Merger) : Prop := {
  gk_meta : m_meta m' = m_meta m;
  gk_log p : m_log m' !! (p, g) = m_log m !! (p, g);
  gk_before p : m_before m' !! (p, g) = m_before m !! (p, g);
}.

#[export] Instance group_kept_pre g : PreOrder (group_kept g).
Proof.
  split; [by split|]. intros m1 m2 m3 [H0 H1 H2] [K0 K1 K2].
  split; [by rewrite K0|intros p; by rewrite K1|intros p; by rewrite K2].
Qed.

Section one_layer.
Context `{Runtime} `{IpText} (g : Z * Z) (o : Origin) (Ho : group o ≠ g).

Lemma group_kept_record ptr w m : w_origin w = o → group_kept g m (_record ptr w m).
Proof.
  intros <-. split; [done|intros p|done]. cbn. by rewrite lookup_insert_ne by (intros [= _ <-]; done).
Qed.

Lemma group_kept_before ptr l m : group_kept g m (with_before <[(ptr, group o) := l]> m).
Proof. split; [done..|intros p]. cbn. by rewrite lookup_insert_ne by (intros [= _ <-]; done). Qed.

Lemma group_kept_flag ptr ws m : group_kept g m (_flag ptr ws m).
Proof. unfold _flag. by destruct (add_writes _ _ _). Qed.

Lemma group_kept_foldl {B} (f : Merger → B → Merger) l m :
  (∀ m x, group_kept g m (f m x)) → group_kept g m (foldl f m l).
Proof. intros Hf. apply (within_foldl _). intros. apply Hf. Qed.

Lemma group_kept_delete_clash ptr w m : group_kept g m (_delete_clash ptr w m).
Proof.
  apply group_kept_foldl. intros m' p. unfold clash_at.
  destruct (filter _ _); [done|apply group_kept_flag].
Qed.

Lemma group_kept_write_clash ptr w m : group_kept g m (_write_clash ptr w m).
Proof.
  apply group_kept_foldl. intros m' e. unfold clash_below.
  destruct (filter _ _); [done|apply group_kept_flag].
Qed.

Lemma group_kept_list_mix ptr others own m : group_kept g m (_flag_list_mix ptr others own m).
Proof. unfold _flag_list_mix. destruct (existsb _ _); [apply group_kept_flag|done]. Qed.

Lemma group_kept_note ptr o' v keep m : group_kept g m (_note ptr o' v keep m).
Proof. done. Qed.
Lemma group_kept_prov f m : group_kept g m (with_prov f m).
Proof. done. Qed.
Lemma group_kept_tombs f m : group_kept g m (with_tombs f m).
Proof. done. Qed.
Lemma group_kept_lint s m : group_kept g m (with_lint s m).
Proof. done. Qed.
Lemma group_kept_id m : group_kept g m (id m).
Proof. done. Qed.
Lemma group_kept_tombstone path o' m : group_kept g m (_tombstone path o' m).
Proof. done. Qed.

Hint Resolve group_kept_pre group_kept_record group_kept_before group_kept_flag group_kept_delete_clash
  group_kept_write_clash group_kept_list_mix group_kept_note group_kept_prov group_kept_tombs
  group_kept_lint group_kept_id group_kept_tombstone : stays.

Lemma group_assign base key ptr spec value : within (group_kept g) (_assign base key ptr spec value o).
Proof. unfold _assign. stays_tac. Qed.

Lemma group_delete base key path : within (group_kept g) (_delete base key path o).
Proof. unfold _delete. stays_tac. Qed.

Lemma group_apply_replace base key ptr spec new :
  within (group_kept g) (_apply_replace base key ptr spec new o).
Proof. unfold _apply_replace. stays_tac. by apply group_kept_foldl. Qed.

Lemma group_relative (f : list json * Merger → json → list json * Merger) l c m :
  (∀ c m x, group_kept g m (f (c, m) x).2) → group_kept g m (foldl f (c, m) l).2.
Proof. intros Hf. apply (within_foldl_pair _). intros. apply Hf. Qed.

Lemma group_apply_relative base key ptr add remove :
  within (group_kept g) (_apply_relative base key ptr o add remove).
Proof.
  unfold _apply_relative. apply within_bind; [apply _|..]; [auto with stays|intros current].
  intros m a m' (? & ? & [= <- <-] & Hr)%ST_bind_Ok.
  pose proof (group_relative (relative_remove ptr o) remove current m) as Hrem.
  destruct (foldl (relative_remove _ _) _ _) as [c1 m1].
  pose proof (group_relative (relative_add ptr o) add c1 m1) as Hadd.
  destruct (foldl (relative_add _ _) _ _) as [c2 m2].
  apply ST_bind_Ok in Hr as (? & ? & [= <- <-] & [= _ <-]). etrans; [|by apply group_kept_note].
  etrans; [apply Hrem|apply Hadd]; intros c0 m0 x; cbn; by destruct (py_in x c0).
Qed.

Lemma group_resolve base key ptr spec own :
  within (group_kept g) (_resolve_restrictive base key ptr spec o own).
Proof.
  unfold _resolve_restrictive. stays_tac; apply group_kept_foldl; intros m' x.
  - unfold drop_element. by destruct (py_in x _).
  - unfold settle_element. by destruct (negb _); [|destruct (py_in x _)].
Qed.

Hint Resolve group_assign group_delete group_apply_replace group_apply_relative group_resolve : stays.

Lemma group_list_op base key ptr spec replacement add remove :
  within (group_kept g) (_list_op base key ptr spec o replacement add remove).
Proof.
  unfold _list_op, remember_before. stays_tac; apply group_kept_record; by destruct replacement.
Qed.
Hint Resolve group_list_op : stays.

Lemma group_replace_list base key ptr spec value :
  within (group_kept g) (_replace_list base key ptr spec value o).
Proof. unfold _replace_list. stays_tac. Qed.

Lemma group_union_list base key ptr spec value :
  within (group_kept g) (_union_list base key ptr spec value o).
Proof. unfold _union_list. stays_tac. Qed.

Lemma group_delete_element path canon_key elements :
  within (group_kept g) (delete_element path canon_key o elements).
Proof. unfold delete_element. stays_tac. Qed.

Lemma group_create_element path field canon_key :
  within (group_kept g) (create_element path field canon_key o).
Proof. unfold create_element. stays_tac. Qed.
Hint Resolve group_replace_list group_union_list group_delete_element group_create_element : stays.

Lemma group_keyed_element merge_fields field path elements item canon_key :
  (∀ element path, within (group_kept g) (merge_fields item element path)) →
  within (group_kept g) (keyed_element merge_fields field path o elements item canon_key).
Proof. intros Hf. unfold keyed_element. stays_tac. Qed.

Lemma group_keyed_loop merge_fields field path items : ∀ keys elements,
  (∀ item element path, item ∈ items → within (group_kept g) (merge_fields item element path)) →
  within (group_kept g) (keyed_loop merge_fields field path o items keys elements).
Proof.
  induction items as [|item items IH]; intros [|canon_key keys] elements Hf;
    cbn [keyed_loop]; [auto with stays..|].
  apply within_bind; [apply _|..].
  - apply group_keyed_element. intros element path'. apply Hf. by apply list_elem_of_here.
  - intros elements'. apply (IH keys elements'). intros x element path' Hx. apply Hf. by right.
Qed.

Lemma group_keyed_list specs merge_fields base key path spec value :
  (∀ field item element path, item ∈ patch_items value →
    within (group_kept g) (merge_fields field item element path)) →
  within (group_kept g) (_keyed_list specs merge_fields base key path spec value o).
Proof.
  intros Hf. unfold _keyed_list. stays_tac; try by apply group_kept_foldl.
  all: apply group_keyed_loop; intros; by apply Hf.
Qed.

Lemma group_merge_object specs : ∀ patch, object_within (group_kept g) specs o (λ _, True) patch.
Proof.
  apply (merge_object_within _ specs o (λ _, True)). intros base path key value _ Hv Hi.
  unfold merge_entry.
  apply within_bind; [apply _|..]; [auto with stays|intros _].
  destruct (lookup_spec _ _) as [spec|]; [|auto with stays].
  apply within_bind; [apply _|..]; [auto with stays|intros []]; [apply group_delete|].
  destruct (fs_kind spec).
  1,2: stays_tac; by apply Hv.
  - destruct (_ || _); [auto with stays|apply group_assign].
  - destruct (fs_strategy spec) as [[]|]; [apply group_replace_list|apply group_union_list| |auto with stays].
    apply group_keyed_list. intros. by apply Hi.
Qed.

Lemma group_merge_patch specs patch : within (group_kept g) (merge_patch specs patch o).
Proof. unfold merge_patch. stays_tac; [by apply group_merge_object|done]. Qed.
End one_layer.

Section layers.
Context `{Runtime} `{IpText} (g : Z * Z).

(** The patches of other groups leave the log of a group. *)
Lemma group_merge_patches specs ps : (∀ po, po ∈ ps → group po.2 ≠ g) →
  within (group_kept g) (merge_patches specs ps).
Proof.
  induction ps as [|[patch o] ps IH]; intros Hg; cbn [merge_patches]; [apply within_ret; apply _|].
  apply within_bind; [apply _|..].
  - apply group_merge_patch. apply (Hg (patch, o)), list_elem_of_here.
  - intros _. apply IH. intros po Hp. apply Hg. by right.
Qed.
End layers.
