(* ===== verification/ConfigTheorems.v ===== *)
(** * Theorems on configuration layers

    The properties of the composition engine that hold whatever the names of
    the layers and the order they are read in, applied to a module with a
    restrictive flag, an ordinary text and an allow list, and to the patches of a
    baseline layer and of two regional layers of equal rank and weight. *)

From S2P Require Import Prelude PyTime PyData ConfigDocument ConfigFields ConfigMerge ConfigLayers ConfigDerive ConfigOrder.
From S2P Require Import ConfigFrame ConfigTies ConfigLists ConfigGroups.
From stdpp Require Import base gmap strings pretty list sorting relations.
From Stdlib Require Import ZArith NArith Ascii.

#[export] Instance example_runtime : Runtime := {|
  float_repr _ := "0.0";
  sha256_hexdigest s := s;
|}.

#[export] Instance example_ip : IpText := {|
  ip_network_text s := Ok s;
  ip_address_text s := Ok s;
|}.

(** Multi-factor authentication: the secure value is [true]. *)
Definition mfa_spec : FieldSpec :=
  MkFieldSpec kind_scalar None None None secure_bool (Some true) [] tie_restrictive false false
    false false REQUIRED "none".
Definition banner_spec : FieldSpec := FieldSpec_of_kind kind_scalar.
Definition ports_spec : FieldSpec :=
  MkFieldSpec kind_list (Some strategy_union) None None allow_list None [] tie_restrictive false
    false false false REQUIRED "text".

Example specs_checked :
  FieldSpec_check mfa_spec = Ok mfa_spec ∧ FieldSpec_check banner_spec = Ok banner_spec ∧
  FieldSpec_check ports_spec = Ok ports_spec.
Proof. by vm_compute. Qed.

Definition example_specs : SpecIndex :=
  <[["mfa"] := mfa_spec]> (<[["banner"] := banner_spec]> {[["ports"] := ports_spec]}).

Definition example_origin (tier : string) (rank : Z) (name : string) : Origin :=
  MkOrigin tier rank ("id-" +:+ name) name 1 0 "set" None [].
Definition region_group : Z * Z := (20%Z, 0%Z).

Definition texts_list (l : list string) : json := JList (JStr <$> l).

Definition baseline : json * Origin :=
  (JObj [("mfa", JBool false); ("ports", JObj [("$replace", texts_list ["ssh"; "https"; "ftp"])])],
   example_origin "baseline" 10 "base").
Definition north : json * Origin :=
  (JObj [("mfa", JBool true); ("banner", JStr "north");
         ("ports", JObj [("$add", texts_list ["imap"]); ("$remove", texts_list ["ftp"])])],
   example_origin "region" 20 "north").
Definition south : json * Origin :=
  (JObj [("mfa", JBool false); ("banner", JStr "south");
         ("ports", JObj [("$replace", texts_list ["imap"; "https"; "ftp"])])],
   example_origin "region" 20 "south").

(** The merger the patches leave. *)
Definition merged (ps : list (json * Origin)) : Merger := (merge_all example_specs ps).2.
Definition merged_value (k : string) (ps : list (json * Origin)) : option json :=
  assoc_get k (m_values (merged ps)).

Lemma regions_one_group : one_group region_group [north; south].
Proof.
  split.
  - intros po. rewrite elem_of_cons, list_elem_of_singleton. by intros [->| ->].
  - apply NoDup_cons. split; [|apply NoDup_singleton]. by intros ?%list_elem_of_singleton.
  - intros po. rewrite elem_of_cons, list_elem_of_singleton. intros [->| ->]; cbn;
      repeat (apply NoDup_cons; split; [set_solver|]); apply NoDup_nil_2.
Qed.

Lemma baseline_lower po : po ∈ [baseline] → group po.2 ≠ region_group.
Proof. by intros ->%list_elem_of_singleton. Qed.

Lemma merged_run ps : is_ok (merge_all example_specs ps).1 = true →
  merge_all example_specs ps = (Ok tt, merged ps).
Proof. unfold merged. by destruct (merge_all example_specs ps) as [[[]|] m]. Qed.

(** The regions disagree on the banner, agree on neither flag nor ports. *)
Example regions_merged :
  merged_value "mfa" [baseline; north; south] = Some (JBool true) ∧
  merged_value "mfa" [baseline; south; north] = Some (JBool true) ∧
  merged_value "banner" [baseline; north; south] = Some (JStr "south") ∧
  merged_value "banner" [baseline; south; north] = Some (JStr "north") ∧
  cf_layers <$> (m_conflicts (merged [baseline; north; south]) !! "/banner")
    = Some ["region:north"; "region:south"] ∧
  merged_value "ports" [baseline; north; south] = Some (texts_list ["https"; "imap"]) ∧
  merged_value "ports" [baseline; south; north] = Some (texts_list ["https"; "imap"]).
Proof. split_and!; vm_compute; reflexivity. Qed.

(** ** Helper lemmas *)

Section helpers.
Context `{Runtime} `{IpText} (specs : SpecIndex).

Lemma merge_patches_app ps qs m m' :
  merge_patches specs (ps ++ qs) m = (Ok tt, m') ↔
  ∃ m1, merge_patches specs ps m = (Ok tt, m1) ∧ merge_patches specs qs m1 = (Ok tt, m').
Proof.
  revert m. induction ps as [|[patch o] ps IH]; intros m; cbn [app merge_patches].
  { split; [intros; by exists m|]. by intros (m1 & [= <-] & ?). }
  split.
  - intros (u & m1 & H1 & (m2 & H2 & H3)%IH)%ST_bind_Ok. exists m2. split; [|done].
    apply ST_bind_Ok. by exists u, m1.
  - intros (m2 & (u & m1 & H1 & H2)%ST_bind_Ok & H3). apply ST_bind_Ok. exists u, m1.
    split; [done|]. apply IH. by exists m2.
Qed.

Lemma merge_all_app ps qs m' :
  merge_all specs (ps ++ qs) = (Ok tt, m') →
  ∃ m1, merge_all specs ps = (Ok tt, m1) ∧ merge_patches specs qs m1 = (Ok tt, m').
Proof. unfold merge_all. apply merge_patches_app. Qed.

(** What the groups before leave of the log of a group: nothing. *)
Lemma fresh_group g lower m p :
  (∀ po, po ∈ lower → group po.2 ≠ g) → merge_all specs lower = (Ok tt, m) →
  m_log m !! (p, g) = None ∧ m_before m !! (p, g) = None.
Proof.
  intros Hg Hrun. destruct (group_merge_patches g specs lower Hg _ _ _ Hrun) as [_ Hl Hb].
  by rewrite Hl, Hb.
Qed.

Lemma one_group_perm g ps ps' : ps' ≡ₚ ps → one_group g ps → one_group g ps'.
Proof.
  intros Hp [Hg Hl Hd]. split.
  - intros po. rewrite Hp. apply Hg.
  - by rewrite Hp.
  - intros po. rewrite Hp. apply Hd.
Qed.

Lemma key_values_perm k ps ps' : ps' ≡ₚ ps → key_values k ps' ≡ₚ key_values k ps.
Proof. intros Hp. unfold key_values. by rewrite Hp. Qed.

Lemma canon_values_perm k spec vs vs' :
  vs' ≡ₚ vs → canon_values k spec vs' ≡ₚ canon_values k spec vs.
Proof. intros Hp. unfold canon_values. by rewrite Hp. Qed.

Lemma agree_perm W W' : W' ≡ₚ W → agree W' ↔ agree W.
Proof. intros Hp. unfold agree. by setoid_rewrite Hp. Qed.

Lemma apart_perm W W' : W' ≡ₚ W → apart W → apart W'.
Proof. intros Hp Ha x y. rewrite Hp. apply Ha. Qed.
End helpers.

(** ** Scalars of equal rank *)

Section scalars.
Context `{Runtime} `{IpText} (specs : SpecIndex) (k : string) (spec : FieldSpec).
Context (Hspec : lookup_spec specs [k] = Some spec) (Hkind : fs_kind spec = kind_scalar).
Context (g : Z * Z) (lower : list (json * Origin)) (Hlower : ∀ po, po ∈ lower → group po.2 ≠ g).

(** What the writes of the group to the key leave. *)
Definition settled_after (base m : Merger) (W : list (json * Origin)) : Prop :=
  ∃ v, assoc_get k (m_values m) = Some v ∧
    scalar_settled spec (m_conflicts base !! pointer [k]) W v (m_conflicts m !! pointer [k]).

Lemma scalar_group_run ps m :
  one_group g ps → key_values k ps ≠ [] →
  (∀ vo, vo ∈ key_values k ps → is_mapping vo.1 = false) →
  (is_restrictive_scalar spec = true → apart (canon_values k spec (key_values k ps))) →
  merge_all specs (lower ++ ps) = (Ok tt, m) →
  ∃ base, merge_all specs lower = (Ok tt, base) ∧
    settled_after base m (canon_values k spec (key_values k ps)).
Proof.
  intros Hg Hne Hmap Hap (base & Hlow & Hrun)%merge_all_app. exists base. split; [exact Hlow|].
  destruct (fresh_group specs g lower base (pointer [k]) Hlower Hlow) as [Hlog _].
  destruct (scalar_patches specs k spec Hspec Hkind g (assoc_get k (m_values base))
    (m_conflicts base !! pointer [k]) ps [] base m Hg Hmap) as [Hlen HI]; [..|done|].
  - intros po _. apply not_elem_of_nil.
  - exact Hap.
  - split; [|done|done]. unfold logged. by rewrite Hlog.
  - cbn [app] in *. destruct (sc_settled _ _ _ _ _ _ _ _ HI) as (p & v & _ & _ & Hv & Hset).
    + intros Hnil. rewrite Hnil in Hlen. by destruct (key_values k ps).
    + by exists v.
Qed.
End scalars.

(** Layers of equal rank and weight, whatever their names: the layers below
    are merged, then a group of layers that write a scalar key. A restrictive
    field ends at a value the group wrote that is at least as secure as every
    other one, without a conflict, and in another order of the layers at one
    just as secure. Any other field ends at the last value; values with the
    same canonical text leave no conflict in any order, and values that differ
    leave one in every order, naming each layer of the group. *)
Theorem equal_rank_scalars `{Runtime} `{IpText} specs k spec g lower ps ps' m m' :
  lookup_spec specs [k] = Some spec → fs_kind spec = kind_scalar →
  (∀ po, po ∈ lower → group po.2 ≠ g) → one_group g ps → ps' ≡ₚ ps →
  key_values k ps ≠ [] → (∀ vo, vo ∈ key_values k ps → is_mapping vo.1 = false) →
  let W := canon_values k spec (key_values k ps) in
  (is_restrictive_scalar spec = true → apart W) →
  merge_all specs (lower ++ ps) = (Ok tt, m) → merge_all specs (lower ++ ps') = (Ok tt, m') →
  ∃ base v v', merge_all specs lower = (Ok tt, base) ∧
    assoc_get k (m_values m) = Some v ∧ assoc_get k (m_values m') = Some v' ∧
    let conflict m := m_conflicts m !! pointer [k] in
    if is_restrictive_scalar spec then
      v ∈ W.*1 ∧ (∀ w, w ∈ W.*1 → no_less_secure spec v w) ∧
      v' ∈ W.*1 ∧ no_less_secure spec v' v ∧ no_less_secure spec v v' ∧
      conflict m = conflict base ∧ conflict m' = conflict base
    else
      last W.*1 = Some v ∧
      ((agree W ∧ canonical_json v' = canonical_json v ∧
        conflict m = conflict base ∧ conflict m' = conflict base) ∨
       (¬ agree W ∧ ∃ c c', conflict m = Some c ∧ conflict m' = Some c' ∧
        ∀ x, x ∈ W → write_label (set_write x) ∈ cf_layers c ∧
                     write_label (set_write x) ∈ cf_layers c')).
Proof.
  intros Hspec Hkind Hlow Hg Hp Hne Hmap W Hap Hrun Hrun'.
  assert (HpV := key_values_perm k ps ps' Hp). assert (HpW := canon_values_perm k spec _ _ HpV).
  fold W in HpW. set (W' := canon_values k spec (key_values k ps')) in *.
  destruct (scalar_group_run specs k spec Hspec Hkind g lower Hlow ps m) as (base & Hb & v & Hv & Hset);
    [done..|].
  destruct (scalar_group_run specs k spec Hspec Hkind g lower Hlow ps' m') as (base' & Hb' & v' & Hv' & Hset').
  - by eapply one_group_perm.
  - intros Hnil. rewrite Hnil in HpV. by apply Permutation_nil_l in HpV.
  - intros vo. rewrite HpV. apply Hmap.
  - intros Hr. eapply apart_perm; [exact HpW|by apply Hap].
  - done.
  - assert (base' = base) as -> by congruence. fold W in Hset. fold W' in Hset'.
    exists base, v, v'. split_and!; [done..|]. unfold scalar_settled in Hset, Hset'.
    destruct (is_restrictive_scalar spec).
    + destruct Hset as (Hc & Hin & Hall), Hset' as (Hc' & Hin' & Hall').
      rewrite HpW in Hin'. split_and!; [done|done|done| |by apply Hall|done|done].
      apply Hall'. by rewrite HpW.
    + destruct Hset as [Hl Hcase], Hset' as [Hl' Hcase']. split; [done|].
      rewrite (agree_perm W W') in Hcase' by done.
      destruct Hcase as [[Ha Hc]|[Hna (c & Hc & Hn)]], Hcase' as [[Ha' Hc']|[Hna' (c' & Hc' & Hn')]];
        [left|done|done|right].
      * split_and!; [done| |done|done].
        apply last_Some_elem_of in Hl. apply last_Some_elem_of in Hl'.
        rewrite HpW in Hl'. apply list_elem_of_fmap in Hl as (x & -> & Hx), Hl' as (y & -> & Hy).
        by apply Ha.
      * split; [done|]. exists c, c'. split_and!; [done..|]. intros x Hx.
        split; [by apply Hn|]. apply Hn'. by rewrite HpW.
Qed.

Lemma equal_rank_scalars_witness :
  is_restrictive_scalar mfa_spec = true ∧
  ∃ v v', merged_value "mfa" [baseline; north; south] = Some v ∧
    merged_value "mfa" [baseline; south; north] = Some v' ∧
    no_less_secure mfa_spec v (JBool false) ∧ no_less_secure mfa_spec v' v.
Proof.
  split; [reflexivity|].
  assert (Hvals : key_values "mfa" [north; south] = [(JBool true, north.2); (JBool false, south.2)])
    by reflexivity.
  assert (HW : canon_values "mfa" mfa_spec (key_values "mfa" [north; south])
    = [(JBool true, north.2); (JBool false, south.2)]) by reflexivity.
  destruct (equal_rank_scalars example_specs "mfa" mfa_spec region_group [baseline] [north; south]
    [south; north] (merged [baseline; north; south]) (merged [baseline; south; north]))
    as (base & v & v' & _ & Hv & Hv' & Hset).
  - vm_compute. reflexivity.
  - reflexivity.
  - apply baseline_lower.
  - apply regions_one_group.
  - apply Permutation_swap.
  - rewrite Hvals. discriminate.
  - rewrite Hvals. intros vo. rewrite elem_of_cons, list_elem_of_singleton. by intros [->| ->].
  - rewrite HW. intros _ x y [->| ->%list_elem_of_singleton]%elem_of_cons
      [->| ->%list_elem_of_singleton]%elem_of_cons; done || discriminate.
  - apply merged_run. vm_compute. reflexivity.
  - apply merged_run. vm_compute. reflexivity.
  - exists v, v'. rewrite HW in Hset. destruct Hset as (_ & Hall & _ & Hsame & _).
    split; [exact Hv|]. split; [exact Hv'|]. split; [|exact Hsame].
    apply Hall. right. left.
Defined.

(** ** Restrictive lists of equal rank *)

Section lists.
Context `{Runtime} `{IpText} (specs : SpecIndex) (k : string) (spec : FieldSpec).
Context (Hspec : lookup_spec specs [k] = Some spec) (Hkind : fs_kind spec = kind_list).
Context (Hunion : fs_strategy spec = Some strategy_union) (Hlist : is_restrictive_list spec = true).
Context (g : Z * Z) (lower : list (json * Origin)) (Hlower : ∀ po, po ∈ lower → group po.2 ≠ g).

Lemma list_group_run ps base m before :
  merge_all specs lower = (Ok tt, base) → list_in (m_values base) k = Ok before →
  one_group g ps → 2 ≤ length (key_values k ps) →
  (∀ vo, vo ∈ key_values k ps → is_delete vo.1 = Ok false) →
  merge_all specs (lower ++ ps) = (Ok tt, m) →
  union_writes k spec (key_values k ps) ≠ [] ∧
  assoc_get k (m_values m) =
    Some (JList (restrictive_result (fs_access spec) before (union_writes k spec (key_values k ps)))).
Proof.
  intros Hlow Hbef Hg Htwo Hdel (base' & Hlow' & Hrun)%merge_all_app.
  assert (base' = base) as -> by congruence.
  destruct (fresh_group specs g lower base (pointer [k]) Hlower Hlow) as [Hlog Hnone].
  destruct (list_patches specs k spec Hspec Hkind Hunion Hlist g before ps [] base m Hg Hdel)
    as [Hlen HI]; [|split|done|].
  - intros po _. apply not_elem_of_nil.
  - by rewrite Hlog.
  - by intros w ?%not_elem_of_nil.
  - done.
  - done.
  - cbn. lia.
  - cbn [app] in *. split.
    + intros Hnil. rewrite Hnil in Hlen. cbn in Hlen. lia.
    + apply (li_result _ _ _ _ _ _ _ HI). lia.
Qed.
End lists.

(** A restrictive list that several layers of equal rank and weight write,
    by whole lists or by additions and removals, ends at the same list whatever
    their order: exactly the elements every whole list and the adjusted list
    of the layers below allow, or that any of them denies. *)
Theorem equal_rank_lists `{Runtime} `{IpText} specs k spec g lower ps ps' base before m m' :
  lookup_spec specs [k] = Some spec → fs_kind spec = kind_list →
  fs_strategy spec = Some strategy_union → is_restrictive_list spec = true →
  (∀ po, po ∈ lower → group po.2 ≠ g) → one_group g ps → ps' ≡ₚ ps →
  merge_all specs lower = (Ok tt, base) → list_in (m_values base) k = Ok before → texts before →
  2 ≤ length (key_values k ps) → (∀ vo, vo ∈ key_values k ps → is_delete vo.1 = Ok false) →
  let W := union_writes k spec (key_values k ps) in
  list_writes W →
  merge_all specs (lower ++ ps) = (Ok tt, m) → merge_all specs (lower ++ ps') = (Ok tt, m') →
  ∃ l, assoc_get k (m_values m) = Some (JList l) ∧ assoc_get k (m_values m') = Some (JList l) ∧
    ∀ x, x ∈ l ↔ restricted (fs_access spec) before W x.
Proof.
  intros Hspec Hkind Hunion Hlist Hlow Hg Hp Hbase Hbef Htexts Htwo Hdel W HW Hrun Hrun'.
  assert (HpV := key_values_perm k ps ps' Hp).
  assert (HpW : union_writes k spec (key_values k ps') ≡ₚ W) by (unfold W, union_writes; by rewrite HpV).
  destruct (list_group_run specs k spec Hspec Hkind Hunion Hlist g lower Hlow ps base m before)
    as [Hne Hv]; [done..|].
  destruct (list_group_run specs k spec Hspec Hkind Hunion Hlist g lower Hlow ps' base m' before)
    as [_ Hv']; [done|done|by eapply one_group_perm|by rewrite HpV| |done|].
  - intros vo. rewrite HpV. apply Hdel.
  - eexists. split; [exact Hv|]. split.
    + rewrite Hv'. do 2 f_equal. symmetry. by apply restrictive_result_perm.
    + intros x. by apply elem_of_restrictive.
Qed.

Lemma equal_rank_lists_witness :
  2 ≤ length (key_values "ports" [north; south]) ∧
  ∃ l, merged_value "ports" [baseline; north; south] = Some (JList l) ∧
    merged_value "ports" [baseline; south; north] = Some (JList l) ∧ JStr "imap" ∈ l.
Proof.
  split; [vm_compute; lia|].
  set (W := [list_write north.2 None [JStr "imap"] [JStr "ftp"];
             list_write south.2 (Some [JStr "imap"; JStr "https"; JStr "ftp"]) [] []]).
  assert (HW : union_writes "ports" ports_spec (key_values "ports" [north; south]) = W)
    by (vm_compute; reflexivity).
  set (before := JStr <$> ["ssh"; "https"; "ftp"]).
  assert (Htexts : ∀ l : list string, texts (JStr <$> l)).
  { intros l e (s & -> & _)%list_elem_of_fmap. by exists s. }
  destruct (equal_rank_lists example_specs "ports" ports_spec region_group [baseline] [north; south]
    [south; north] (merged [baseline]) before (merged [baseline; north; south])
    (merged [baseline; south; north])) as (l & Hl & Hl' & Hin).
  - vm_compute. reflexivity.
  - reflexivity.
  - reflexivity.
  - reflexivity.
  - apply baseline_lower.
  - apply regions_one_group.
  - apply Permutation_swap.
  - apply merged_run. vm_compute. reflexivity.
  - vm_compute. reflexivity.
  - apply Htexts.
  - vm_compute. lia.
  - intros vo. change (key_values "ports" [north; south]) with
      [(JObj [("$add", texts_list ["imap"]); ("$remove", texts_list ["ftp"])], north.2);
       (JObj [("$replace", texts_list ["imap"; "https"; "ftp"])], south.2)].
    rewrite elem_of_cons, list_elem_of_singleton. by intros [->| ->].
  - rewrite HW. intros w. unfold W. rewrite elem_of_cons, list_elem_of_singleton. intros [->| ->].
    + right. split_and!; [done|apply (Htexts ["imap"])|apply (Htexts ["ftp"])].
    + left. split; [done|]. apply (Htexts ["imap"; "https"; "ftp"]).
  - apply merged_run. vm_compute. reflexivity.
  - apply merged_run. vm_compute. reflexivity.
  - exists l. split; [exact Hl|]. split; [exact Hl'|]. apply Hin. rewrite HW. split.
    + intros w ->%list_elem_of_singleton. left.
    + right. split; [right|].
      * exists (list_write north.2 None [JStr "imap"] [JStr "ftp"]). split; [left|left].
      * intros (w & ->%list_elem_of_singleton & Hw%list_elem_of_singleton). discriminate.
Defined.

(** ** Keys a patch does not name *)

(** A patch changes nothing at or below a key it does not name: neither the
    value, nor its provenance, nor a conflict, nor the log of its writes. *)
Theorem other_keys_untouched `{Runtime} `{IpText} specs fields o m m' k p :
  NoDup fields.*1 → k ∉ fields.*1 → under k p →
  merge_patch specs (JObj fields) o m = (Ok tt, m') →
  assoc_get k (m_values m') = assoc_get k (m_values m) ∧
  m_prov m' !! p = m_prov m !! p ∧ m_conflicts m' !! p = m_conflicts m !! p ∧
  (∀ g, m_log m' !! (p, g) = m_log m !! (p, g)) ∧
  (∀ g, m_before m' !! (p, g) = m_before m !! (p, g)).
Proof.
  intros Hnd Hk Hp Hrun.
  pose proof (merge_patch_key specs k (JObj fields) o m tt m' Hnd Hrun) as Hkey.
  cbn [patch_value] in Hkey. rewrite assoc_get_None in Hkey by done.
  split; [apply Hkey|]. unfold merge_patch in Hrun. cbn [is_mapping negb raise_if] in Hrun.
  rewrite (lift_step _ _ _ tt) in Hrun by done. erewrite (ST_step (gets _)) in Hrun by done.
  apply ST_bind_Ok in Hrun as (values & m1 & Hobj & [= <-]).
  assert (¬ ¬ under k p) as Hnn by tauto.
  destruct (stays_other_keys specs o k fields _ Hk _ _ _ Hobj) as [H1 H2 H3 H4]. cbn.
  split_and!; [by apply H1|by apply H2|intros g; by apply H3|intros g; by apply H4].
Qed.

Lemma other_keys_untouched_witness :
  assoc_get "banner" (m_values (merged [baseline; north; baseline])) = Some (JStr "north") ∧
  m_prov (merged [baseline; north; baseline]) !! "/banner"
    = m_prov (merged [baseline; north]) !! "/banner".
Proof.
  destruct (other_keys_untouched example_specs
    [("mfa", JBool false); ("ports", JObj [("$replace", texts_list ["ssh"; "https"; "ftp"])])]
    baseline.2 (merged [baseline; north]) (merged [baseline; north; baseline]) "banner" "/banner")
    as (Hv & Hp & _).
  - apply NoDup_cons. split; [by intros ?%list_elem_of_singleton|apply NoDup_singleton].
  - by intros [?|?%list_elem_of_singleton]%elem_of_cons.
  - vm_compute. reflexivity.
  - vm_compute. reflexivity.
  - split; [|exact Hp]. rewrite Hv. vm_compute. reflexivity.
Defined.

(** ** Which layers are merged, and in which order *)

(** The layers to merge are chosen exactly when every revision is of a known
    tier and no layer has two applicable revisions: the applicable revisions of
    the subject, each once, in the order of rank, weight, name and id, and the
    same list for the revisions in any order. Otherwise the error is that of an
    unknown tier, or a layer error of a layer with two. *)
Theorem layers_in_any_order tiers subject revisions :
  match choose_layers tiers subject revisions with
  | Ok l =>
      (∀ r, r ∈ revisions → is_ok (tier_of tiers r) = true) ∧ NoDup (layer_ids l) ∧
      l ≡ₚ applicable tiers subject revisions ∧ StronglySorted revision_leb l ∧
      ∀ revisions', revisions ≡ₚ revisions' → choose_layers tiers subject revisions' = Ok l
  | Raise e =>
      (∃ r, r ∈ revisions ∧ tier_of tiers r = Raise e) ∨
      (∃ issues, e = LayerError issues) ∧ ¬ NoDup (layer_ids (applicable tiers subject revisions))
  end.
Proof.
  destruct (choose_layers tiers subject revisions) as [l|e] eqn:Hl.
  - pose proof Hl as (Hk & Hnd & ->)%choose_layers_Ok. split_and!.
    + done.
    + unfold layer_ids. by rewrite py_sorted_perm.
    + apply py_sorted_perm.
    + unfold revision_leb, sort_key_leb. apply py_sorted_strongly, _.
    + intros revisions' Hp. by apply (choose_layers_perm _ _ revisions).
  - unfold choose_layers in Hl. apply (choose_loop_Raise tiers subject revisions e []).
    change (layer_ids []) with (@nil string).
    destruct (choose_loop _ _ _ _ _); [done|]. cbn [mbind result_bind] in Hl. congruence.
Qed.

(** ** The order of derived rules *)

(** Derived rules are put in an order exactly when their names differ and
    none reads its own target through others: an order of all the rules where
    each comes after the rules it reads, and the same one for the rules in any
    order. Otherwise the error is a derivation cycle error. *)
Theorem derived_rules_ordered rules :
  match order_rules rules with
  | Ok l =>
      NoDup (dr_name <$> rules) ∧ (∀ r, ¬ tc (reads rules) r r) ∧ l ≡ₚ rules ∧
      (∀ i r s, l !! i = Some r → s ∈ sources rules r → ∃ j, j < i ∧ l !! j = Some s) ∧
      ∀ rules', rules ≡ₚ rules' → order_rules rules' = Ok l
  | Raise e =>
      (∃ msg, e = DerivationCycleError msg) ∧
      (¬ NoDup (dr_name <$> rules) ∨ ∃ r, tc (reads rules) r r)
  end.
Proof.
  destruct (order_rules rules) as [l|e] eqn:Hl; [|by apply order_rules_Raise].
  destruct (order_rules_Ok rules l Hl) as (Hnd & Hp & Hord). split_and!; [done| |done|done|].
  - apply (ordered_acyclic rules l); [|done|done]. rewrite Hp. by eapply NoDup_fmap_1.
  - intros rules' Hp'. by apply (order_rules_perm rules rules').
Qed.
