(* ===== verification/ConfigFilling.v ===== *)
(** * Properties of the calls that fill in defaults

    A property of stateful calls that the steps of [_fill_defaults] have and
    that sequencing keeps holds of the whole: [FillClosed] says which steps
    these are. One such property: the list of missing fields only grows, so
    that an empty one means that every required field is there. *)

From S2P Require Import Prelude PyData PyTime ConfigDocument ConfigFields ConfigMerge.
From S2P Require Import ConfigDefaults ConfigFrame ConfigTies.
From stdpp Require Import base gmap strings pretty list.
From Stdlib Require Import ZArith Ascii.

Class FillClosed `{Runtime} (o : Origin) (P : ∀ A, FillST A → Prop) : Prop := {
  fc_ret {A} (a : A) : P A (mret a);
  fc_bind {A B} (c : FillST A) (f : A → FillST B) : P A c → (∀ a, P B (f a)) → P B (c ≫= f);
  fc_getitem v key : P json (lift (py_getitem v key));
  fc_list v : P (list json) (lift (py_list v));
  fc_keyed v : P (list json) (lift (keyed_elements v));
  fc_default spec ptr value items :
    P unit (modify (prod_map (set_default_prov spec ptr o value items) id));
  fc_missing ptr : P unit (modify (prod_map id (λ missing, missing ++ [ptr])));
}.

Section closed.
Context `{Runtime} (o : Origin) (P : ∀ A, FillST A → Prop) `{!FillClosed o P}.
Context (fill : dict → Path → FillST dict).

Lemma closed_members path members :
  (∀ sub key, P _ (fill sub (path ++ [key]))) → P _ (fill_members fill path members).
Proof.
  intros Hf. induction members as [|[key v] members IH]; cbn [fill_members]; [apply fc_ret|].
  apply fc_bind; [|intros w; apply fc_bind; [done|intros ms; apply fc_ret]].
  destruct v; try apply fc_ret. apply fc_bind; [apply Hf|intros sub; apply fc_ret].
Qed.

Lemma closed_elements field path elements :
  (∀ sub key, P _ (fill sub (path ++ [key]))) → P _ (fill_elements fill field path elements).
Proof.
  intros Hf. induction elements as [|v elements IH]; cbn [fill_elements]; [apply fc_ret|].
  apply fc_bind; [apply fc_getitem|intros k].
  apply fc_bind; [|intros w; apply fc_bind; [done|intros ms; apply fc_ret]].
  destruct v; try apply fc_ret. apply fc_bind; [apply Hf|intros sub; apply fc_ret].
Qed.

Lemma closed_field path container name spec :
  (∀ sub, P _ (fill sub (path ++ [name]))) → (∀ sub key, P _ (fill sub (path ++ [name; key]))) →
  P _ (fill_field fill o path container name spec).
Proof.
  intros Hone Htwo. unfold fill_field. destruct (_ || _); [apply fc_ret|].
  assert (Htwo' : ∀ sub key, P _ (fill sub ((path ++ [name]) ++ [key]))).
  { intros sub key. rewrite <-(assoc_L (++)). apply Htwo. }
  assert (Hmissing : P _ (_ ← modify (prod_map id (λ missing, missing ++ [pointer (path ++ [name])]));
    mret container)).
  { apply fc_bind; [apply fc_missing|intros ?; apply fc_ret]. }
  assert (Hitems : P _ (lift (Ok [] : result config_error (list json)))) by apply fc_ret.
  destruct (fs_kind spec).
  - destruct (assoc_get name container) as [[]|], (fs_default spec); try apply fc_ret;
      (apply fc_bind; [apply Hone|intros sub; apply fc_ret]).
  - destruct (assoc_get name container) as [[]|]; try apply fc_ret.
    apply fc_bind; [by apply closed_members|intros ms; apply fc_ret].
  - destruct (assoc_get name container); [apply fc_ret|].
    destruct (fs_default spec); [done|apply fc_ret|].
    apply fc_bind; [done|intros items]. apply fc_bind; [apply fc_default|intros ?; apply fc_ret].
  - destruct (assoc_get name container) as [v|].
    + destruct (fs_strategy spec) as [[]|], (fs_key spec); try apply fc_ret.
      destruct (str_truthy _); [|apply fc_ret].
      apply fc_bind; [apply fc_keyed|intros els].
      destruct v; try apply fc_ret. apply fc_bind; [by apply closed_elements|intros ?; apply fc_ret].
    + destruct (fs_default spec); [done|apply fc_ret|].
      apply fc_bind; [|intros items; apply fc_bind; [apply fc_default|intros ?; apply fc_ret]].
      destruct (fs_strategy spec) as [[]|]; (done || apply fc_list).
Qed.

Lemma closed_fields path fields container :
  (∀ name spec, (name, spec) ∈ fields →
    (∀ sub, P _ (fill sub (path ++ [name]))) ∧ (∀ sub key, P _ (fill sub (path ++ [name; key])))) →
  P _ (fill_fields fill o path fields container).
Proof.
  revert container. induction fields as [|[name spec] fields IH]; intros container Hf;
    cbn [fill_fields]; [apply fc_ret|].
  destruct (Hf name spec ltac:(by left)) as [Hone Htwo]. apply fc_bind; [by apply closed_field|].
  intros c. apply IH. intros n s Hin. apply (Hf n s). by right.
Qed.
End closed.

(** ** Missing fields *)

(** The fields found missing stay so. *)
Definition grows {A} (c : FillST A) : Prop := ∀ st, length st.2 ≤ length (c st).2.2.

#[export] Instance grows_closed `{Runtime} o : FillClosed o (@grows).
Proof.
  split; try (intros; intros st; cbn; lia).
  - intros A B c f Hc Hf st. unfold mbind, ST_bind. specialize (Hc st).
    destruct (c st) as [[a|e] st1]; cbn in *; [|done]. specialize (Hf a st1). lia.
  - intros spec ptr value items [prov missing]. done.
  - intros ptr [prov missing]. change (length missing ≤ length (missing ++ [ptr])).
    rewrite length_app. lia.
Qed.

Section grown.
Context `{Runtime} (o : Origin).

Lemma grows_loop fuel specs : ∀ path container, grows (fill_loop fuel specs o container path).
Proof.
  induction fuel as [|fuel IH]; intros path container; cbn [fill_loop]; [intros st; cbn; lia|].
  apply (closed_fields o (@grows)). intros name spec _. split; intros; apply IH.
Qed.
End grown.

(** ** Defaults at the top of a module *)

(** Scalars, and lists that are not keyed. *)
Definition is_leaf (spec : FieldSpec) : Prop :=
  fs_kind spec = kind_scalar ∨ fs_kind spec = kind_list ∧ fs_strategy spec ≠ Some strategy_keyed.

Lemma insert_key_perm {A} (kv : string * A) l : insert_key kv l ≡ₚ kv :: l.
Proof.
  induction l as [|kv' l IH]; [done|]. cbn. destruct (String.leb kv.1 kv'.1); [done|].
  rewrite IH. apply Permutation_swap.
Qed.

Lemma sort_keys_perm {A} (l : list (string * A)) : sort_keys l ≡ₚ l.
Proof. induction l as [|kv l IH]; [done|]. cbn. by rewrite insert_key_perm, IH. Qed.

Lemma elem_of_top_children specs name spec :
  (name, spec) ∈ children specs [] ↔ specs !! [name] = Some spec.
Proof.
  unfold children. rewrite sort_keys_perm, list_elem_of_omap. split.
  - intros ([p s] & Hin%elem_of_map_to_list & Hc). unfold child_spec in Hc. cbn [fst snd length] in Hc.
    case_bool_decide as Hlen; [|done]. cbn in Hc.
    destruct p as [|x [|? ?]]; [done| |done]. cbn in Hc. by injection Hc as <- <-.
  - intros Hs. exists ([name], spec). split; [by apply elem_of_map_to_list|]. reflexivity.
Qed.

Section fill.
Context `{Runtime} (fill : dict → Path → FillST dict) (o : Origin) (path : Path) (k : string).

Lemma fill_field_other container name spec st c' st' :
  name ≠ k → fill_field fill o path container name spec st = (Ok c', st') →
  assoc_get k c' = assoc_get k container.
Proof.
  intros Hne. unfold fill_field. destruct (_ || _); [by intros [= <- _]|].
  destruct (fs_kind spec).
  - destruct (assoc_get name container) as [[]|], (fs_default spec);
      try (by intros [= <- _]);
      intros (sub & st1 & _ & Hr)%ST_bind_Ok; apply ok_pair in Hr as [<- _];
      try destruct sub; rewrite ?assoc_get_set_ne by done; done.
  - destruct (assoc_get name container) as [[]|]; try (by intros [= <- _]).
    intros (sub & st1 & _ & Hr)%ST_bind_Ok. apply ok_pair in Hr as [<- _].
    by rewrite assoc_get_set_ne by done.
  - destruct (assoc_get name container) as [v|]; [by intros [= <- _]|].
    destruct (fs_default spec); try (by intros [= <- _]);
      try (intros (? & st1 & _ & Hr)%ST_bind_Ok); try (apply ST_bind_Ok in Hr as (? & st2 & _ & Hr));
      apply ok_pair in Hr as [<- _]; rewrite ?assoc_get_set_ne by done; done.
  - destruct (assoc_get name container) as [v|].
    + destruct (fs_strategy spec) as [[]|], (fs_key spec) as [field|]; try (by intros [= <- _]).
      destruct (str_truthy field); [|by intros [= <- _]].
      intros (els & st1 & _ & Hr)%ST_bind_Ok.
      destruct v; try (apply ok_pair in Hr as [<- _]; done).
      apply ST_bind_Ok in Hr as (? & st2 & _ & Hr). apply ok_pair in Hr as [<- _].
      by rewrite assoc_get_set_ne by done.
    + destruct (fs_default spec); try (by intros [= <- _]);
      try (intros (? & st1 & _ & Hr)%ST_bind_Ok); try (apply ST_bind_Ok in Hr as (? & st2 & _ & Hr));
      apply ok_pair in Hr as [<- _]; rewrite ?assoc_get_set_ne by done; done.
Qed.

Lemma fill_field_present container spec v st c' st' :
  is_leaf spec → assoc_get k container = Some v →
  fill_field fill o path container k spec st = (Ok c', st') → assoc_get k c' = Some v.
Proof.
  intros Hleaf Hv. unfold fill_field. rewrite Hv. destruct (_ || _); [by intros [= <- _]|].
  destruct Hleaf as [Hk|[Hk Hs]]; rewrite Hk; [by intros [= <- _]|].
  destruct (fs_strategy spec) as [[]|]; try done; by intros [= <- _].
Qed.

Lemma fill_field_default container spec d st c' st' :
  is_leaf spec → k ≠ WILDCARD → fs_derived spec = false → fs_default spec = DefaultValue d →
  assoc_get k container = None →
  fill_field fill o path container k spec st = (Ok c', st') → assoc_get k c' = Some d.
Proof.
  intros Hleaf Hw Hd Hdef Hv. unfold fill_field. rewrite Hv, Hd, Hdef, (proj2 (String.eqb_neq _ _)) by done.
  cbn [orb]. destruct Hleaf as [Hk|[Hk Hs]]; rewrite Hk;
    intros (items & st1 & _ & Hr)%ST_bind_Ok; apply ST_bind_Ok in Hr as (? & st2 & _ & Hr);
    apply ok_pair in Hr as [<- _]; apply assoc_get_set_eq.
Qed.

Lemma fill_fields_present fields v : ∀ container st c' st',
  (∀ spec, (k, spec) ∈ fields → is_leaf spec) → assoc_get k container = Some v →
  fill_fields fill o path fields container st = (Ok c', st') → assoc_get k c' = Some v.
Proof.
  induction fields as [|[name spec] fields IH]; intros container st c' st' Hl Hv; cbn [fill_fields].
  { by intros [= <- _]. }
  intros (c1 & st1 & H1 & H2)%ST_bind_Ok. eapply IH; [|..|exact H2].
  - intros s Hs. apply Hl. by right.
  - destruct (decide (name = k)) as [->|Hne].
    + eapply fill_field_present; [|done|exact H1]. apply Hl. by left.
    + by rewrite (fill_field_other _ _ _ _ _ _ Hne H1).
Qed.

(** A field with a value for a default is there once the defaults are. *)
Lemma fill_fields_default fields spec d : ∀ container st c' st',
  (∀ s, (k, s) ∈ fields → s = spec) → (k, spec) ∈ fields →
  is_leaf spec → k ≠ WILDCARD → fs_derived spec = false → fs_default spec = DefaultValue d →
  fill_fields fill o path fields container st = (Ok c', st') →
  assoc_get k c' = Some (default d (assoc_get k container)).
Proof.
  induction fields as [|[name s] fields IH]; intros container st c' st' Hs Hin Hl Hw Hd Hdef;
    cbn [fill_fields]; [by apply not_elem_of_nil in Hin|].
  intros (c1 & st1 & H1 & H2)%ST_bind_Ok.
  assert (Hs' : ∀ s, (k, s) ∈ fields → s = spec) by (intros s' Hs'; apply Hs; by right).
  destruct (decide (name = k)) as [->|Hne].
  - rewrite (Hs s) in H1 by (by left).
    eapply fill_fields_present; [| |exact H2]; [by intros s' ->%Hs'|].
    destruct (assoc_get k container) as [v|] eqn:Hv; cbn [default].
    + by eapply fill_field_present.
    + by eapply fill_field_default.
  - rewrite <-(fill_field_other _ _ _ _ _ _ Hne H1). eapply IH; try done.
    apply elem_of_cons in Hin as [[= <- <-]|Hin]; done.
Qed.
End fill.

(** ** Required fields *)

Section required.
Context `{Runtime} (o : Origin) (path : Path).
Context (fill : dict → Path → FillST dict) (Hfill : ∀ sub path, grows (fill sub path)).

Lemma grows_field container name spec : grows (fill_field fill o path container name spec).
Proof. apply (closed_field o (@grows)); intros; apply Hfill. Qed.
Lemma grows_fields fields container : grows (fill_fields fill o path fields container).
Proof. by apply (closed_fields o (@grows)). Qed.

(** When no more fields are missing at the end, a required leaf is there. *)
Lemma fill_fields_required fields name spec : ∀ container st c' st',
  (∀ s, (name, s) ∈ fields → s = spec) → (name, spec) ∈ fields →
  is_leaf spec → name ≠ WILDCARD → fs_derived spec = false → fs_default spec = REQUIRED →
  fill_fields fill o path fields container st = (Ok c', st') → length st'.2 ≤ length st.2 →
  is_Some (assoc_get name c').
Proof.
  induction fields as [|[n s] fields IH]; intros container st c' st' Hs Hin Hl Hw Hd Hreq;
    cbn [fill_fields]; [by apply not_elem_of_nil in Hin|].
  intros (c1 & st1 & H1 & H2)%ST_bind_Ok Hlen.
  assert (Hs' : ∀ s, (name, s) ∈ fields → s = spec) by (intros s' Hs'; apply Hs; by right).
  pose proof (grows_field container n s st) as Hg1. pose proof (grows_fields fields c1 st1) as Hg2.
  rewrite H1 in Hg1. rewrite H2 in Hg2. cbn in Hg1, Hg2.
  destruct (decide (n = name)) as [->|Hne].
  - rewrite (Hs s) in H1 by (by left).
    destruct (assoc_get name container) as [v|] eqn:Hv.
    + exists v. eapply fill_fields_present; [| |exact H2]; [by intros s' ->%Hs'|].
      by eapply fill_field_present.
    + exfalso. unfold fill_field in H1. rewrite Hv, Hd, Hreq, (proj2 (String.eqb_neq _ _) Hw) in H1.
      destruct Hl as [Hk|[Hk _]]; rewrite Hk in H1; destruct st as [prov missing]; cbn in H1;
        injection H1 as _ <-; cbn in *; rewrite length_app in *; cbn in *; lia.
  - eapply IH; [done| |done..|exact H2|lia].
    apply elem_of_cons in Hin as [[= <- <-]|Hin]; done.
Qed.
End required.
