(* ===== verification/ConfigLoosening.v ===== *)
(** * What an exception without approval can change

    The widening check compares a module before and after an exception. This
    file shows what it guarantees of a field when it finds nothing, and that
    the guarantee adds up over a sequence of exceptions. *)

From S2P Require Import Prelude PyData PyTime ConfigDocument ConfigFields ConfigMerge.
From S2P Require Import ConfigLayers ConfigDefaults ConfigCompose.
From S2P Require Import ConfigFrame ConfigTies ConfigGroups ConfigFilling.
From stdpp Require Import base gmap strings pretty list relations.
From Stdlib Require Import ZArith Ascii.

(** ** Fields that are no looser *)

Section no_looser.
Context `{Runtime} `{N : IpNetworks} `{!IpNetworksLaws N}.

Lemma covers_refl x : _covers x x = true.
Proof.
  unfold _covers. destruct (_network x) as [a|]; [|apply String.eqb_refl].
  by rewrite Z.eqb_refl, subnet_refl.
Qed.

Lemma covers_trans x y z : _covers x y = true → _covers y z = true → _covers x z = true.
Proof.
  unfold _covers, _network.
  destruct (ip_network (py_str x)) as [a|] eqn:Hx, (ip_network (py_str y)) as [b|] eqn:Hy,
    (ip_network (py_str z)) as [c|] eqn:Hz;
    rewrite ?andb_true_iff, ?Z.eqb_eq, ?String.eqb_eq; intros H1 H2;
    try (rewrite H1 in *); try (rewrite H2 in *); try congruence.
  destruct H1 as [Hab Hba], H2 as [Hbc Hcb]. split; [congruence|].
  by apply (subnet_trans c b a).
Qed.

(** The elements of a field that holds a list or nothing. *)
Definition elements_of (value : json) : list json :=
  match list_or_empty value with Ok l => l | Raise _ => [] end.

(** Each of the elements is covered by one of the pool. *)
Definition covered (pool elements : list json) : Prop :=
  ∀ x, x ∈ elements → ∃ y, y ∈ pool ∧ _covers y x = true.

(** The second value of a field grants no more than the first. *)
Definition no_looser (spec : FieldSpec) (v w : json) : Prop :=
  match fs_access spec with
  | neutral => True
  | allow_list => covered (elements_of v) (elements_of w)
  | deny_list => covered (elements_of w) (elements_of v)
  | secure_bool => py_eq v (secure_value spec) = true → py_eq w (secure_value spec) = true
  | ordered => rank_of (fs_ranking spec) w ≤ rank_of (fs_ranking spec) v
  end.

Lemma covered_by_any x pool : _covered_by_any x pool = true ↔ ∃ y, y ∈ pool ∧ _covers y x = true.
Proof. unfold _covered_by_any. apply existsb_true. Qed.

Lemma covered_false pool elements :
  existsb (λ item, negb (_covered_by_any item pool)) elements = false ↔ covered pool elements.
Proof.
  rewrite existsb_false. unfold covered. setoid_rewrite negb_false_iff. by setoid_rewrite covered_by_any.
Qed.

#[export] Instance no_looser_pre spec : PreOrder (no_looser spec).
Proof.
  split.
  - intros v. unfold no_looser. destruct (fs_access spec); try done;
      intros x Hx; exists x; split; [done|apply covers_refl|done|apply covers_refl].
  - intros u v w. unfold no_looser. destruct (fs_access spec); [done|..|naive_solver|lia].
    + intros H1 H2 x Hx. destruct (H2 x Hx) as (y & Hy & Hc). destruct (H1 y Hy) as (z & Hz & Hc').
      exists z. split; [done|]. by eapply covers_trans.
    + intros H1 H2 x Hx. destruct (H1 x Hx) as (y & Hy & Hc). destruct (H2 y Hy) as (z & Hz & Hc').
      exists z. split; [done|]. by eapply covers_trans.
Qed.

Lemma widening_false spec v w : widening spec v w = Ok false → no_looser spec v w.
Proof.
  unfold widening, no_looser, elements_of. destruct (fs_access spec) eqn:Ha; [done|..].
  - destruct (list_or_empty v) as [l|]; [|done]. destruct (list_or_empty w) as [k|]; [|done].
    cbn. intros [= Hf]. by apply covered_false.
  - destruct (list_or_empty v) as [l|]; [|done]. destruct (list_or_empty w) as [k|]; [|done].
    cbn. intros [= Hf]. by apply covered_false.
  - intros [= Hf] Hv. rewrite Hv in Hf. by apply negb_false_iff in Hf.
  - unfold security_rank. rewrite Ha. cbn. intros [= Hf%Nat.ltb_ge]. done.
Qed.
End no_looser.

(** ** The check of one field *)

Section top_field.
Context `{Runtime} `{N : IpNetworks} `{!IpNetworksLaws N}.

Lemma gather_nil {A B} (f : A → result config_error (list B)) l :
  gather f l = Ok [] → ∀ x, x ∈ l → f x = Ok [].
Proof.
  unfold gather. intros (parts & Hp & [= Hc])%result_bind_Ok x Hx.
  apply map_result_Ok in Hp. apply list_elem_of_lookup in Hx as [i Hi].
  destruct (Forall2_lookup_l _ _ _ _ _ Hp Hi) as (part & Hpart & Hf).
  rewrite Hf. f_equal. apply concat_nil_Forall in Hc.
  by apply (Forall_lookup_1 _ _ _ _ Hc Hpart).
Qed.

Lemma elem_of_key_union k (a b : dict) : k ∈ key_union a b ↔ k ∈ a.*1 ∨ k ∈ b.*1.
Proof.
  unfold key_union, sorted_strs. rewrite elem_of_py_sorted, elem_of_elements, elem_of_list_to_set.
  apply elem_of_app.
Qed.

Lemma assoc_get_elem {A} k (l : list (string * A)) a : assoc_get k l = Some a → k ∈ l.*1.
Proof.
  induction l as [|[x b] l IH]; [done|]. cbn. destruct (String.eqb_spec k x) as [->|Hne].
  - intros _. by left.
  - intros Hk. right. by apply IH.
Qed.

Lemma get_or_none_elem k fields : is_none (get_or_none k fields) = false → k ∈ fields.*1.
Proof.
  unfold get_or_none. destruct (assoc_get k fields) eqn:Hk; [|done]. intros _. by eapply assoc_get_elem.
Qed.

(** The check of a leaf at the top finds it no looser than what it stood for. *)
Lemma params_widening_leaf specs before after k spec :
  params_widening specs before after = Ok [] → lookup_spec specs [k] = Some spec → is_leaf spec →
  let v := get_or_none k before in let w := get_or_none k after in
  is_none v && is_none w = true ∨ no_looser spec (standing_before spec v false) w.
Proof.
  intros Hrun Hspec Hleaf v w. unfold params_widening in Hrun.
  cbn [json_size] in Hrun. cbn [Nat.add walk as_map] in Hrun.
  destruct (is_none v && is_none w) eqn:Hnone; [by left|right].
  apply (gather_nil _ _) with (x := k) in Hrun.
  - unfold walk_field in Hrun. cbn [app] in Hrun. rewrite Hspec in Hrun.
    fold v w in Hrun. rewrite Hnone in Hrun. apply widening_false. cbn [andb] in Hrun.
    assert (Hr : (wider ← widening spec (standing_before spec v false) w;
      Ok (if (wider : bool) then [MkWideningItem (pointer [k]) (standing_before spec v false) w] else []))
      = Ok []).
    { rewrite <-Hrun. destruct Hleaf as [Hk|[Hk Hs]]; rewrite Hk; [done|].
      destruct (fs_strategy spec) as [[]|]; done. }
    apply result_bind_Ok in Hr as ([] & Hw & Hr); [done|exact Hw].
  - apply elem_of_key_union. apply andb_false_iff in Hnone as [Hn|Hn]; [left|right];
      by apply get_or_none_elem.
Qed.
End top_field.

(** ** One exception *)

(** What [FieldSpec.__post_init__] guarantees of a specification. *)
Lemma checked_spec `{IpText} spec spec' :
  FieldSpec_check spec = Ok spec' →
  (fs_access spec = secure_bool → is_Some (fs_secure spec)) ∧
  (fs_access spec ∈ [allow_list; deny_list] → fs_kind spec = kind_list) ∧
  (fs_derived spec = true → fs_default spec = OPTIONAL_UNMANAGED).
Proof.
  unfold FieldSpec_check. intros Hrun.
  apply result_bind_Ok in Hrun as (? & _ & Hrun). apply result_bind_Ok in Hrun as (? & _ & Hrun).
  apply result_bind_Ok in Hrun as (? & Hsec%raise_if_Ok & Hrun).
  apply result_bind_Ok in Hrun as (? & _ & Hrun).
  apply result_bind_Ok in Hrun as (? & Hacc%raise_if_Ok & Hrun).
  apply result_bind_Ok in Hrun as (? & _ & Hrun). apply result_bind_Ok in Hrun as (? & _ & Hrun).
  apply result_bind_Ok in Hrun as (? & Hder%raise_if_Ok & _).
  split_and!.
  - intros Ha. rewrite bool_decide_eq_true_2 in Hsec by done. cbn in Hsec.
    apply bool_decide_eq_false in Hsec. by apply not_eq_None_Some.
  - intros Ha. rewrite bool_decide_eq_true_2 in Hacc by done. cbn in Hacc.
    apply bool_decide_eq_false, dec_stable in Hacc. done.
  - intros Hd. rewrite Hd in Hder. by destruct (fs_default spec).
Qed.

Lemma rank_of_le ranking v : rank_of ranking v ≤ length ranking.
Proof. induction ranking as [|r ranking IH]; cbn; [lia|]. destruct (py_eq r v); lia. Qed.

Lemma rank_of_absent ranking v :
  (∀ r, r ∈ ranking → py_eq r v = false) → rank_of ranking v = length ranking.
Proof.
  induction ranking as [|r ranking IH]; intros Hr; cbn; [done|].
  rewrite (Hr r) by (by left). f_equal. apply IH. intros x Hx. apply Hr. by right.
Qed.

Section one_exception.
Context `{Runtime} `{IpText} `{N : IpNetworks} `{!IpNetworksLaws N}.
Context (module : Module_) (key : string) (specs : SpecIndex) (k : string) (spec : FieldSpec).
Context (Hspec : specs !! [k] = Some spec) (Hleaf : is_leaf spec) (Hk : k ≠ WILDCARD).
Context (Hchecked : FieldSpec_check spec = Ok spec).
Context (Hranked : ∀ r, r ∈ fs_ranking spec → py_eq r JNull = false).

Lemma top_lookup : lookup_spec specs [k] = Some spec.
Proof.
  unfold lookup_spec, resolve. cbn [foldl app]. by rewrite bool_decide_eq_true_2 by (by rewrite Hspec).
Qed.

Lemma top_fields s : (k, s) ∈ children specs [] → s = spec.
Proof. rewrite elem_of_top_children, Hspec. by intros [= ->]. Qed.

Lemma filled_run m values st :
  filled module key specs m = Ok (values, st) →
  ∃ fill st', fill_fields fill (_default_origin key (md_version module)) [] (children specs [])
    (m_values m) (m_prov m, []) = (Ok values, st').
Proof.
  unfold filled, _fill_defaults. cbn [Nat.add fill_loop resolve foldl].
  destruct (fill_fields _ _ _ _ _ _) as [[values'|e] st1] eqn:Hrun; [|done].
  intros [= -> _]. eauto.
Qed.

Lemma filled_present m values st v :
  filled module key specs m = Ok (values, st) → assoc_get k (m_values m) = Some v →
  assoc_get k values = Some v.
Proof.
  intros (fill & st' & Hrun)%filled_run Hv. eapply fill_fields_present; [|exact Hv|exact Hrun].
  by intros s ->%top_fields.
Qed.

Lemma filled_default m values st d :
  filled module key specs m = Ok (values, st) → fs_derived spec = false →
  fs_default spec = DefaultValue d → assoc_get k values = Some (default d (assoc_get k (m_values m))).
Proof.
  intros (fill & st' & Hrun)%filled_run Hd Hdef.
  eapply (fill_fields_default _ _ _ k _ spec); [|..|exact Hrun]; try done.
  - apply top_fields.
  - by apply elem_of_top_children.
Qed.

(** The field with its defaults. *)
Definition field_of (values : dict) : json := get_or_none k values.

(** A list that is not there stands for the empty list. *)
Lemma standing_list m values st :
  filled module key specs m = Ok (values, st) → fs_access spec ∈ [allow_list; deny_list] →
  assoc_get k (m_values m) ≠ Some JNull →
  standing_before spec (field_of values) false = field_of values.
Proof.
  intros Hf Ha Hnull. unfold standing_before. destruct (is_none (field_of values)) eqn:Hnone; [|done].
  assert (field_of values = JNull) as Hv by (by destruct (field_of values)). rewrite Hv.
  assert (_fresh_before spec = JNull) as Hfresh.
  { unfold _fresh_before. apply elem_of_cons in Ha as [-> | ->%list_elem_of_singleton]; by destruct (fs_ranking spec). }
  destruct (fs_default spec) as [| |d] eqn:Hdef; [done..|].
  destruct (fs_derived spec) eqn:Hd.
  - destruct (checked_spec spec spec Hchecked) as (_ & _ & Hopt). rewrite Hopt in Hdef by done. done.
  - pose proof (filled_default m values st d Hf Hd Hdef) as Hget.
    unfold field_of, get_or_none in Hv. rewrite Hget in Hv. cbn in Hv.
    destruct (assoc_get k (m_values m)); [|done]. cbn in Hv. congruence.
Qed.

Lemma step_no_looser m1 m2 v1 st1 v2 st2 :
  filled module key specs m1 = Ok (v1, st1) → filled module key specs m2 = Ok (v2, st2) →
  params_widening specs v1 v2 = Ok [] →
  (fs_kind spec = kind_list → assoc_get k (m_values m1) ≠ Some JNull) →
  no_looser spec (field_of v1) (field_of v2).
Proof.
  intros H1 H2 Hw Hnull. destruct (checked_spec spec spec Hchecked) as (Hsec & Hacc & _).
  destruct (params_widening_leaf specs v1 v2 k spec Hw top_lookup Hleaf) as [Hnone|Hloose].
  { apply andb_true_iff in Hnone as [Hn1 Hn2]. fold (field_of v1) in Hn1. fold (field_of v2) in Hn2.
    destruct (field_of v1); try done. by destruct (field_of v2). }
  fold (field_of v1) (field_of v2) in Hloose.
  destruct (is_none (field_of v1)) eqn:Hnone.
  2: { unfold standing_before in Hloose. by rewrite Hnone in Hloose. }
  assert (field_of v1 = JNull) as Hv by (by destruct (field_of v1)).
  destruct (fs_access spec) eqn:Ha.
  - unfold no_looser. by rewrite Ha.
  - rewrite (standing_list m1 v1 st1) in Hloose; [done|done|rewrite Ha; set_solver|].
    apply Hnull, Hacc. set_solver.
  - rewrite (standing_list m1 v1 st1) in Hloose; [done|done|rewrite Ha; set_solver|].
    apply Hnull, Hacc. set_solver.
  - unfold no_looser. rewrite Ha, Hv. destruct (Hsec eq_refl) as [b Hb].
    unfold secure_value. by rewrite Hb.
  - unfold no_looser. rewrite Ha, Hv, (rank_of_absent _ JNull) by done. apply rank_of_le.
Qed.
End one_exception.

(** ** Lists are never null *)

Lemma elem_of_assoc_set {A} k (x : A) key a l :
  (k, x) ∈ assoc_set key a l → (k = key ∧ x = a) ∨ (k, x) ∈ l.
Proof.
  induction l as [|[k' b] l IH]; cbn [assoc_set].
  - intros [= -> ->]%list_elem_of_singleton. by left.
  - destruct (String.eqb_spec key k') as [->|Hne]; rewrite !elem_of_cons; [|naive_solver].
    intros [[= -> ->]|Hin]; [by left|by right; right].
Qed.

Lemma elem_of_assoc_del {A} (kx : string * A) key l : kx ∈ assoc_del key l → kx ∈ l.
Proof.
  induction l as [|[k' b] l IH]; cbn [assoc_del]; [done|].
  destruct (String.eqb_spec key k'); rewrite !elem_of_cons; [by right|naive_solver].
Qed.

Lemma assoc_get_pair {A} k (l : list (string * A)) a : assoc_get k l = Some a → (k, a) ∈ l.
Proof.
  induction l as [|[x b] l IH]; [done|]. cbn. destruct (String.eqb_spec k x) as [->|Hne].
  - intros [= ->]. by left.
  - intros Hk. right. by apply IH.
Qed.

(** A call leaves no null under [k] that was not there. *)
Definition no_null (k : string) (base : dict) (c : MergeST dict) : Prop :=
  ∀ m b m', c m = (Ok b, m') → (k, JNull) ∈ b → (k, JNull) ∈ base.

Section no_null.
Context (k : string) (base : dict).

Lemma no_null_ret b : ((k, JNull) ∈ b → (k, JNull) ∈ base) → no_null k base (mret b).
Proof. by intros Hb m b' m' [= <- _]. Qed.
Lemma no_null_raise e : no_null k base (raise e).
Proof. done. Qed.
Lemma no_null_bind {A} (c : MergeST A) f : (∀ a, no_null k base (f a)) → no_null k base (c ≫= f).
Proof. intros Hf m b m' (a & m1 & _ & H)%ST_bind_Ok. by eapply Hf. Qed.
Lemma no_null_set key v : key ≠ k ∨ v ≠ JNull → (k, JNull) ∈ assoc_set key v base → (k, JNull) ∈ base.
Proof. intros Hk [[-> <-]|Hin]%elem_of_assoc_set; [by destruct Hk|done]. Qed.
End no_null.

Ltac no_null_step :=
  match goal with
  | |- no_null _ _ (mbind _ _) => apply no_null_bind; intros ?
  | |- no_null _ _ (raise _) => apply no_null_raise
  | |- no_null _ _ (mret _) => apply no_null_ret
  | |- no_null _ _ (match ?x with _ => _ end) => destruct x
  | |- no_null _ _ (let '(_, _) := ?x in _) => destruct x
  | |- _ → _ => first [done|apply elem_of_assoc_del|apply no_null_set; first [by right|by left]]
  end.
Ltac no_null_tac := repeat no_null_step.

Section merges.
Context `{Runtime} `{IpText} (specs : SpecIndex) (k : string) (spec : FieldSpec).
Context (Hspec : lookup_spec specs [k] = Some spec) (Hkind : fs_kind spec = kind_list).

Lemma no_null_list_op base key ptr s o replacement add remove :
  no_null k base (_list_op base key ptr s o replacement add remove).
Proof. unfold _list_op, _resolve_restrictive, _apply_replace, _apply_relative. no_null_tac. Qed.

Lemma no_null_keyed mf base key path s value o :
  no_null k base (_keyed_list specs mf base key path s value o).
Proof. unfold _keyed_list. no_null_tac. Qed.

Lemma no_null_entry mf base o key value :
  no_null k base (merge_entry specs mf base [] o key value).
Proof.
  unfold merge_entry. apply no_null_bind. intros _. cbn [app].
  destruct (lookup_spec specs [key]) as [s|] eqn:Hs; [|apply no_null_raise].
  apply no_null_bind. intros []; [unfold _delete; no_null_tac|].
  assert (key = k → fs_kind s = kind_list) as Hkey by (intros ->; congruence).
  destruct (fs_kind s) eqn:Hks; try (assert (key ≠ k) by (intros Heq; by apply Hkey in Heq)).
  - no_null_tac.
  - no_null_tac.
  - unfold _assign. no_null_tac.
  - unfold _replace_list, _union_list.
    repeat first [apply no_null_list_op|apply no_null_keyed|no_null_step].
Qed.

Lemma no_null_patch patch o m u m' :
  merge_patch specs patch o m = (Ok u, m') → (k, JNull) ∉ m_values m → (k, JNull) ∉ m_values m'.
Proof.
  intros Hrun Hnull Hin. apply Hnull. clear Hnull. unfold merge_patch in Hrun.
  apply ST_bind_Ok in Hrun as (? & m0 & [_ <-]%lift_run & Hrun).
  erewrite (ST_step (gets _)) in Hrun by done.
  apply ST_bind_Ok in Hrun as (values & m1 & Hobj & Hrun). injection Hrun as <- <-. cbn in Hin.
  destruct patch as [| | | | | |fields]; try done. rewrite merge_object_unfold in Hobj.
  revert Hobj. generalize (m_values m) as base. revert m. induction fields as [|[key value] fields IH];
    intros m base; cbn [entries_loop]; [by intros [= <- _]|].
  rewrite bool_decide_eq_false_2 by done. intros (b1 & m2 & H1 & H2)%ST_bind_Ok.
  eapply no_null_entry; [exact H1|]. by apply (IH m2).
Qed.
End merges.

(** ** Modes *)

Section modes.
Context `{Runtime} `{IpText}.

Lemma run_merger_Ok c m m' : run_merger c m = Ok m' ↔ c m = (Ok tt, m').
Proof. unfold run_merger. destruct (c m) as [[[]|] ?]; naive_solver. Qed.

Definition values_kept (m m' : Merger) : Prop := m_values m' = m_values m.

#[local] Instance values_kept_pre : PreOrder values_kept.
Proof. split; [done|]. intros m1 m2 m3. unfold values_kept. congruence. Qed.

Lemma values_kept_flag ptr ws m : values_kept m (_flag ptr ws m).
Proof. unfold _flag. by destruct (add_writes _ _ _). Qed.

Lemma values_kept_clash ptr w m : values_kept m (_delete_clash ptr w m).
Proof.
  apply (within_foldl _). intros m' p _. unfold clash_at.
  destruct (filter _ _); [done|apply values_kept_flag].
Qed.

Hint Resolve values_kept_pre values_kept_flag values_kept_clash : stays.

Lemma values_kept_assign base key ptr spec value o : within values_kept (_assign base key ptr spec value o).
Proof. unfold _assign. stays_tac; done. Qed.

(** A field without a tie rule takes the value assigned last. *)
Lemma assign_last base key ptr md o m b m' :
  _assign base key ptr (FieldSpec_of_kind kind_scalar) (JStr md) o m = (Ok b, m') →
  assoc_get key b = Some (JStr md).
Proof.
  unfold _assign. rewrite (lift_step _ _ _ (JStr md)) by done.
  intros (? & m1 & _ & Hrun)%ST_bind_Ok. apply ST_bind_Ok in Hrun as (others & m2 & _ & Hrun).
  apply ST_bind_Ok in Hrun as (? & m3 & _ & Hrun). apply ST_bind_Ok in Hrun as (current & m4 & _ & Hrun).
  change (is_restrictive_scalar (FieldSpec_of_kind kind_scalar)) with false in Hrun.
  apply ST_bind_Ok in Hrun as (stays & m5 & Hstays & Hrun).
  assert (stays = false) as ->.
  { destruct (_ && _); [|by injection Hstays].
    apply ST_bind_Ok in Hstays as (? & m6 & _ & Hstays). by injection Hstays. }
  apply ST_bind_Ok in Hrun as (? & m6 & _ & Hrun). apply ok_pair in Hrun as [<- _].
  apply assoc_get_set_eq.
Qed.

Lemma set_mode_run md o m m' :
  set_mode md o m = (Ok tt, m') → mode m' = Some md ∧ m_values m' = m_values m.
Proof.
  intros Hrun. unfold set_mode in Hrun. erewrite (ST_step (gets _)) in Hrun by done.
  apply ST_bind_Ok in Hrun as (meta & m1 & Hassign & Hrun). injection Hrun as <-. split.
  - unfold mode. cbn [m_meta with_meta]. by rewrite (assign_last _ _ _ _ _ _ _ _ Hassign).
  - by apply (values_kept_assign _ _ _ _ _ _ _ _ _ Hassign).
Qed.

Lemma mode_of_patch specs patch o m m' : merge_patch specs patch o m = (Ok tt, m') → mode m' = mode m.
Proof.
  intros Hrun. set (g := (o_rank o + 1, o_weight o)%Z).
  assert (group o ≠ g) as Hg by (unfold group, g; intros [= Heq]; lia).
  destruct (group_merge_patch g o Hg specs patch _ _ _ Hrun) as [Hm _ _].
  unfold mode. by rewrite Hm.
Qed.
End modes.

(** ** The mergers of a composition *)

Section mergers.
Context `{Runtime} `{IpText} `{N : IpNetworks}.

(** A merger of an enrolled module: it has a mode, and no null for a list. *)
Record enrolled (specs : SpecIndex) (m : Merger) : Prop := {
  en_mode : is_Some (mode m);
  en_lists k spec : lookup_spec specs [k] = Some spec → fs_kind spec = kind_list →
    (k, JNull) ∉ m_values m;
}.

Lemma enrolled_set_mode specs md o m m' :
  (∀ k spec, lookup_spec specs [k] = Some spec → fs_kind spec = kind_list → (k, JNull) ∉ m_values m) →
  run_merger (set_mode md o) m = Ok m' → enrolled specs m'.
Proof.
  intros Hl [Hm Hv]%run_merger_Ok%set_mode_run. split; [by eexists|].
  intros k spec Hk Hs. rewrite Hv. by apply (Hl k spec).
Qed.

Lemma enrolled_patch specs patch o m m' :
  enrolled specs m → run_merger (merge_patch specs patch o) m = Ok m' → enrolled specs m'.
Proof.
  intros [Hmode Hl] Hrun%run_merger_Ok. split.
  - by rewrite (mode_of_patch _ _ _ _ _ Hrun).
  - intros k spec Hk Hs. eapply no_null_patch; [exact Hk|exact Hs|exact Hrun|by apply (Hl k spec)].
Qed.

Lemma enrolled_exception specs m exc o m' :
  enrolled specs m → _apply_exception specs m exc o = Ok m' → enrolled specs m'.
Proof.
  intros Hm. unfold _apply_exception. destruct (ex_kind exc); [| |by intros [= <-]..].
  - destruct (ex_patch exc) as [patch|]; [|done].
    intros (path & _ & (nested & _ & Hrun)%result_bind_Ok)%result_bind_Ok. by eapply enrolled_patch.
  - destruct (ex_mode exc) as [md|]; [|done]. intros Hrun. eapply enrolled_set_mode; [apply Hm|done].
Qed.

(** Every merger is of an enrolled module. *)
Definition all_enrolled (plugin : DomainPlugin) (ms : Mergers) : Prop :=
  ∀ key m specs, ms !! key = Some m → pl_specs plugin key = Ok specs → enrolled specs m.

Lemma all_enrolled_insert plugin ms key m :
  all_enrolled plugin ms → (∀ specs, pl_specs plugin key = Ok specs → enrolled specs m) →
  all_enrolled plugin (<[key := m]> ms).
Proof.
  intros Hms Hm key' m' specs. destruct (decide (key = key')) as [<-|Hne].
  - rewrite lookup_insert_eq. intros [= <-]. apply Hm.
  - rewrite lookup_insert_ne by done. apply Hms.
Qed.

Lemma enrol_block_keeps plugin ms entry ms' :
  all_enrolled plugin ms → enrol_block plugin ms entry = Ok ms' → all_enrolled plugin ms'.
Proof.
  intros Hms. destruct entry as [tr [key block]]. unfold enrol_block.
  destruct (get_or_none "mode" block) as [| | | |md| |]; try done; [by intros [= <-]|].
  intros (specs & Hspecs & (m & Hrun & [= <-])%result_bind_Ok)%result_bind_Ok.
  apply all_enrolled_insert; [done|]. intros specs' Hspecs'. eapply enrolled_set_mode; [|exact Hrun].
  intros k spec Hk Hs. destruct (ms !! key) as [m0|] eqn:Hm0.
  - by eapply (en_lists _ _ (Hms _ _ _ Hm0 Hspecs')).
  - apply not_elem_of_nil.
Qed.

Lemma merge_block_keeps plugin st entry st' :
  all_enrolled plugin (ls_mergers st) → merge_block plugin st entry = Ok st' →
  all_enrolled plugin (ls_mergers st').
Proof.
  intros Hms. destruct entry as [tr [key block]]. unfold merge_block.
  destruct (ls_mergers st !! key) as [m|] eqn:Hm; [|by intros (? & _ & [= <-])%result_bind_Ok].
  intros (module & _ & Hrun)%result_bind_Ok. destruct (negb _); [by injection Hrun as <-|].
  apply result_bind_Ok in Hrun as (specs & Hspecs & Hrun).
  destruct (run_merger _ _) as [m'|e] eqn:Hpatch; [|by destruct (document_error e)].
  injection Hrun as <-. apply all_enrolled_insert; [done|]. intros specs' Hspecs'.
  assert (specs' = specs) as -> by congruence. eapply enrolled_patch; [|exact Hpatch]. by eapply Hms.
Qed.

Lemma merge_layers_enrolled plugin chosen layers :
  merge_layers plugin chosen = Ok layers → all_enrolled plugin (ls_mergers layers).
Proof.
  unfold merge_layers.
  intros (blocks & _ & (ms & H1 & H2)%result_bind_Ok)%result_bind_Ok.
  apply (fold_result_keeps (all_enrolled plugin)) in H1.
  - apply (fold_result_keeps (λ st, all_enrolled plugin (ls_mergers st))) in H2; [done| |done].
    intros st entry st' _. apply merge_block_keeps.
  - intros ms' entry ms'' _. apply enrol_block_keeps.
  - by intros key m specs; rewrite lookup_empty.
Qed.

(** ** A sequence of exceptions *)

(** An exception that is not approved is active only when it does not widen. *)
Lemma unapproved_state exc today days :
  ex_approved exc = false → exception_state exc today true days ≠ Ok ex_active.
Proof.
  intros Ha. unfold exception_state. rewrite Ha. cbn [negb andb].
  destruct (ex_is_revoked exc); [done|]. destruct (ex_until exc) as [until|]; [|done].
  destruct (_ <? _)%Z; [|done]. intros (limit & _ & Hr)%result_bind_Ok.
  by destruct (_ <=? _)%Z.
Qed.

(** What one exception does to the merger of a module. *)
Definition excepted (module : Module_) (key : string) (specs : SpecIndex) (m m' : Merger) : Prop :=
  m' = m ∨
  _exception_widens module key specs m m' = Ok false ∧
  ∃ exc o, _apply_exception specs m exc o = Ok m'.

Lemma enact_excepted plugin rank today days st exc merger st' key module specs :
  enact_exception plugin rank today days st exc merger = Ok st' →
  xs_mergers st !! ex_module_key exc = Some merger →
  pl_modules plugin !! key = Some module → pl_specs plugin key = Ok specs →
  (ex_module_key exc = key → ex_approved exc = false) →
  ∀ m, xs_mergers st !! key = Some m →
  ∃ m', xs_mergers st' !! key = Some m' ∧ excepted module key specs m m'.
Proof.
  intros Hrun Hmerger Hmodule Hspecs Happ m Hm. unfold enact_exception in Hrun.
  apply result_bind_Ok in Hrun as (mod_ & Hmod & Hrun).
  apply result_bind_Ok in Hrun as (specs_ & Hspecs_ & Hrun).
  apply result_bind_Ok in Hrun as (widened & Hwid & Hrun).
  apply result_bind_Ok in Hrun as (state & Hstate & Hrun).
  assert (Hsame : ∀ st1, xs_mergers st1 = xs_mergers st → Ok (E:=config_error) st1 = Ok st' →
    ∃ m', xs_mergers st' !! key = Some m' ∧ excepted module key specs m m').
  { intros st1 Hst [= <-]. exists m. rewrite Hst. split; [done|by left]. }
  case_bool_decide as Hact; cbn [negb] in Hrun; [|eapply Hsame; [|exact Hrun]; done].
  destruct (ex_kind exc) eqn:Hkind.
  3,4: eapply Hsame; [|exact Hrun]; done.
  all: assert (is_override exc = true) as Hov by (unfold is_override; rewrite Hkind; done).
  all: rewrite Hov in Hwid; apply result_bind_Ok in Hwid as (trial & Htrial & Hwid).
  all: rewrite Htrial in Hrun; injection Hrun as <-; cbn [xs_mergers with_mergers add_status].
  all: destruct (decide (ex_module_key exc = key)) as [Heq|Hne];
    [|exists m; rewrite lookup_insert_ne by done; split; [done|by left]].
  all: rewrite Heq in *; exists trial; rewrite lookup_insert_eq; split; [done|].
  all: assert (merger = m) as -> by congruence; assert (specs_ = specs) as -> by congruence.
  all: assert (mod_ = module) as -> by (unfold pl_module in Hmod; rewrite Hmodule in Hmod; congruence).
  all: right; split; [|by eexists _, _].
  all: destruct widened; [|exact Hwid]; rewrite Hact in Hstate;
    by apply (unapproved_state exc today days (Happ eq_refl)) in Hstate.
Qed.

Lemma enact_none plugin rank today days st exc merger st' key :
  enact_exception plugin rank today days st exc merger = Ok st' →
  xs_mergers st !! ex_module_key exc = Some merger →
  xs_mergers st !! key = None → xs_mergers st' !! key = None.
Proof.
  intros Hrun Hmerger Hnone. unfold enact_exception in Hrun.
  apply result_bind_Ok in Hrun as (? & _ & Hrun). apply result_bind_Ok in Hrun as (? & _ & Hrun).
  apply result_bind_Ok in Hrun as (? & _ & Hrun). apply result_bind_Ok in Hrun as (? & _ & Hrun).
  destruct (negb _); [by injection Hrun as <-|].
  destruct (ex_kind exc); try (by injection Hrun as <-).
  all: apply result_bind_Ok in Hrun as (m' & _ & [= <-]); cbn [xs_mergers with_mergers];
    rewrite lookup_insert_ne; [done|congruence].
Qed.

Lemma step_excepted plugin rank subject today days st exc st' key module specs :
  exception_step plugin rank subject today days st exc = Ok st' →
  pl_modules plugin !! key = Some module → pl_specs plugin key = Ok specs →
  (ex_module_key exc = key → ex_approved exc = false) →
  match xs_mergers st !! key with
  | Some m => ∃ m', xs_mergers st' !! key = Some m' ∧ excepted module key specs m m'
  | None => xs_mergers st' !! key = None
  end.
Proof.
  intros Hrun Hmodule Hspecs Happ. unfold exception_step in Hrun.
  assert (Hsame : xs_mergers st' = xs_mergers st →
    match xs_mergers st !! key with
    | Some m => ∃ m', xs_mergers st' !! key = Some m' ∧ excepted module key specs m m'
    | None => xs_mergers st' !! key = None
    end).
  { intros ->. destruct (xs_mergers st !! key) as [m|]; [|done]. exists m. split; [done|by left]. }
  destruct (negb _); [injection Hrun as <-; by apply Hsame|].
  apply result_bind_Ok in Hrun as (state & _ & Hrun).
  destruct state; try (injection Hrun as <-; by apply Hsame).
  destruct (xs_mergers st !! ex_module_key exc) as [merger|] eqn:Hm;
    [|injection Hrun as <-; by apply Hsame].
  destruct (xs_mergers st !! key) as [m|] eqn:Hk.
  - by eapply enact_excepted.
  - by eapply enact_none.
Qed.

(** The merger of a module after exceptions that are not approved. *)
Lemma exceptions_chain plugin rank subject today days key module specs excs : ∀ st st' m',
  fold_result (exception_step plugin rank subject today days) st excs = Ok st' →
  pl_modules plugin !! key = Some module → pl_specs plugin key = Ok specs →
  (∀ e, e ∈ excs → ex_module_key e = key → ex_approved e = false) →
  xs_mergers st' !! key = Some m' →
  ∃ m, xs_mergers st !! key = Some m ∧ rtc (excepted module key specs) m m'.
Proof.
  induction excs as [|exc excs IH]; intros st st' m' Hrun Hmodule Hspecs Happ Hm'; cbn [fold_result] in Hrun.
  { injection Hrun as <-. by exists m'. }
  apply result_bind_Ok in Hrun as (st1 & H1 & H2).
  destruct (IH st1 st' m' H2 Hmodule Hspecs ltac:(intros e He; apply Happ; by right) Hm') as (m1 & Hm1 & Hrtc).
  pose proof (step_excepted _ _ _ _ _ _ _ _ _ _ _ H1 Hmodule Hspecs (Happ exc ltac:(by left))) as Hstep.
  destruct (xs_mergers st !! key) as [m|]; [|congruence].
  destruct Hstep as (m2 & Hm2 & Hexc). assert (m2 = m1) as -> by congruence.
  exists m. split; [done|]. by eapply rtc_l.
Qed.
End mergers.

(** ** What the chain keeps *)

Section chain.
Context `{Runtime} `{IpText} `{N : IpNetworks} `{!IpNetworksLaws N}.
Context (module : Module_) (key : string) (specs : SpecIndex).

(** A top-level field the checks of the library hold for. *)
Record plain_field (k : string) (spec : FieldSpec) : Prop := {
  pf_spec : specs !! [k] = Some spec;
  pf_leaf : is_leaf spec;
  pf_name : k ≠ WILDCARD;
  pf_checked : FieldSpec_check spec = Ok spec;
  pf_ranked r : r ∈ fs_ranking spec → py_eq r JNull = false;
}.

(** The values a module ends with are no looser, field by field. *)
Definition fields_no_looser (m m' : Merger) : Prop :=
  ∀ v1 st1 v2 st2 k spec,
    filled module key specs m = Ok (v1, st1) → filled module key specs m' = Ok (v2, st2) →
    plain_field k spec → no_looser spec (field_of k v1) (field_of k v2).

Lemma excepted_fields m m' : enrolled specs m → excepted module key specs m m' → fields_no_looser m m'.
Proof.
  intros Hm [->|[Hw _]] v1 st1 v2 st2 k spec H1 H2 [Hspec Hleaf Hk Hc Hr].
  { by assert (v1 = v2) as -> by congruence. }
  unfold _exception_widens in Hw. rewrite H1, H2 in Hw. cbn [mbind result_bind fst] in Hw.
  apply result_bind_Ok in Hw as (items & Hi & [= [Hlen _]%orb_false_iff]).
  apply negb_false_iff, bool_decide_eq_true in Hlen. destruct items; [|done].
  eapply (step_no_looser module key specs k spec); try done.
  intros Hkind Hnull%assoc_get_pair. by apply (en_lists _ _ Hm k spec) in Hnull; [|apply top_lookup|].
Qed.

Lemma excepted_mode m m' :
  md_mode_ordered module = true → excepted module key specs m m' → mode_widening (mode m) (mode m') = false.
Proof.
  intros Ho [->|[Hw _]].
  - unfold mode_widening. destruct (mode m); [|done]. apply Nat.ltb_irrefl.
  - unfold _exception_widens in Hw. apply result_bind_Ok in Hw as (? & _ & Hw).
    apply result_bind_Ok in Hw as (? & _ & Hw). apply result_bind_Ok in Hw as (? & _ & [= Hf]).
    rewrite Ho in Hf. by apply orb_false_iff in Hf as [_ Hf].
Qed.

Lemma excepted_enrolled m m' : enrolled specs m → excepted module key specs m m' → enrolled specs m'.
Proof. intros Hm [->|[_ (exc & o & Hrun)]]; [done|]. by eapply enrolled_exception. Qed.

Lemma chain_enrolled m m' : enrolled specs m → rtc (excepted module key specs) m m' → enrolled specs m'.
Proof. intros Hm Hrtc. revert Hm. induction Hrtc; eauto using excepted_enrolled. Qed.

Lemma excepted_filled m m' : excepted module key specs m m' →
  m' = m ∨ ∃ v st, filled module key specs m' = Ok (v, st).
Proof.
  intros [->|[Hw _]]; [by left|right]. unfold _exception_widens in Hw.
  apply result_bind_Ok in Hw as (? & _ & Hw). apply result_bind_Ok in Hw as ([v st] & Hf & _). eauto.
Qed.

Lemma chain_fields m m' : enrolled specs m → rtc (excepted module key specs) m m' → fields_no_looser m m'.
Proof.
  intros Hm Hrtc. revert Hm. induction Hrtc as [m|m m1 m' Hstep Hrtc IH]; intros Hm.
  { intros v1 st1 v2 st2 k spec H1 H2 _. by assert (v1 = v2) as -> by congruence. }
  pose proof (excepted_fields m m1 Hm Hstep) as Hfirst.
  specialize (IH (excepted_enrolled _ _ Hm Hstep)).
  intros v1 st1 v2 st2 k spec H1 H2 Hf. destruct (excepted_filled _ _ Hstep) as [->|(v & st & Hv)].
  - by eapply IH.
  - etrans; [by eapply Hfirst|by eapply IH].
Qed.

Lemma chain_mode m m' :
  md_mode_ordered module = true → enrolled specs m → rtc (excepted module key specs) m m' →
  mode_widening (mode m) (mode m') = false.
Proof.
  intros Ho Hm Hrtc. revert Hm. induction Hrtc as [m|m m1 m' Hstep Hrtc IH]; intros Hm.
  { by apply excepted_mode; [|left]. }
  pose proof (excepted_mode m m1 Ho Hstep) as Hfirst. pose proof (excepted_enrolled _ _ Hm Hstep) as Hm1.
  specialize (IH Hm1). destruct (en_mode _ _ Hm1) as [b Hb]. rewrite Hb in *. unfold mode_widening in *.
  destruct (mode m) as [a|]; [|done]. destruct (mode m') as [c|]; [|done].
  apply Nat.ltb_ge in Hfirst, IH. apply Nat.ltb_ge. lia.
Qed.
End chain.
