(* ===== verification/ConfigFuel.v ===== *)
(** * Enough fuel

    The recursion of the widening check and of the defaults is bounded: with the
    fuel they start with, neither runs out of it, whatever they are given. *)

From S2P Require Import Prelude PyData PyTime ConfigDocument ConfigFields ConfigMerge.
From S2P Require Import ConfigLayers ConfigDefaults ConfigFrame ConfigFilling ConfigLoosening.
From stdpp Require Import base gmap strings pretty list.
From Stdlib Require Import ZArith Ascii.

(** The recursion limit is not what stops the call. *)
Definition no_recursion {A} (r : result config_error A) : Prop :=
  ∀ msg, r ≠ Raise (PyError "RecursionError" msg).

Lemma nr_ok {A} (a : A) : no_recursion (Ok a).
Proof. done. Qed.
Lemma nr_raise {A} cls msg : cls ≠ "RecursionError" → no_recursion (Raise (PyError cls msg) : result config_error A).
Proof. intros Hc msg' [= ->]. done. Qed.
Lemma nr_bind {A B} (r : result config_error A) (f : A → result config_error B) :
  no_recursion r → (∀ a, r = Ok a → no_recursion (f a)) → no_recursion (r ≫= f).
Proof.
  intros Hr Hf msg [He|(a & Ha & He)]%result_bind_Raise; [by eapply Hr|by eapply Hf].
Qed.
Lemma nr_map_result {A B} (f : A → result config_error B) l :
  (∀ x, x ∈ l → no_recursion (f x)) → no_recursion (map_result f l).
Proof.
  induction l as [|x l IH]; intros Hf; cbn [map_result]; [done|].
  apply nr_bind; [apply Hf; by left|intros y _]. apply nr_bind; [|done].
  apply IH. intros z Hz. apply Hf. by right.
Qed.
Lemma nr_gather {A B} (f : A → result config_error (list B)) l :
  (∀ x, x ∈ l → no_recursion (f x)) → no_recursion (gather f l).
Proof. intros Hf. unfold gather. apply nr_bind; [by apply nr_map_result|done]. Qed.
Create HintDb nr.
#[export] Hint Resolve nr_ok nr_raise : nr.

Lemma nr_py_list v : no_recursion (py_list v).
Proof. destruct v; (apply nr_ok || by apply nr_raise). Qed.
Lemma nr_list_or_empty v : no_recursion (list_or_empty v).
Proof. unfold list_or_empty. destruct (py_truthy v); [apply nr_py_list|done]. Qed.
Lemma nr_security_rank spec v : no_recursion (security_rank spec v).
Proof. unfold security_rank. destruct (fs_access spec); (apply nr_ok || by apply nr_raise). Qed.
Lemma nr_getitem v k : no_recursion (py_getitem v k).
Proof. destruct v; cbn; try by apply nr_raise. case_match; [done|by apply nr_raise]. Qed.
Lemma nr_member v k : no_recursion (member_of v k).
Proof. destruct v; cbn; try done; repeat case_match; (apply nr_ok || by apply nr_raise). Qed.

Section widening.
Context `{Runtime} `{IpNetworks}.

Lemma nr_widening spec v w : no_recursion (widening spec v w).
Proof.
  unfold widening. destruct (fs_access spec); try apply nr_ok;
    (apply nr_bind; [apply nr_list_or_empty || apply nr_security_rank|intros ? _]);
    (apply nr_bind; [apply nr_list_or_empty || apply nr_security_rank|intros ? _]); apply nr_ok.
Qed.

Lemma nr_index field l : ∀ elements, no_recursion (index_elements field l elements).
Proof.
  induction l as [|x l IH]; intros elements; cbn [index_elements]; [done|].
  apply nr_bind; [apply nr_getitem|intros k _]. apply IH.
Qed.

Lemma nr_elements field v : no_recursion (elements_by_key field v).
Proof. unfold elements_by_key. apply nr_bind; [apply nr_list_or_empty|intros l _]. apply nr_index. Qed.

(** ** Sizes *)

Lemma size_pos v : 1 ≤ json_size v.
Proof. destruct v; cbn; lia. Qed.

Lemma size_get name fields : is_none (get_or_none name fields) = false →
  json_size (get_or_none name fields) < json_size (JObj fields).
Proof.
  unfold get_or_none. destruct (assoc_get name fields) as [v|] eqn:Hv; [|done]. intros _.
  apply assoc_get_pair in Hv. by apply (size_value _ name).
Qed.

Lemma size_map v : json_size (JObj (as_map v)) ≤ json_size v.
Proof. destruct v; cbn; lia. Qed.

(** A field of a container is no larger than it, and smaller unless it is
    missing. *)
Lemma size_field name v :
  json_size (get_or_none name (as_map v)) ≤ json_size v ∧
  (is_none (get_or_none name (as_map v)) = false → json_size (get_or_none name (as_map v)) < json_size v).
Proof.
  pose proof (size_map v). pose proof (size_get name (as_map v)) as Hget. pose proof (size_pos v).
  destruct (get_or_none name (as_map v)); cbn [is_none] in *;
    try (specialize (Hget eq_refl); split; [lia|intros _; lia]).
  split; [cbn; lia|done].
Qed.

Lemma size_member v k w : member_of v k = Ok w → json_size w ≤ json_size v.
Proof.
  pose proof (size_field k v) as [Hs _]. destruct v; cbn [member_of as_map] in *;
    try (destruct (py_truthy _); [done|]; intros [= <-]; cbn; lia); by intros [= <-].
Qed.

Lemma size_index field l : ∀ elements elements' n,
  index_elements field l elements = Ok elements' →
  (∀ x, x ∈ l → json_size x ≤ n) → (∀ k x, (k, x) ∈ elements → json_size x ≤ n) →
  ∀ k x, (k, x) ∈ elements' → json_size x ≤ n.
Proof.
  induction l as [|y l IH]; intros elements elements' n; cbn [index_elements].
  { intros [= <-] _ He. exact He. }
  intros (j & _ & Hr)%result_bind_Ok Hl He. eapply IH; [exact Hr|intros x Hx; apply Hl; by right|].
  intros k x [[_ ->]|Hx]%elem_of_assoc_set; [apply Hl; by left|by eapply He].
Qed.

Lemma size_elements field v elements name :
  elements_by_key field v = Ok elements → json_size (get_or_none name elements) ≤ json_size v.
Proof.
  unfold elements_by_key. intros (l & Hl & Hi)%result_bind_Ok.
  assert (Hsize : ∀ x, x ∈ l → json_size x ≤ json_size v).
  { intros x Hx. unfold list_or_empty in Hl. destruct (py_truthy v); [|by injection Hl as <-; apply not_elem_of_nil in Hx].
    destruct v as [| | | |s|vs|fs]; try done; injection Hl as <-.
    - apply list_elem_of_fmap in Hx as (c & -> & _). cbn. lia.
    - apply size_item in Hx. lia.
    - apply list_elem_of_fmap in Hx as (c & -> & _). cbn. lia. }
  pose proof (size_pos v). unfold get_or_none. destruct (assoc_get name elements) as [x|] eqn:Hx; [|done].
  apply assoc_get_pair in Hx. cbn [default]. eapply size_index; [exact Hi|exact Hsize| |exact Hx].
  by intros k y ?%not_elem_of_nil.
Qed.

(** ** The widening check *)

Lemma walk_fuel fuel specs : ∀ old new path fresh gone,
  json_size old + json_size new ≤ fuel → no_recursion (walk fuel specs old new path fresh gone).
Proof.
  induction fuel as [|fuel IH]; intros old new path fresh gone Hf.
  { pose proof (size_pos old). lia. }
  cbn [walk]. apply nr_gather. intros name _. unfold walk_field.
  destruct (lookup_spec specs (path ++ [name])) as [spec|]; [|done].
  pose proof (size_field name old) as [Hold Hold']. pose proof (size_field name new) as [Hnew Hnew'].
  destruct (is_none _ && is_none _) eqn:Hnone; [done|].
  assert (Hlt : json_size (get_or_none name (as_map old)) + json_size (get_or_none name (as_map new)) ≤ fuel).
  { apply andb_false_iff in Hnone as [Hn|Hn]; [specialize (Hold' Hn)|specialize (Hnew' Hn)]; lia. }
  clear Hold' Hnew' Hnone Hold Hnew.
  assert (Hleaf : ∀ v w, no_recursion (wider ← widening spec v w;
    Ok (if (wider : bool) then [MkWideningItem (pointer (path ++ [name])) v w] else []))).
  { intros v w. apply nr_bind; [apply nr_widening|done]. }
  destruct (fs_kind spec).
  - by apply IH.
  - apply nr_gather. intros member _. apply nr_bind; [apply nr_member|intros a Ha].
    apply nr_bind; [apply nr_member|intros b Hb]. apply IH.
    apply size_member in Ha, Hb. lia.
  - apply Hleaf.
  - destruct (fs_strategy spec) as [[]|]; try apply Hleaf.
    destruct (fs_key spec) as [field|]; [|by apply nr_raise].
    apply nr_bind; [apply nr_elements|intros olds Ho]. apply nr_bind; [apply nr_elements|intros news Hn].
    apply nr_gather. intros element _. apply IH.
    pose proof (size_elements _ _ _ element Ho). pose proof (size_elements _ _ _ element Hn). lia.
Qed.

Lemma params_widening_fuel specs before after : no_recursion (params_widening specs before after).
Proof. by apply walk_fuel. Qed.
End widening.

(** ** Defaults *)

Definition fills {A} (c : FillST A) : Prop := ∀ st, no_recursion (c st).1.

Lemma nr_keyed_elements v : no_recursion (keyed_elements v).
Proof.
  unfold keyed_elements. destruct v; try apply nr_ok; (apply nr_bind; [apply nr_py_list|]);
    intros [|? ?] _; (apply nr_ok || by apply nr_raise).
Qed.

#[export] Instance fills_closed `{Runtime} o : FillClosed o (@fills).
Proof.
  split; try done.
  - intros A B c f Hc Hf st. unfold mbind, ST_bind. specialize (Hc st).
    destruct (c st) as [[a|e] st']; [apply Hf|]. intros msg [= ->]. by eapply Hc.
  - intros v key st. apply nr_getitem.
  - intros v st. apply nr_py_list.
  - intros v st. apply nr_keyed_elements.
Qed.

Section defaults.
Context `{Runtime} (specs : SpecIndex) (o : Origin).

Lemma length_resolve path : length (resolve specs path) = length path.
Proof.
  unfold resolve. assert (Hgo : ∀ acc, length (foldl (λ resolved segment,
    let candidate := resolved ++ [segment] in
    if bool_decide (is_Some (specs !! candidate)) then candidate else resolved ++ [WILDCARD]) acc path)
    = length acc + length path); [|apply Hgo].
  induction path as [|s path IH]; intros acc; cbn [foldl length]; [lia|]. rewrite IH.
  case_bool_decide; rewrite length_app; cbn; lia.
Qed.

Lemma spec_depth_le path spec : specs !! path = Some spec → length path ≤ spec_depth specs.
Proof.
  intros Hp%elem_of_map_to_list. unfold spec_depth. revert Hp.
  induction (map_to_list specs) as [|[q r] l IH]; [by intros ?%not_elem_of_nil|].
  rewrite elem_of_cons. cbn. intros [[= <- <-]|Hp]; [lia|]. specialize (IH Hp). lia.
Qed.

Lemma children_depth path name spec : (name, spec) ∈ children specs path → length path < spec_depth specs.
Proof.
  unfold children. rewrite sort_keys_perm. intros ([p s] & Hin & Hc)%list_elem_of_omap.
  apply elem_of_map_to_list in Hin. apply spec_depth_le in Hin. unfold child_spec in Hc.
  case_bool_decide as Hlen; [|done]. cbn [fst] in Hlen. lia.
Qed.

Lemma fill_loop_fuel fuel : ∀ path container,
  length path ≤ S (spec_depth specs) → spec_depth specs + 2 ≤ fuel + length path →
  fills (fill_loop fuel specs o container path).
Proof.
  induction fuel as [|fuel IH]; intros path container Hlen Hf; [lia|]. cbn [fill_loop].
  assert (Hc : ∀ name spec, (name, spec) ∈ children specs (resolve specs path) → length path < spec_depth specs).
  { intros name spec Hin%children_depth. by rewrite length_resolve in Hin. }
  apply (closed_fields o (@fills)). intros name spec Hlt%Hc.
  split; intros; apply IH; rewrite length_app; cbn; lia.
Qed.

Lemma fill_defaults_fuel container : fills (_fill_defaults specs container [] o).
Proof. apply fill_loop_fuel; cbn; lia. Qed.
End defaults.
