(* ===== verification/ConfigResults.v ===== *)
(** * What a composed result is made of

    [compose] taken apart: its steps, where the suppressions of a module come
    from, which modules it reports, and what is true of a module without
    reasons. *)

From S2P Require Import Prelude PyData PyTime ConfigDocument ConfigFields ConfigMerge.
From S2P Require Import ConfigSchema ConfigLayers ConfigDerive ConfigDefaults.
From S2P Require Import ConfigCompose ConfigEvaluate ConfigFilling ConfigLoosening.
From stdpp Require Import base gmap strings pretty list.
From Stdlib Require Import ZArith Ascii.

(** ** Exceptions in force *)

(** The exception applies to the subject, is not revoked, and its last day has
    not passed. *)
Record in_force (subject : Subject) (today : date) (e : ExceptionSpec) : Prop := {
  if_applies : exception_applies e (su_key subject) (su_dims subject) = true;
  if_standing : ex_is_revoked e = false;
  if_until until : ex_until e = Some until → (today ≤ until)%Z;
}.

Lemma active_in_force subject today w days e :
  exception_applies e (su_key subject) (su_dims subject) = true →
  exception_state e today w days = Ok ex_active → in_force subject today e.
Proof.
  intros Happ Hs. split; [done|..]; unfold exception_state in Hs;
    destruct (ex_is_revoked e); try done; intros d Hd; rewrite Hd in Hs.
  destruct (d <? today)%Z eqn:Hlt; [|by apply Z.ltb_ge in Hlt].
  apply result_bind_Ok in Hs as (limit & _ & Hs). by destruct (_ <=? _)%Z.
Qed.

(** The suppression of a module that an exception in force asks for. *)
Definition suppressed_by (subject : Subject) (today : date) (key : string) (e : ExceptionSpec)
    (s : Suppression) : Prop :=
  in_force subject today e ∧ ex_kind e = ex_suppress ∧ ex_module_key e = key ∧
  sp_scope s = suppress_scope e.

Definition suppressions_of (key : string) (st : ExceptionsState) : list Suppression :=
  default [] (xs_suppressions st !! key).

Section exceptions.
Context `{Runtime} `{IpText} `{IpNetworks}.

Lemma enact_suppressions plugin rank today days st e merger st' key s :
  enact_exception plugin rank today days st e merger = Ok st' →
  s ∈ suppressions_of key st' →
  s ∈ suppressions_of key st ∨
  (∃ w, exception_state e today w days = Ok ex_active) ∧ ex_kind e = ex_suppress ∧
  ex_module_key e = key ∧ sp_scope s = suppress_scope e.
Proof.
  intros Hrun Hs. unfold enact_exception in Hrun.
  apply result_bind_Ok in Hrun as (? & _ & Hrun). apply result_bind_Ok in Hrun as (? & _ & Hrun).
  apply result_bind_Ok in Hrun as (w & _ & Hrun). apply result_bind_Ok in Hrun as (state & Hst & Hrun).
  case_bool_decide as Hact; cbn [negb] in Hrun; [|by injection Hrun as <-; left].
  destruct (ex_kind e) eqn:Hk; try (by injection Hrun as <-; left);
    try (by apply result_bind_Ok in Hrun as (m & _ & [= <-]); left).
  injection Hrun as <-. unfold suppressions_of in *. cbn [xs_suppressions add_status] in *.
  destruct (decide (ex_module_key e = key)) as [<-|Hne].
  - rewrite lookup_insert_eq in Hs. cbn [default] in Hs.
    apply elem_of_app in Hs as [Hs|Hs%list_elem_of_singleton]; [by left|]. right. subst s.
    split_and!; [exists w; by rewrite Hst, Hact|done..].
  - rewrite lookup_insert_ne in Hs by done. by left.
Qed.

Lemma step_suppressions plugin rank subject today days st e st' key s :
  exception_step plugin rank subject today days st e = Ok st' → s ∈ suppressions_of key st' →
  s ∈ suppressions_of key st ∨ suppressed_by subject today key e s.
Proof.
  intros Hrun Hs. unfold exception_step in Hrun.
  destruct (exception_applies _ _ _) eqn:Happ; cbn [negb] in Hrun; [|by injection Hrun as <-; left].
  apply result_bind_Ok in Hrun as (state & _ & Hrun).
  destruct state; try (by injection Hrun as <-; left).
  destruct (xs_mergers st !! ex_module_key e) as [merger|]; [|by injection Hrun as <-; left].
  destruct (enact_suppressions _ _ _ _ _ _ _ _ _ _ Hrun Hs) as [?|((w & Hact) & Hk & Hm & Hsc)]; [by left|].
  right. split_and!; try done. by eapply active_in_force.
Qed.

Lemma apply_suppressions plugin rank subject today days exceptions mergers st key s :
  apply_exceptions plugin rank subject today days exceptions mergers = Ok st →
  s ∈ suppressions_of key st → ∃ e, e ∈ exceptions ∧ suppressed_by subject today key e s.
Proof.
  unfold apply_exceptions.
  intros (issues & _ & (? & _ & Hloop)%result_bind_Ok)%result_bind_Ok.
  set (P := λ st, ∀ s, s ∈ suppressions_of key st →
    ∃ e, e ∈ exceptions ∧ suppressed_by subject today key e s).
  revert s. change (P st). refine (fold_result_keeps P _ _ _ _ _ _ Hloop).
  - intros st1 e st2 He Hst1 Hrun s Hs.
    destruct (step_suppressions _ _ _ _ _ _ _ _ _ _ Hrun Hs) as [?|Hby]; [by apply Hst1|].
    exists e. split; [|done]. by apply elem_of_py_sorted in He.
  - intros s []%not_elem_of_nil.
Qed.
End exceptions.

(** ** Modules enrolled *)

Section enrolled_modules.
Context `{Runtime} `{IpText} `{IpNetworks}.

(** No step after the enrolment enrols a module. *)
Lemma dom_insert_old {A} (m : gmap string A) key a a' : m !! key = Some a → dom (<[key := a']> m) = dom m.
Proof. intros Hm. apply dom_insert_lookup_L. by eexists. Qed.

Lemma merge_block_dom plugin st entry st' :
  merge_block plugin st entry = Ok st' → dom (ls_mergers st') = dom (ls_mergers st).
Proof.
  destruct entry as [tr [key block]]. unfold merge_block.
  destruct (ls_mergers st !! key) as [m|] eqn:Hm; [|by intros (? & _ & [= <-])%result_bind_Ok].
  intros (module & _ & Hrun)%result_bind_Ok. destruct (negb _); [by injection Hrun as <-|].
  apply result_bind_Ok in Hrun as (specs & _ & Hrun).
  destruct (run_merger _ _) as [m'|e]; [|by destruct (document_error e)].
  injection Hrun as <-. by eapply dom_insert_old.
Qed.

Lemma step_dom plugin rank subject today days st e st' :
  exception_step plugin rank subject today days st e = Ok st' → dom (xs_mergers st') = dom (xs_mergers st).
Proof.
  unfold exception_step. destruct (negb _); [by intros [= <-]|].
  intros (state & _ & Hrun)%result_bind_Ok. destruct state; try by injection Hrun as <-.
  destruct (xs_mergers st !! ex_module_key e) as [merger|] eqn:Hm; [|by injection Hrun as <-].
  unfold enact_exception in Hrun.
  apply result_bind_Ok in Hrun as (? & _ & Hrun). apply result_bind_Ok in Hrun as (? & _ & Hrun).
  apply result_bind_Ok in Hrun as (? & _ & Hrun). apply result_bind_Ok in Hrun as (? & _ & Hrun).
  destruct (negb _); [by injection Hrun as <-|]. destruct (ex_kind e); try (by injection Hrun as <-);
    apply result_bind_Ok in Hrun as (m' & _ & [= <-]); by eapply dom_insert_old.
Qed.

Lemma derive_dom subject rank mergers rule mergers' :
  derive_rule subject rank mergers rule = Ok mergers' → dom mergers' = dom mergers.
Proof.
  unfold derive_rule. destruct (mergers !! dr_module rule) as [target|] eqn:Hm; [|by intros [= <-]].
  intros (read & _ & Hrun)%result_bind_Ok. destruct (dr_fn _ _) as [value|]; [|by injection Hrun as <-].
  apply result_bind_Ok in Hrun as (path & _ & Hrun). apply result_bind_Ok in Hrun as (m' & _ & [= <-]).
  by eapply dom_insert_old.
Qed.

Lemma apply_dom plugin rank subject today days exceptions mergers st :
  apply_exceptions plugin rank subject today days exceptions mergers = Ok st →
  dom (xs_mergers st) = dom mergers.
Proof.
  unfold apply_exceptions.
  intros (issues & _ & (? & _ & Hloop)%result_bind_Ok)%result_bind_Ok.
  refine (fold_result_keeps (λ st, dom (xs_mergers st) = dom mergers) _ _ _ _ _ _ Hloop); [|done].
  intros st1 e st2 _ <- Hrun. by eapply step_dom.
Qed.

Lemma derived_dom subject rank rules mergers mergers' :
  fold_result (derive_rule subject rank) mergers rules = Ok mergers' → dom mergers' = dom mergers.
Proof.
  intros Hloop. refine (fold_result_keeps (λ ms : Mergers, dom ms = dom mergers) _ _ _ _ _ _ Hloop); [|done].
  intros ms1 rule ms2 _ <- Hrun. by eapply derive_dom.
Qed.

(** ** Blocks of another version *)

Definition stale_of (key : string) (st : LayersState) : list Invalid := default [] (ls_stale st !! key).

(** The block is of the version of its module. *)
Definition current_block (plugin : DomainPlugin) (key : string) (block : dict) : Prop :=
  ∃ module, pl_modules plugin !! key = Some module ∧
    py_eq (get_or_none "module_version" block) (JInt (md_version module)) = true.

Lemma pl_module_Ok plugin key module : pl_module plugin key = Ok module ↔ pl_modules plugin !! key = Some module.
Proof. unfold pl_module. destruct (pl_modules plugin !! key); naive_solver. Qed.

Lemma merge_block_stale plugin st tr key block st' k :
  merge_block plugin st (tr, (key, block)) = Ok st' → stale_of k st' = [] →
  stale_of k st = [] ∧ (key = k → k ∈ dom (ls_mergers st) → current_block plugin k block).
Proof.
  unfold merge_block. destruct (ls_mergers st !! key) as [m|] eqn:Hm.
  - intros (module & Hmod%pl_module_Ok & Hrun)%result_bind_Ok Hk.
    destruct (negb _) eqn:Hv.
    + injection Hrun as <-. unfold stale_of in *. cbn [ls_stale] in Hk.
      destruct (decide (key = k)) as [<-|Hne].
      * rewrite lookup_insert_eq in Hk. cbn in Hk. by apply app_nil in Hk as [_ ?].
      * rewrite lookup_insert_ne in Hk by done. by split.
    + apply negb_false_iff in Hv.
      apply result_bind_Ok in Hrun as (specs & _ & Hrun).
      destruct (run_merger _ _) as [m'|e]; [|by destruct (document_error e)].
      injection Hrun as <-. split; [exact Hk|]. intros -> _. by exists module.
  - intros (? & _ & [= <-])%result_bind_Ok Hk. split; [exact Hk|]. intros -> Hin.
    by apply not_elem_of_dom in Hm.
Qed.

Lemma merge_blocks_stale plugin k blocks : ∀ st st',
  fold_result (merge_block plugin) st blocks = Ok st' → stale_of k st' = [] → k ∈ dom (ls_mergers st') →
  stale_of k st = [] ∧ dom (ls_mergers st') = dom (ls_mergers st) ∧
  ∀ tr block, (tr, (k, block)) ∈ blocks → current_block plugin k block.
Proof.
  induction blocks as [|[tr [key block]] blocks IH]; intros st st'; cbn [fold_result].
  { intros [= <-] Hk _. split_and!; [done..|]. by intros ? ? []%not_elem_of_nil. }
  intros (st1 & Hone & Htwo)%result_bind_Ok Hk Hin.
  destruct (IH _ _ Htwo Hk Hin) as (Hk1 & Hdom & Hrest).
  destruct (merge_block_stale _ _ _ _ _ _ _ Hone Hk1) as [Hk0 Hcur].
  apply merge_block_dom in Hone. rewrite Hdom, Hone in Hin |- *. split_and!; [done..|].
  intros tr' block' [[= -> <- ->]|Hb]%elem_of_cons; [by apply Hcur|by eapply Hrest].
Qed.

Lemma gather_elem {A B} (f : A → result config_error (list B)) l parts x ys y :
  gather f l = Ok parts → x ∈ l → f x = Ok ys → y ∈ ys → y ∈ parts.
Proof.
  unfold gather. intros (ps & Hps%map_result_Ok & [= <-])%result_bind_Ok Hx Hf Hy.
  apply list_elem_of_lookup in Hx as [i Hi].
  destruct (Forall2_lookup_l _ _ _ _ _ Hps Hi) as (ys' & Hi' & Hf').
  assert (ys' = ys) as -> by congruence. apply list_elem_of_In, in_concat. exists ys.
  split; apply list_elem_of_In; [by eapply list_elem_of_lookup_2|done].
Qed.

(** A module that no stale block names was given current ones only. *)
Lemma merge_layers_current plugin chosen layers k tr blocks block :
  merge_layers plugin chosen = Ok layers → stale_of k layers = [] → k ∈ dom (ls_mergers layers) →
  tr ∈ chosen → blocks_of (lr_document tr.2) = Ok blocks → (k, block) ∈ blocks →
  current_block plugin k block.
Proof.
  unfold merge_layers. intros (bs & Hbs & (ms & _ & Hrun)%result_bind_Ok)%result_bind_Ok Hk Hin Htr Hb Hblock.
  apply (merge_blocks_stale plugin k) in Hrun as (_ & _ & Hall); [|done..].
  apply (Hall tr). eapply gather_elem; [exact Hbs|exact Htr|..].
  - cbn beta. rewrite Hb. reflexivity.
  - apply list_elem_of_fmap. by exists (k, block).
Qed.
End enrolled_modules.

(** ** The steps of a composition *)

Section composed.
Context `{Runtime} `{IpText} `{IpNetworks} `{ParamsModels}.

(** What the steps of a composition leave. *)
Record composition (plugin : DomainPlugin) (subject : Subject) (revisions : list LayerRevision)
    (exceptions : list ExceptionSpec) (today : date) (days : Z) (eff : Effective) : Type := {
  cp_rank : Z;
  cp_chosen : list (TierSpec * LayerRevision);
  cp_layers : LayersState;
  cp_exceptions : ExceptionsState;
  cp_rules : list DerivedRule;
  cp_mergers : Mergers;
  cp_pending : list Pending;
  cp_selected : select_layers plugin subject revisions = Ok cp_chosen;
  cp_merged : merge_layers plugin cp_chosen = Ok cp_layers;
  cp_excepted : apply_exceptions plugin cp_rank subject today days exceptions (ls_mergers cp_layers)
    = Ok cp_exceptions;
  cp_derived : fold_result (derive_rule subject cp_rank) (xs_mergers cp_exceptions) cp_rules = Ok cp_mergers;
  cp_checked : map_result (check_module plugin subject (ls_stale cp_layers)) (sorted_mergers cp_mergers)
    = Ok cp_pending;
  cp_modules : ef_modules eff =
    (λ p, (pd_key p, module_result (xs_suppressions cp_exceptions) cp_pending p)) <$> cp_pending;
}.

Lemma compose_Ok plugin subject revisions exceptions today days eff :
  ConfigCompose.compose plugin subject revisions exceptions today days = Ok eff →
  inhabited (composition plugin subject revisions exceptions today days eff).
Proof.
  unfold ConfigCompose.compose. intros (rank & _ & (chosen & Hchosen & (layers & Hlayers & Hrun)%result_bind_Ok)
    %result_bind_Ok)%result_bind_Ok.
  apply result_bind_Ok in Hrun as (exc & Hexc & Hrun).
  apply result_bind_Ok in Hrun as (rules & _ & Hrun).
  apply result_bind_Ok in Hrun as (mergers & Hmergers & Hrun).
  apply result_bind_Ok in Hrun as (pending & Hpending & [= <-]).
  constructor. by econstructor.
Qed.

(** ** The check of one module *)

(** A module that the checks find nothing against. *)
Record sound_module (subject : Subject) (module : Module_) (specs : SpecIndex) (values : dict) : Prop := {
  sm_schema : validate_model (md_schema_name module) (md_schema module) values = [];
  sm_invariants : md_invariants module values (su_facts subject) = [];
  sm_required name spec : specs !! [name] = Some spec → is_leaf spec → name ≠ WILDCARD →
    fs_default spec = REQUIRED → fs_derived spec = false → is_Some (assoc_get name values);
}.

Lemma filled_required module key specs m values filling :
  filled module key specs m = Ok (values, filling) → filling.2 = [] →
  ∀ name spec, specs !! [name] = Some spec → is_leaf spec → name ≠ WILDCARD →
    fs_default spec = REQUIRED → fs_derived spec = false → is_Some (assoc_get name values).
Proof.
  unfold filled, _fill_defaults. cbn [Nat.add]. intros Hrun Hmissing name spec Hspec Hleaf Hw Hreq Hder.
  destruct (fill_loop _ _ _ _ _ _) as [[v|e] f] eqn:Hf; [|done]. injection Hrun as -> <-.
  cbn [fill_loop] in Hf.
  eapply (fill_fields_required _ [] _ _ _ name spec); [..|exact Hf|]; try done.
  - intros s. unfold resolve. cbn [foldl]. rewrite elem_of_top_children, Hspec. by intros [= ->].
  - unfold resolve. cbn [foldl]. by apply elem_of_top_children.
  - rewrite Hmissing. cbn. lia.
  Unshelve. intros sub path. exact (grows_loop _ (S (spec_depth specs)) specs path sub).
Qed.

Lemma check_module_Ok plugin subject stale key merger p :
  check_module plugin subject stale (key, merger) = Ok p →
  pd_key p = key ∧ pl_modules plugin !! key = Some (pd_module p) ∧
  ∃ specs, pl_specs plugin key = Ok specs ∧
    (pd_schema_ok p = true →
     validate_model (md_schema_name (pd_module p)) (md_schema (pd_module p)) (m_values (pd_merger p)) = []) ∧
    (pd_reasons p = [] →
     default [] (stale !! key) = [] ∧ pd_schema_ok p = true ∧
     sound_module subject (pd_module p) specs (m_values (pd_merger p))).
Proof.
  unfold check_module. intros (module & Hmod%pl_module_Ok & Hrun)%result_bind_Ok.
  apply result_bind_Ok in Hrun as (specs & Hspecs & Hrun).
  apply result_bind_Ok in Hrun as ([values [prov missing]] & Hfill & [= <-]).
  cbn [pd_key pd_module pd_merger pd_schema_ok pd_reasons]. split_and!; [done..|].
  exists specs. change (m_values _) with values. split_and!; [done|..].
  - intros [Hm He]%andb_true_iff. apply bool_decide_eq_true in Hm, He. subst missing.
    by apply nil_length_inv in He.
  - intros [Hstale [Hmissing%fmap_nil_inv [Herrors%fmap_nil_inv Hinv]%app_nil]%app_nil]%app_nil.
    subst missing. cbn [fmap list_fmap] in *.
    assert (Hok : bool_decide ([] = @nil string)
      && bool_decide (length (validate_model (md_schema_name module) (md_schema module) values) = 0) = true).
    { by rewrite Herrors. }
    rewrite Hok in Hinv |- *. apply fmap_nil_inv in Hinv. split_and!; [done..|]. split; [done..|].
    by apply (filled_required module key specs merger values (prov, [])).
Qed.

(** ** The reasons of a module *)

Lemma ok_reasons suppressions pending p :
  mr_ok (module_result suppressions pending p) = true →
  pd_reasons p = [] ∧ double_claims pending p = [].
Proof.
  unfold mr_ok, module_result. cbn [mr_status].
  destruct (py_sorted _ _) as [|r l] eqn:Hs; [|done]. intros _. apply app_nil.
  apply Permutation_nil. rewrite <-Hs. apply py_sorted_perm.
Qed.

(** Two modules do not claim what one of them is reported for claiming alone. *)
Lemma double_claims_nil pending p p' :
  double_claims pending p = [] → p ∈ pending → p' ∈ pending → p ≠ p' → claims_of p ## claims_of p'.
Proof.
  intros Hnil Hp Hp' Hne claim Hc Hc'.
  assert (claim ∈ py_sorted String.leb (elements (claims_of p))) as Hin.
  { rewrite elem_of_py_sorted. by apply elem_of_elements. }
  assert (1 < length (owners_of pending claim)) as Hlen.
  { unfold owners_of. rewrite length_fmap.
    assert (p ∈ filter (λ p, claim ∈ claims_of p) pending) as Hf by (by apply list_elem_of_filter).
    assert (p' ∈ filter (λ p, claim ∈ claims_of p) pending) as H2' by (by apply list_elem_of_filter).
    destruct (filter _ pending) as [|a [|b l]]; [by apply not_elem_of_nil in Hf| |cbn; lia].
    apply list_elem_of_singleton in Hf, H2'. congruence. }
  apply (not_elem_of_nil (MkInvalid "double_claim" ""
    (claim +:+ " is claimed by " +:+ repr_strs (owners_of pending claim)) None)).
  rewrite <-Hnil. unfold double_claims. apply list_elem_of_omap. exists claim. split; [done|].
  by rewrite (proj2 (Nat.ltb_lt _ _) Hlen).
Qed.
End composed.

(** ** Items that drift *)

Lemma settled_matches scope r item : _matches scope (settle_item r item) = _matches scope item.
Proof. reflexivity. Qed.

(** An item that drifts without making its module drift was suppressed. *)
Lemma excused_by_suppression {Observation Observed Desired}
    (probe : Probe Observation Observed Desired) name r observation facts ev item :
  evaluate_module name probe r observation facts = Ok ev →
  me_status ev ∈ [ms_conform; ms_excepted] → item ∈ me_items ev → is_drift item = true →
  ∃ s, s ∈ mr_suppressions r ∧ _matches (sp_scope s) item = true.
Proof.
  unfold evaluate_module. intros Hev Hst Hitem Hdrift.
  destruct (String.eqb (mr_mode r) "off"); [by injection Hev as <-; apply not_elem_of_nil in Hitem|].
  destruct (negb _); [by injection Hev as <-; apply not_elem_of_nil in Hitem|].
  destruct observation as [u|observation]; [by injection Hev as <-; apply not_elem_of_nil in Hitem|].
  destruct (pb_extract probe observation) as [u|observed];
    [by injection Hev as <-; apply not_elem_of_nil in Hitem|].
  apply result_bind_Ok in Hev as (desired & _ & [= <-]). cbn [me_items me_status] in *.
  set (items := settle_item r <$> _) in *.
  assert (di_excepted item = true) as Hexc.
  { unfold drift_status in Hst.
    destruct (String.eqb (mr_mode r) "observe"); [by rewrite !elem_of_cons, elem_of_nil in Hst; naive_solver|].
    assert (item ∈ filter (λ i, is_drift i = true) items) as Hf by (by apply list_elem_of_filter).
    destruct (filter _ items) as [|i l]; [by apply not_elem_of_nil in Hf|].
    destruct (forallb di_excepted (i :: l)) eqn:Hall.
    - rewrite forallb_forall in Hall. by apply Hall, list_elem_of_In.
    - by rewrite !elem_of_cons, elem_of_nil in Hst; naive_solver. }
  apply list_elem_of_fmap in Hitem as (i & -> & _). cbn [settle_item di_excepted] in Hexc.
  apply existsb_exists in Hexc as (s & Hs%list_elem_of_In & Hmatch). by exists s.
Qed.
