(* ===== verification/ComposeExample.v ===== *)
(** * A concrete plug-in, its layers and its exceptions

    One module with a security flag, ports and allowed networks; a baseline
    layer that enrols it, and dated exceptions for one subject. *)

From S2P Require Import Prelude PyData PyTime ConfigDocument ConfigFields ConfigMerge.
From S2P Require Import ConfigSchema ConfigLayers ConfigDerive ConfigDefaults.
From S2P Require Import ConfigCompose ConfigEvaluate ConfigTheorems.
From stdpp Require Import base gmap strings pretty list.
From Stdlib Require Import ZArith Ascii Lia.

(** Networks that start at 10.0.0.0, by the number of free bits. *)
Definition example_network (text : string) : option Z :=
  if String.eqb text "10.0.0.0/8" then Some 24%Z
  else if String.eqb text "10.0.0.0/16" then Some 16%Z
  else if String.eqb text "10.0.0.0/24" then Some 8%Z else None.

#[export] Instance example_networks : IpNetworks := {|
  network := Z;
  ip_network := example_network;
  net_version _ := 4%Z;
  subnet_of a b := (a <=? b)%Z;
|}.

#[export] Instance example_networks_laws : IpNetworksLaws example_networks.
Proof.
  split; cbn.
  - intros a. apply Z.leb_refl.
  - intros a b c _ _ Hab Hbc. apply Z.leb_le in Hab, Hbc. apply Z.leb_le. lia.
Qed.

(** Strict booleans, texts and lists. *)
Definition example_issue (annotation : Annotation) (value : json) : bool :=
  match annotation, value with
  | ann_other "bool", JBool _ | ann_other "str", JStr _ | ann_list _, JList _ => false
  | _, _ => true
  end.

#[export] Instance example_models : ParamsModels := {|
  validate_model _ fields values :=
    omap (λ nv : string * json,
      match assoc_get nv.1 fields with
      | Some annotation => if example_issue annotation nv.2 then Some ([nv.1], "wrong type") else None
      | None => Some ([nv.1], "extra field")
      end) values;
  _type_issue := example_issue;
|}.

(** Networks that may connect; none unless a layer says so. *)
Definition sources_spec : FieldSpec :=
  MkFieldSpec kind_list (Some strategy_union) None None allow_list None [] tie_restrictive false
    false false false (DefaultValue (JList [])) "cidr".

Definition ssh_module : Module_ :=
  MkModule "ssh" 1 "SshParams"
    [("mfa", ann_other "bool"); ("ports", ann_list (ann_other "str"));
     ("sources", ann_list (ann_other "str"))]
    [("/mfa", mfa_spec); ("/ports", ports_spec); ("/sources", sources_spec)] [] true
    (λ _ _, []) (λ _, {["port 22"]}).

Definition example_plugin : DomainPlugin :=
  MkDomainPlugin [MkTierSpec "baseline" 0 (0, 100)%Z [] [] []] {["ssh" := ssh_module]}.

Definition example_specs_of : SpecIndex :=
  <[["sources"] := sources_spec]> (<[["ports"] := ports_spec]> {[["mfa"] := mfa_spec]}).

Definition example_subject : Subject := MkSubject "s1" ∅ [].

Definition baseline_revision : LayerRevision :=
  MkLayerRevision (MkLayer "l1" "baseline" "base" 10 [] true None) 1
    (JObj [("schema", JInt 1);
           ("modules", JObj [("ssh", JObj [("module_version", JInt 1); ("mode", JStr "enforce");
              ("params", JObj [("mfa", JBool true); ("ports", texts_list ["https"]);
                               ("sources", texts_list ["10.0.0.0/16"])])])])]) None.

Definition exception_of (id path : string) (patch : json) (approved : bool) : ExceptionSpec :=
  MkExceptionSpec id "ssh" ex_override "maintenance window" 20000%Z (Some 20030%Z) (Some "s1") []
    path (Some patch) None None approved false false.

(** Switching the flag off and a wider network need approval; a narrower one
    does not. *)
Definition no_mfa : ExceptionSpec := exception_of "e1" "" (JObj [("mfa", JBool false)]) false.
Definition wider_source : ExceptionSpec :=
  exception_of "e2" "" (JObj [("sources", JObj [("$add", texts_list ["10.0.0.0/8"])])]) false.
Definition narrower_source : ExceptionSpec :=
  exception_of "e3" "" (JObj [("sources", JObj [("$replace", texts_list ["10.0.0.0/24"])])]) false.

Definition example_chosen : list (TierSpec * LayerRevision) :=
  [(MkTierSpec "baseline" 0 (0, 100)%Z [] [] [], baseline_revision)].
Definition ok_or {E A} (d : A) (r : result E A) : A := match r with Ok a => a | Raise _ => d end.
Definition example_layers : LayersState :=
  ok_or (MkLayersState ∅ ∅ []) (merge_layers example_plugin example_chosen).
Definition excepted_state (exceptions : list ExceptionSpec) : ExceptionsState :=
  ok_or (MkExceptionsState ∅ [] [] ∅ [])
    (apply_exceptions example_plugin 0%Z example_subject 20010%Z 7%Z exceptions (ls_mergers example_layers)).
Definition excepted_value (exceptions : list ExceptionSpec) (k : string) : option json :=
  m ← xs_mergers (excepted_state exceptions) !! "ssh"; assoc_get k (m_values m).

(** The merger of the module, and its values with the defaults. *)
Definition ssh_merger (mergers : Mergers) : Merger := default Merger_new (mergers !! "ssh").
Definition ssh_values (m : Merger) : dict :=
  match filled ssh_module "ssh" example_specs_of m with Ok (values, _) => values | Raise _ => [] end.

Example plugin_accepted : DomainPlugin_new (pl_tiers example_plugin) (pl_modules example_plugin)
  = Ok example_plugin.
Proof. vm_compute. reflexivity. Qed.

Example layers_selected :
  select_layers example_plugin example_subject [baseline_revision] = Ok example_chosen.
Proof. vm_compute. reflexivity. Qed.

Example exceptions_applied :
  let excs := [no_mfa; wider_source; narrower_source] in
  (xt_state <$> xs_statuses (excepted_state excs)) = [ex_pending_approval; ex_pending_approval; ex_active] ∧
  excepted_value excs "mfa" = Some (JBool true) ∧
  excepted_value excs "sources" = Some (texts_list ["10.0.0.0/24"]).
Proof. split_and!; vm_compute; reflexivity. Qed.

(** The whole composition: approved, the same exceptions take effect. *)
Example composed :
  let approve e := MkExceptionSpec (ex_id e) (ex_module_key e) (ex_kind e) (ex_reason e) (ex_created_on e)
    (ex_until e) (ex_subject_key e) (ex_criteria e) (ex_path e) (ex_patch e) (ex_scope e) (ex_mode e)
    true (ex_is_revoked e) (ex_permanent e) in
  let params (excs : list ExceptionSpec) :=
    match ConfigCompose.compose example_plugin example_subject [baseline_revision] excs 20010%Z 7%Z with
    | Ok e => (λ kr : string * ModuleResult, (mr_status kr.2, assoc_get "mfa" (mr_params kr.2))) <$> ef_modules e
    | Raise _ => []
    end in
  params [no_mfa] = [("ok", Some (JBool true))] ∧ params [approve no_mfa] = [("ok", Some (JBool false))].
Proof. split; vm_compute; reflexivity. Qed.

(** Two layers, and an exception that excuses drift of the flag. *)
Definition site_revision : LayerRevision :=
  MkLayerRevision (MkLayer "l2" "baseline" "site" 20 [] true None) 4
    (JObj [("schema", JInt 1);
           ("modules", JObj [("ssh", JObj [("module_version", JInt 1);
              ("params", JObj [("ports", JObj [("$add", texts_list ["8443"])])])])])]) None.
Definition suppress_mfa : ExceptionSpec :=
  MkExceptionSpec "e5" "ssh" ex_suppress "legacy terminal" 20000%Z (Some 20030%Z) (Some "s1") []
    "" None (Some "/mfa") None true false false.
Definition two_layers : list LayerRevision := [baseline_revision; site_revision].
Definition three_exceptions : list ExceptionSpec := [no_mfa; narrower_source; suppress_mfa].

Definition compose_example (revisions : list LayerRevision) (exceptions : list ExceptionSpec) :=
  ConfigCompose.compose example_plugin example_subject revisions exceptions 20010%Z 7%Z.

(** The only module of a composition, when it is ok. *)
Definition ssh_ok (result : result config_error Effective) : option ModuleResult :=
  match result with
  | Ok e => match ef_modules e with
            | [("ssh", r)] => if mr_ok r then Some r else None
            | _ => None
            end
  | Raise _ => None
  end.

Lemma ssh_ok_inv res : is_Some (ssh_ok res) →
  ∃ eff r, res = Ok eff ∧ ef_modules eff = [("ssh", r)] ∧ mr_ok r = true ∧ ssh_ok res = Some r.
Proof.
  intros [r Hr]. pose proof Hr as Hr'. unfold ssh_ok in Hr'.
  destruct res as [eff|e]; [|done]. exists eff. destruct (ef_modules eff) as [|[k r'] [|]] eqn:Hm;
    [done| |by repeat case_match].
  assert (k = "ssh") as -> by (by repeat case_match).
  destruct (mr_ok r') eqn:Hok; [|done]. injection Hr' as ->. by exists r.
Qed.

(** A device that says whether it asks for a second factor. *)
Definition ssh_probe : Probe bool bool dict :=
  MkProbe bool bool dict inr Ok (λ desired observed _,
    [MkDriftItem "ssh" "/mfa"
       (if py_eq (get_or_none "mfa" desired) (JBool observed) then dr_ok else dr_drifted)
       (get_or_none "mfa" desired) (JBool observed) None "high" None false None])
    (λ _ _, []).

Example flag_evaluated :
  let status (exceptions : list ExceptionSpec) (observed : bool) :=
    r ← ssh_ok (compose_example two_layers exceptions);
    match evaluate_module "ssh" ssh_probe r (inr observed) [] with
    | Ok ev => Some (me_status ev)
    | Raise _ => None
    end in
  status [] true = Some ms_conform ∧ status [] false = Some ms_drift ∧
  status three_exceptions false = Some ms_excepted.
Proof. split_and!; vm_compute; reflexivity. Qed.

(** ** A derived flag

    The flag follows a neutral field. The check of an exception compares the
    module before its values are derived, so an exception without approval
    reaches the flag through the field it follows. *)

Definition derived_mfa : FieldSpec :=
  MkFieldSpec kind_scalar None None None secure_bool (Some true) [] tie_error true false false false
    OPTIONAL_UNMANAGED "none".
Definition follow_exposure : DerivedRule :=
  MkDerivedRule "mfa-follows-exposure" "vpn" "/mfa" [MkRef (Some "vpn") "/exposed"]
    (λ inputs, assoc_get "vpn:/exposed" inputs).
Definition vpn_module : Module_ :=
  MkModule "vpn" 1 "VpnParams" [("exposed", ann_other "bool"); ("mfa", ann_other "bool")]
    [("/exposed", banner_spec); ("/mfa", derived_mfa)] [follow_exposure] true
    (λ _ _, []) (λ _, ∅).
Definition vpn_plugin : DomainPlugin :=
  MkDomainPlugin [MkTierSpec "baseline" 0 (0, 100)%Z [] [] []] {["vpn" := vpn_module]}.
Definition vpn_revision : LayerRevision :=
  MkLayerRevision (MkLayer "l1" "baseline" "base" 10 [] true None) 1
    (JObj [("schema", JInt 1);
           ("modules", JObj [("vpn", JObj [("module_version", JInt 1); ("mode", JStr "enforce");
              ("params", JObj [("exposed", JBool true)])])])]) None.
Definition not_exposed : ExceptionSpec :=
  MkExceptionSpec "e4" "vpn" ex_override "maintenance window" 20000%Z (Some 20030%Z) (Some "s1") []
    "" (Some (JObj [("exposed", JBool false)])) None None false false false.

Example derived_flag_loosened :
  let outcome (excs : list ExceptionSpec) :=
    match ConfigCompose.compose vpn_plugin example_subject [vpn_revision] excs 20010%Z 7%Z with
    | Ok e => ((λ kr : string * ModuleResult, assoc_get "mfa" (mr_params kr.2)) <$> ef_modules e,
               xt_state <$> ef_exceptions e)
    | Raise _ => ([], [])
    end in
  FieldSpec_check derived_mfa = Ok derived_mfa ∧
  outcome [] = ([Some (JBool true)], []) ∧
  outcome [not_exposed] = ([Some (JBool false)], [ex_active]).
Proof. split_and!; vm_compute; reflexivity. Qed.
