(* ===== verification/ComposeTheorems.v ===== *)
(** * Theorems on composed configuration

    What dated exceptions can do to a module without approval, on the whole way
    from the layers to the values a module ends with. *)

From S2P Require Import Prelude PyData PyTime ConfigDocument ConfigFields ConfigMerge.
From S2P Require Import ConfigSchema ConfigLayers ConfigDerive ConfigDefaults.
From S2P Require Import ConfigCompose ConfigEvaluate ConfigOrder ConfigFilling ConfigLoosening.
From S2P Require Import ConfigResults ConfigTheorems ComposeExample.
From stdpp Require Import base gmap strings pretty list relations.
From Stdlib Require Import ZArith Ascii.

(** C37. Without approval nothing loosens. After the layers are merged and the
    exceptions applied, take a module none of whose exceptions is approved: it
    was enrolled before them, and each of its top-level scalars and plain lists,
    defaults included, grants no more than before: a secure flag is still
    secure, an ordered value ranks no lower, every element of an allow list is
    covered by one that was there, every element of a deny list is still
    covered. Where the mode is ordered, it is not relaxed. *)
Theorem unapproved_never_loosen `{Runtime} `{IpText} `{N : IpNetworks} `{!IpNetworksLaws N}
    plugin rank subject today days chosen layers exceptions exc key module specs m' :
  merge_layers plugin chosen = Ok layers →
  apply_exceptions plugin rank subject today days exceptions (ls_mergers layers) = Ok exc →
  (∀ e, e ∈ exceptions → ex_module_key e = key → ex_approved e = false) →
  pl_modules plugin !! key = Some module → pl_specs plugin key = Ok specs →
  xs_mergers exc !! key = Some m' →
  ∃ m, ls_mergers layers !! key = Some m ∧
    (∀ before st after st' k spec,
       filled module key specs m = Ok (before, st) → filled module key specs m' = Ok (after, st') →
       plain_field specs k spec → no_looser spec (field_of k before) (field_of k after)) ∧
    (md_mode_ordered module = true → mode_widening (mode m) (mode m') = false).
Proof.
  intros Hlayers Hexc Happ Hmodule Hspecs Hm'. unfold apply_exceptions in Hexc.
  apply result_bind_Ok in Hexc as (issues & _ & (? & _ & Hloop)%result_bind_Ok).
  destruct (exceptions_chain plugin rank subject today days key module specs _ _ _ m' Hloop Hmodule
    Hspecs) as (m & Hm & Hchain); [|done|].
  { intros e He. apply Happ. by apply elem_of_py_sorted in He. }
  assert (enrolled specs m) as Hen by (by eapply (merge_layers_enrolled plugin chosen layers Hlayers)).
  exists m. split; [exact Hm|]. split.
  - by apply chain_fields.
  - intros Ho. by eapply chain_mode.
Qed.

Lemma unapproved_never_loosen_witness :
  Forall (λ e, ex_approved e = false) [no_mfa; wider_source; narrower_source] ∧
  no_looser mfa_spec (field_of "mfa" (ssh_values (ssh_merger (ls_mergers example_layers))))
    (field_of "mfa" (ssh_values (ssh_merger (xs_mergers
      (excepted_state [no_mfa; wider_source; narrower_source]))))) ∧
  mode_widening (mode (ssh_merger (ls_mergers example_layers)))
    (mode (ssh_merger (xs_mergers (excepted_state [no_mfa; wider_source; narrower_source])))) = false.
Proof.
  split; [by repeat constructor|].
  set (excs := [no_mfa; wider_source; narrower_source]).
  destruct (unapproved_never_loosen example_plugin 0%Z example_subject 20010%Z 7%Z example_chosen
    example_layers excs (excepted_state excs) "ssh" ssh_module example_specs_of
    (ssh_merger (xs_mergers (excepted_state excs)))) as (m & Hm & Hfields & Hmode).
  - vm_compute. reflexivity.
  - vm_compute. reflexivity.
  - intros e. unfold excs. rewrite !elem_of_cons. by intros [->|[->|[->|[]%not_elem_of_nil]]].
  - vm_compute. reflexivity.
  - vm_compute. reflexivity.
  - vm_compute. reflexivity.
  - assert (m = ssh_merger (ls_mergers example_layers)) as -> by (unfold ssh_merger; by rewrite Hm).
    split; [|by apply Hmode].
    eapply Hfields; [vm_compute; reflexivity|vm_compute; reflexivity|]. split.
    + vm_compute. reflexivity.
    + by left.
    + discriminate.
    + vm_compute. reflexivity.
    + intros r []%not_elem_of_nil.
Defined.

(** C38. An effective configuration does not depend on the order in which the
    layers and the exceptions are given: when it can be composed, it is composed
    from them in any other order too, with the same hashes, provenance and
    reasons, as long as no two exceptions have the same date and id. *)
Theorem compose_in_any_order `{Runtime} `{IpText} `{IpNetworks} `{ParamsModels}
    plugin subject revisions revisions' exceptions exceptions' today days eff :
  revisions ≡ₚ revisions' → exceptions ≡ₚ exceptions' →
  NoDup ((λ e, (date_isoformat (ex_created_on e), ex_id e)) <$> exceptions) →
  ConfigCompose.compose plugin subject revisions exceptions today days = Ok eff →
  ConfigCompose.compose plugin subject revisions' exceptions' today days = Ok eff.
Proof.
  intros Hrev Hexc Hnd Hrun. unfold ConfigCompose.compose in *.
  apply result_bind_Ok in Hrun as (rank & Hrank & Hrun). rewrite Hrank. cbn [mbind result_bind].
  apply result_bind_Ok in Hrun as (chosen & Hchosen & Hrun).
  replace (select_layers plugin subject revisions') with (Ok (E:=config_error) chosen).
  - cbn [mbind result_bind]. replace (apply_exceptions plugin rank subject today days exceptions')
      with (apply_exceptions plugin rank subject today days exceptions); [exact Hrun|].
    unfold apply_exceptions. by rewrite (order_exceptions_perm exceptions exceptions').
  - unfold select_layers in *. apply result_bind_Ok in Hchosen as (l & Hl & Hrest).
    by rewrite (choose_layers_perm _ _ _ revisions' l Hrev Hl).
Qed.

Lemma compose_in_any_order_witness :
  NoDup ((λ e, (date_isoformat (ex_created_on e), ex_id e)) <$> three_exceptions) ∧
  ∃ eff, compose_example two_layers three_exceptions = Ok eff ∧
    compose_example (reverse two_layers) (reverse three_exceptions) = Ok eff.
Proof.
  assert (NoDup ((λ e, (date_isoformat (ex_created_on e), ex_id e)) <$> three_exceptions)) as Hnd.
  { apply (bool_decide_unpack _). vm_compute. exact I. }
  split; [exact Hnd|].
  assert (is_ok (compose_example two_layers three_exceptions) = true) as Hok by (vm_compute; reflexivity).
  destruct (compose_example two_layers three_exceptions) as [eff|e] eqn:Hrun; [|done].
  exists eff. split; [done|].
  unfold compose_example in *.
  refine (compose_in_any_order example_plugin example_subject two_layers (reverse two_layers)
    three_exceptions (reverse three_exceptions) 20010%Z 7%Z eff _ _ Hnd Hrun);
    symmetry; apply reverse_Permutation.
Defined.

(** C39. A module reported ok is sound: pydantic accepts its parameters, its own
    invariants hold, no required top-level leaf is missing, every applicable
    layer's block for it is of the module's version, and no other module
    reported ok claims a surface it claims. *)
Theorem ok_module_is_sound `{Runtime} `{IpText} `{IpNetworks} `{ParamsModels}
    plugin subject revisions exceptions today days eff key r :
  ConfigCompose.compose plugin subject revisions exceptions today days = Ok eff →
  (key, r) ∈ ef_modules eff → mr_ok r = true →
  ∃ module specs, pl_modules plugin !! key = Some module ∧ pl_specs plugin key = Ok specs ∧
    sound_module subject module specs (mr_params r) ∧
    (∀ chosen tr blocks block,
       select_layers plugin subject revisions = Ok chosen → tr ∈ chosen →
       blocks_of (lr_document tr.2) = Ok blocks → (key, block) ∈ blocks →
       py_eq (get_or_none "module_version" block) (JInt (md_version module)) = true) ∧
    (∀ key' r' module', (key', r') ∈ ef_modules eff → key' ≠ key → mr_ok r' = true →
       pl_modules plugin !! key' = Some module' →
       md_claims module (mr_params r) ## md_claims module' (mr_params r')).
Proof.
  intros [[rank chosen layers exc rules mergers pending Hsel Hmerged Hexc Hder Hchecked Hmods]]%compose_Ok
    Hin Hok. rewrite Hmods in Hin |- *. clear Hmods.
  assert (Hpending : ∀ p, p ∈ pending → ∃ m, mergers !! pd_key p = Some m ∧
    check_module plugin subject (ls_stale layers) (pd_key p, m) = Ok p).
  { intros p [i Hi]%list_elem_of_lookup. apply map_result_Ok in Hchecked.
    destruct (Forall2_lookup_r _ _ _ _ _ Hchecked Hi) as ([k m] & Hm & Hp).
    apply list_elem_of_lookup_2 in Hm. unfold sorted_mergers in Hm.
    rewrite sort_keys_perm, elem_of_map_to_list in Hm.
    destruct (check_module_Ok _ _ _ _ _ _ Hp) as (-> & _). by exists m. }
  apply list_elem_of_fmap in Hin as (p & [= -> ->] & Hp).
  destruct (Hpending p Hp) as (m & Hm & Hcheck).
  destruct (check_module_Ok _ _ _ _ _ _ Hcheck) as (_ & Hmod & specs & Hspecs & _ & Hsound).
  destruct (ok_reasons _ _ _ Hok) as [Hreasons Hdouble].
  destruct (Hsound Hreasons) as (Hstale & Hschema & Hs).
  exists (pd_module p), specs. split_and!; [done|done|exact Hs|..].
  - intros chosen' tr blocks block Hsel' Htr Hb Hblock. rewrite Hsel in Hsel'. injection Hsel' as <-.
    destruct (merge_layers_current plugin chosen layers (pd_key p) tr blocks block) as (module & Hmod' & Hv);
      try done.
    + rewrite <-(apply_dom _ _ _ _ _ _ _ _ Hexc), <-(derived_dom _ _ _ _ _ Hder).
      by apply elem_of_dom.
    + congruence.
  - intros key' r' module' (p' & [= -> ->] & Hp')%list_elem_of_fmap Hne Hok' Hmod'.
    destruct (Hpending p' Hp') as (m' & Hm' & Hcheck').
    destruct (check_module_Ok _ _ _ _ _ _ Hcheck') as (_ & Hmod'' & specs' & _ & _ & Hsound').
    destruct (ok_reasons _ _ _ Hok') as [Hreasons' _].
    destruct (Hsound' Hreasons') as (_ & Hschema' & _).
    assert (module' = pd_module p') as -> by congruence.
    pose proof (double_claims_nil pending p p' Hdouble Hp Hp' ltac:(congruence)) as Hdis.
    unfold claims_of in Hdis. by rewrite Hschema, Hschema' in Hdis.
Qed.

Lemma ok_module_is_sound_witness :
  ∃ r, ssh_ok (compose_example two_layers three_exceptions) = Some r ∧
    sound_module example_subject ssh_module example_specs_of (mr_params r).
Proof.
  destruct (ssh_ok_inv (compose_example two_layers three_exceptions)) as (eff & r & Hrun & Hmods & Hok & Hr).
  { vm_compute. by eexists. }
  exists r. split; [done|]. unfold compose_example in Hrun.
  destruct (ok_module_is_sound example_plugin example_subject two_layers three_exceptions 20010%Z 7%Z eff
    "ssh" r Hrun) as (module & specs & Hmod & Hspecs & Hs & _).
  - rewrite Hmods. by left.
  - done.
  - assert (pl_modules example_plugin !! "ssh" = Some ssh_module) as Hssh by (vm_compute; reflexivity).
    assert (pl_specs example_plugin "ssh" = Ok example_specs_of) as Hidx by (vm_compute; reflexivity).
    assert (module = ssh_module) as -> by congruence.
    assert (specs = example_specs_of) as -> by congruence. exact Hs.
Defined.

(** C40. Drift is excused only by an exception in force. When the evaluation of a
    composed module against an observation is conform or excepted, every item
    that drifts is matched by the scope of a suppression of that module which
    applies to the subject, is not revoked, and has not run out. *)
Theorem drift_excused_only_in_force `{Runtime} `{IpText} `{IpNetworks} `{ParamsModels}
    {Observation Observed Desired} (probe : Probe Observation Observed Desired)
    plugin subject revisions exceptions today days eff key r name observation facts ev item :
  ConfigCompose.compose plugin subject revisions exceptions today days = Ok eff →
  (key, r) ∈ ef_modules eff →
  evaluate_module name probe r observation facts = Ok ev →
  me_status ev ∈ [ms_conform; ms_excepted] → item ∈ me_items ev → is_drift item = true →
  ∃ e, e ∈ exceptions ∧ ex_kind e = ex_suppress ∧ ex_module_key e = key ∧
    in_force subject today e ∧ _matches (suppress_scope e) item = true.
Proof.
  intros [cp]%compose_Ok Hin Hev Hst Hitem Hdrift. rewrite (cp_modules _ _ _ _ _ _ _ cp) in Hin.
  apply list_elem_of_fmap in Hin as (p & [= -> ->] & Hp).
  destruct (excused_by_suppression _ _ _ _ _ _ _ Hev Hst Hitem Hdrift) as (s & Hs & Hmatch).
  destruct (apply_suppressions _ _ _ _ _ _ _ _ _ s (cp_excepted _ _ _ _ _ _ _ cp) Hs)
    as (e & He & Hforce & Hk & Hkey & Hscope).
  exists e. rewrite <-Hscope. done.
Qed.

Lemma drift_excused_only_in_force_witness :
  ∃ r ev item, ssh_ok (compose_example two_layers three_exceptions) = Some r ∧
    evaluate_module "ssh" ssh_probe r (inr false) [] = Ok ev ∧ me_status ev = ms_excepted ∧
    me_items ev = [item] ∧ is_drift item = true ∧
    ∃ e, e ∈ three_exceptions ∧ in_force example_subject 20010%Z e ∧
      _matches (suppress_scope e) item = true.
Proof.
  destruct (ssh_ok_inv (compose_example two_layers three_exceptions)) as (eff & r & Hrun & Hmods & Hok & Hr).
  { vm_compute. by eexists. }
  assert (match ssh_ok (compose_example two_layers three_exceptions) with
    | Some r => match evaluate_module "ssh" ssh_probe r (inr false) [] with
                | Ok ev => match me_items ev with
                           | [item] => bool_decide (me_status ev = ms_excepted) && is_drift item
                           | _ => false
                           end
                | Raise _ => false
                end
    | None => false
    end = true) as Hev by (vm_compute; reflexivity).
  rewrite Hr in Hev. destruct (evaluate_module _ _ _ _ _) as [ev|] eqn:Hrunev; [|done].
  destruct (me_items ev) as [|item [|]] eqn:Hitems; [done| |done].
  apply andb_true_iff in Hev as [Hst%bool_decide_eq_true Hdrift].
  exists r, ev, item. split_and!; [done..|]. unfold compose_example in Hrun.
  destruct (drift_excused_only_in_force ssh_probe example_plugin example_subject two_layers
    three_exceptions 20010%Z 7%Z eff "ssh" r "ssh" (inr false) [] ev item Hrun) as (e & He & _ & _ & Hforce & Hmatch).
  - rewrite Hmods. by left.
  - done.
  - rewrite Hst. by right; left.
  - rewrite Hitems. by left.
  - done.
  - exists e. exact (conj He (conj Hforce Hmatch)).
Defined.
